(* ===== verification/_CoqProject ===== *)
-Q . S2P
Prelude.v
GoIO.v
Logging.v
FlowLimit.v
Config.v
ConcurrentMap.v
MQueue.v
ChannelQueue.v
SendQueue.v
TaskConsumer.v
AtomicTask.v
ChanTask.v
RabbitPool.v
RabbitConsume.v
ConsumeTask.v
RabbitReconnect.v
Accept.v
Socks5.v
ClientHello.v
Sniffing.v
TTLCache.v
Tracker.v
Tool.v
Auth.v
Manager.v
Redis.v
Lua.v
AuthEvents.v
QueueConsumers.v
Text.v
Program.v
Proxy.v
FreeCache.v
Connectors.v
Alarm.v
Metrics.v
Server.v
Front.v
Lifecycle.v
Startup.v
Relay.v
RelayHandler.v
