(* ===== verification/Prelude.v ===== *)
(** * Verification of the proxy server

    The program (Go, under [src/]) is a forward proxy. It accepts HTTP, SOCKS5
    and Shadowsocks clients, authenticates them against records in Redis,
    dials the target from an exit address, and relays at a limited rate.
    Accounts and blacklists arrive as RabbitMQ messages, the limits from
    Nacos; every access is reported to a log queue.

    ** How the model is built

    Go code is translated into Rocq functions. A call that may fail returns
    [result], one that may panic [outcome]; fixed-width integers are [Z] with
    the wrap-around written out ([u8] ... [i64], in this file). Mutable objects
    that are shared live on heaps (the queue's nodes, the counters and the user
    contexts behind the manager's maps). Code that runs concurrently is a step
    relation, or a program whose calls get arbitrary answers. What is not in
    the repository is a type class or a section variable with the documented
    behaviour it relies on, and a reference instance for the witnesses:
    cryptobyte ([ClientHello.CryptoByte]), the caches ([TTLCache], [FreeCache]),
    Redis ([Redis]), the AMQP client and the broker's routing ([RabbitPool.Amqp],
    [RabbitConsume.AmqpTopology], [RabbitConsume.Routing]), the codecs,
    zap ([Logging.Zap]), [viper], HMAC, [net.ParseIP], [net.ParseCIDR], the
    random source. Calls of the logger are left out of the other files unless
    they change the control flow.

    ** The files, in the order they build on each other

    - [Prelude]: integers, bytes, [result] and [outcome], Go's [strings],
      tactics, the hint database [hera], shared lemmas.
    - [GoIO]: errors, [io.Reader]/[io.Writer] as classes, connections cut into
      segments, [io.ReadAtLeast], [io.CopyBuffer].
    - [Logging] ([log/init.go], [log/log.go], [http.go]): the logger and its
      files; where every message goes, and what [log.Panic], [log.Fatal] and
      [log.Recover] do to their caller, with and without a logger.
    - [FlowLimit] ([server/flow_limit.go]): the token bucket [GetReadSize] and
      the [LimitedReader]. The bytes granted over any sequence of calls are
      bounded by the burst per second; a copy through the limiter delivers the
      whole stream unchanged.
    - [Config] ([config/], [server/io.go], [common/redis.go]): the configuration
      file, loaded and reloaded, and the deadlines it puts on the connections
      of a tunnel: exact timeouts, none of which may be zero.
    - [ConcurrentMap] ([utils/Map/concurrentMap/map.go]): the sharded map
      refines one finite map; iteration is complete in every interleaving. The
      class [CMap] is the contract its clients are proved against.
    - [MQueue] ([utils/Queue/mqueue.go]): the recycled linked list refines a
      FIFO queue; blocking consumers as a transition system: no lost wake-up,
      delivery once and in order, release on [Close].
    - [ChannelQueue] ([utils/rabbitMQ/rabbitQueue.go]): a linked list with
      nodes on a heap refines a FIFO queue.
    - [SendQueue] ([server/rabbitmq_product.go]): eight queues of [MQueue], the
      goroutines that send from them and their shutdown, as one transition
      system: no message is lost or sent twice, and the shutdown ends.
    - [TaskConsumer] ([utils/taskConsumerManager/manager.go]), [AtomicTask] and
      [ChanTask] ([utils/taskRunManager]): bounded task runners, goroutine by
      goroutine: the bounds hold, no wake-up is lost, [Stop] ends when the
      tasks do, results are forwarded exactly.
    - [RabbitPool], [RabbitConsume], [ConsumeTask], [RabbitReconnect]
      ([utils/rabbitMQ/rabbitMQPool.go], [common/rabbitmq.go]): the pool of
      connections and channels behind the class [Amqp] of the client library.
      Producers: what [Push] publishes and answers in every interleaving.
      Consumers: their set-up, retries and dead letters, the whole life of one
      with its effect on those that share its connection, and the
      reconnection, which never deadlocks.
    - [Accept] ([server/tcp_server.go]): the accept loops with the goroutines
      of each connection: no connection outlives its loop, a stopped loop ends.
    - [Socks5] ([utils/socks5/func.go]): readers and writers of every message,
      exact with respect to the wire format for every segmentation.
    - [ClientHello] ([server/sniffing/tls/client_hello.go]): the whole parser,
      total up to the panic on short inputs; the server name it finds.
    - [Sniffing] ([server/sniffing/conn.go]): the tap: one callback, with the
      request so far, and no change of the stream.
    - [TTLCache], [Redis]: contracts of the cache and of Redis; a Redis call
      that fails may have been executed in part.
    - [Tracker] ([utils/tracker/dial_fail_tracker.go]), [Tool]
      ([utils/tool.go]), [Auth] ([server/auth.go]): the failure window, random
      exit addresses, the authenticators: an accepted login was justified by
      Redis at most thirty seconds ago.
    - [Manager] ([server/manager.go], [server/nacos_config.go],
      [server/io.go]): connection counters, user contexts, configuration and
      blacklists, on maps used through [CMap]; exact after every history.
    - [Lua] ([server/lua/]): two scripts for Redis, which nothing sends any more.
    - [AuthEvents] ([server/rabbitmq_consume.go]): every account event, with
      its effect on Redis, on connections and on later logins; redelivery
      after partial failures converges.
    - [QueueConsumers] ([server/rabbitmq_*_consume.go]): the consumers of single
      queues, shown to do what the unified events do, and the registration of
      the two consumers in use.
    - [Text] ([server/common.go] and the standard library's text functions).
    - [Program]: programs of one goroutine, [defer] and [recover], and a
      weakest-precondition calculus for protocols over their calls.
    - [Proxy] ([server/tcp_conn_handler.go], [http_proxy_handler.go],
      [socks_proxy_handler.go], [shadowsocks_handler.go], [func.go]): the
      handlers. On every branch they keep to a protocol (authenticate, count,
      check, dial, relay, give everything back), and they return.
    - [FreeCache] ([utils/free_cache.go]): the contract of the cache of sent
      alarms, and the handler that asks it: no alarm is lost.
    - [Connectors] ([proto/http], [proto/socks]): tunnels through other proxies;
      the credentials a connector sends are those the handler reads.
    - [Alarm] ([utils/alarm.go]): the signed request of an alarm; the receiver
      gets the signature as it was computed.
    - [Metrics] ([http.go]): the page with the counters of the runtime.
    - [Server]: any number of handlers interleaved over one manager: counters
      and contexts are exact at every moment, and empty in the end.
    - [Front] ([server/tcp_server.go]): [Accept] and [Server] in one system:
      every connection of every accept loop runs a handler on the shared
      manager. Nothing is held without a live connection, and loops that accept
      no more come to an end.
    - [Lifecycle] ([server/manager.go], [server/tcp_server.go], [main.go]): the
      whole server. The accept loops of [Front] belong to the workers of
      [TaskConsumer] that run [tcpAccept] and [shadowSocksListenerAccept]; a
      worker returns when its loops have, the one of [RabbitReconnect] never;
      the log calls of the handlers are the pushes of [SendQueue]; [Stop] is
      taken step by step and [main] has its signal and its timer. The shutdown
      is in order (no connection, no table entry and no log message is left
      behind), it gets as far as the task functions let it, and it is always
      forced once the consumer runs.
    - [Startup] ([server/manager.go], [server/nacos_config.go], [main.go]): from
      the configuration file to a state in which the theorems of [Lifecycle]
      hold.
    - [Relay]: the goroutines and channels of one relay, in every interleaving:
      nothing is sent on a closed channel, nothing leaks, the relay ends.
    - [RelayHandler]: the relay program of [Proxy] run against the goroutines of
      [Relay], which answer its calls: the program is the automaton of [Relay],
      and when a handler returns no goroutine of its relay is left.

    ** Bounds and fuel

    [ReadAtLeast] gets as many turns as there are segments, the loops of the
    TLS parser as many as there are bytes, and both are shown to suffice. The
    fuel of a handler is the number of turns of its [select] loop: a handler
    whose fuel is used up has seen that many ticks of its timer
    ([Proxy.handlers_return]), and the other theorems hold for every fuel.
    Histories are shorter than 2^63 or 2^64 steps where a counter of that width
    is involved. [rPush] has one bound for its attempts (99 at most) and one for
    the reconnection inside an attempt, which the code does not bound. The
    consumer's [rConsume] gets the list of what happens to it: it never returns.
    Termination of concurrent parts is a measure: every run of the part's own
    steps is bounded, and where it has not ended a step is possible.

    The termination of [Front] and [Lifecycle] is well-founded, as the handlers
    have unbounded branching: finitely many steps in any order, without a common
    bound. Runs of [Lifecycle] are shorter than 2^63 - 2 steps, the width of its
    counters.

    ** What is not modelled

    Generated code, and the gRPC service, whose file is commented out. In
    [Proxy] and [Relay] an expired deadline shows as an error of a read or a
    write; [Config] has the times at which it happens. In [Lifecycle] the
    handlers' calls to the network and to Redis get arbitrary answers, and the
    effects of account events on the connections are steps of the environment:
    their own models are [Auth], [AuthEvents], [Relay] and [RelayHandler]. The pause of five
    seconds at the end of [tcpAccept] takes no step, since it always ends. *)
From Stdlib Require Import Strings.Byte.
From stdpp Require Import base gmap strings list numbers pretty.

Open Scope Z_scope.

(** ** Machine integers

    Go's fixed-width integers are modelled as [Z]; the wrap-around of an
    arithmetic result is written out with these functions. [int] is 64 bits
    wide on the platforms the program is built for. *)
Definition wrapU (w z : Z) : Z := z mod 2 ^ w.
Definition wrapS (w z : Z) : Z := (z + 2 ^ (w - 1)) mod 2 ^ w - 2 ^ (w - 1).

Abbreviation u8 := (wrapU 8).
Abbreviation u16 := (wrapU 16).
Abbreviation u32 := (wrapU 32).
Abbreviation u64 := (wrapU 64).
Abbreviation i32 := (wrapS 32).
Abbreviation i64 := (wrapS 64).

(** The range of a signed [w]-bit integer. *)
Definition in_signed (w z : Z) : Prop := - 2 ^ (w - 1) <= z < 2 ^ (w - 1).
Abbreviation in_i64 := (in_signed 64).
Abbreviation in_i32 := (in_signed 32).

(** ** Bytes and byte strings *)
Abbreviation byte := Byte.byte.
Abbreviation bytes := (list Byte.byte).

Definition byte_Z (b : byte) : Z := Z.of_N (Byte.to_N b).
Definition Z_byte (z : Z) : byte :=
  default Byte.x00 (Byte.of_N (Z.to_N (u8 z))).

(** A Go [string] is a sequence of bytes; [string(b)] and [[]byte(s)]. *)
Abbreviation str_of_bytes := String.string_of_list_byte.
Abbreviation bytes_of_str := String.list_byte_of_string.

#[global] Instance byte_eq_dec : EqDecision Byte.byte := Byte.byte_eq_dec.

(** ** Results of fallible Go code *)

(** A call that returns a value or a non-nil [error]. *)
Inductive result (E A : Type) : Type :=
| Ok (a : A)
| Err (e : E).
Arguments Ok {E A} a.
Arguments Err {E A} e.

#[global] Instance result_ret E : MRet (result E) := fun A a => Ok a.
#[global] Instance result_bind E : MBind (result E) := fun A B f m =>
  match m with Ok a => f a | Err e => Err e end.
#[global] Instance result_fmap E : FMap (result E) := fun A B f m =>
  match m with Ok a => Ok (f a) | Err e => Err e end.

(** A call that returns normally or panics (index or slice out of range,
    write to a nil map, nil dereference). *)
Inductive outcome (A : Type) : Type :=
| Ret (a : A)
| Panic.
Arguments Ret {A} a.
Arguments Panic {A}.

#[global] Instance outcome_ret : MRet outcome := fun A a => Ret a.
#[global] Instance outcome_bind : MBind outcome := fun A B f m =>
  match m with Ret a => f a | Panic => Panic end.

(** ** The functions of Go's package [strings] the program uses *)

Fixpoint HasPrefix (s p : string) : bool :=
  match p, s with
  | EmptyString, _ => true
  | String a p', String b s' => bool_decide (a = b) && HasPrefix s' p'
  | String _ _, EmptyString => false
  end.

(** [strings.Contains(s, sub)]. *)
Fixpoint Contains (s sub : string) : bool :=
  HasPrefix s sub ||
  match s with
  | EmptyString => false
  | String _ s' => Contains s' sub
  end.

(** [strings.Split(s, sep)] for a separator of one byte. *)
Fixpoint Split (s : string) (sep : Ascii.ascii) : list string :=
  match s with
  | EmptyString => [EmptyString]
  | String a s' =>
      if bool_decide (a = sep) then EmptyString :: Split s' sep
      else match Split s' sep with
           | w :: ws => String a w :: ws
           | [] => [String a EmptyString]
           end
  end.

(** [strings.HasSuffix(s, suf)]. *)
Fixpoint HasSuffix (s suf : string) : bool :=
  bool_decide (s = suf) ||
  match s with
  | EmptyString => false
  | String _ s' => HasSuffix s' suf
  end.

(** [strconv.Itoa] and the verb [%d]. *)
Definition Itoa (z : Z) : string := pretty z.

(** ** Automation *)

Create HintDb hera.
Create Rewrite HintDb hera.

(** Split every [match] and [if] in the goal and its hypotheses. *)
Ltac split_cases :=
  repeat (case_match || case_bool_decide); simplify_eq/=.

(** Turn boolean comparisons into propositions. *)
Ltac to_prop :=
  repeat match goal with
  | H : (_ && _) = true |- _ => apply andb_true_iff in H; destruct H
  | H : (_ || _) = false |- _ => apply orb_false_iff in H; destruct H
  | H : bool_decide _ = true |- _ => apply bool_decide_eq_true in H
  | H : bool_decide _ = false |- _ => apply bool_decide_eq_false in H
  | H : (_ <=? _) = true |- _ => apply Z.leb_le in H
  | H : (_ <=? _) = false |- _ => apply Z.leb_gt in H
  | H : (_ <? _) = true |- _ => apply Z.ltb_lt in H
  | H : (_ <? _) = false |- _ => apply Z.ltb_ge in H
  | H : (_ >=? _) = true |- _ => rewrite Z.geb_leb in H; apply Z.leb_le in H
  | H : (_ >=? _) = false |- _ => rewrite Z.geb_leb in H; apply Z.leb_gt in H
  | H : (_ =? _) = true |- _ => apply Z.eqb_eq in H
  | H : (_ =? _) = false |- _ => apply Z.eqb_neq in H
  end.

(** ** Shared lemmas *)

Section integers.
Context (w : Z) (Hw : 0 < w).

Lemma wrapU_range z : 0 <= wrapU w z < 2 ^ w.
Proof. apply Z.mod_pos_bound. lia. Qed.

Lemma wrapU_small z : 0 <= z < 2 ^ w -> wrapU w z = z.
Proof. apply Z.mod_small. Qed.

Lemma wrapS_small z : in_signed w z -> wrapS w z = z.
Proof.
  unfold in_signed, wrapS. intros Hz.
  assert (2 ^ w = 2 * 2 ^ (w - 1)) as Hp.
  { rewrite <- Z.pow_succ_r by lia. f_equal. lia. }
  rewrite Z.mod_small; lia.
Qed.

Lemma wrapS_range z : in_signed w (wrapS w z).
Proof.
  unfold in_signed, wrapS.
  assert (2 ^ w = 2 * 2 ^ (w - 1)) as Hp.
  { rewrite <- Z.pow_succ_r by lia. f_equal. lia. }
  pose proof (Z.mod_pos_bound (z + 2 ^ (w - 1)) (2 ^ w)). lia.
Qed.

Lemma wrapS_add z d : wrapS w (wrapS w z + d) = wrapS w (z + d).
Proof.
  unfold wrapS. f_equal.
  replace ((z + 2 ^ (w - 1)) mod 2 ^ w - 2 ^ (w - 1) + d + 2 ^ (w - 1))
    with ((z + 2 ^ (w - 1)) mod 2 ^ w + d) by lia.
  rewrite Z.add_mod_idemp_l by lia. f_equal. lia.
Qed.
End integers.

Lemma i64_small z : in_i64 z -> i64 z = z.
Proof. by apply wrapS_small. Qed.
Lemma i32_small z : in_i32 z -> i32 z = z.
Proof. by apply wrapS_small. Qed.

Lemma byte_Z_range b : 0 <= byte_Z b < 256.
Proof. unfold byte_Z. pose proof (Byte.to_N_bounded b). lia. Qed.

Lemma byte_Z_of_Z z : byte_Z (Z_byte z) = z mod 256.
Proof.
  unfold Z_byte, byte_Z, wrapU.
  pose proof (Z.mod_pos_bound z 256 ltac:(lia)) as Hr.
  change (2 ^ 8) with 256.
  destruct (Byte.of_N (Z.to_N (z mod 256))) as [b|] eqn:E; simpl.
  - apply Byte.to_of_N in E. lia.
  - apply Byte.of_N_None_iff in E. lia.
Qed.

Lemma Z_byte_of_byte b : Z_byte (byte_Z b) = b.
Proof.
  unfold Z_byte, byte_Z, wrapU. pose proof (Byte.to_N_bounded b).
  rewrite Z.mod_small by (change (2 ^ 8) with 256; lia).
  rewrite N2Z.id, Byte.of_to_N. reflexivity.
Qed.

Lemma byte_Z_inj a b : byte_Z a = byte_Z b -> a = b.
Proof. intros H. by rewrite <- (Z_byte_of_byte a), H, Z_byte_of_byte. Qed.

Lemma str_bytes_str s : str_of_bytes (bytes_of_str s) = s.
Proof. apply String.string_of_list_byte_of_string. Qed.

Lemma bytes_str_bytes b : bytes_of_str (str_of_bytes b) = b.
Proof. apply String.list_byte_of_string_of_list_byte. Qed.

#[export] Hint Rewrite byte_Z_of_Z Z_byte_of_byte str_bytes_str bytes_str_bytes : hera.

(** [strings.Split] *)
Lemma Split_nonempty s sep : Split s sep <> [].
Proof. destruct s; simpl; [done|]. case_bool_decide; [done|]. by destruct (Split s sep). Qed.
Lemma Split_app a sep b : Split (a +:+ String sep b) sep = Split a sep ++ Split b sep.
Proof.
  induction a as [|c a IH]; simpl; [by case_bool_decide|].
  rewrite IH. case_bool_decide; [done|]. pose proof (Split_nonempty a sep). by destruct (Split a sep).
Qed.
Lemma HasPrefix_nil s : HasPrefix s EmptyString = true.
Proof. by destruct s. Qed.
Lemma Split_one s sep : Contains s (String sep EmptyString) = false -> Split s sep = [s].
Proof.
  induction s as [|c s IH]; [done|]. simpl. intros [Hc Hs]%orb_false_iff.
  rewrite HasPrefix_nil, andb_true_r in Hc. apply bool_decide_eq_false in Hc.
  rewrite bool_decide_eq_false_2 by congruence.
  by rewrite IH.
Qed.

Lemma HasPrefix_spec s p : HasPrefix s p = true <-> exists t, s = p +:+ t.
Proof.
  revert s. induction p as [|a p IH]; intros s; simpl.
  - destruct s; (split; [intros _; eexists; reflexivity|done]).
  - destruct s as [|b s]; simpl; [split; [done|by intros [? ?]]|].
    rewrite andb_true_iff, bool_decide_eq_true, IH.
    split; [intros [-> [t ->]]; by exists t|intros [t [= -> ->]]; eauto].
Qed.

Lemma Contains_unfold s sub :
  Contains s sub =
  HasPrefix s sub || match s with EmptyString => false | String _ s' => Contains s' sub end.
Proof. by destruct s. Qed.

Lemma Contains_spec s sub :
  Contains s sub = true <-> exists u v, s = u +:+ sub +:+ v.
Proof.
  induction s as [|a s IH]; rewrite Contains_unfold, orb_true_iff, HasPrefix_spec.
  - split.
    + intros [[t Ht]|?]; [by exists EmptyString, t|done].
    + intros [u [v Hu]]. destruct u; [|done]. left. by exists v.
  - rewrite IH. split.
    + intros [[t Ht]|(u & v & ->)]; [by exists EmptyString, t|].
      by exists (String a u), v.
    + intros (u & v & Hu). destruct u as [|b u]; simpl in Hu.
      * left. by exists v.
      * right. injection Hu as -> ->. by exists u, v.
Qed.

(** Joining a high and a low part with a shift and an or. *)
Lemma lor_shiftl a b n : 0 <= n -> 0 <= b < 2 ^ n -> Z.lor (Z.shiftl a n) b = a * 2 ^ n + b.
Proof.
  intros Hn Hb. rewrite <- Z.shiftl_mul_pow2 by done.
  rewrite <- Z.add_lor_land. enough (Z.land (Z.shiftl a n) b = 0) as -> by lia.
  apply Z.bits_inj'. intros i Hi. rewrite Z.land_spec, Z.bits_0.
  destruct (decide (i < n)).
  - by rewrite Z.shiftl_spec_low by lia.
  - apply andb_false_intro2. destruct (decide (b = 0)) as [->|]; [apply Z.bits_0|].
    apply Z.bits_above_log2; [lia|]. apply Z.log2_lt_pow2; [lia|].
    apply Z.lt_le_trans with (2 ^ n); [lia|]. apply Z.pow_le_mono_r; lia.
Qed.

(** Sums of integer lists. *)
Definition sumZ (l : list Z) : Z := foldr Z.add 0 l.

Lemma sumZ_app l k : sumZ (l ++ k) = sumZ l + sumZ k.
Proof. unfold sumZ. induction l; simpl; lia. Qed.

Lemma sumZ_insert l i x y : l !! i = Some y -> sumZ (<[i:=x]> l) = sumZ l - y + x.
Proof.
  unfold sumZ. revert i. induction l as [|a l IH]; intros [|i] Hi; simplify_eq/=; [lia|].
  rewrite (IH _ Hi). lia.
Qed.

Lemma sumZ_replicate n x : sumZ (replicate n x) = Z.of_nat n * x.
Proof. unfold sumZ. induction n; simpl; lia. Qed.

Lemma sumZ_nonneg l : Forall (fun z => 0 <= z) l -> 0 <= sumZ l.
Proof. unfold sumZ. induction 1; simpl; lia. Qed.

Lemma sumZ_le_bound l b : Forall (fun z => z <= b) l -> sumZ l <= Z.of_nat (length l) * b.
Proof. unfold sumZ. induction 1; simpl; lia. Qed.

(** The sum over a list after one element is replaced. *)
Lemma sum_list_insert {A : Type} (f : A -> nat) (l : list A) i x y :
  l !! i = Some x -> (sum_list_with f (<[i := y]> l) + f x = sum_list_with f l + f y)%nat.
Proof.
  revert i. induction l as [|z l IH]; intros [|i] Hi; simplify_eq/=; [lia|].
  specialize (IH i Hi). lia.
Qed.

(** A list in which one element goes a step down is itself a step down. *)
Lemma list_step_Acc {A : Type} (R : A -> A -> Prop) (l : list A) :
  Forall (Acc R) l ->
  Acc (fun l' l => exists l1 x y l2, l = l1 ++ x :: l2 /\ l' = l1 ++ y :: l2 /\ R y x) l.
Proof.
  induction 1 as [|a l Ha _ Hl]; [constructor; by intros ? ([] & ? & ? & ? & ? & _)|].
  revert l Hl. induction Ha as [a _ IHa]. intros l Hl. induction Hl as [l Hl IHl].
  constructor. intros l' ([|b l1] & x & y & l2 & E & -> & HR); simplify_eq/=.
  - apply IHa; [done|]. by constructor.
  - apply IHl. eauto 10.
Qed.

Lemma delete_insert_same {A : Type} (l : list A) i x : delete i (<[i := x]> l) = delete i l.
Proof. revert i. induction l as [|y l IH]; intros [|i]; simpl; [done..|]. by f_equal. Qed.

(** Replacing one element changes its part of a concatenation only. *)
Lemma concat_insert {A B : Type} (f : A -> list B) (l : list A) i x :
  l !! i = Some x ->
  concat (f <$> l) ≡ₚ f x ++ concat (f <$> delete i l) /\
  forall y, concat (f <$> <[i := y]> l) ≡ₚ f y ++ concat (f <$> delete i l).
Proof.
  intros Hi. split.
  - by rewrite (delete_Permutation l i x Hi) at 1.
  - intros y. rewrite (delete_Permutation (<[i := y]> l) i y) at 1.
    + simpl. by rewrite delete_insert_same.
    + apply list_lookup_insert_eq. by eapply lookup_lt_Some.
Qed.

Lemma Exists_insert {A : Type} (P : A -> Prop) (l : list A) i x :
  Exists P (<[i := x]> l) -> P x \/ Exists P l.
Proof.
  revert i. induction l as [|y l IH]; intros i; [by intros ?%Exists_nil|].
  destruct i as [|i]; intros [?|He]%Exists_cons; auto using Exists_cons_tl, Exists_cons_hd.
  destruct (IH i He); auto using Exists_cons_tl.
Qed.

Lemma Forall2_compose {A B C : Type} (P : A -> B -> Prop) (Q : B -> C -> Prop) (R : A -> C -> Prop) l1 l2 l3 :
  (forall x y z, P x y -> Q y z -> R x z) -> Forall2 P l1 l2 -> Forall2 Q l2 l3 -> Forall2 R l1 l3.
Proof. intros HR HP. revert l3. induction HP; intros l3 HQ; inversion HQ; subst; constructor; eauto. Qed.

Lemma delete_none {A : Type} (l : list A) i : l !! i = None -> delete i l = l.
Proof. revert i. induction l as [|x l IH]; intros [|i] Hi; simplify_eq/=; [done..|]. by f_equal; apply IH. Qed.
