(* ===== verification/GoIO.v ===== *)
(** * Go's [io] and [net.Conn] as the program uses them

    The interfaces [io.Reader] and [io.Writer] are type classes: the
    components that wrap a connection (the rate limiter, the sniffing tap)
    are proved against the class and give instances of it. A TCP connection
    is a record of the segments still to be received and the messages already
    sent, so that a partial [Read] is visible. [io.ReadAtLeast] and
    [io.CopyBuffer] are the standard library's loops over these calls. *)
From Stdlib Require Import Strings.Byte.
From stdpp Require Import base strings list numbers.
From S2P Require Import Prelude.

(** ** Errors *)

(** The values of Go's [error] the program distinguishes: the sentinels it
    compares with, network errors by their [Timeout()] flag, and errors
    built from a message ([errors.New], [fmt.Errorf]). *)
Inductive error : Type :=
| EOF
| ErrUnexpectedEOF
| ErrShortWrite
| ErrInvalidWrite
| ErrCanceled
| NetError (msg : string) (timeout : bool)
| Errorf (msg : string).

#[global] Instance error_eq_dec : EqDecision error.
Proof. solve_decision. Defined.

(** [err.Error()]. *)
Definition Error (e : error) : string :=
  match e with
  | EOF => "EOF"
  | ErrUnexpectedEOF => "unexpected EOF"
  | ErrShortWrite => "short write"
  | ErrInvalidWrite => "invalid write result"
  | ErrCanceled => "context canceled"
  | NetError msg _ => msg
  | Errorf msg => msg
  end.

(** [errors.As(err, &netErr) && netErr.Timeout()]. *)
Definition is_timeout (e : error) : bool :=
  match e with NetError _ t => t | _ => false end.

(** ** Readers and writers *)

(** [Read(p)] with [len(p) = n]: the bytes placed in [p], the error, and the
    reader afterwards. *)
Class Reader (R : Type) := rd_read : nat -> R -> (bytes * option error) * R.

(** A reader that delivers a byte stream: [rd_stream r] is what is still to
    be delivered, and a call removes what it returns from its front. [rd_ok]
    is the reader's representation invariant. *)
Class StreamReader (R : Type) `{Reader R} := {
  rd_ok : R -> Prop;
  rd_stream : R -> bytes;
  rd_read_spec : forall n r d e r',
    rd_ok r -> rd_read n r = ((d, e), r') ->
    rd_ok r' /\ (length d <= n)%nat /\ rd_stream r = d ++ rd_stream r'
}.

(** [Write(p)]: the number of bytes written, the error, the writer. *)
Class Writer (W : Type) := wr_write : bytes -> W -> (nat * option error) * W.

(** A writer that records what it accepted. *)
Class LogWriter (W : Type) `{Writer W} := {
  wr_log : W -> bytes;
  wr_write_log : forall p w n e w',
    wr_write p w = ((n, e), w') ->
    (n <= length p)%nat /\ wr_log w' = wr_log w ++ take n p
}.

(** ** TCP connections *)

Record Conn := mkConn {
  conn_in : list bytes;      (** segments received and not read yet *)
  conn_in_err : error;       (** what [Read] reports after the last one *)
  conn_out : list bytes;     (** messages written, oldest first *)
  conn_out_err : option error (** set when the peer no longer accepts data *)
}.

(** One [Read]: at most one segment, truncated to the buffer. *)
Definition conn_Read (n : nat) (c : Conn) : (bytes * option error) * Conn :=
  match conn_in c with
  | [] => (([], Some (conn_in_err c)), c)
  | seg :: rest =>
      if bool_decide (length seg <= n)%nat
      then ((seg, None), mkConn rest (conn_in_err c) (conn_out c) (conn_out_err c))
      else ((take n seg, None),
            mkConn (drop n seg :: rest) (conn_in_err c) (conn_out c) (conn_out_err c))
  end.

(** One [Write]: the whole message, or an error. *)
Definition conn_Write (p : bytes) (c : Conn) : (nat * option error) * Conn :=
  match conn_out_err c with
  | Some e => ((0%nat, Some e), c)
  | None => ((length p, None),
             mkConn (conn_in c) (conn_in_err c) (conn_out c ++ [p]) None)
  end.

#[global] Instance conn_reader : Reader Conn := conn_Read.
#[global] Instance conn_writer : Writer Conn := conn_Write.

(** ** [io.ReadAtLeast] with [len(buf) = min = n]

    The loop reads into the rest of the buffer until it is full. [fuel]
    bounds the number of [Read] calls. *)
Fixpoint read_loop (fuel n : nat) (acc : bytes) (c : Conn) : result error bytes * Conn :=
  if bool_decide (n <= length acc)%nat then (Ok acc, c)
  else match fuel with
       | O => (Err (Errorf "out of fuel"), c)
       | S fuel' =>
           match conn_Read (n - length acc) c with
           | ((d, None), c') => read_loop fuel' n (acc ++ d) c'
           | ((d, Some e), c') =>
               let acc' := acc ++ d in
               if bool_decide (n <= length acc')%nat then (Ok acc', c')
               else if bool_decide (0 < length acc')%nat && bool_decide (e = EOF)
                    then (Err ErrUnexpectedEOF, c')
                    else (Err e, c')
           end
       end.

Definition ReadAtLeast (n : nat) (c : Conn) : result error bytes * Conn :=
  read_loop (S (length (conn_in c))) n [] c.

(** [conn.Read(b)] with [len(b) = 1], as the handshakes use it: what the
    buffer holds afterwards, or the error. A [Read] that returns no byte and no
    error leaves the byte [old] that was there. *)
Definition ReadByte (old : byte) (c : Conn) : result error byte * Conn :=
  match conn_Read 1 c with
  | ((_, Some e), c') => (Err e, c')
  | ((b :: _, None), c') => (Ok b, c')
  | (([], None), c') => (Ok old, c')
  end.

(** ** [io.CopyBuffer] *)
Section copy.
Context {R W : Type} `{Reader R, Writer W}.

(** How a copy ended: [Copied] with the error [CopyBuffer] returns ([None]
    for end of file), or [CopyRunning] when [fuel] calls were not enough. *)
Inductive copy_end := Copied (e : option error) | CopyRunning.

Fixpoint CopyBuffer (fuel bufsize : nat) (src : R) (dst : W) : copy_end * R * W :=
  match fuel with
  | O => (CopyRunning, src, dst)
  | S fuel' =>
      let '((d, er), src') := rd_read bufsize src in
      match d with
      | [] =>
          match er with
          | None => CopyBuffer fuel' bufsize src' dst
          | Some e => (Copied (if bool_decide (e = EOF) then None else Some e), src', dst)
          end
      | _ :: _ =>
          let '((nw, ew), dst') := wr_write d dst in
          if bool_decide (length d < nw)%nat
          then (Copied (Some (default ErrInvalidWrite ew)), src', dst')
          else match ew with
          | Some e => (Copied (Some e), src', dst')
          | None =>
              if bool_decide (length d <> nw)
              then (Copied (Some ErrShortWrite), src', dst')
              else match er with
                   | None => CopyBuffer fuel' bufsize src' dst'
                   | Some e =>
                       (Copied (if bool_decide (e = EOF) then None else Some e), src', dst')
                   end
          end
      end
  end.
End copy.

(** ** Lemmas *)

(** What a connection still delivers, whatever its segmentation. *)
Definition conn_stream (c : Conn) : bytes := concat (conn_in c).

Lemma conn_Read_stream n c d e c' :
  conn_Read n c = ((d, e), c') ->
  (length d <= n)%nat /\ conn_stream c = d ++ conn_stream c'.
Proof.
  unfold conn_Read, conn_stream. destruct c as [[|seg rest] ie o oe]; simpl.
  - intros [= <- <- <-]. simpl. split; [lia|done].
  - case_bool_decide; intros [= <- <- <-]; simpl; [done|].
    rewrite length_take. split; [lia|].
    by rewrite app_assoc, take_drop.
Qed.

#[global] Instance conn_stream_reader : StreamReader Conn := {|
  rd_ok _ := True;
  rd_stream := conn_stream;
  rd_read_spec n r d e r' _ E := conj I (conn_Read_stream n r d e r' E)
|}.

#[global] Program Instance conn_log_writer : LogWriter Conn := {|
  wr_log c := concat (conn_out c)
|}.
Next Obligation.
  intros p [i ie o [oe|]] n e w'; unfold wr_write, conn_writer, conn_Write; simpl;
    intros [= <- <- <-]; simpl.
  - rewrite take_0, app_nil_r. split; [lia|done].
  - rewrite concat_app, take_ge by lia. simpl. rewrite app_nil_r. split; [lia|done].
Qed.

(** Reading leaves the sending side alone. *)
Definition conn_frame (c c' : Conn) : Prop :=
  conn_out c' = conn_out c /\ conn_in_err c' = conn_in_err c /\
  conn_out_err c' = conn_out_err c.

Lemma conn_Read_frame n c r c' : conn_Read n c = (r, c') -> conn_frame c c'.
Proof.
  unfold conn_Read, conn_frame. destruct c as [[|seg rest] ie o oe]; simpl;
    [|case_bool_decide]; by intros [= <- <-].
Qed.

Lemma conn_frame_refl c : conn_frame c c.
Proof. by split_and!. Qed.

Lemma conn_frame_trans c1 c2 c3 : conn_frame c1 c2 -> conn_frame c2 c3 -> conn_frame c1 c3.
Proof. intros (?&?&?) (?&?&?). split_and!; congruence. Qed.

(** [read_loop] by segments: with fuel for every segment it returns exactly
    the next bytes of the stream, or fails when the stream is too short. *)
Lemma read_loop_spec fuel n acc c :
  (length (conn_in c) < fuel)%nat -> (length acc <= n)%nat ->
  if bool_decide (n <= length acc + length (conn_stream c))%nat
  then exists c', read_loop fuel n acc c = (Ok (acc ++ take (n - length acc) (conn_stream c)), c')
       /\ conn_stream c' = drop (n - length acc) (conn_stream c)
       /\ conn_frame c c'
  else exists c' e, read_loop fuel n acc c = (Err e, c')
       /\ conn_stream c' = [] /\ conn_frame c c'.
Proof.
  revert acc c. induction fuel as [|fuel IH]; intros acc c Hf Ha; [lia|].
  cbn [read_loop]. destruct (decide (n <= length acc)%nat) as [Hfull|Hfull].
  { rewrite !bool_decide_eq_true_2 by lia.
    replace (n - length acc)%nat with 0%nat by lia.
    exists c. by rewrite take_0, drop_0, app_nil_r; split_and!. }
  rewrite (bool_decide_eq_false_2 (n <= length acc)%nat) by lia.
  destruct c as [[|seg rest] ie o oe]; unfold conn_Read, conn_stream; simpl in *.
  { rewrite app_nil_r, !bool_decide_eq_false_2 by lia. case_match; eauto 10 using conn_frame_refl. }
  destruct (decide (length seg <= n - length acc)%nat) as [Hseg|Hseg].
  - rewrite (bool_decide_eq_true_2 (length seg <= _)%nat) by done.
    specialize (IH (acc ++ seg) (mkConn rest ie o oe)).
    unfold conn_stream in IH; simpl in IH. rewrite !length_app in *.
    specialize (IH ltac:(lia) ltac:(lia)).
    rewrite <- Nat.add_assoc in IH. case_bool_decide; [|done].
    destruct IH as (c' & -> & Hs & ?). exists c'.
    rewrite Nat.sub_add_distr in Hs.
    rewrite Nat.sub_add_distr, <- app_assoc, take_app, drop_app, Hs.
    by rewrite (take_ge seg), (drop_ge seg) by lia.
  - rewrite (bool_decide_eq_false_2 (length seg <= _)%nat) by done.
    rewrite bool_decide_eq_true_2 by (rewrite length_app; lia).
    destruct fuel as [|fuel]; [lia|]. cbn [read_loop].
    rewrite bool_decide_eq_true_2 by (rewrite length_app, length_take; lia).
    eexists. split; [by rewrite take_app_le by lia|]. simpl.
    by rewrite drop_app_le by lia.
Qed.

(** [ReadAtLeast] reads exactly [n] bytes when the stream holds them,
    whatever the segmentation. *)
Lemma ReadAtLeast_spec n c :
  if bool_decide (n <= length (conn_stream c))%nat
  then exists c', ReadAtLeast n c = (Ok (take n (conn_stream c)), c')
       /\ conn_stream c' = drop n (conn_stream c)
       /\ conn_frame c c'
  else exists c' e, ReadAtLeast n c = (Err e, c')
       /\ conn_stream c' = [] /\ conn_frame c c'.
Proof.
  pose proof (read_loop_spec (S (length (conn_in c))) n [] c ltac:(lia) ltac:(simpl; lia)) as H.
  cbn [length app Nat.add] in H. rewrite Nat.sub_0_r in H. exact H.
Qed.

(** A TCP connection never delivers an empty segment. *)
Definition conn_wf (c : Conn) : Prop := Forall (fun seg => seg <> []) (conn_in c).

Lemma conn_Read_wf n c r c' : conn_wf c -> conn_Read n c = (r, c') -> conn_wf c'.
Proof.
  unfold conn_wf, conn_Read. destruct c as [[|seg rest] ie o oe]; simpl; intros Hw.
  - by intros [= <- <-].
  - apply Forall_cons_1 in Hw as [Hs Hw]. case_bool_decide as Hl; intros [= <- <-]; simpl; [done|].
    constructor; [|done]. intros Hd. apply (f_equal length) in Hd.
    rewrite length_drop in Hd. simpl in Hd. lia.
Qed.

Lemma read_loop_wf fuel n acc c r c' : conn_wf c -> read_loop fuel n acc c = (r, c') -> conn_wf c'.
Proof.
  revert acc c. induction fuel as [|fuel IH]; intros acc c Hw; cbn [read_loop];
    case_bool_decide; try by intros [= <- <-].
  destruct (conn_Read (n - length acc) c) as [[d [e|]] c1] eqn:E;
    apply conn_Read_wf in E; try done; [|by apply IH].
  repeat case_match; by intros [= <- <-].
Qed.

Lemma ReadAtLeast_wf n c r c' : conn_wf c -> ReadAtLeast n c = (r, c') -> conn_wf c'.
Proof. apply read_loop_wf. Qed.

(** What is left of a connection after reading from it: the same sending
    side, and [rest] still to be received. *)
Definition conn_left (c : Conn) (rest : bytes) (c' : Conn) : Prop :=
  conn_stream c' = rest /\ conn_frame c c' /\ conn_wf c'.

Lemma conn_left_trans c1 c2 c3 r1 r2 :
  conn_left c1 r1 c2 -> conn_left c2 r2 c3 -> conn_left c1 r2 c3.
Proof. intros (_ & Hf & _) (Hs & Hf' & Hw). split_and!; eauto using conn_frame_trans. Qed.

(** Both reads by the stream: the next bytes, or an error when the stream is
    too short, in which case it is used up. *)
Lemma ReadAtLeast_left n c :
  conn_wf c ->
  (exists d rest c', conn_stream c = d ++ rest /\ length d = n /\
     ReadAtLeast n c = (Ok d, c') /\ conn_left c rest c') \/
  (exists e c', (length (conn_stream c) < n)%nat /\
     ReadAtLeast n c = (Err e, c') /\ conn_left c [] c').
Proof.
  intros Hw. pose proof (ReadAtLeast_spec n c) as H. case_bool_decide as Hn.
  - left. destruct H as (c' & E & Hs & Hf).
    exists (take n (conn_stream c)), (drop n (conn_stream c)), c'.
    rewrite take_drop, length_take. split_and!; try done; [lia|].
    split_and!; try done. by eapply ReadAtLeast_wf.
  - right. destruct H as (c' & e & E & Hs & Hf). exists e, c'. split_and!; try done; [lia|].
    split_and!; try done. by eapply ReadAtLeast_wf.
Qed.

Lemma ReadByte_left old c :
  conn_wf c ->
  (exists b rest c', conn_stream c = b :: rest /\ ReadByte old c = (Ok b, c') /\
     conn_left c rest c') \/
  (exists e c', conn_stream c = [] /\ ReadByte old c = (Err e, c') /\ conn_left c [] c').
Proof.
  intros Hw. unfold ReadByte. destruct (conn_Read 1 c) as [[d oe] c1] eqn:E.
  pose proof (conn_Read_stream _ _ _ _ _ E) as [Hl Hs].
  pose proof (conn_Read_frame _ _ _ _ E) as Hf. pose proof (conn_Read_wf _ _ _ _ Hw E) as Hw1.
  unfold conn_Read in E. destruct c as [[|seg rest] ie o oe']; simpl in *.
  - right. simplify_eq. eexists _, _. split_and!; try done.
  - left. apply Forall_cons_1 in Hw as [Hseg _]. destruct d as [|b [|b' d]].
    + exfalso. case_bool_decide; simplify_eq; destruct seg; done.
    + assert (oe = None) as -> by (by case_bool_decide; simplify_eq).
      exists b, (conn_stream c1), c1. split_and!; done.
    + simpl in Hl. lia.
Qed.

(** [CopyBuffer] moves a prefix of the source's stream to the destination,
    in order and unchanged; only a write error can lose bytes that were read
    (they are then in [rest] and not in the source any more). *)
Section copy_spec.
Context {R W : Type} `{StreamReader R, LogWriter W}.

Lemma CopyBuffer_spec fuel bufsize (src : R) (dst : W) r src' dst' :
  rd_ok src -> CopyBuffer fuel bufsize src dst = (r, src', dst') ->
  rd_ok src' /\
  exists taken rest, rd_stream src = taken ++ rest /\ wr_log dst' = wr_log dst ++ taken /\
    (r = Copied None \/ r = CopyRunning -> rest = rd_stream src').
Proof.
  revert src dst. induction fuel as [|fuel IH]; intros src dst Hok E; simpl in E.
  { simplify_eq. split; [done|]. exists [], (rd_stream src'). by rewrite app_nil_r. }
  destruct (rd_read bufsize src) as [[d er] src1] eqn:Er.
  apply rd_read_spec in Er as (Hok1 & Hlen & Hs); [|done]. rewrite Hs.
  destruct d as [|b d].
  { destruct er; simplify_eq; [|by apply IH].
    split; [done|]. exists [], (rd_stream src'). by rewrite app_nil_r. }
  destruct (wr_write (b :: d) dst) as [[nw ew] dst1] eqn:Ew.
  apply wr_write_log in Ew as [Hnw Hlog].
  rewrite bool_decide_eq_false_2 in E by lia.
  assert (forall e, (Copied (Some e), src1, dst1) = (r, src', dst') ->
    rd_ok src' /\ exists taken rest, (b :: d) ++ rd_stream src1 = taken ++ rest /\
      wr_log dst' = wr_log dst ++ taken /\
      (r = Copied None \/ r = CopyRunning -> rest = rd_stream src')) as Herr.
  { intros e [= <- <- <-]. split; [done|].
    exists (take nw (b :: d)), (drop nw (b :: d) ++ rd_stream src1).
    rewrite app_assoc, take_drop. split_and!; [done..|]. by intros [?|?]. }
  destruct ew as [e|]; [by eapply Herr|].
  case_bool_decide as Hn; [by eapply Herr|]. clear Herr.
  rewrite take_ge in Hlog by lia.
  destruct er as [e|].
  - simplify_eq. split; [done|]. by exists (b :: d), (rd_stream src').
  - destruct (IH _ _ Hok1 E) as (Hok2 & taken & rest & Hs1 & Hl1 & Hr).
    split; [done|]. exists ((b :: d) ++ taken), rest.
    by rewrite Hs1, Hl1, Hlog, !app_assoc.
Qed.
End copy_spec.
