(* ===== verification/Logging.v ===== *)
(** * Logging ([log/init.go], [log/log.go], [http.go])

    A logger of seven levels, each with a file of its own that is also copied
    to the standard output. The library [zap] is the class [Zap]; the rotation
    of the files is a parameter. Log messages appear in the other files only
    where they change the control flow: [log.Panic]. *)
From Stdlib Require Import Ascii.
From stdpp Require Import base strings numbers list.
From S2P Require Import Prelude GoIO.

(** ** Paths ([path/filepath] on Unix) *)

(** [Clean] on the elements of a path, last first. *)
Fixpoint clean_elems (rooted : bool) (elems acc : list string) : list string :=
  match elems with
  | [] => acc
  | e :: elems' =>
      clean_elems rooted elems'
        (if bool_decide (e = EmptyString) || bool_decide (e = ".") then acc
         else if bool_decide (e = "..") then
           match acc with
           | [] => if rooted then [] else [".."]
           | x :: acc' => if bool_decide (x = "..") then ".." :: acc else acc'
           end
         else e :: acc)
  end.
Definition is_rooted (path : string) : bool := HasPrefix path "/".
Definition clean_path (rooted : bool) (elems : list string) : string :=
  let out := String.concat "/" (reverse (clean_elems rooted elems [])) in
  if rooted then "/" +:+ out else if bool_decide (out = EmptyString) then "." else out.
(** The part up to the last separator, cleaned. *)
Definition Dir (path : string) : string :=
  clean_path (is_rooted path) (removelast (Split path "/"%char)).
(** The last element. *)
Definition Base (path : string) : string :=
  if bool_decide (path = EmptyString) then "."
  else default "/" (last (filter (fun e => e <> EmptyString) (Split path "/"%char))).

Example paths :
  Dir "/home/hera_ipv4/info" = "/home/hera_ipv4" /\ Base "/home/hera_ipv4/info" = "info" /\
  Dir "/info" = "/" /\ Dir "a/./b/../c/info" = "a/c" /\ Dir "../../info" = "../..".
Proof. vm_compute. done. Qed.

Lemma Base_file dir name :
  Contains name "/" = false -> name <> EmptyString -> Base (dir +:+ "/" +:+ name) = name.
Proof.
  intros Hc Hn. unfold Base. rewrite bool_decide_eq_false_2 by (by destruct dir).
  change (dir +:+ "/" +:+ name) with (dir +:+ String "/"%char name).
  rewrite Split_app, (Split_one name) by done. rewrite filter_app, filter_cons_True, filter_nil by done.
  by rewrite last_snoc.
Qed.

Lemma Dir_file dir name name' :
  Contains name "/" = false -> Contains name' "/" = false ->
  Dir (dir +:+ "/" +:+ name) = Dir (dir +:+ "/" +:+ name').
Proof.
  intros Hc Hc'. unfold Dir.
  change (dir +:+ "/" +:+ name) with (dir +:+ String "/"%char name).
  change (dir +:+ "/" +:+ name') with (dir +:+ String "/"%char name').
  rewrite !Split_app, (Split_one name), (Split_one name') by done. rewrite !removelast_last. f_equal.
  unfold is_rooted. destruct dir; simpl; by rewrite !HasPrefix_nil.
Qed.

(** ** The logger *)
Inductive level := DebugLevel | InfoLevel | WarnLevel | ErrorLevel | DPanicLevel | PanicLevel | FatalLevel.
#[global] Instance level_eq_dec : EqDecision level.
Proof. solve_decision. Defined.
Definition levels : list level :=
  [InfoLevel; WarnLevel; ErrorLevel; DebugLevel; DPanicLevel; PanicLevel; FatalLevel].

(** A file that is rotated: its pattern and the link to the current one. *)
Inductive sink := File (pattern link : string) | Stdout.
#[global] Instance sink_eq_dec : EqDecision sink.
Proof. solve_decision. Defined.

Record entry := mkEntry { e_level : level; e_msg : string; e_fields : list (string * string) }.
(** [zapcore.NewCore] with the encoder, a writer and the levels it takes. *)
Record core := mkCore { c_sink : sink; c_enabled : level -> bool }.

(** What happens to the caller: the call returns, panics, or ends the process. *)
Inductive effect := Returns | Panics | Exits (code : Z).

(** The library: what a logger over [NewTee] of the cores writes, and what its
    methods do then; the logger is not in development mode. *)
Class Zap := {
  tee_write : list core -> entry -> list (sink * entry);
  then_do : level -> effect;
  tee_spec cores e : tee_write cores e = (fun c => (c_sink c, e)) <$> filter (fun c => c_enabled c (e_level e)) cores;
  then_spec l : then_do l = match l with PanicLevel => Panics | FatalLevel => Exits 1 | _ => Returns end
}.

(** [zaploger] and what was written so far. *)
Record log_state := mkLog { zaploger : option (list core); written : list (sink * entry) }.
Definition log_state0 : log_state := mkLog None [].

Module Log.
Section log.
Context `{Zap}.

(** All functions of [log.go] have the same body. *)
Definition log_at (l : level) (msg : string) (fields : list (string * string)) (s : log_state)
  : effect * log_state :=
  match zaploger s with
  | None => (Returns, s)
  | Some cores => (then_do l, mkLog (zaploger s) (written s ++ tee_write cores (mkEntry l msg fields)))
  end.
Definition Info := log_at InfoLevel.
Definition Warn := log_at WarnLevel.
Definition Error := log_at ErrorLevel.
Definition Debug := log_at DebugLevel.
Definition DPanic := log_at DPanicLevel.
Definition Panic := log_at PanicLevel.
Definition Fatal := log_at FatalLevel.

(** A deferred [Recover] or [DRecover] in a goroutine that returns, or panics
    with a value; [stack] is [debug.Stack()]. What the goroutine does then. *)
Definition recover_fields (v stack : string) : list (string * string) := [("recover", v); ("debug.Stack", stack)].
Definition Recover (msg stack : string) (p : option string) (s : log_state) : effect * log_state :=
  match zaploger s with
  | None => (match p with Some _ => Panics | None => Returns end, s)
  | Some _ => match p with Some v => Fatal msg (recover_fields v stack) s | None => (Returns, s) end
  end.
Definition DRecover (msg stack : string) (p : option string) (s : log_state) : effect * log_state :=
  match zaploger s with
  | None => (match p with Some _ => Panics | None => Returns end, s)
  | Some _ => match p with Some v => DPanic msg (recover_fields v stack) s | None => (Returns, s) end
  end.
End log.
End Log.

(** ** [Init] *)
Definition level_name (l : level) : string :=
  match l with
  | DebugLevel => "debug" | InfoLevel => "info" | WarnLevel => "warn" | ErrorLevel => "error"
  | DPanicLevel => "dPanic" | PanicLevel => "panic" | FatalLevel => "fatal"
  end.

(** How files are rotated and kept: ages in nanoseconds, the size in bytes. *)
Record rotation := mkRotation { maxAge : Z; rotationTime : Z; rotationSize : Z }.
Definition hour : Z := 3600 * 1000000000.
Definition log_rotation : rotation := mkRotation (hour * 24 * 3) hour (50 * 1024 * 1024).

Section init.
(** [rotatelogs.New] *)
Context (rotatelogs : string -> string -> rotation -> result error ()).

Definition getWriter (filename : string) : outcome sink :=
  let levelName := Base filename in
  let baseDir := Dir filename in
  let pattern := baseDir +:+ "/%Y-%m-%d/" +:+ levelName +:+ "_%H.log" in
  let link := baseDir +:+ "/current_" +:+ levelName +:+ ".log" in
  match rotatelogs pattern link log_rotation with
  | Ok _ => Ret (File pattern link)
  | Err _ => Panic
  end.

(** The writers of all levels, in the order in which they are opened. *)
Fixpoint writers (filepath : string) (ls : list level) : outcome (list (level * sink)) :=
  match ls with
  | [] => Ret []
  | l :: ls' =>
      w ← getWriter (filepath +:+ "/" +:+ level_name l);
      ws ← writers filepath ls';
      Ret ((l, w) :: ws)
  end.
Definition only (l : level) : level -> bool := fun lvl => bool_decide (lvl = l).
Definition Init (filepath : string) (s : log_state) : outcome log_state :=
  ws ← writers filepath levels;
  Ret (mkLog (Some (((fun '(l, w) => mkCore w (only l)) <$> ws) ++ ((fun l => mkCore Stdout (only l)) <$> levels)))
    (written s)).

(** The file of a level. *)
Definition level_file (filepath : string) (l : level) : sink :=
  let baseDir := Dir (filepath +:+ "/info") in
  File (baseDir +:+ "/%Y-%m-%d/" +:+ level_name l +:+ "_%H.log") (baseDir +:+ "/current_" +:+ level_name l +:+ ".log").

Lemma level_name_plain l : Contains (level_name l) "/" = false /\ level_name l <> EmptyString.
Proof. by destruct l. Qed.

Lemma getWriter_file filepath l w :
  getWriter (filepath +:+ "/" +:+ level_name l) = Ret w -> w = level_file filepath l.
Proof.
  destruct (level_name_plain l) as [Hc Hn]. unfold getWriter, level_file.
  rewrite Base_file by done. rewrite (Dir_file filepath (level_name l) "info") by done.
  by destruct (rotatelogs _ _ _); intros [= <-].
Qed.

Lemma writers_files filepath ls ws :
  writers filepath ls = Ret ws -> ws = (fun l => (l, level_file filepath l)) <$> ls.
Proof.
  revert ws. induction ls as [|l ls IH]; intros ws; simpl; [by intros [= <-]|].
  destruct (getWriter _) as [w|] eqn:E; [|done]. simpl.
  destruct (writers filepath ls) as [ws'|]; [|done]. simpl. intros [= <-].
  by rewrite (getWriter_file _ _ _ E), (IH ws').
Qed.

Lemma app_str_inj (a b c : string) : a +:+ b = a +:+ c -> b = c.
Proof. induction a as [|x a IH]; simpl; [done|]. intros [= E]. auto. Qed.

Lemma level_file_inj filepath l l' : level_file filepath l = level_file filepath l' -> l = l'.
Proof. intros [= E%app_str_inj _]. by destruct l, l'. Qed.
End init.

Section logging.
Context `{Zap} (rotatelogs : string -> string -> rotation -> result error ()).

(** The cores that take a level are its file and the standard output. *)
Lemma cores_of_level filepath s s' l msg fields :
  Init rotatelogs filepath s = Ret s' -> exists cores, zaploger s' = Some cores /\ written s' = written s /\
    tee_write cores (mkEntry l msg fields) =
      [(level_file filepath l, mkEntry l msg fields); (Stdout, mkEntry l msg fields)].
Proof.
  unfold Init. destruct (writers rotatelogs filepath levels) as [ws|] eqn:E; [|done]. simpl. intros [= <-].
  apply writers_files in E as ->. eexists. split_and!; [done..|]. rewrite tee_spec. by destruct l.
Qed.

(** Where a message goes: once [Init] has succeeded, for any directory, a
    message of any level is written exactly twice, to the file of its own
    level, which no other level shares, and to the standard output;
    [log.Panic] panics after that, [log.Fatal] ends the process, and the
    others return. Before [Init] nothing is written and even [log.Panic] and
    [log.Fatal] return to their caller. *)
Theorem log_reaches_its_file filepath s s' l msg fields :
  Init rotatelogs filepath s = Ret s' ->
  (exists out, Log.log_at l msg fields s' = (match l with PanicLevel => Panics | FatalLevel => Exits 1 | _ => Returns end, out) /\
     zaploger out = zaploger s' /\
     written out = written s ++ [(level_file filepath l, mkEntry l msg fields); (Stdout, mkEntry l msg fields)]) /\
  (forall l', level_file filepath l = level_file filepath l' -> l = l') /\
  (zaploger s = None -> Log.log_at l msg fields s = (Returns, s)).
Proof.
  intros Hi. split_and!.
  - destruct (cores_of_level filepath s s' l msg fields Hi) as (cores & E & Ew & Ht).
    eexists. unfold Log.log_at. rewrite E, Ht, Ew, then_spec. by split_and!.
  - apply level_file_inj.
  - intros E. unfold Log.log_at. by rewrite E.
Qed.

(** [Recover] ends the process, [DRecover] does not: a panic is logged and
    swallowed; without a logger both let it pass. *)
Lemma recover_effects filepath s s' msg stack v :
  Init rotatelogs filepath s = Ret s' ->
  (Log.Recover msg stack (Some v) s').1 = Exits 1 /\ (Log.DRecover msg stack (Some v) s').1 = Returns /\
  (zaploger s = None -> Log.Recover msg stack (Some v) s = (Panics, s)).
Proof.
  intros Hi. destruct (cores_of_level filepath s s' InfoLevel msg [] Hi) as (cores & E & _).
  unfold Log.Recover, Log.DRecover, Log.Fatal, Log.DPanic, Log.log_at. rewrite E. simpl. rewrite !then_spec.
  split_and!; [done..|]. intros E'. by rewrite E'.
Qed.

(** ** The profiling endpoint ([http.go]): the panics of its goroutine, when
    the port cannot be opened or [http.Serve] returns, reach [log.Recover]. *)
Definition gohttp (listen : result error ()) (serve : error) (stack : string) (s : log_state) : effect * log_state :=
  Log.Recover "http" stack (Some (match listen with Err e => Error e | Ok _ => Error serve end)) s.

Lemma gohttp_ends_process filepath s s' listen serve stack :
  Init rotatelogs filepath s = Ret s' -> (gohttp listen serve stack s').1 = Exits 1.
Proof. intros Hi. by destruct (recover_effects filepath s s' "http" stack
  (match listen with Err e => Error e | Ok _ => Error serve end) Hi). Qed.
End logging.

(** ** Witness *)
Definition ref_then (l : level) : effect :=
  match l with PanicLevel => Panics | FatalLevel => Exits 1 | _ => Returns end.
#[local] Program Instance ref_zap : Zap := {|
  tee_write cores e := (fun c => (c_sink c, e)) <$> filter (fun c => c_enabled c (e_level e)) cores;
  then_do := ref_then
|}.
Next Obligation. done. Qed.
Next Obligation. by intros []. Qed.

Definition demo_log : log_state :=
  match Init (fun _ _ _ => Ok ()) "/home/hera_ipv4" log_state0 with Ret s => s | Panic => log_state0 end.

Lemma log_reaches_its_file_witness :
  (Log.log_at PanicLevel "listen" [] demo_log).1 = Panics /\
  (Log.log_at PanicLevel "listen" [] log_state0).1 = Returns /\
  written (Log.log_at PanicLevel "listen" [] demo_log).2 =
    [(File "/home/hera_ipv4/%Y-%m-%d/panic_%H.log" "/home/hera_ipv4/current_panic.log", mkEntry PanicLevel "listen" []);
     (Stdout, mkEntry PanicLevel "listen" [])].
Proof.
  destruct (log_reaches_its_file (fun _ _ _ => Ok ()) "/home/hera_ipv4" log_state0 demo_log PanicLevel "listen" [])
    as ((out & E & _ & Hw) & _ & Hn); [reflexivity|].
  rewrite E, Hn by reflexivity. split; [reflexivity|]. split; [reflexivity|]. exact Hw.
Defined.
