(* ===== verification/FlowLimit.v ===== *)
(** * Rate limiting ([server/flow_limit.go])

    [LimitedReaderAction] is the token bucket shared by all connections of a
    user: a global burst budget, refilled when the second changes, from which
    eight slices take their share. [LimitedReader] wraps a connection and
    delivers as many buffered bytes as the bucket grants. *)
From Stdlib Require Import Strings.Byte.
From stdpp Require Import base strings list numbers.
From S2P Require Import Prelude GoIO.

Definition LimitshareSize : Z := 8.

(** The fields of the struct; a slice's only field [rflow] stands for it. *)
Record LimitedReaderAction := mkAction {
  readRate : Z;
  readBurst : Z;
  nowTimeUnix : Z;
  residReadueBurst : Z;
  cc : Z;
  slimitArray : list Z;
  slimitMaxFlow : Z
}.

(** [now] is the value of [time.Now().Unix()]. *)
Definition NewLimitedReaderAction (now rate burst : Z) : LimitedReaderAction :=
  let rate := if rate <=? 0 then 1024 * 30 else rate in
  let burst := if burst <=? 0 then 1024 * 100000 else burst in
  let maxFlow := burst ÷ LimitshareSize in
  mkAction rate burst now burst 0
    (replicate (Z.to_nat LimitshareSize) maxFlow) maxFlow.

Definition UpdateParameter (rate burst : Z) (l : LimitedReaderAction) : LimitedReaderAction :=
  let rate := if rate <=? 0 then 1024 * 30 else rate in
  let burst := if burst <=? 0 then 1024 * 100000 else burst in
  mkAction rate burst (nowTimeUnix l) burst (cc l) (slimitArray l)
    (burst ÷ LimitshareSize).

(** The block [if slimitP.rflow <= 0 { ... }]: [None] for its early
    [return 0], otherwise the slice's flow afterwards. *)
Definition refill (now rflow : Z) (l : LimitedReaderAction) : option Z * LimitedReaderAction :=
  if rflow <=? 0 then
    let l := if nowTimeUnix l =? now then l
             else mkAction (readRate l) (readBurst l) now (readBurst l)
                    (cc l) (slimitArray l) (slimitMaxFlow l) in
    let set_resid r := mkAction (readRate l) (readBurst l) (nowTimeUnix l) r
                         (cc l) (slimitArray l) (slimitMaxFlow l) in
    if residReadueBurst l =? 0 then (None, l)
    else if residReadueBurst l >=? slimitMaxFlow l
         then (Some (slimitMaxFlow l), set_resid (i64 (residReadueBurst l - slimitMaxFlow l)))
         else (Some (residReadueBurst l), set_resid 0)
  else (Some rflow, l).

(** The rest of the body: how much of the slice's [available] flow the call
    takes, and the slice's flow afterwards. *)
Definition take_flow (rate available dataLen : Z) : Z * Z :=
  if rate >=? available then
    if dataLen >=? available then (available, 0)
    else (dataLen, i64 (available - dataLen))
  else if rate >=? dataLen then (dataLen, i64 (available - dataLen))
  else (rate, i64 (available - rate)).

Definition GetReadSize (now dataLen : Z) (l : LimitedReaderAction)
  : outcome (Z * LimitedReaderAction) :=
  let c := u64 (cc l + 1) in
  let l := mkAction (readRate l) (readBurst l) (nowTimeUnix l) (residReadueBurst l)
             c (slimitArray l) (slimitMaxFlow l) in
  let idx := Z.to_nat (c mod LimitshareSize) in
  match slimitArray l !! idx with
  | None => Panic
  | Some rflow =>
      match refill now rflow l with
      | (None, l) => Ret (0, l)
      | (Some available, l) =>
          let '(size, rflow') := take_flow (readRate l) available dataLen in
          Ret (size, mkAction (readRate l) (readBurst l) (nowTimeUnix l)
                 (residReadueBurst l) (cc l) (<[idx := rflow']> (slimitArray l))
                 (slimitMaxFlow l))
      end
  end.

(** A sequence of calls [(time.Now().Unix(), dataLen)] on the shared bucket. *)
Fixpoint run_reads (calls : list (Z * Z)) (l : LimitedReaderAction)
  : outcome (list Z * LimitedReaderAction) :=
  match calls with
  | [] => Ret ([], l)
  | (now, dataLen) :: calls' =>
      '(size, l) ← GetReadSize now dataLen l;
      '(sizes, l) ← run_reads calls' l;
      Ret (size :: sizes, l)
  end.

(** ** [LimitedReader] *)

Definition tempbuf_size : nat := Z.to_nat (2 * 1024).

(** [l.buf] is the suffix of [tempbuf] from [lr_off] on, [lr_llen] the number
    of its bytes that are still to be delivered. The bucket [l.action] is
    shared, so it is threaded separately. *)
Record LimitedReader (R : Type) := mkLR {
  lr_r : R;
  lr_tempbuf : bytes;
  lr_off : nat;
  lr_llen : Z
}.
Arguments mkLR {R} _ _ _ _.
Arguments lr_r {R} _.
Arguments lr_tempbuf {R} _.
Arguments lr_off {R} _.
Arguments lr_llen {R} _.

Definition NewLimitedReader {R} (r : R) : LimitedReader R :=
  mkLR r (replicate tempbuf_size Byte.x00) 0 0.

Section reader.
Context {R : Type} `{Reader R}.

(** "Refill the buffer when it is empty": the reader afterwards and the error. *)
Definition fill_buf (l : LimitedReader R) : LimitedReader R * option error :=
  if lr_llen l =? 0 then
    let '((d, err), r') := rd_read tempbuf_size (lr_r l) in
    (mkLR r' (d ++ drop (length d) (lr_tempbuf l)) 0 (Z.of_nat (length d)), err)
  else (l, None).

(** [Read(p)] with [len(p) = plen]. [ctx_err] is [l.ctx.Err()] when the
    context is done, [now] the clock [GetReadSize] reads. *)
Definition LimitedReader_Read (ctx_err : option error) (now : Z) (plen : nat)
    (l : LimitedReader R) (a : LimitedReaderAction)
  : outcome ((bytes * option error) * LimitedReader R * LimitedReaderAction) :=
  match ctx_err with
  | Some e => Ret (([], Some e), l, a)
  | None =>
      let '(l, err) := fill_buf l in
      match err with
      | Some e => Ret (([], Some e), l, a)
      | None =>
          if lr_llen l <=? 0 then Ret (([], Some EOF), l, a)
          else
            '(size, a) ← GetReadSize now (lr_llen l) a;
            let size := if size <=? 0 then 1 else size in
            let n := if Z.of_nat plen >? size then Z.to_nat size else plen in
            let buf := drop (lr_off l) (lr_tempbuf l) in
            if bool_decide (n <= length buf)%nat
            then Ret ((take n buf, None),
                      mkLR (lr_r l) (lr_tempbuf l) (lr_off l + n)
                        (i64 (lr_llen l - Z.of_nat n)), a)
            else Panic
      end
  end.
End reader.

(** A [LimitedReader] seen as an [io.Reader] by one goroutine: for each call
    the environment gives the context's state, the clock and the bucket as the
    user's other connections left it. *)
Record limited_conn (R : Type) := mkLimited {
  lc_reader : LimitedReader R;
  lc_env : list (option error * Z * LimitedReaderAction)
}.
Arguments mkLimited {R} _ _.
Arguments lc_reader {R} _.
Arguments lc_env {R} _.

#[global] Instance limited_conn_reader {R} `{Reader R} : Reader (limited_conn R) :=
  fun n s =>
    match lc_env s with
    | [] => (([], Some ErrCanceled), s)
    | (ctx_err, now, a) :: env =>
        match LimitedReader_Read ctx_err now n (lc_reader s) a with
        | Ret (r, l, _) => (r, mkLimited l env)
        | Panic => (([], Some (Errorf "panic")), mkLimited (lc_reader s) env)
        end
    end.

(** ** The bucket's invariant *)

Record action_ok (l : LimitedReaderAction) : Prop := {
  ok_rate : 0 < readRate l < 2 ^ 63;
  ok_burst : 0 < readBurst l < 2 ^ 63;
  ok_resid : 0 <= residReadueBurst l <= readBurst l;
  ok_max : slimitMaxFlow l = readBurst l ÷ LimitshareSize;
  ok_shares : length (slimitArray l) = Z.to_nat LimitshareSize;
  ok_flow : Forall (fun r => 0 <= r < 2 ^ 63) (slimitArray l)
}.

(** Everything the bucket can still grant before the second changes. *)
Definition budget (l : LimitedReaderAction) : Z := sumZ (slimitArray l) + residReadueBurst l.

(** What one call does to the bucket's accounts: it takes the granted bytes
    out of the budget, after adding a fresh burst if it was the first refill
    of a new second. *)
Definition accounted (now size : Z) (l l' : LimitedReaderAction) : Prop :=
  (nowTimeUnix l' = nowTimeUnix l /\ size + budget l' = budget l) \/
  (nowTimeUnix l <> now /\ nowTimeUnix l' = now /\
   size + budget l' + residReadueBurst l = budget l + readBurst l).

Definition same_params (l l' : LimitedReaderAction) : Prop :=
  readRate l' = readRate l /\ readBurst l' = readBurst l /\
  slimitMaxFlow l' = slimitMaxFlow l.

Lemma max_flow_range b : 0 < b < 2 ^ 63 -> 0 <= b ÷ LimitshareSize <= b.
Proof. unfold LimitshareSize. intros. Z.to_euclidean_division_equations. lia. Qed.

Lemma take_flow_spec rate available dataLen size rflow' :
  take_flow rate available dataLen = (size, rflow') ->
  0 < rate < 2 ^ 63 -> 0 <= available < 2 ^ 63 -> 0 <= dataLen < 2 ^ 63 ->
  0 <= size /\ size <= dataLen /\ size <= rate /\
  size + rflow' = available /\ 0 <= rflow' < 2 ^ 63.
Proof.
  unfold take_flow. intros E ???.
  repeat case_match; to_prop; simplify_eq;
    rewrite ?i64_small by (unfold in_signed; lia); lia.
Qed.

Lemma refill_spec now rflow l o l' :
  refill now rflow l = (o, l') -> action_ok l -> 0 <= rflow < 2 ^ 63 ->
  action_ok l' /\ same_params l l' /\ slimitArray l' = slimitArray l /\ cc l' = cc l /\
  0 <= default 0 o < 2 ^ 63 /\ (o = None -> rflow = 0) /\
  ((nowTimeUnix l' = nowTimeUnix l /\
    default 0 o + residReadueBurst l' = rflow + residReadueBurst l) \/
   (nowTimeUnix l <> now /\ nowTimeUnix l' = now /\
    default 0 o + residReadueBurst l' = rflow + readBurst l)).
Proof.
  unfold refill, same_params. intros E [? ? ? Hmax ? ?] Hr.
  pose proof (max_flow_range (readBurst l)) as Hm.
  destruct l as [rate burst t resid c arr mx]; simpl in *.
  repeat case_match; to_prop; simplify_eq/=;
    rewrite ?i64_small by (unfold in_signed; lia);
    split_and!; try done; try lia; constructor; simpl; auto; lia.
Qed.

Lemma GetReadSize_spec now dataLen l :
  action_ok l -> 0 <= dataLen < 2 ^ 63 ->
  exists size l', GetReadSize now dataLen l = Ret (size, l') /\
    action_ok l' /\ same_params l l' /\
    0 <= size /\ size <= dataLen /\ size <= readRate l /\ accounted now size l l'.
Proof.
  intros Hok Hd. unfold GetReadSize. cbn [slimitArray cc readRate].
  set (c := u64 (cc l + 1)). set (idx := Z.to_nat (c mod LimitshareSize)).
  set (l0 := mkAction _ _ _ _ _ _ _).
  assert (action_ok l0) as Hok0 by (destruct Hok; by constructor).
  destruct (slimitArray l !! idx) as [rflow|] eqn:Hidx; last first.
  { apply lookup_ge_None in Hidx. rewrite (ok_shares _ Hok) in Hidx.
    unfold idx, LimitshareSize in Hidx. pose proof (Z.mod_pos_bound c 8). lia. }
  assert (0 <= rflow < 2 ^ 63) as Hr
    by exact (Forall_lookup_1 _ _ _ _ (ok_flow _ Hok) Hidx).
  destruct (refill now rflow l0) as [o l1] eqn:Er.
  apply refill_spec in Er as (Hok1 & Hp & Harr & Hcc & Ho & Hz & Hacc); [|done..].
  unfold accounted, budget, same_params in *. simpl in *.
  destruct o as [available|]; simpl in *.
  - destruct (take_flow (readRate l1) available dataLen) as [size rflow'] eqn:Et.
    apply take_flow_spec in Et; [|apply Hok1|done..].
    do 2 eexists. split; [done|]. simpl.
    rewrite Harr, (sumZ_insert _ _ _ _ Hidx).
    split_and!; try lia. destruct Hok1. constructor; simpl; try done.
    + rewrite length_insert. apply Hok.
    + apply Forall_insert; [apply Hok|lia].
  - do 2 eexists. split; [done|]. rewrite Harr.
    specialize (Hz eq_refl). pose proof (ok_rate _ Hok). split_and!; try done; lia.
Qed.

(** ** Sequences of calls *)

Definition valid_call (c : Z * Z) : Prop := 0 <= snd c < 2 ^ 63.

(** How often the clock shows another second than before. *)
Fixpoint changes (t : Z) (calls : list (Z * Z)) : Z :=
  match calls with
  | [] => 0
  | (now, _) :: calls' => (if now =? t then 0 else 1) + changes now calls'
  end.

Lemma changes_nonneg t calls : 0 <= changes t calls.
Proof. revert t. induction calls as [|[now d] calls IH]; intros t; simpl; [lia|].
  specialize (IH now). case_match; lia. Qed.

(** Every call of a sequence succeeds, and the bytes granted are paid for. *)
Lemma run_reads_spec calls l last :
  action_ok l -> Forall valid_call calls ->
  exists sizes l', run_reads calls l = Ret (sizes, l') /\ action_ok l' /\ same_params l l' /\
    Forall2 (fun c size => 0 <= size <= snd c) calls sizes /\
    sumZ sizes + budget l' <=
      budget l + readBurst l * (changes last calls + (if nowTimeUnix l =? last then 0 else 1)).
Proof.
  revert l last. induction calls as [|[now d] calls IH]; intros l last Hok Hv.
  { exists [], l. simpl. unfold same_params. split_and!; try done.
    pose proof (ok_burst _ Hok). case_match; simpl; lia. }
  inv Hv. destruct (GetReadSize_spec now d l Hok ltac:(done)) as
    (size & l1 & E1 & Hok1 & (Hp1 & Hp2 & Hp3) & Hs0 & Hsd & Hsr & Hacc).
  destruct (IH l1 now Hok1 ltac:(done)) as (sizes & l2 & E2 & Hok2 & (Hq1 & Hq2 & Hq3) & Hf & Hb).
  exists (size :: sizes), l2. simpl. rewrite E1. simpl. rewrite E2. simpl.
  unfold same_params. split_and!; try done; try congruence.
  { constructor; [simpl; lia|done]. }
  pose proof (ok_burst _ Hok). pose proof (ok_resid _ Hok). pose proof (changes_nonneg now calls).
  rewrite Hp2 in Hb. unfold accounted in Hacc. repeat case_match; to_prop; nia.
Qed.

Lemma budget_nonneg l : action_ok l -> 0 <= budget l.
Proof.
  intros Hok. unfold budget. pose proof (ok_resid _ Hok).
  assert (0 <= sumZ (slimitArray l)); [|lia].
  apply sumZ_nonneg. eapply Forall_impl; [|apply (ok_flow _ Hok)]. simpl; lia.
Qed.

(** Parameters as [NewLimitedReaderAction] and [UpdateParameter] set them. *)
Lemma parameters_spec rate burst :
  in_i64 rate -> in_i64 burst ->
  let rate' := if rate <=? 0 then 1024 * 30 else rate in
  let burst' := if burst <=? 0 then 1024 * 100000 else burst in
  0 < rate' < 2 ^ 63 /\ 0 < burst' < 2 ^ 63 /\ 0 <= burst' ÷ LimitshareSize <= burst'.
Proof.
  intros Hr Hb rate' burst'. unfold in_signed in Hr, Hb.
  assert (0 < rate' < 2 ^ 63) by (unfold rate'; case_match; to_prop; lia).
  assert (0 < burst' < 2 ^ 63) by (unfold burst'; case_match; to_prop; lia).
  eauto using max_flow_range.
Qed.

Lemma new_action_ok now rate burst :
  in_i64 rate -> in_i64 burst -> action_ok (NewLimitedReaderAction now rate burst).
Proof.
  intros Hr Hb. destruct (parameters_spec rate burst Hr Hb) as (? & ? & ?).
  constructor; cbn [readRate readBurst residReadueBurst slimitMaxFlow slimitArray
    NewLimitedReaderAction]; try done; try lia.
  apply Forall_replicate. lia.
Qed.

(** A bucket whose burst is too small to give its slices a share. *)
Definition starved (l : LimitedReaderAction) : Prop :=
  action_ok l /\ slimitMaxFlow l = 0 /\ slimitArray l = replicate 8 0.

Lemma refill_starved now l o l' :
  starved l -> refill now 0 l = (o, l') -> default 0 o = 0.
Proof.
  intros (Hok & Hm & _). pose proof (ok_resid _ Hok). pose proof (ok_burst _ Hok).
  unfold refill. simpl. repeat case_match; to_prop; intros; simplify_eq/=; lia.
Qed.

Lemma GetReadSize_starved now dataLen l :
  starved l -> 0 <= dataLen < 2 ^ 63 ->
  exists l', GetReadSize now dataLen l = Ret (0, l') /\ starved l'.
Proof.
  intros Hs Hd. pose proof Hs as (Hok & Hm & Harr).
  destruct (GetReadSize_spec now dataLen l Hok Hd)
    as (size & l' & E & Hok' & (_ & _ & Hp) & _).
  enough (size = 0 /\ slimitArray l' = replicate 8 0) as [-> Ha].
  { exists l'. split; [done|]. split_and!; [done|congruence|done]. }
  unfold GetReadSize in E. cbn [slimitArray] in E. rewrite Harr in E.
  destruct (replicate 8 0 !! _) as [rflow|] eqn:Hl; [|done].
  pose proof Hl as [Hr _]%lookup_replicate. subst rflow.
  set (l0 := mkAction _ _ _ _ _ _ _) in E.
  assert (starved l0) as Hs0.
  { split_and!; [|done..]. destruct Hok. rewrite Harr in *. by constructor. }
  destruct (refill now 0 l0) as [o l1] eqn:Er.
  pose proof (refill_starved _ _ _ _ Hs0 Er) as Ho.
  apply refill_spec in Er as (Hok1 & _ & Ha1 & _); [|apply Hs0|lia].
  cbn [slimitArray] in Ha1.
  destruct o as [available|]; simpl in Ho; [subst available|by simplify_eq].
  pose proof (ok_rate _ Hok1). unfold take_flow in E.
  rewrite !Z.geb_leb, !(proj2 (Z.leb_le 0 _)) in E by lia.
  injection E as <- <-. cbn [slimitArray]. split; [done|].
  rewrite Ha1. by apply list_insert_id.
Qed.

(** ** The reader's invariant *)

Section reader_spec.
Context {R : Type} `{StreamReader R}.

Record reader_ok (l : LimitedReader R) : Prop := {
  lr_source_ok : rd_ok (lr_r l);
  lr_buf_size : length (lr_tempbuf l) = tempbuf_size;
  lr_in_range : 0 <= lr_llen l /\ Z.of_nat (lr_off l) + lr_llen l <= Z.of_nat tempbuf_size
}.

(** The bytes read from the source and not delivered yet. *)
Definition pending (l : LimitedReader R) : bytes :=
  take (Z.to_nat (lr_llen l)) (drop (lr_off l) (lr_tempbuf l)).

Definition limited_stream (l : LimitedReader R) : bytes := pending l ++ rd_stream (lr_r l).

Lemma fill_buf_spec l l' err :
  reader_ok l -> fill_buf l = (l', err) ->
  reader_ok l' /\ limited_stream l' = limited_stream l /\ lr_llen l' < 2 ^ 63.
Proof.
  intros [Hsrc Hsz Hr] E. unfold fill_buf in E.
  assert (Z.of_nat tempbuf_size = 2048) as Ht by reflexivity.
  case_match eqn:E0; to_prop.
  - destruct (rd_read tempbuf_size (lr_r l)) as [[d e] r'] eqn:Er.
    apply rd_read_spec in Er as (Hok & Hlen & Hs); [|done]. simplify_eq.
    unfold limited_stream, pending; simpl. rewrite E0, Hs. simpl.
    rewrite Nat2Z.id, drop_0, take_app_length. split_and!; try done; [|lia].
    constructor; simpl; [done| |lia].
    rewrite length_app, length_drop. lia.
  - simplify_eq. split_and!; [done..|lia].
Qed.

Lemma pending_length l : reader_ok l -> length (pending l) = Z.to_nat (lr_llen l).
Proof.
  intros [_ Hsz Hr]. unfold pending. rewrite length_take, length_drop, Hsz. lia.
Qed.

(** One [Read]: never a panic, and the bytes returned are exactly taken off
    the front of the stream. *)
Lemma LimitedReader_Read_spec ctx_err now plen l a :
  reader_ok l -> action_ok a ->
  exists d e l' a', LimitedReader_Read ctx_err now plen l a = Ret ((d, e), l', a') /\
    reader_ok l' /\ action_ok a' /\ (length d <= plen)%nat /\
    limited_stream l = d ++ limited_stream l' /\
    (e = None -> plen <> 0%nat -> d <> []).
Proof.
  intros Hl Ha. unfold LimitedReader_Read. destruct ctx_err as [e|].
  { exists [], (Some e), l, a. split_and!; try done. simpl; lia. }
  destruct (fill_buf l) as [l1 err] eqn:Ef.
  apply fill_buf_spec in Ef as (Hl1 & Hs & Hb); [|done]. rewrite <- Hs.
  destruct err as [e|].
  { exists [], (Some e), l1, a. split_and!; try done. simpl; lia. }
  destruct (lr_llen l1 <=? 0) eqn:E0; to_prop.
  { exists [], (Some EOF), l1, a. split_and!; try done. simpl; lia. }
  destruct (GetReadSize_spec now (lr_llen l1) a Ha ltac:(lia))
    as (size & a1 & -> & Ha1 & _ & Hs0 & Hsd & _ & _). simpl.
  set (size' := if size <=? 0 then 1 else size).
  assert (1 <= size' <= lr_llen l1) as Hsz by (unfold size'; case_match; to_prop; lia).
  set (n := if Z.of_nat plen >? size' then Z.to_nat size' else plen).
  assert ((n <= plen)%nat /\ Z.of_nat n <= lr_llen l1 /\ (plen <> 0 -> n <> 0)%nat)
    as (Hn1 & Hn2 & Hn3).
  { unfold n. rewrite Z.gtb_ltb. case_match; to_prop; lia. }
  pose proof Hl1 as [Hok1 Hsz1 Hr1]. assert (Z.of_nat tempbuf_size = 2048) as Ht by reflexivity.
  assert (length (drop (lr_off l1) (lr_tempbuf l1)) = tempbuf_size - lr_off l1)%nat as Hlen
    by (rewrite length_drop; lia).
  rewrite bool_decide_eq_true_2 by lia.
  rewrite i64_small by (unfold in_signed; lia).
  do 4 eexists. split; [reflexivity|]. split_and!; try done.
  - constructor; simpl; [done..|lia].
  - rewrite length_take. lia.
  - unfold limited_stream, pending; simpl. rewrite app_assoc. f_equal.
    rewrite <- drop_drop. set (buf := drop _ _).
    replace (Z.to_nat (lr_llen l1)) with (n + Z.to_nat (lr_llen l1 - Z.of_nat n))%nat by lia.
    by rewrite <- take_take_drop.
  - intros _ Hp Hd. apply (f_equal length) in Hd. rewrite length_take in Hd.
    simpl in Hd. specialize (Hn3 Hp). lia.
Qed.

#[global] Program Instance limited_stream_reader : StreamReader (limited_conn R) := {|
  rd_ok s := reader_ok (lc_reader s) /\ Forall (fun e => action_ok (snd e)) (lc_env s);
  rd_stream s := limited_stream (lc_reader s)
|}.
Next Obligation.
  intros n [l [|[[ctx_err now] a] env]] d e r' [Hl Ha]; unfold rd_read, limited_conn_reader;
    simpl in *; [intros [= <- <- <-]; simpl; split_and!; (done || lia)|].
  inv Ha. simpl in *.
  destruct (LimitedReader_Read_spec ctx_err now n l a Hl ltac:(done))
    as (d' & e' & l' & a' & -> & Hl' & ? & ? & ? & _).
  by intros [= <- <- <-].
Qed.
End reader_spec.

(** ** Relaying a connection to its end *)

(** A client that sends its data in non-empty segments and then closes. *)
Definition closing_conn (c : Conn) : Prop :=
  Forall (fun seg => seg <> []) (conn_in c) /\ conn_in_err c = EOF.

Lemma closing_conn_Read n c d e c' :
  (0 < n)%nat -> closing_conn c -> conn_Read n c = ((d, e), c') ->
  closing_conn c' /\
  (e = None /\ d <> [] \/ e = Some EOF /\ d = [] /\ conn_stream c = []).
Proof.
  unfold closing_conn, conn_Read, conn_stream. intros Hn [Hs He] E.
  destruct c as [[|seg rest] ie o oe]; simpl in *; [naive_solver|].
  apply Forall_cons_1 in Hs as [Hseg Hrest].
  case_bool_decide; simplify_eq/=; [naive_solver|].
  split; [split; [constructor; [|done]|done]|left; split; [done|]];
    intros Hd; apply (f_equal length) in Hd;
    rewrite ?length_drop, ?length_take in Hd; simpl in Hd; lia.
Qed.

Lemma fill_buf_closing l l1 err :
  reader_ok l -> closing_conn (lr_r l) -> fill_buf l = (l1, err) ->
  closing_conn (lr_r l1) /\
  (err = None /\ 0 < lr_llen l1 \/ err = Some EOF /\ limited_stream l = []).
Proof.
  intros Hl Hc Ef. unfold fill_buf in Ef. destruct (lr_llen l =? 0) eqn:E0; to_prop.
  - destruct (rd_read tempbuf_size (lr_r l)) as [[d1 e1] r1] eqn:Er.
    apply closing_conn_Read in Er as [Hc1 Hcase]; [|unfold tempbuf_size; lia|done].
    simplify_eq. split; [done|]. destruct Hcase as [[-> Hd]|(-> & -> & Hnil)].
    + left. split; [done|]. destruct d1; [done|simpl; lia].
    + right. split; [done|]. unfold limited_stream, pending. by rewrite E0.
  - simplify_eq. split; [done|]. left. split; [done|]. destruct Hl; lia.
Qed.

(** A [Read] on such a client delivers at least a byte until the stream is
    exhausted, and then reports the end of file. *)
Lemma LimitedReader_Read_progress now plen l a :
  reader_ok l -> closing_conn (lr_r l) -> action_ok a -> (0 < plen)%nat ->
  exists d e l' a', LimitedReader_Read None now plen l a = Ret ((d, e), l', a') /\
    reader_ok l' /\ closing_conn (lr_r l') /\ limited_stream l = d ++ limited_stream l' /\
    (e = None /\ d <> [] \/ e = Some EOF /\ d = [] /\ limited_stream l = []).
Proof.
  intros Hl Hc Ha Hp.
  destruct (LimitedReader_Read_spec None now plen l a Hl Ha)
    as (d & e & l' & a' & E & Hl' & Ha' & Hlen & Hs & Hprog).
  exists d, e, l', a'. split; [done|]. split; [done|].
  unfold LimitedReader_Read in E. destruct (fill_buf l) as [l1 err] eqn:Ef.
  destruct (fill_buf_closing l l1 err Hl Hc Ef) as [Hc1 [[-> Hpos]|[-> Hnil]]].
  - rewrite (proj2 (Z.leb_gt _ _) Hpos) in E.
    destruct (GetReadSize now (lr_llen l1) a) as [[size a2]|]; [|done]. simpl in E.
    case_bool_decide; [|done]. injection E as E1 E2 E3 E4. subst e l'.
    split_and!; [done..|]. left. split; [done|]. apply Hprog; [done|lia].
  - simplify_eq. split_and!; [done..|]. by right.
Qed.

(** With an environment for each call, the copy delivers everything. *)
Lemma relay_all fuel l env target :
  reader_ok l -> closing_conn (lr_r l) ->
  Forall (fun e => fst (fst e) = None /\ action_ok (snd e)) env ->
  conn_out_err target = None ->
  (length (limited_stream l) < fuel)%nat -> (length (limited_stream l) < length env)%nat ->
  exists s' target', CopyBuffer fuel (Z.to_nat (2 * 1024)) (mkLimited l env) target
      = (Copied None, s', target') /\
    concat (conn_out target') = concat (conn_out target) ++ limited_stream l.
Proof.
  revert l env target. induction fuel as [|fuel IH]; intros l env target Hl Hc He Ht Hf Hn; [lia|].
  destruct env as [|[[ctx now] a] env]; [simpl in Hn; lia|].
  apply Forall_cons_1 in He as [[Hctx Ha] He]; simpl in Hctx, Ha; subst ctx.
  destruct (LimitedReader_Read_progress now (Z.to_nat (2 * 1024)) l a Hl Hc Ha ltac:(lia))
    as (d & e & l' & a' & E & Hl' & Hc' & Hs & Hcase).
  assert (rd_read (Z.to_nat (2 * 1024)) (mkLimited l ((None, now, a) :: env))
    = ((d, e), mkLimited l' env)) as Er
    by (unfold rd_read, limited_conn_reader; cbn [lc_env lc_reader]; by rewrite E).
  cbn [CopyBuffer]. rewrite Er. clear Er E.
  destruct Hcase as [[-> Hd]|(-> & -> & Hnil)].
  - destruct d as [|b d]; [done|].
    assert (wr_write (b :: d) target = ((length (b :: d), None),
      mkConn (conn_in target) (conn_in_err target) (conn_out target ++ [b :: d]) None)) as Ew
      by (unfold wr_write, conn_writer, conn_Write; by rewrite Ht).
    rewrite Ew, !bool_decide_eq_false_2 by lia.
    rewrite Hs, length_app in Hf, Hn. simpl in Hf, Hn.
    destruct (IH l' env (mkConn (conn_in target) (conn_in_err target)
      (conn_out target ++ [b :: d]) None) Hl' Hc' He eq_refl ltac:(lia) ltac:(lia))
      as (s' & target' & -> & Hout).
    exists s', target'. split; [done|]. rewrite Hout, Hs. simpl.
    by rewrite concat_app, <- !app_assoc; simpl; rewrite app_nil_r.
  - do 2 eexists. split; [done|]. by rewrite Hnil, app_nil_r.
Qed.

Lemma update_action_ok rate burst l :
  in_i64 rate -> in_i64 burst -> action_ok l -> action_ok (UpdateParameter rate burst l).
Proof.
  intros Hr Hb Hok. destruct (parameters_spec rate burst Hr Hb) as (? & ? & ?).
  constructor; cbn [readRate readBurst residReadueBurst slimitMaxFlow slimitArray
    UpdateParameter]; try apply Hok; try done; lia.
Qed.

(** ** Properties *)

(** A fresh bucket satisfies the invariant, and so does every bucket after
    [UpdateParameter], whatever the configured rate and burst ([int] values;
    non-positive ones select the defaults). *)
Theorem bucket_parameters_ok now rate burst l :
  in_i64 rate -> in_i64 burst -> action_ok l ->
  action_ok (NewLimitedReaderAction now rate burst) /\
  action_ok (UpdateParameter rate burst l).
Proof.
  intros Hr Hb Hok. split; [by apply new_action_ok|by apply update_action_ok].
Qed.

Lemma bucket_parameters_ok_witness :
  action_ok (NewLimitedReaderAction 7 0 16) /\
  action_ok (UpdateParameter 0 16 (NewLimitedReaderAction 7 1000000 6000000)).
Proof.
  apply (bucket_parameters_ok 7 0 16 (NewLimitedReaderAction 7 1000000 6000000));
    [unfold in_signed; lia..|apply new_action_ok; unfold in_signed; lia].
Defined.

(** Safety of one call: on a bucket satisfying the invariant
    [GetReadSize] never panics, keeps the invariant and the parameters, and
    grants between 0 and [min dataLen readRate] bytes. *)
Theorem GetReadSize_safe now dataLen l :
  action_ok l -> 0 <= dataLen < 2 ^ 63 ->
  exists size l', GetReadSize now dataLen l = Ret (size, l') /\ action_ok l' /\
    same_params l l' /\ 0 <= size <= Z.min dataLen (readRate l).
Proof.
  intros Hok Hd. destruct (GetReadSize_spec now dataLen l Hok Hd)
    as (size & l' & E & Hok' & Hp & ? & ? & ? & _).
  exists size, l'. split_and!; try done; try apply Hp; lia.
Qed.

Lemma GetReadSize_safe_witness :
  GetReadSize 7 500 (NewLimitedReaderAction 7 100 6000) =
    Ret (100, mkAction 100 6000 7 6000 1 [750; 650; 750; 750; 750; 750; 750; 750] 750) /\
  exists size l', GetReadSize 7 500 (NewLimitedReaderAction 7 100 6000) = Ret (size, l') /\
    action_ok l' /\ same_params (NewLimitedReaderAction 7 100 6000) l' /\
    0 <= size <= Z.min 500 100.
Proof.
  split; [reflexivity|].
  apply (GetReadSize_safe 7 500 (NewLimitedReaderAction 7 100 6000)); [|lia].
  apply new_action_ok; unfold in_signed; lia.
Defined.

(** C4. The rate limit: over any sequence of reads of a bucket, at any
    times, every call is granted at most what it asked for, and all calls
    together at most the budget at the start plus one burst for each change
    of the second. In particular calls within the second of the last refill
    never exceed the budget. *)
Theorem rate_limit calls l :
  action_ok l -> Forall valid_call calls ->
  exists sizes l', run_reads calls l = Ret (sizes, l') /\ action_ok l' /\
    Forall2 (fun c size => 0 <= size <= snd c) calls sizes /\
    sumZ sizes <= budget l + readBurst l * changes (nowTimeUnix l) calls.
Proof.
  intros Hok Hv. destruct (run_reads_spec calls l (nowTimeUnix l) Hok Hv)
    as (sizes & l' & E & Hok' & Hp & Hf & Hb).
  exists sizes, l'. split_and!; try done.
  pose proof (budget_nonneg l' Hok'). rewrite Z.eqb_refl in Hb. nia.
Qed.

Lemma rate_limit_witness :
  exists sizes l', run_reads [(7, 500); (7, 40); (8, 900)] (NewLimitedReaderAction 7 100 6000)
    = Ret (sizes, l') /\ action_ok l' /\
    Forall2 (fun c size => 0 <= size <= snd c) [(7, 500); (7, 40); (8, 900)] sizes /\
    sumZ sizes <= 12000 + 6000 * 1.
Proof.
  apply (rate_limit [(7, 500); (7, 40); (8, 900)] (NewLimitedReaderAction 7 100 6000)).
  - apply new_action_ok; unfold in_signed; lia.
  - repeat constructor; simpl; lia.
Defined.

(** The burst is not a per-second bound: with the configuration
    [initNacosConf] falls back to (rate 1000000, burst 6000000), sixteen reads
    within the very second the bucket was created are granted twice the burst,
    because the slices start full and the global budget is still untouched. *)
Theorem first_second_grants_twice_the_burst :
  exists sizes l',
    run_reads (replicate 16 (7, 750000)) (NewLimitedReaderAction 7 1000000 6000000)
      = Ret (sizes, l') /\ sumZ sizes = 2 * readBurst l' /\ nowTimeUnix l' = 7.
Proof. do 2 eexists. split; [vm_compute; reflexivity|done]. Qed.

(** A configured burst below the number of slices (1 to 7 bytes) gives
    every slice the share 0: the bucket never grants a byte, at any time, and
    a connection only advances by the one byte [Read] forces through. *)
Theorem small_burst_starves calls now rate burst :
  in_i64 rate -> 0 < burst < LimitshareSize -> Forall valid_call calls ->
  exists l', run_reads calls (NewLimitedReaderAction now rate burst)
    = Ret (replicate (length calls) 0, l').
Proof.
  unfold LimitshareSize. intros Hr Hb Hv.
  assert (starved (NewLimitedReaderAction now rate burst)) as Hs.
  { split_and!; [apply new_action_ok; [done|unfold in_signed; lia]|..];
      unfold NewLimitedReaderAction, LimitshareSize; cbn [slimitMaxFlow slimitArray];
      rewrite (proj2 (Z.leb_gt burst 0)), Z.quot_small by lia; done. }
  revert Hs. generalize (NewLimitedReaderAction now rate burst).
  induction Hv as [|[t d] calls Hc Hv IH]; intros l Hs; simpl; [eauto|].
  destruct (GetReadSize_starved t d l Hs Hc) as (l1 & -> & Hs1). simpl.
  destruct (IH l1 Hs1) as (l2 & ->). simpl. eauto.
Qed.

Lemma small_burst_starves_witness :
  exists l', run_reads [(3, 100); (3, 100); (4, 1)] (NewLimitedReaderAction 3 1000 7)
    = Ret ([0; 0; 0], l').
Proof.
  apply (small_burst_starves [(3, 100); (3, 100); (4, 1)] 3 1000 7);
    [unfold in_signed; lia|unfold LimitshareSize; lia|repeat constructor; simpl; lia].
Defined.

(** The limiter is transparent: [Read] on a well-formed [LimitedReader]
    over any stream never panics, returns at most [len(p)] bytes, and these
    are exactly the next bytes of the source's stream; when it reports no
    error and the buffer is not empty, it returns at least one byte. *)
Theorem limited_read_is_transparent (R : Type) `{StreamReader R} ctx_err now plen
    (l : LimitedReader R) a :
  reader_ok l -> action_ok a ->
  exists d e l' a', LimitedReader_Read ctx_err now plen l a = Ret ((d, e), l', a') /\
    reader_ok l' /\ action_ok a' /\ (length d <= plen)%nat /\
    limited_stream l = d ++ limited_stream l' /\
    (e = None -> plen <> 0%nat -> d <> []).
Proof. apply LimitedReader_Read_spec. Qed.

Definition demo_client : Conn :=
  mkConn [[Byte.x41; Byte.x42; Byte.x43]; [Byte.x44]] EOF [] None.

Lemma limited_read_is_transparent_witness :
  exists d e l' a',
    LimitedReader_Read None 7 2 (NewLimitedReader demo_client) (NewLimitedReaderAction 7 1000 16)
      = Ret ((d, e), l', a') /\
    reader_ok l' /\ action_ok a' /\ (length d <= 2)%nat /\
    limited_stream (NewLimitedReader demo_client) = d ++ limited_stream l' /\
    (e = None -> 2%nat <> 0%nat -> d <> []).
Proof.
  apply (limited_read_is_transparent Conn None 7 2 (NewLimitedReader demo_client)
    (NewLimitedReaderAction 7 1000 16)).
  - constructor; [done|reflexivity|cbn; lia].
  - apply new_action_ok; unfold in_signed; lia.
Defined.

(** C34. End-to-end relay, [io.CopyBuffer(target, NewLimitedReader(client),
    2KB)]: for a client that sends any segments and closes, with the bucket in
    any valid state at each read and enough reads for the data, the copy
    terminates with end of file and the target has received exactly the
    client's bytes, in order. *)
Theorem relay_delivers_everything client target env fuel :
  closing_conn client -> conn_out_err target = None ->
  Forall (fun e => fst (fst e) = None /\ action_ok (snd e)) env ->
  (length (conn_stream client) < fuel)%nat ->
  (length (conn_stream client) < length env)%nat ->
  exists s' target',
    CopyBuffer fuel (Z.to_nat (2 * 1024)) (mkLimited (NewLimitedReader client) env) target
      = (Copied None, s', target') /\
    concat (conn_out target') = concat (conn_out target) ++ conn_stream client.
Proof.
  intros Hc Ht He Hf Hn.
  apply (relay_all fuel (NewLimitedReader client) env target); try done.
Qed.

Lemma relay_delivers_everything_witness :
  exists s' target',
    CopyBuffer 5 (Z.to_nat (2 * 1024))
      (mkLimited (NewLimitedReader demo_client)
         (replicate 5 (None, 7, NewLimitedReaderAction 7 2 16)))
      (mkConn [] EOF [] None) = (Copied None, s', target') /\
    concat (conn_out target') = [Byte.x41; Byte.x42; Byte.x43; Byte.x44].
Proof.
  apply (relay_delivers_everything demo_client (mkConn [] EOF [] None)
    (replicate 5 (None, 7, NewLimitedReaderAction 7 2 16)) 5); try done; try (simpl; lia).
  - split; [repeat constructor; done|done].
  - apply Forall_replicate. split; [done|]. apply new_action_ok; unfold in_signed; lia.
Defined.
