(* ===== verification/Config.v ===== *)
(** * The configuration file and the deadlines it sets
    ([config/], [server/io.go], [common/redis.go])

    [Load] reads the file once and stores what [viper] makes of it; every
    change of the file stores a new value. The reader of the file is a
    parameter. The handlers take the timeouts of a tunnel from the
    configuration: [Conn] sets a deadline before every read and write. *)
From Stdlib Require Import Strings.Byte.
From stdpp Require Import base gmap strings numbers list relations.
From S2P Require Import Prelude GoIO.

(** ** The data *)
Record redis_config := mkRedisConf {
  rAddr : string; rPassword : string; rDB : Z; rMinIdleConns : Z; rMaxIdleConns : Z; rPoolSize : Z
}.
Record rabbitmq_config := mkRabbitConf {
  qHost : string; qPort : Z; qUser : string; qPassword : string; qVirtualHost : string;
  qBlacklistExchange : string; qBlacklistAccesslogQueue : string; qAccesslogToInfluxDBQueue : string
}.
Record nacos_config := mkNacosConf {
  nUrl : string; nPort : Z; nNamespaceId : string; nIpv4GroupName : string; nIpv6GroupName : string;
  nUser : string; nPassword : string; nLocalIP : string
}.

(** The pointers are nil when the file lacks the section. *)
Record confData := mkConfData {
  Ipv4TcpListenerAddress : list string;
  Ipv6TcpListenerAddress : list string;
  Ipv6GatewayIp : list string;
  GrpcListenerAddress : string;
  LogDir : string;
  LocalIp : string;
  ProcessName : string;
  cRedis : option redis_config;
  cRabbitmq : option rabbitmq_config;
  cNacos : option nacos_config;
  OpenShadowSocks : bool;
  ShadowSocksAddress : string;
  ConnReadTimeout : Z;
  ConnWriteTimeout : Z;
  DingtalkAlarmToken : string;
  DingtalkAlarmSecret : string
}.

(** A field through a pointer. *)
Definition deref_conf {A : Type} (p : option A) : outcome A := match p with Some a => Ret a | None => Panic end.

(** ** Loading *)
Section load.
Context {V : Type} (Unmarshal : V -> confData * option error).

(** [confDataInstancePointer]: nil until [Load] has stored. *)
Abbreviation conf_pointer := (option confData).
Definition GetConf (p : conf_pointer) : option confData := p.

(** [Unmarshal] into a new value, an error of which is only printed. *)
Definition store_conf (v : V) : conf_pointer := Some (Unmarshal v).1.
Definition OnConfigChange (v : V) (_ : conf_pointer) : conf_pointer := store_conf v.
Definition Load (read : result error V) (_ : conf_pointer) : outcome conf_pointer :=
  match read with
  | Err _ => Panic
  | Ok v => Ret (store_conf v)
  end.

(** The changes of the file after [Load], in order. *)
Definition changes (vs : list V) (p : conf_pointer) : conf_pointer := fold_left (fun p v => OnConfigChange v p) vs p.

(** The configuration is there once the program runs, and it is what the last
    version of the file gave, even one that was refused. *)
Lemma conf_is_last v vs p :
  Load (Ok v) None = Ret p -> GetConf (changes vs p) = Some (Unmarshal (default v (last vs))).1.
Proof.
  intros [= <-]. unfold changes. destruct vs as [|w vs] using rev_ind; [done|].
  rewrite fold_left_app, last_snoc. done.
Qed.

(** A section of the configuration, as the program reads it on use. *)
Definition rabbitmq_section (p : conf_pointer) : outcome rabbitmq_config :=
  c ← deref_conf (GetConf p); deref_conf (cRabbitmq c).
Definition nacos_section (p : conf_pointer) : outcome nacos_config :=
  c ← deref_conf (GetConf p); deref_conf (cNacos c).
Definition redis_section (p : conf_pointer) : outcome redis_config :=
  c ← deref_conf (GetConf p); deref_conf (cRedis c).

(** The options of [GetRedisDB], whose value is made once. *)
Definition GetRedisDB (p : conf_pointer) : outcome redis_config :=
  r ← redis_section p;
  Ret (mkRedisConf (rAddr r) (rPassword r) (rDB r) (rMinIdleConns r) (rMaxIdleConns r) (rPoolSize r)).

(** A broken edit of the file reaches the running program: when the new
    version cannot be decoded, the value that was decoded so far replaces the
    configuration in use, and the next use of a section that it lacks panics. *)
Theorem broken_file_is_stored v vs bad e p :
  Load (Ok v) None = Ret p -> (Unmarshal bad).2 = Some e -> cRabbitmq (Unmarshal bad).1 = None ->
  rabbitmq_section (changes (vs ++ [bad]) p) = Panic.
Proof.
  intros Hl _ Hn. unfold rabbitmq_section. rewrite (conf_is_last v _ p Hl), last_snoc. simpl. by rewrite Hn.
Qed.
End load.

(** ** Deadlines ([server/io.go])

    Times and durations in nanoseconds. *)
Definition CONN_WRITE_TIME : Z := 180.
Definition CONN_READ_TIME : Z := 180.
Definition second : Z := 1000000000.

Record Conn := mkConnIO { readtimeout : Z; writetimeout : Z }.
(** [time.Duration(s) * time.Second] wraps around. *)
Definition newConn (write read : Z) : Conn := mkConnIO (i64 (read * second)) (i64 (write * second)).

Definition ErrDeadline : error := NetError "i/o timeout" true.

(** An operation of [net.Conn] under a deadline: it fails at once when the
    deadline is over, else it ends when it is [ready], or at the deadline.
    The result comes with the time at which it is there. *)
Definition net_op {A : Type} (now deadline : Z) (ready : option (Z * result error A)) : result error A * Z :=
  if deadline <=? now then (Err ErrDeadline, now)
  else
    match ready with
    | Some (t, r) => if t <? deadline then (r, Z.max now t) else (Err ErrDeadline, deadline)
    | None => (Err ErrDeadline, deadline)
    end.

(** [now] is the time of [time.Now()], and [now'] that of the operation. *)
Definition Conn_Read (c : Conn) (now now' : Z) (ready : option (Z * result error bytes))
  : result error bytes * Z :=
  net_op now' (now + readtimeout c) ready.
Definition Conn_Write (c : Conn) (now now' : Z) (ready : option (Z * result error nat))
  : result error nat * Z :=
  net_op now' (now + writetimeout c) ready.

(** The reads of one direction of a tunnel: each begins when the data of the
    one before was written, after [busy]; the list of what it read ends at the
    first error. *)
Fixpoint reads (c : Conn) (now : Z) (evs : list (option (Z * result error bytes) * Z))
  : list bytes * option (error * Z) :=
  match evs with
  | [] => ([], None)
  | (ready, busy) :: evs' =>
      match Conn_Read c now now ready with
      | (Err e, t) => ([], Some (e, t))
      | (Ok b, t) => let '(bs, fin) := reads c (t + busy) evs' in (b :: bs, fin)
      end
  end.

(** Data that comes in time: each piece before the timeout of its read. *)
Fixpoint in_time (timeout now : Z) (evs : list (Z * bytes * Z)) : Prop :=
  match evs with
  | [] => True
  | (t, _, busy) :: evs' => t < now + timeout /\ 0 <= busy /\ in_time timeout (Z.max now t + busy) evs'
  end.
Definition arrivals (evs : list (Z * bytes * Z)) : list (option (Z * result error bytes) * Z) :=
  (fun '(t, b, busy) => (Some (t, Ok b), busy)) <$> evs.
(** When the read after them begins. *)
Fixpoint idle_since (now : Z) (evs : list (Z * bytes * Z)) : Z :=
  match evs with [] => now | (t, _, busy) :: evs' => idle_since (Z.max now t + busy) evs' end.

Lemma reads_in_time c now evs rest :
  0 < readtimeout c -> in_time (readtimeout c) now evs ->
  reads c now (arrivals evs ++ rest) =
    let '(bs, fin) := reads c (idle_since now evs) rest in (((fun e => e.1.2) <$> evs) ++ bs, fin).
Proof.
  intros Hc. revert now. induction evs as [|[[t b] busy] evs IH]; intros now; csimpl; [by destruct (reads _ _ rest)|].
  intros (Ht & Hb & Hin). unfold Conn_Read, net_op.
  rewrite (proj2 (Z.leb_gt _ _)), (proj2 (Z.ltb_lt _ _)) by lia. rewrite IH by done. by destruct (reads _ _ rest).
Qed.

Lemma newConn_positive w r : 1 <= r <= 9223372036 -> readtimeout (newConn w r) = r * second.
Proof. intros Hr. simpl. unfold second. apply i64_small. unfold in_signed. lia. Qed.

(** No timeout, or a negative one, is a deadline that is always over. *)
Lemma expired c now now' ready :
  readtimeout c <= 0 -> now <= now' -> Conn_Read c now now' ready = (Err ErrDeadline, now').
Proof. intros Hc Hn. unfold Conn_Read, net_op. by rewrite (proj2 (Z.leb_le _ _)) by lia. Qed.

(** C33. The timeouts of a tunnel: with a configured read timeout of [secs]
    seconds, data that comes before each read's deadline is all delivered in
    order however long the tunnel lives, and a silent peer ends it exactly
    [secs] seconds after the last piece was passed on; with a timeout that is
    zero, as it is when the file does not set it, or negative, the first read
    and the first write fail at once, even when data is waiting. *)
Theorem tunnel_timeouts conf now :
  let c := newConn (ConnWriteTimeout conf) (ConnReadTimeout conf) in
  (forall evs, 1 <= ConnReadTimeout conf <= 9223372036 -> in_time (ConnReadTimeout conf * second) now evs ->
     reads c now (arrivals evs) = ((fun e => e.1.2) <$> evs, None) /\
     reads c now (arrivals evs ++ [(None, 0)]) =
       ((fun e => e.1.2) <$> evs, Some (ErrDeadline, idle_since now evs + ConnReadTimeout conf * second))) /\
  (-9223372036 <= ConnReadTimeout conf <= 0 -> forall ready busy rest,
     reads c now ((ready, busy) :: rest) = ([], Some (ErrDeadline, now))) /\
  (-9223372036 <= ConnWriteTimeout conf <= 0 -> forall now' ready, now <= now' ->
     Conn_Write c now now' ready = (Err ErrDeadline, now')).
Proof.
  intros c. split_and!.
  - intros evs Hr Hin. pose proof (newConn_positive (ConnWriteTimeout conf) _ Hr) as E.
    assert (0 < readtimeout c) as Hp by (unfold c; rewrite E; unfold second; lia).
    rewrite <- E in Hin. split.
    + pose proof (reads_in_time c now evs [] Hp Hin) as Hall. simpl in Hall. by rewrite !app_nil_r in Hall.
    + rewrite (reads_in_time c now evs _ Hp Hin). simpl. unfold Conn_Read, net_op.
      rewrite (proj2 (Z.leb_gt _ _)) by lia. rewrite app_nil_r. unfold c. by rewrite E.
  - intros Hr ready busy rest. simpl. rewrite expired; [done| |done]. simpl.
    rewrite i64_small; unfold second, in_signed; lia.
  - intros Hw now' ready Hn. unfold Conn_Write, net_op. rewrite (proj2 (Z.leb_le _ _)); [done|]. simpl.
    rewrite i64_small; unfold second, in_signed; lia.
Qed.

(** A file like the one that comes with the program ([config.yaml]), which sets
    no timeouts; Shadowsocks has its own. *)
Definition without_timeouts : confData :=
  mkConfData [":7777"] [] [] EmptyString "/home/hera_ipv4" "10.0.0.9" "hera_ipv4"
    (Some (mkRedisConf "db:16379" "p" 0 30 500 300))
    (Some (mkRabbitConf "mq" 5672 "u" "p" "/" "blacklist_exchange" "BlacklistRecordsQueue"
      "AccessRecordsToInfluxDBQueue"))
    (Some (mkNacosConf "nacos" 8848 "n" "static_ipv4" "static_ipv6" "u" "p" "10.0.0.9"))
    false ":1234" 0 0 EmptyString EmptyString.
(** The zero value. *)
Definition empty_conf : confData :=
  mkConfData [] [] [] EmptyString EmptyString EmptyString EmptyString None None None false EmptyString 0 0
    EmptyString EmptyString.

Lemma tunnel_timeouts_witness :
  reads (newConn (ConnWriteTimeout without_timeouts) (ConnReadTimeout without_timeouts)) 5
    [(Some (3, Ok [Byte.x41]), 0)] = ([], Some (ErrDeadline, 5)) /\
  reads (newConn CONN_WRITE_TIME CONN_READ_TIME) 5 [(Some (3, Ok [Byte.x41]), 0)] = ([[Byte.x41]], None).
Proof. split; [|reflexivity]. apply (tunnel_timeouts without_timeouts 5). simpl. lia. Defined.

Definition toy_Unmarshal (good : bool) : confData * option error :=
  if good then (without_timeouts, None) else (empty_conf, Some (Errorf "cannot parse 'conn_read_timeout' as int")).

Lemma broken_file_is_stored_witness :
  rabbitmq_section (changes toy_Unmarshal [true; false] (Some without_timeouts)) = Panic.
Proof.
  apply (broken_file_is_stored toy_Unmarshal true [true] false (Errorf "cannot parse 'conn_read_timeout' as int"));
    reflexivity.
Defined.
