(* ===== verification/ConcurrentMap.v ===== *)
(** * The sharded map ([utils/Map/concurrentMap/map.go])

    A map is an array of [SHARD_COUNT] shards, each a Go map guarded by its
    own lock; a key's shard is its hash modulo the number of shards. Every
    operation on one key runs under the shard's lock, so it is one atomic
    function of the state. The operations that read the whole map ([Iter],
    [Items], [Keys], [Clear]) receive the elements of the shards from
    goroutines in an order the scheduler chooses: they are relations.

    The class [CMap] is the contract the server relies on: a map behaves like
    one finite map from keys to values. The sharded implementation is an
    instance of it. *)
From Stdlib Require Import Strings.Byte.
From stdpp Require Import base gmap strings list numbers fin_maps.
From S2P Require Import Prelude.

Definition SHARD_COUNT : Z := 4.

(** ** The interface *)

(** Operations of a concurrent map. Callbacks run while the shard is locked
    and may change the caller's variables: these are threaded as a state. *)
Class CMapOps (K V M : Type) := {
  cm_Upsert : forall S : Type,
    K -> V -> (bool -> V -> V -> S -> V * S) -> M -> S -> outcome (V * M * S);
  cm_RemoveCb : forall S : Type,
    K -> (K -> V -> bool -> S -> bool * S) -> M -> S -> outcome (bool * M * S);
  cm_Pop : K -> M -> outcome (V * bool * M);
  cm_iter : M -> list (K * V) -> Prop
}.

(** The contract: [cm_view] is the map's content as a finite map, [cm_ok] the
    implementation's invariant; [zero] is the zero value of [V], which Go
    returns for an absent key. *)
Class CMap (K V M : Type) `{Countable K} `{CMapOps K V M} (zero : V) := {
  cm_view : M -> gmap K V;
  cm_ok : M -> Prop;
  cm_Upsert_spec : forall S k v cb m (s : S), cm_ok m ->
    let old := cm_view m !! k in
    let '(res, s') := cb (bool_decide (is_Some old)) (default zero old) v s in
    exists m', cm_Upsert S k v cb m s = Ret (res, m', s') /\ cm_ok m' /\
      cm_view m' = <[k := res]> (cm_view m);
  cm_RemoveCb_spec : forall S k cb m (s : S), cm_ok m ->
    let old := cm_view m !! k in
    let '(rm, s') := cb k (default zero old) (bool_decide (is_Some old)) s in
    exists m', cm_RemoveCb S k cb m s = Ret (rm, m', s') /\ cm_ok m' /\
      cm_view m' = if rm then delete k (cm_view m) else cm_view m;
  cm_Pop_spec : forall k m, cm_ok m ->
    exists m', cm_Pop k m =
      Ret (default zero (cm_view m !! k), bool_decide (is_Some (cm_view m !! k)), m') /\
      cm_ok m' /\ cm_view m' = delete k (cm_view m);
  cm_iter_spec : forall m out, cm_ok m -> cm_iter m out -> out ≡ₚ map_to_list (cm_view m)
}.

(** ** The implementation *)

(** [fnv32]: the FNV-1 hash of the key's bytes, in 32-bit arithmetic. *)
Definition fnv32_step (hash : Z) (b : byte) : Z :=
  Z.lxor (u32 (hash * 16777619)) (byte_Z b).
Definition fnv32 (key : string) : Z :=
  fold_left fnv32_step (bytes_of_str key) 2166136261.

Record ConcurrentMap (K V : Type) `{Countable K} := mkCM {
  shards : list (gmap K V);
  sharding : K -> Z
}.
Arguments mkCM {K V _ _} _ _.
Arguments shards {K V _ _} _.
Arguments sharding {K V _ _} _ _.

Section map.
Context {K V : Type} `{Countable K} (zero : V).
Implicit Types (m : ConcurrentMap K V) (k : K) (v : V).

Definition create (sharding : K -> Z) : ConcurrentMap K V :=
  mkCM (replicate (Z.to_nat SHARD_COUNT) ∅) sharding.

(** The index [GetShard] computes; indexing outside [shards] panics. *)
Definition shard_index m k : nat := Z.to_nat (u64 (sharding m k) mod SHARD_COUNT).
Definition GetShard m k : outcome (gmap K V) :=
  match shards m !! shard_index m k with Some sh => Ret sh | None => Panic end.

(** [shard := m.GetShard(key); shard.Lock(); ...; shard.Unlock()]: the body
    [f] of a critical section maps the shard's items to a result and the items
    afterwards. *)
Definition with_shard {A} k m (f : gmap K V -> A * gmap K V)
  : outcome (A * ConcurrentMap K V) :=
  items ← GetShard m k;
  let '(a, items') := f items in
  Ret (a, mkCM (<[shard_index m k := items']> (shards m)) (sharding m)).

Definition Set_ k v m : outcome (ConcurrentMap K V) :=
  '(_, m) ← with_shard k m (fun items => (tt, <[k := v]> items)); Ret m.

(** [MSet(data)], the entries of [data] in the order the range visits them. *)
Fixpoint MSet (data : list (K * V)) m : outcome (ConcurrentMap K V) :=
  match data with
  | [] => Ret m
  | (k, v) :: data' => m ← Set_ k v m; MSet data' m
  end.

Definition upsert_body {S : Type} k v (cb : bool -> V -> V -> S -> V * S) (s : S)
    (items : gmap K V) : (V * S) * gmap K V :=
  let v0 := default zero (items !! k) in
  let ok := bool_decide (is_Some (items !! k)) in
  let '(res, s') := cb ok v0 v s in
  ((res, s'), <[k := res]> items).
Definition Upsert (S : Type) k v (cb : bool -> V -> V -> S -> V * S) m (s : S)
  : outcome (V * ConcurrentMap K V * S) :=
  '(r, m) ← with_shard k m (upsert_body k v cb s); Ret (fst r, m, snd r).

Definition SetIfAbsent k v m : outcome (bool * ConcurrentMap K V) :=
  with_shard k m (fun items =>
    let ok := bool_decide (is_Some (items !! k)) in
    (negb ok, if ok then items else <[k := v]> items)).

Definition Get k m : outcome (V * bool) :=
  items ← GetShard m k;
  Ret (default zero (items !! k), bool_decide (is_Some (items !! k))).

Definition Has k m : outcome bool :=
  items ← GetShard m k; Ret (bool_decide (is_Some (items !! k))).

(** [Count]: the loop over [i < SHARD_COUNT]. *)
Fixpoint count_loop (n i : nat) m (count : Z) : outcome Z :=
  match n with
  | O => Ret count
  | S n' => match shards m !! i with
            | None => Panic
            | Some items => count_loop n' (S i) m (count + Z.of_nat (size items))
            end
  end.
Definition Count m : outcome Z := count_loop (Z.to_nat SHARD_COUNT) 0 m 0.
Definition IsEmpty m : outcome bool := c ← Count m; Ret (c =? 0).

Definition Remove k m : outcome (ConcurrentMap K V) :=
  '(_, m) ← with_shard k m (fun items => (tt, delete k items)); Ret m.

Definition removecb_body {S : Type} k (cb : K -> V -> bool -> S -> bool * S) (s : S)
    (items : gmap K V) : (bool * S) * gmap K V :=
  let v0 := default zero (items !! k) in
  let ok := bool_decide (is_Some (items !! k)) in
  let '(remove, s') := cb k v0 ok s in
  ((remove, s'), if remove && ok then delete k items else items).
Definition RemoveCb (S : Type) k (cb : K -> V -> bool -> S -> bool * S) m (s : S)
  : outcome (bool * ConcurrentMap K V * S) :=
  '(r, m) ← with_shard k m (removecb_body k cb s); Ret (fst r, m, snd r).

Definition Pop k m : outcome (V * bool * ConcurrentMap K V) :=
  with_shard k m (fun items =>
    ((default zero (items !! k), bool_decide (is_Some (items !! k))), delete k items)).

(** ** Iteration *)

(** [snapshot]: one channel per shard, with the shard's entries in the order
    Go's range visits them; a map without shards panics, and returns no
    channels. *)
Definition snapshot m (chans : list (list (K * V))) : Prop :=
  shards m <> [] /\ Forall2 (fun items ch => ch ≡ₚ map_to_list items) (shards m) chans.

(** [fanIn]: the goroutines forward the heads of their channels in any
    interleaving until every channel is drained. *)
Inductive fanIn {A : Type} : list (list A) -> list A -> Prop :=
| fan_done chans : Forall (fun ch => ch = []) chans -> fanIn chans []
| fan_recv chans i x ch out :
    chans !! i = Some (x :: ch) -> fanIn (<[i := ch]> chans) out -> fanIn chans (x :: out).

(** The elements [IterBuffered] (and [Iter]) delivers. *)
Definition IterBuffered m (out : list (K * V)) : Prop :=
  exists chans, snapshot m chans /\ fanIn chans out.

(** [Items]: the entries received are put into a temporary map. *)
Definition collect (out : list (K * V)) : gmap K V :=
  fold_left (fun tmp item => <[item.1 := item.2]> tmp) out ∅.
Definition Items m (tmp : gmap K V) : Prop :=
  exists out, IterBuffered m out /\ tmp = collect out.

(** [Clear]: every key received is removed. *)
Fixpoint remove_all (out : list (K * V)) m : outcome (ConcurrentMap K V) :=
  match out with
  | [] => Ret m
  | item :: out' => m ← Remove item.1 m; remove_all out' m
  end.
Definition Clear m (r : outcome (ConcurrentMap K V)) : Prop :=
  exists out, IterBuffered m out /\ r = remove_all out m.

(** [Keys]: the goroutines send the shards' keys on one channel. *)
Definition Keys m (keys : list K) : Prop :=
  exists chans, Forall2 (fun items ch => ch ≡ₚ (map_to_list items).*1) (shards m) chans /\
    fanIn chans keys.

(** [IterCb]: the callback, with the caller's state, on each entry, shard by
    shard; [order] gives the order of each shard's range. *)
Definition IterCb {S : Type} (fn : K -> V -> S -> S) (order : gmap K V -> list (K * V)) m (s : S) : S :=
  fold_left (fun s items =>
    fold_left (fun s kv => fn kv.1 kv.2 s) (order items) s) (shards m) s.

(** [MarshalJSON] and [UnmarshalJSON], with the encoding of a Go map by
    [encoding/json] as the two parameters; [order] is the order in which the
    range visits the decoded map. *)
Definition MarshalJSON {E} (json_Marshal : gmap K V -> result E bytes) m (r : result E bytes) : Prop :=
  exists tmp, Items m tmp /\ r = json_Marshal tmp.
Definition UnmarshalJSON {E} (json_Unmarshal : bytes -> result E (gmap K V))
    (order : gmap K V -> list (K * V)) (b : bytes) m : outcome (ConcurrentMap K V * option E) :=
  match json_Unmarshal b with
  | Err err => Ret (m, Some err)
  | Ok tmp => m ← MSet (order tmp) m; Ret (m, None)
  end.
End map.

(** [New]: string keys, sharded by [fnv32]; [NewStringer] shards by the hash
    of the key's [String()]. *)
Definition New (V : Type) : ConcurrentMap string V := create fnv32.
Definition strfnv32 {K} (String_ : K -> string) (key : K) : Z := fnv32 (String_ key).
Definition NewStringer {K V} `{Countable K} (String_ : K -> string) : ConcurrentMap K V :=
  create (strfnv32 String_).
Definition NewWithCustomShardingFunction {K V} `{Countable K} (sharding : K -> Z)
  : ConcurrentMap K V := create sharding.

(** ** The invariant and the abstraction *)
Section spec.
Context {K V : Type} `{Countable K} (zero : V).
Implicit Types (m : ConcurrentMap K V) (k : K) (v : V).

(** Every shard holds only the keys that hash to it. *)
Definition map_ok m : Prop :=
  length (shards m) = Z.to_nat SHARD_COUNT /\
  forall i items k, shards m !! i = Some items -> is_Some (items !! k) -> shard_index m k = i.

(** The content of the map: the union of its shards. *)
Definition content m : gmap K V := ⋃ shards m.

Lemma shard_index_lt m k : (shard_index m k < Z.to_nat SHARD_COUNT)%nat.
Proof.
  unfold shard_index, SHARD_COUNT.
  pose proof (Z.mod_pos_bound (u64 (sharding m k)) 4). lia.
Qed.

Lemma lookup_union_list_unique (l : list (gmap K V)) k i :
  (forall j items, l !! j = Some items -> j <> i -> items !! k = None) ->
  (⋃ l) !! k = l !! i ≫= lookup k.
Proof.
  revert i. induction l as [|items l IH]; intros i Hu; [apply lookup_empty|].
  simpl. rewrite lookup_union. destruct i as [|i]; simpl.
  - rewrite (IH (length l)); last first.
    { intros j items' Hj _. by apply (Hu (S j) items'). }
    rewrite (lookup_ge_None_2 l) by lia. simpl. by rewrite (right_id_L None union).
  - rewrite (Hu 0%nat items) by done. rewrite (left_id_L None union).
    apply IH. intros j items' Hj Hne. apply (Hu (S j) items'); [done|lia].
Qed.

Lemma content_lookup m k :
  map_ok m -> content m !! k = shards m !! shard_index m k ≫= lookup k.
Proof.
  intros [_ Hown]. apply lookup_union_list_unique. intros j items Hj Hne.
  destruct (items !! k) eqn:E; [|done].
  by destruct Hne; symmetry; apply (Hown j items); [|rewrite E].
Qed.

Lemma create_ok sh : map_ok (create sh) /\ content (create sh) = (∅ : gmap K V).
Proof.
  split; [split|reflexivity].
  - apply length_replicate.
  - intros i items k Hi [v Hv]. apply lookup_replicate in Hi as [-> _].
    by rewrite lookup_empty in Hv.
Qed.

(** A critical section that touches only its key: it runs on a shard that
    agrees with the content at the key, and its effect on the content is its
    effect on the key. *)
Lemma with_shard_spec {A} k m (f : gmap K V -> A * gmap K V) :
  map_ok m -> (forall items k', k' <> k -> (f items).2 !! k' = items !! k') ->
  exists items, items !! k = content m !! k /\
    exists m', with_shard k m f = Ret ((f items).1, m') /\ map_ok m' /\
      sharding m' = sharding m /\
      content m' = partial_alter (fun _ => (f items).2 !! k) k (content m).
Proof.
  intros Hok Hf. pose proof (shard_index_lt m k) as Hlt. pose proof Hok as [Hlen Hown].
  rewrite <- Hlen in Hlt. destruct (lookup_lt_is_Some_2 _ _ Hlt) as [items Hi].
  exists items. split; [by rewrite content_lookup, Hi|].
  unfold with_shard, GetShard. rewrite Hi. simpl.
  destruct (f items) as [a items'] eqn:E. simpl.
  specialize (Hf items). rewrite E in Hf; simpl in Hf.
  set (m' := mkCM _ _). assert (map_ok m') as Hok'.
  { split; simpl; [by rewrite length_insert|]. intros i sh k' Hsh [v Hv].
    apply list_lookup_insert_Some in Hsh as [(<- & <- & _)|[_ Hsh]].
    - destruct (decide (k' = k)) as [->|Hne]; [done|].
      rewrite Hf in Hv by done. apply (Hown _ items); [done|by rewrite Hv].
    - apply (Hown i sh); [done|by rewrite Hv]. }
  exists m'. split_and!; try done. apply map_eq. intros k'.
  rewrite content_lookup by done. unfold shard_index. simpl. fold (shard_index m k').
  destruct (decide (k' = k)) as [->|Hne].
  - rewrite lookup_partial_alter_eq. by rewrite list_lookup_insert_eq.
  - rewrite lookup_partial_alter_ne, content_lookup by done.
    destruct (decide (shard_index m k' = shard_index m k)) as [Heq|Hneq].
    + rewrite Heq, list_lookup_insert_eq, Hi by done. simpl. by apply Hf.
    + by rewrite list_lookup_insert_ne by done.
Qed.

Lemma Upsert_spec S k v cb m (s : S) :
  map_ok m ->
  let old := content m !! k in
  let '(res, s') := cb (bool_decide (is_Some old)) (default zero old) v s in
  exists m', Upsert zero S k v cb m s = Ret (res, m', s') /\ map_ok m' /\
    content m' = <[k := res]> (content m).
Proof.
  intros Hok. cbv zeta. destruct (cb _ _ _ _) as [res s'] eqn:E. unfold Upsert.
  destruct (with_shard_spec k m (upsert_body zero k v cb s) Hok)
    as (items & Hk & m' & -> & Hok' & _ & Hc); unfold upsert_body in *.
  { intros items k' Hne. destruct (cb (bool_decide (is_Some (items !! k))) _ _ _).
    by apply lookup_insert_ne. }
  rewrite Hk, E in *. simpl in *. exists m'. split_and!; try done.
  by rewrite Hc, lookup_insert_eq.
Qed.

Lemma RemoveCb_spec S k cb m (s : S) :
  map_ok m ->
  let old := content m !! k in
  let '(rm, s') := cb k (default zero old) (bool_decide (is_Some old)) s in
  exists m', RemoveCb zero S k cb m s = Ret (rm, m', s') /\ map_ok m' /\
    content m' = if rm then delete k (content m) else content m.
Proof.
  intros Hok. cbv zeta. destruct (cb _ _ _ _) as [rm s'] eqn:E. unfold RemoveCb.
  destruct (with_shard_spec k m (removecb_body zero k cb s) Hok)
    as (items & Hk & m' & -> & Hok' & _ & Hc); unfold removecb_body in *.
  { intros items k' Hne.
    destruct (cb k (default zero (items !! k)) _ _). simpl.
    case_match; [by rewrite lookup_delete_ne|done]. }
  rewrite Hk, E in *. simpl in *. exists m'. split_and!; try done.
  rewrite Hc. destruct (content m !! k) as [x|] eqn:Ec; destruct rm; simpl.
  - by rewrite lookup_delete_eq.
  - rewrite Hk, <- Ec. apply partial_alter_self.
  - by rewrite Hk.
  - rewrite Hk, <- Ec. apply partial_alter_self.
Qed.

Lemma Pop_spec k m :
  map_ok m ->
  exists m', Pop zero k m =
    Ret (default zero (content m !! k), bool_decide (is_Some (content m !! k)), m') /\
    map_ok m' /\ content m' = delete k (content m).
Proof.
  intros Hok. unfold Pop.
  destruct (with_shard_spec k m (fun items => ((default zero (items !! k),
    bool_decide (is_Some (items !! k))), delete k items)) Hok)
    as (items & Hk & m' & -> & Hok' & _ & Hc).
  { intros items k' Hne. simpl. by rewrite lookup_delete_ne. }
  simpl in *. rewrite Hk in *. exists m'. split_and!; try done.
  by rewrite Hc, lookup_delete_eq.
Qed.

Lemma Set_spec k v m :
  map_ok m -> exists m', Set_ k v m = Ret m' /\ map_ok m' /\ content m' = <[k := v]> (content m).
Proof.
  intros Hok. unfold Set_.
  destruct (with_shard_spec k m (fun items => (tt, <[k := v]> items)) Hok)
    as (items & Hk & m' & -> & Hok' & _ & Hc).
  { intros items k' Hne. simpl. by rewrite lookup_insert_ne. }
  simpl in *. exists m'. split_and!; try done. by rewrite Hc, lookup_insert_eq.
Qed.

Lemma Remove_spec k m :
  map_ok m -> exists m', Remove k m = Ret m' /\ map_ok m' /\ content m' = delete k (content m).
Proof.
  intros Hok. unfold Remove.
  destruct (with_shard_spec k m (fun items => (tt, delete k items)) Hok)
    as (items & Hk & m' & -> & Hok' & _ & Hc).
  { intros items k' Hne. simpl. by rewrite lookup_delete_ne. }
  simpl in *. exists m'. split_and!; try done. by rewrite Hc, lookup_delete_eq.
Qed.

Lemma SetIfAbsent_spec k v m :
  map_ok m ->
  exists m', SetIfAbsent k v m = Ret (bool_decide (content m !! k = None), m') /\ map_ok m' /\
    content m' = match content m !! k with Some _ => content m | None => <[k := v]> (content m) end.
Proof.
  intros Hok. unfold SetIfAbsent.
  destruct (with_shard_spec k m (fun items =>
    (negb (bool_decide (is_Some (items !! k))),
     if bool_decide (is_Some (items !! k)) then items else <[k := v]> items)) Hok)
    as (items & Hk & m' & -> & Hok' & _ & Hc).
  { intros items k' Hne. simpl. case_match; [done|by rewrite lookup_insert_ne]. }
  simpl in *. rewrite Hk in *. exists m'.
  destruct (content m !! k) as [x|] eqn:Ec; simpl in *; split_and!; try done.
  - rewrite Hc, Hk, <- Ec. apply partial_alter_self.
  - by rewrite Hc, lookup_insert_eq.
Qed.

Lemma GetShard_spec k m :
  map_ok m -> exists items, GetShard m k = Ret items /\ items !! k = content m !! k.
Proof.
  intros Hok. pose proof (shard_index_lt m k) as Hlt. rewrite <- (proj1 Hok) in Hlt.
  destruct (lookup_lt_is_Some_2 _ _ Hlt) as [items Hi]. exists items.
  unfold GetShard. by rewrite content_lookup, Hi.
Qed.

(** ** Iteration delivers the content *)

Lemma fanIn_perm {A} (chans : list (list A)) out : fanIn chans out -> out ≡ₚ concat chans.
Proof.
  induction 1 as [chans Hf|chans i x ch out Hi _ IH].
  - induction Hf; simplify_eq/=; done.
  - rewrite IH. clear IH. revert i Hi.
    induction chans as [|c chans IH]; intros [|i] Hi; simplify_eq/=; [done|].
    by rewrite Permutation_middle, IH.
Qed.

(** The goroutines of [fanIn] can always finish. *)
Lemma fanIn_total {A} (chans : list (list A)) : fanIn chans (concat chans).
Proof.
  cut (forall pre, fanIn (replicate pre [] ++ chans) (concat chans)); [intros Hc; apply (Hc 0%nat)|].
  induction chans as [|ch chans IH]; intros pre; simpl.
  - apply fan_done. rewrite app_nil_r. by apply Forall_replicate.
  - induction ch as [|x ch IHc]; simpl.
    + specialize (IH (S pre)). by rewrite replicate_S_end, <- app_assoc in IH.
    + apply (fan_recv _ pre x ch).
      * by rewrite lookup_app_r, length_replicate, Nat.sub_diag by (rewrite length_replicate; lia).
      * rewrite insert_app_r_alt, length_replicate, Nat.sub_diag
          by (rewrite length_replicate; lia). exact IHc.
Qed.

Lemma map_to_list_disj_union (m1 m2 : gmap K V) :
  m1 ##ₘ m2 -> map_to_list (m1 ∪ m2) ≡ₚ map_to_list m1 ++ map_to_list m2.
Proof.
  intros Hd. apply NoDup_Permutation; [apply NoDup_map_to_list|..].
  - apply NoDup_app. split_and!; try apply NoDup_map_to_list.
    intros [k v] H1%elem_of_map_to_list H2%elem_of_map_to_list.
    by apply (map_disjoint_spec m1 m2) with (i := k) (x := v) (y := v) in Hd.
  - intros [k v]. rewrite elem_of_app, !elem_of_map_to_list. by apply lookup_union_Some.
Qed.

(** Shards that own their keys are pairwise disjoint. *)
Definition separate (l : list (gmap K V)) : Prop :=
  forall i j x y k, l !! i = Some x -> l !! j = Some y ->
    is_Some (x !! k) -> is_Some (y !! k) -> i = j.

Lemma separate_cons x l : separate (x :: l) -> separate l /\ x ##ₘ ⋃ l.
Proof.
  intros Hs. split.
  - intros i j x' y k Hi Hj Hx Hy. enough (S i = S j) by lia. by eapply Hs.
  - apply map_disjoint_union_list_r_2, Forall_lookup. intros j y Hj.
    apply map_disjoint_spec. intros k v1 v2 H1 H2.
    by assert (S j = 0%nat) by (by eapply (Hs (S j) 0%nat y x k)).
Qed.

Lemma map_ok_separate m : map_ok m -> separate (shards m).
Proof. intros [_ Ho] i j x y k Hi Hj Hx Hy. rewrite <- (Ho i x k), <- (Ho j y k); done. Qed.

Lemma separate_to_list l : separate l -> map_to_list (⋃ l) ≡ₚ concat (map_to_list <$> l).
Proof.
  induction l as [|x l IH]; intros Hs; [apply reflexive_eq, map_to_list_empty|].
  apply separate_cons in Hs as [Hs Hd]. simpl.
  by rewrite map_to_list_disj_union, IH by done.
Qed.

Lemma separate_size l : separate l -> size (⋃ l) = sum_list (size <$> l).
Proof.
  induction l as [|x l IH]; intros Hs; [by apply map_size_empty|].
  apply separate_cons in Hs as [Hs Hd]. simpl. by rewrite map_size_disj_union, IH by done.
Qed.

Lemma concat_perm_pointwise {A B} (f : A -> list B) l chans :
  Forall2 (fun x ch => ch ≡ₚ f x) l chans -> concat chans ≡ₚ concat (f <$> l).
Proof. induction 1 as [|x ch l chans Hx _ IH]; simpl; [done|]. by rewrite Hx, IH. Qed.

Lemma IterBuffered_perm m out :
  map_ok m -> IterBuffered m out -> out ≡ₚ map_to_list (content m).
Proof.
  intros Hok (chans & [_ Hs] & Hf%fanIn_perm). rewrite Hf.
  unfold content. rewrite separate_to_list by by apply map_ok_separate.
  by apply concat_perm_pointwise.
Qed.

(** One schedule: the shards are drained one after the other. *)
Definition shard_order m : list (K * V) := concat (map_to_list <$> shards m).

Lemma shard_order_iter m : map_ok m -> IterBuffered m (shard_order m).
Proof.
  intros [Hlen _]. exists (map_to_list <$> shards m). split; [split|apply fanIn_total].
  - intros Hn. by rewrite Hn in Hlen.
  - apply Forall2_fmap_r, Forall_Forall2_diag, Forall_true. intros items. unfold compose. reflexivity.
Qed.

Lemma IterBuffered_total m : map_ok m -> exists out, IterBuffered m out.
Proof. eauto using shard_order_iter. Qed.

Lemma collect_perm out (m : gmap K V) : out ≡ₚ map_to_list m -> collect out = m.
Proof.
  intros Hp. assert (collect out = list_to_map (rev out)) as ->.
  { unfold collect.
    trans (foldr (fun item tmp => <[item.1 := item.2]> tmp) ∅ (rev out) : gmap K V);
      [by rewrite fold_left_rev_right|].
    induction (rev out) as [|[k v] l IH]; simpl; [done|by rewrite IH]. }
  symmetry. apply list_to_map_flip. by rewrite <- Hp, <- Permutation_rev.
Qed.
End spec.

(** ** The sharded map implements the interface *)
#[global] Instance sharded_ops {K V} `{Countable K} (zero : V) : CMapOps K V (ConcurrentMap K V) := {|
  cm_Upsert := Upsert zero;
  cm_RemoveCb := RemoveCb zero;
  cm_Pop := Pop zero;
  cm_iter := IterBuffered
|}.

#[global] Instance sharded_cmap {K V} `{Countable K} (zero : V)
  : CMap (H0 := sharded_ops zero) K V (ConcurrentMap K V) zero :=
  Build_CMap K V (ConcurrentMap K V) _ _ (sharded_ops zero) zero content map_ok
    (Upsert_spec zero) (RemoveCb_spec zero) (Pop_spec zero) IterBuffered_perm.

(** ** Sequences of operations *)

(** A linearised run of the map: the operations on one key and the sizes, in
    the order they take their locks, and what each returned. *)
Section runs.
Context {K V : Type} `{Countable K} (zero : V).

Inductive op :=
| OSet (k : K) (v : V)
| OMSet (data : list (K * V))
| OUpsert (k : K) (v : V) (cb : bool -> V -> V -> V)
| OSetIfAbsent (k : K) (v : V)
| OGet (k : K)
| OHas (k : K)
| OCount
| OIsEmpty
| ORemove (k : K)
| ORemoveCb (k : K) (cb : K -> V -> bool -> bool)
| OPop (k : K).

Inductive reply :=
| RUnit
| RVal (v : V)
| RBool (b : bool)
| RFound (v : V) (b : bool)
| RInt (n : Z).

Definition exec (o : op) (m : ConcurrentMap K V) : outcome (reply * ConcurrentMap K V) :=
  match o with
  | OSet k v => m ← Set_ k v m; Ret (RUnit, m)
  | OMSet data => m ← MSet data m; Ret (RUnit, m)
  | OUpsert k v cb =>
      '(r, m, _) ← Upsert zero unit k v (fun e x y s => (cb e x y, s)) m tt; Ret (RVal r, m)
  | OSetIfAbsent k v => '(b, m) ← SetIfAbsent k v m; Ret (RBool b, m)
  | OGet k => '(v, b) ← Get zero k m; Ret (RFound v b, m)
  | OHas k => b ← Has k m; Ret (RBool b, m)
  | OCount => n ← Count m; Ret (RInt n, m)
  | OIsEmpty => b ← IsEmpty m; Ret (RBool b, m)
  | ORemove k => m ← Remove k m; Ret (RUnit, m)
  | ORemoveCb k cb =>
      '(b, m, _) ← RemoveCb zero unit k (fun k x e s => (cb k x e, s)) m tt; Ret (RBool b, m)
  | OPop k => '(v, b, m) ← Pop zero k m; Ret (RFound v b, m)
  end.

Fixpoint exec_all (os : list op) (m : ConcurrentMap K V) : outcome (list reply * ConcurrentMap K V) :=
  match os with
  | [] => Ret ([], m)
  | o :: os' =>
      '(r, m) ← exec o m; '(rs, m) ← exec_all os' m; Ret (r :: rs, m)
  end.

(** The specification: the same operations on one finite map. *)
Definition spec_exec (o : op) (g : gmap K V) : reply * gmap K V :=
  let found k := RFound (default zero (g !! k)) (bool_decide (is_Some (g !! k))) in
  match o with
  | OSet k v => (RUnit, <[k := v]> g)
  | OMSet data => (RUnit, fold_left (fun g kv => <[kv.1 := kv.2]> g) data g)
  | OUpsert k v cb =>
      let r := match g !! k with Some x => cb true x v | None => cb false zero v end in
      (RVal r, <[k := r]> g)
  | OSetIfAbsent k v =>
      match g !! k with Some _ => (RBool false, g) | None => (RBool true, <[k := v]> g) end
  | OGet k => (found k, g)
  | OHas k => (RBool (bool_decide (k ∈ dom g)), g)
  | OCount => (RInt (Z.of_nat (size g)), g)
  | OIsEmpty => (RBool (bool_decide (size g = 0%nat)), g)
  | ORemove k => (RUnit, delete k g)
  | ORemoveCb k cb =>
      let b := match g !! k with Some x => cb k x true | None => cb k zero false end in
      (RBool b, if b then delete k g else g)
  | OPop k => (found k, delete k g)
  end.

Fixpoint spec_exec_all (os : list op) (g : gmap K V) : list reply * gmap K V :=
  match os with
  | [] => ([], g)
  | o :: os' =>
      let '(r, g') := spec_exec o g in
      let '(rs, g'') := spec_exec_all os' g' in (r :: rs, g'')
  end.

Lemma MSet_spec data (m : ConcurrentMap K V) :
  map_ok m -> exists m', MSet data m = Ret m' /\ map_ok m' /\
    content m' = fold_left (fun g kv => <[kv.1 := kv.2]> g) data (content m).
Proof.
  revert m. induction data as [|[k v] data IH]; intros m Hok; simpl; [eauto|].
  destruct (Set_spec k v m Hok) as (m1 & -> & Hok1 & Hc1). simpl. rewrite <- Hc1. by apply IH.
Qed.

Lemma count_loop_spec n i (m : ConcurrentMap K V) c :
  (i + n <= length (shards m))%nat ->
  count_loop n i m c = Ret (c + Z.of_nat (sum_list (size <$> take n (drop i (shards m))))).
Proof.
  revert i c. induction n as [|n IH]; intros i c Hl; simpl; [by rewrite Z.add_0_r|].
  destruct (lookup_lt_is_Some_2 (shards m) i ltac:(lia)) as [x Hx].
  rewrite Hx, (drop_S _ x) by done. rewrite IH by lia. f_equal.
  rewrite firstn_cons, fmap_cons. cbn [sum_list]. rewrite Nat2Z.inj_add.
  unfold id. lia.
Qed.

Lemma Count_spec (m : ConcurrentMap K V) :
  map_ok m -> Count m = Ret (Z.of_nat (size (content m))).
Proof.
  intros Hok. unfold Count, content. rewrite count_loop_spec by (rewrite (proj1 Hok); lia).
  rewrite drop_0, take_ge by (rewrite (proj1 Hok); lia).
  by rewrite separate_size by by apply map_ok_separate.
Qed.

(** One operation of the sharded map simulates the operation of the
    specification on its content. *)
Lemma exec_refines o (m : ConcurrentMap K V) :
  map_ok m -> exists m', exec o m = Ret ((spec_exec o (content m)).1, m') /\ map_ok m' /\
    content m' = (spec_exec o (content m)).2.
Proof.
  intros Hok. destruct o as [k v|data|k v cb|k v|k|k| | |k|k cb|k]; simpl.
  - destruct (Set_spec k v m Hok) as (m' & -> & ? & ?). simpl. eauto.
  - destruct (MSet_spec data m Hok) as (m' & -> & ? & ?). simpl. eauto.
  - destruct (Upsert_spec zero unit k v (fun e x y s => (cb e x y, s)) m tt Hok)
      as (m' & -> & ? & Hc). simpl. exists m'. rewrite Hc.
    by destruct (content m !! k); simpl.
  - destruct (SetIfAbsent_spec k v m Hok) as (m' & -> & ? & Hc). simpl. exists m'.
    rewrite Hc. by destruct (content m !! k).
  - destruct (GetShard_spec k m Hok) as (items & E & Hk). unfold Get. rewrite E. simpl.
    rewrite Hk. eauto.
  - destruct (GetShard_spec k m Hok) as (items & E & Hk). unfold Has. rewrite E. simpl.
    rewrite Hk. exists m. split_and!; try done. do 3 f_equal. apply bool_decide_ext.
    by rewrite elem_of_dom.
  - rewrite Count_spec by done. simpl. eauto.
  - unfold IsEmpty. rewrite Count_spec by done. simpl. exists m. split_and!; try done.
    do 3 f_equal. case_bool_decide as Hs; [by rewrite Hs|apply Z.eqb_neq; lia].
  - destruct (Remove_spec k m Hok) as (m' & -> & ? & ?). simpl. eauto.
  - destruct (RemoveCb_spec zero unit k (fun k x e s => (cb k x e, s)) m tt Hok)
      as (m' & -> & ? & Hc). simpl. exists m'. rewrite Hc. by destruct (content m !! k).
  - destruct (Pop_spec zero k m Hok) as (m' & -> & ? & ?). simpl. eauto.
Qed.

Lemma exec_all_refines os (m : ConcurrentMap K V) :
  map_ok m -> exists m', exec_all os m = Ret ((spec_exec_all os (content m)).1, m') /\ map_ok m' /\
    content m' = (spec_exec_all os (content m)).2.
Proof.
  revert m. induction os as [|o os IH]; intros m Hok; simpl; [eauto|].
  destruct (exec_refines o m Hok) as (m1 & -> & Hok1 & Hc1). simpl.
  destruct (spec_exec o (content m)) as [r g]. simpl in *. subst g.
  destruct (IH m1 Hok1) as (m2 & -> & Hok2 & Hc2). simpl.
  destruct (spec_exec_all os (content m1)) as [rs g']. simpl in *. eauto.
Qed.

(** C6. The sharded map is indistinguishable from one finite map: from a new
    map with any sharding function, every sequence of operations runs without
    a panic, returns what the same operations return on a single map, and
    leaves the shards holding exactly that map. *)
Theorem sharded_map_refines_map (sharding : K -> Z) os :
  exists m, exec_all os (create sharding) = Ret ((spec_exec_all os ∅).1, m) /\
    map_ok m /\ content m = (spec_exec_all os ∅).2.
Proof.
  destruct (create_ok (V := V) sharding) as [Hok Hc]. rewrite <- Hc. by apply exec_all_refines.
Qed.

Lemma remove_all_spec out (m : ConcurrentMap K V) :
  map_ok m -> exists m', remove_all out m = Ret m' /\ map_ok m' /\
    forall k, content m' !! k = if bool_decide (k ∈ out.*1) then None else content m !! k.
Proof.
  revert m. induction out as [|[k0 v0] out IH]; intros m Hok; simpl.
  { exists m. done. }
  destruct (Remove_spec k0 m Hok) as (m1 & -> & Hok1 & Hc1). simpl.
  destruct (IH m1 Hok1) as (m2 & -> & Hok2 & Hc2). exists m2. split_and!; try done.
  intros k. rewrite Hc2, Hc1. destruct (decide (k = k0)) as [->|Hne].
  - rewrite lookup_delete_eq, (bool_decide_eq_true_2 (k0 ∈ k0 :: _)) by set_solver.
    by destruct (bool_decide _).
  - rewrite lookup_delete_ne by done. repeat case_bool_decide; set_solver.
Qed.

(** Iteration over a quiescent map: whatever the order of the ranges and
    the interleaving of the goroutines, [Items] returns the content of the
    map, [Keys] each of its keys once, [Clear] empties it, and each of them
    can run to its end. *)
Theorem iteration_is_complete (m : ConcurrentMap K V) :
  map_ok m ->
  (exists tmp, Items m tmp) /\
  (forall tmp, Items m tmp -> tmp = content m) /\
  (forall keys, Keys m keys -> NoDup keys /\ forall k, k ∈ keys <-> is_Some (content m !! k)) /\
  (forall r, Clear m r -> exists m', r = Ret m' /\ map_ok m' /\ content m' = ∅).
Proof.
  intros Hok. split_and!.
  - destruct (IterBuffered_total m Hok) as [out Ho]. by exists (collect out), out.
  - intros tmp (out & Ho & ->). by apply collect_perm, IterBuffered_perm.
  - intros keys (chans & Hs & Hf%fanIn_perm).
    assert (keys ≡ₚ (map_to_list (content m)).*1) as Hp.
    { rewrite Hf. unfold content. rewrite separate_to_list by by apply map_ok_separate.
      rewrite (concat_perm_pointwise (fun x => (map_to_list x).*1)) by exact Hs.
      clear. induction (shards m) as [|x l IH]; simpl; [done|]. by rewrite fmap_app, IH. }
    split; [rewrite Hp; apply NoDup_fst_map_to_list|]. intros k. rewrite Hp.
    rewrite list_elem_of_fmap. split.
    + intros ([k' v] & -> & Hin%elem_of_map_to_list). simpl. by rewrite Hin.
    + intros [v Hv]. exists (k, v). by rewrite elem_of_map_to_list.
  - intros r (out & Ho & ->). apply IterBuffered_perm in Ho; [|done].
    destruct (remove_all_spec out m Hok) as (m' & -> & Hok' & Hc). exists m'.
    split_and!; try done. apply map_eq. intros k. rewrite Hc, lookup_empty.
    case_bool_decide as Hk; [done|]. apply eq_None_not_Some. intros [v Hv]. apply Hk.
    rewrite Ho. apply list_elem_of_fmap. exists (k, v). by rewrite elem_of_map_to_list.
Qed.

(** [UnmarshalJSON] of what [MarshalJSON] wrote, into a new map, restores
    the content, for every JSON codec that decodes its own encodings and
    whatever the sharding of the two maps. *)
Theorem marshal_unmarshal {E} (json_Marshal : gmap K V -> result E bytes)
    (json_Unmarshal : bytes -> result E (gmap K V)) order sharding (m : ConcurrentMap K V) b :
  (forall g c, json_Marshal g = Ok c -> json_Unmarshal c = Ok g) ->
  (forall g, order g ≡ₚ map_to_list g) ->
  map_ok m -> MarshalJSON json_Marshal m (Ok b) ->
  exists m', UnmarshalJSON json_Unmarshal order b (create sharding) = Ret (m', None) /\
    map_ok m' /\ content m' = content m.
Proof.
  intros Hjson Hord Hok (tmp & (out & Ho & ->) & Hm).
  rewrite (collect_perm _ (content m)) in Hm by by apply IterBuffered_perm.
  unfold UnmarshalJSON. rewrite (Hjson (content m) b) by done. simpl.
  destruct (create_ok (V := V) sharding) as [Hok0 Hc0].
  destruct (MSet_spec (order (content m)) (create sharding) Hok0) as (m' & -> & Hok' & Hc).
  simpl. exists m'. split_and!; try done. rewrite Hc, Hc0. by apply collect_perm.
Qed.
End runs.

(** A map of three users over the four shards, built by the operations. *)
Definition three_users : ConcurrentMap string Z :=
  match MSet [("alice", 1); ("bob", 2); ("carol", 3)] (New Z) with Ret m => m | Panic => New Z end.

Lemma three_users_ok : map_ok three_users.
Proof.
  destruct (create_ok (K := string) (V := Z) fnv32) as [Hok _]. unfold three_users.
  by destruct (MSet_spec [("alice", 1); ("bob", 2); ("carol", 3)] (New Z) Hok)
    as (m' & -> & Hok' & _).
Qed.

Lemma iteration_is_complete_witness :
  exists tmp, Items three_users tmp /\
    tmp = <["alice" := 1]> (<["bob" := 2]> {["carol" := 3]}).
Proof.
  destruct (iteration_is_complete three_users three_users_ok) as ([tmp Ht] & Hi & _).
  exists tmp. split; [exact Ht|]. rewrite (Hi tmp Ht). vm_compute. reflexivity.
Defined.

(** A codec for the witness: one byte per possible content. *)
Definition toy_marshal (g : gmap string Z) : result unit bytes :=
  if bool_decide (g = content three_users) then Ok [Byte.x01] else Err tt.
Definition toy_unmarshal (b : bytes) : result unit (gmap string Z) :=
  if bool_decide (b = [Byte.x01]) then Ok (content three_users) else Err tt.

Lemma marshal_unmarshal_witness :
  exists m', UnmarshalJSON toy_unmarshal map_to_list [Byte.x01] (New Z) = Ret (m', None) /\
    map_ok m' /\ content m' = content three_users.
Proof.
  apply (marshal_unmarshal toy_marshal toy_unmarshal map_to_list fnv32 three_users).
  - unfold toy_marshal, toy_unmarshal. intros g c. case_bool_decide as Hg; [|done].
    intros [= <-]. by rewrite Hg.
  - done.
  - apply three_users_ok.
  - destruct (IterBuffered_total three_users three_users_ok) as [out Ho].
    exists (collect out). split; [by exists out|].
    rewrite (collect_perm _ (content three_users)) by (apply IterBuffered_perm; [apply three_users_ok|done]).
    unfold toy_marshal. by rewrite bool_decide_eq_true_2.
Defined.
