(* ===== verification/MQueue.v ===== *)
(** * The blocking queue ([utils/Queue/mqueue.go])

    The queue is a linked list of nodes that are recycled through a
    [sync.Pool]. Pointers are locations of a heap, so that the aliasing of
    [head], [tail] and the pooled nodes is explicit; which pooled node [Get]
    returns is an argument. Every method body runs under [recvLock] and is one
    atomic function; the loops of [DequeueWait] and [DequeueFunc], which
    release the lock between iterations and inside [recvCond.Wait], are the
    steps of a transition system over many goroutines. *)
From Stdlib Require Import Strings.Byte.
From stdpp Require Import base gmap strings numbers list.
From S2P Require Import Prelude GoIO.

Section queue.
Context {T : Type} (zeroValue : T).

Abbreviation loc := positive.

Record node := mkNode { value : T; next : option loc }.

Record MQueue := mkQ {
  heap : gmap loc node;
  head : option loc;
  tail : option loc;
  status : bool;
  count : Z;
  nodePool : list loc
}.

Definition NewMQueue : MQueue := mkQ ∅ None None true 0 [].

(** [q.nodePool.Get()]: the pooled node chosen by [pick], or a new one when
    the pool gives none. *)
Definition pool_Get (pick : option nat) (q : MQueue) : loc * MQueue :=
  match pick ≫= (fun i => (fun l => (i, l)) <$> (nodePool q !! i)) with
  | Some (i, l) =>
      (l, mkQ (heap q) (head q) (tail q) (status q) (count q) (delete i (nodePool q)))
  | None =>
      let l := fresh (dom (heap q)) in
      (l, mkQ (<[l := mkNode zeroValue None]> (heap q)) (head q) (tail q) (status q) (count q)
            (nodePool q))
  end.

(** Field assignments through a pointer; a dangling pointer panics. *)
Definition set_node (l : loc) (f : node -> node) (h : gmap loc node) : outcome (gmap loc node) :=
  match h !! l with Some n => Ret (<[l := f n]> h) | None => Panic end.
Definition set_next (l : loc) (p : option loc) : gmap loc node -> outcome (gmap loc node) :=
  set_node l (fun n => mkNode (value n) p).

Definition Close (q : MQueue) : MQueue :=
  mkQ (heap q) (head q) (tail q) false (count q) (nodePool q).

(** The new node [n] becomes the head, or the successor of the last node. *)
Definition link (n : loc) (h : gmap loc node) (hd tl : option loc)
  : outcome (gmap loc node * option loc * option loc) :=
  match hd with
  | None => Ret (h, Some n, tl)
  | Some hd =>
      match tl with
      | None => h ← set_next hd (Some n) h; Ret (h, Some hd, Some n)
      | Some oldTail => h ← set_next oldTail (Some n) h; Ret (h, Some hd, Some n)
      end
  end.

Definition Enqueue (pick : option nat) (v : T) (q : MQueue) : outcome (option error * MQueue) :=
  if negb (status q) then Ret (Some (Errorf "is close"), q)
  else
    let '(n, q) := pool_Get pick q in
    h ← set_node n (fun _ => mkNode v None) (heap q);
    '(h, hd, tl) ← link n h (head q) (tail q);
    Ret (None, mkQ h hd tl (status q) (i64 (count q + 1)) (nodePool q)).

(** [head] and [tail] after the old head, whose successor is [nx], leaves. *)
Definition unlink (nx tl : option loc) : option loc * option loc :=
  match nx with
  | None => (None, tl)
  | Some p => (Some p, if bool_decide (Some p = tl) then None else tl)
  end.

(** The private [dequeue], which [Dequeue] calls: the value, [ok], [isClose]. *)
Definition dequeue (q : MQueue) : outcome ((T * bool * bool) * MQueue) :=
  let isClose := negb (status q) in
  match head q with
  | None => Ret ((zeroValue, false, isClose), q)
  | Some oldHead =>
      match heap q !! oldHead with
      | None => Panic
      | Some n =>
          let '(hd, tl) := unlink (next n) (tail q) in
          let h := <[oldHead := mkNode zeroValue None]> (heap q) in
          Ret ((value n, true, isClose),
               mkQ h hd tl (status q) (i64 (count q - 1)) (oldHead :: nodePool q))
      end
  end.

Definition Dequeue (q : MQueue) : outcome ((T * bool * bool) * MQueue) := dequeue q.
Definition Count (q : MQueue) : Z := count q.
Definition Status (q : MQueue) : bool := status q.

(** ** The representation invariant *)

(** The nodes [ls] are linked in order and hold [vs]. *)
Fixpoint chain (h : gmap loc node) (p : option loc) (ls : list loc) (vs : list T) : Prop :=
  match ls, vs with
  | [], [] => p = None
  | l :: ls', v :: vs' =>
      p = Some l /\ exists nx, h !! l = Some (mkNode v nx) /\ chain h nx ls' vs'
  | _, _ => False
  end.

(** [tail] is nil for a queue of fewer than two elements. *)
Definition tail_ok (tl : option loc) (ls : list loc) : Prop :=
  tl = if bool_decide (length ls <= 1)%nat then None else last ls.

Record repr (q : MQueue) (ls : list loc) (vs : list T) : Prop := mkRepr {
  rp_chain : chain (heap q) (head q) ls vs;
  rp_tail : tail_ok (tail q) ls;
  rp_count : count q = i64 (Z.of_nat (length vs));
  rp_nodup : NoDup (ls ++ nodePool q);
  rp_pool : Forall (fun l => heap q !! l = Some (mkNode zeroValue None)) (nodePool q)
}.

(** The queue [q] holds the elements [vs], oldest first. *)
Definition contains (q : MQueue) (vs : list T) : Prop := exists ls, repr q ls vs.

Lemma chain_frame h h' p ls vs :
  chain h p ls vs -> (forall l, l ∈ ls -> h' !! l = h !! l) -> chain h' p ls vs.
Proof.
  revert p vs. induction ls as [|l ls IH]; intros p [|v vs] Hc Hf; simpl in *; try done.
  destruct Hc as (-> & nx & Hl & Hc). split; [done|]. exists nx.
  split; [by rewrite Hf by set_solver|]. apply IH; [done|]. intros l' Hl'. apply Hf. set_solver.
Qed.

Lemma chain_length h p ls vs : chain h p ls vs -> length ls = length vs.
Proof.
  revert p vs. induction ls as [|l ls IH]; intros p [|v vs] Hc; simpl in *; try done.
  destruct Hc as (_ & nx & _ & Hc). f_equal. eauto.
Qed.

Lemma chain_dom h p ls vs l : chain h p ls vs -> l ∈ ls -> is_Some (h !! l).
Proof.
  revert p vs. induction ls as [|l' ls IH]; intros p [|v vs] Hc Hl; simpl in *; try done;
    [set_solver|].
  destruct Hc as (_ & nx & Hh & Hc). apply elem_of_cons in Hl as [->|Hl]; eauto.
Qed.

(** Linking a node after the last one. *)
Lemma chain_snoc h p ls l vs v n w :
  chain h p (ls ++ [l]) (vs ++ [v]) -> n ∉ ls ++ [l] -> NoDup (ls ++ [l]) ->
  h !! n = Some (mkNode w None) ->
  chain (<[l := mkNode v (Some n)]> h) p (ls ++ [l; n]) (vs ++ [v; w]).
Proof.
  intros Hc Hn Hnd Hw. assert (length ls = length vs) as Hlen.
  { apply chain_length in Hc. rewrite !length_app in Hc. simpl in Hc. lia. }
  revert p vs Hlen Hc.
  induction ls as [|l0 ls IH]; intros p [|v0 vs] Hlen Hc; simpl in *; try done.
  - destruct Hc as (-> & nx & Hl & ->). split; [done|]. exists (Some n).
    rewrite lookup_insert_eq. split; [done|]. split; [done|]. exists None.
    by rewrite lookup_insert_ne by set_solver.
  - apply NoDup_cons in Hnd as [Hni Hnd].
    destruct Hc as (-> & nx & Hl & Hc). split; [done|]. exists nx.
    rewrite lookup_insert_ne by set_solver. split; [done|].
    apply IH; [set_solver|done|lia|done].
Qed.

Lemma tail_ok_snoc2 ls l n : tail_ok (Some n) (ls ++ [l; n]).
Proof.
  unfold tail_ok. rewrite bool_decide_eq_false_2 by (rewrite length_app; simpl; lia).
  replace (ls ++ [l; n]) with ((ls ++ [l]) ++ [n]) by by rewrite <- app_assoc.
  by rewrite last_snoc.
Qed.

Lemma i64_succ z : i64 (i64 z + 1) = i64 (z + 1).
Proof. unfold wrapS. Z.to_euclidean_division_equations; lia. Qed.
Lemma i64_pred z : i64 (i64 z - 1) = i64 (z - 1).
Proof. unfold wrapS. Z.to_euclidean_division_equations; lia. Qed.

Lemma New_contains : contains NewMQueue [].
Proof. exists []. split; done || constructor. Qed.

Lemma Close_contains q vs : contains q vs -> contains (Close q) vs.
Proof. intros [ls []]. exists ls. by split. Qed.

(** The last node of a chain. *)
Lemma chain_last h p ls l vs v :
  chain h p (ls ++ [l]) (vs ++ [v]) -> h !! l = Some (mkNode v None).
Proof.
  intros Hc. assert (length ls = length vs) as Hlen.
  { apply chain_length in Hc. rewrite !length_app in Hc. simpl in Hc. lia. }
  revert p vs Hlen Hc.
  induction ls as [|l0 ls IH]; intros p [|v0 vs] Hlen Hc; simpl in *; try done.
  - destruct Hc as (_ & nx & Hl & ->). done.
  - destruct Hc as (_ & nx & _ & Hc). by eapply IH; [|exact Hc]; lia.
Qed.

Lemma link_spec n h hd tl ls vs v :
  chain h hd ls vs -> tail_ok tl ls -> NoDup ls -> n ∉ ls -> h !! n = Some (mkNode v None) ->
  exists h' hd' tl', link n h hd tl = Ret (h', hd', tl') /\
    chain h' hd' (ls ++ [n]) (vs ++ [v]) /\ tail_ok tl' (ls ++ [n]) /\
    forall l, l ∉ ls -> h' !! l = h !! l.
Proof.
  intros Hc Ht Hnd Hn Hv. pose proof (chain_length _ _ _ _ Hc) as Hlen.
  destruct ls as [|l0 ls _] using rev_ind.
  { destruct vs; [|done]. simpl in Hc. subst hd. simpl in *.
    exists h, (Some n), tl. split_and!; try done. by exists None. }
  destruct vs as [|v0 vs _] using rev_ind; rewrite !length_app in Hlen; simpl in Hlen; [lia|].
  assert (exists hd', hd = Some hd' /\
    default hd' tl = l0) as (hd' & -> & Htl).
  { unfold tail_ok in Ht. rewrite last_snoc, length_app in Ht. simpl in Ht.
    destruct ls as [|l ls], vs as [|w vs]; simpl in *; try lia; destruct Hc as [-> _];
      subst tl; eauto.
    rewrite bool_decide_eq_false_2 by lia. eauto. }
  assert (set_next l0 (Some n) h = Ret (<[l0 := mkNode v0 (Some n)]> h)) as Hset.
  { unfold set_next, set_node. by rewrite (chain_last _ _ _ _ _ _ Hc). }
  exists (<[l0 := mkNode v0 (Some n)]> h), (Some hd'), (Some n). split_and!.
  - unfold link. destruct tl; simpl in Htl; subst; by rewrite Hset.
  - rewrite <- !app_assoc. by apply chain_snoc.
  - rewrite <- app_assoc. apply tail_ok_snoc2.
  - intros l Hl. apply lookup_insert_ne. set_solver.
Qed.

(** A node from the pool is in no part of the queue that remains. *)
Lemma pool_Get_spec pick q ls vs n q' :
  repr q ls vs -> pool_Get pick q = (n, q') ->
  repr q' ls vs /\ (n ∉ ls ++ nodePool q') /\ is_Some (heap q' !! n) /\ status q' = status q.
Proof.
  intros [Hc Ht Hn Hnd Hp]. unfold pool_Get.
  destruct (pick ≫= _) as [[i l]|] eqn:E; intros [= <- <-]; simpl.
  - apply bind_Some in E as (j & _ & E). apply fmap_Some in E as (l' & Hi & [= -> ->]).
    pose proof (delete_Permutation _ _ _ Hi) as Hperm.
    rewrite Hperm in Hnd, Hp. apply Forall_cons_1 in Hp as [Hl Hp].
    rewrite <- Permutation_middle in Hnd. apply NoDup_cons in Hnd as [Hni Hnd].
    split_and!; [by split|done|eauto|done].
  - set (l := fresh _). assert (heap q !! l = None) as Hl by apply not_elem_of_dom, is_fresh.
    assert (l ∉ ls ++ nodePool q) as Hni.
    { intros [Hl'|Hl']%elem_of_app.
      - destruct (chain_dom _ _ _ _ _ Hc Hl'). congruence.
      - rewrite Forall_forall in Hp. specialize (Hp l Hl'). congruence. }
    split_and!; try done; [split; try done; simpl|by rewrite lookup_insert_eq].
    + apply (chain_frame (heap q)); [done|]. intros l' Hl'. apply lookup_insert_ne. set_solver.
    + apply Forall_forall. intros l' Hl'. rewrite lookup_insert_ne by set_solver.
      by apply (proj1 (Forall_forall _ _) Hp).
Qed.

(** [Enqueue] on an open queue appends to the list and never panics. *)
Lemma Enqueue_contains pick v q vs :
  contains q vs -> status q = true ->
  exists q', Enqueue pick v q = Ret (None, q') /\ status q' = true /\ contains q' (vs ++ [v]).
Proof.
  intros [ls Hr] Hs. unfold Enqueue. rewrite Hs. simpl.
  destruct (pool_Get pick q) as [n q1] eqn:Eg.
  destruct (pool_Get_spec _ _ _ _ _ _ Hr Eg) as ([Hc Ht Hcnt Hnd Hp] & Hn & [w Hw] & Hs1).
  clear Hr Eg. unfold set_node. rewrite Hw. cbn [mbind outcome_bind].
  destruct (link_spec n (<[n := mkNode v None]> (heap q1)) (head q1) (tail q1) ls vs v)
    as (h' & hd' & tl' & -> & Hc' & Ht' & Hf).
  { apply (chain_frame (heap q1)); [done|]. intros l Hl. apply lookup_insert_ne. set_solver. }
  { done. } { by apply NoDup_app in Hnd as (? & _). } { set_solver. } { apply lookup_insert_eq. }
  eexists. split; [done|]. split; [simpl; congruence|]. exists (ls ++ [n]). split; simpl; try done.
  - rewrite Hcnt, i64_succ, length_app. f_equal. simpl. lia.
  - rewrite <- app_assoc. simpl. rewrite <- Permutation_middle. by apply NoDup_cons.
  - apply Forall_forall. intros l Hl. apply NoDup_app in Hnd as (_ & Hd & _).
    rewrite Hf by (intros ?; by eapply Hd). rewrite lookup_insert_ne by set_solver.
    by apply (proj1 (Forall_forall _ _) Hp).
Qed.

Lemma unlink_spec h nx l ls vs tl :
  chain h nx ls vs -> NoDup (l :: ls) -> tail_ok tl (l :: ls) ->
  (unlink nx tl).1 = nx /\ tail_ok (unlink nx tl).2 ls.
Proof.
  unfold tail_ok. intros Hc Hnd Ht.
  destruct ls as [|l1 ls], vs as [|v1 vs]; simpl in Hc; try done; [by subst|].
  destruct Hc as (-> & nx' & Hl1 & Hc). split; [done|]. cbn [unlink snd].
  rewrite bool_decide_eq_false_2 in Ht by (simpl; lia).
  change (last (l :: l1 :: ls)) with (last (l1 :: ls)) in Ht. rewrite Ht.
  destruct ls as [|l2 ls]; [by rewrite bool_decide_eq_true_2|].
  rewrite !bool_decide_eq_false_2; [done|simpl; lia|].
  change (last (l1 :: l2 :: ls)) with (last (l2 :: ls)). intros E. symmetry in E.
  apply last_Some_elem_of in E. apply NoDup_cons in Hnd as [_ Hnd].
  by apply NoDup_cons in Hnd as [Hn1 _].
Qed.

Lemma dequeue_contains q vs :
  contains q vs ->
  match vs with
  | [] => dequeue q = Ret ((zeroValue, false, negb (status q)), q)
  | v :: vs' => exists q', dequeue q = Ret ((v, true, negb (status q)), q') /\
      status q' = status q /\ contains q' vs'
  end.
Proof.
  intros [ls [Hc Ht Hcnt Hnd Hp]]. unfold dequeue.
  destruct ls as [|l ls], vs as [|v vs]; simpl in Hc; try done; [by rewrite Hc|].
  destruct Hc as (-> & nx & Hl & Hc). rewrite Hl. cbn [next value].
  rewrite <- app_comm_cons in Hnd.
  destruct (unlink_spec (heap q) nx l ls vs (tail q)) as [Hh Ht']; [done| |done|].
  { by apply (NoDup_app (l :: ls)) in Hnd as (? & _). }
  apply NoDup_cons in Hnd as [Hni Hnd].
  destruct (unlink nx (tail q)) as [hd tl]. simpl in Hh. subst hd.
  eexists. split; [done|]. split; [done|]. exists ls. split; simpl.
  - apply (chain_frame (heap q)); [done|]. intros l' Hl'. apply lookup_insert_ne. set_solver.
  - done.
  - rewrite Hcnt, i64_pred. f_equal. simpl. lia.
  - rewrite <- Permutation_middle. by apply NoDup_cons.
  - constructor; [by rewrite lookup_insert_eq|]. apply Forall_forall. intros l' Hl'.
    rewrite lookup_insert_ne by set_solver. by apply (proj1 (Forall_forall _ _) Hp).
Qed.

Lemma contains_count q vs : contains q vs -> count q = i64 (Z.of_nat (length vs)).
Proof. by intros [ls []]. Qed.

(** ** Sequences of calls *)

Inductive qop := QEnqueue (pick : option nat) (v : T) | QDequeue | QClose | QCount | QStatus.
Inductive qreply :=
| QErr (e : option error)
| QVal (t : T) (ok isClose : bool)
| QUnit
| QInt (n : Z)
| QBool (b : bool).

Definition qexec (o : qop) (q : MQueue) : outcome (qreply * MQueue) :=
  match o with
  | QEnqueue pick v => '(e, q) ← Enqueue pick v q; Ret (QErr e, q)
  | QDequeue => '(t, ok, isClose, q) ← Dequeue q; Ret (QVal t ok isClose, q)
  | QClose => Ret (QUnit, Close q)
  | QCount => Ret (QInt (Count q), q)
  | QStatus => Ret (QBool (Status q), q)
  end.

Fixpoint qexec_all (os : list qop) (q : MQueue) : outcome (list qreply * MQueue) :=
  match os with
  | [] => Ret ([], q)
  | o :: os' => '(r, q) ← qexec o q; '(rs, q) ← qexec_all os' q; Ret (r :: rs, q)
  end.

(** The specification: a list, oldest first, and whether the queue is open. *)
Definition qspec (o : qop) (s : bool * list T) : qreply * (bool * list T) :=
  let '(open, vs) := s in
  match o with
  | QEnqueue _ v =>
      if open then (QErr None, (open, vs ++ [v])) else (QErr (Some (Errorf "is close")), s)
  | QDequeue =>
      match vs with
      | [] => (QVal zeroValue false (negb open), s)
      | v :: vs' => (QVal v true (negb open), (open, vs'))
      end
  | QClose => (QUnit, (false, vs))
  | QCount => (QInt (i64 (Z.of_nat (length vs))), s)
  | QStatus => (QBool open, s)
  end.

Fixpoint qspec_all (os : list qop) (s : bool * list T) : list qreply * (bool * list T) :=
  match os with
  | [] => ([], s)
  | o :: os' =>
      let '(r, s') := qspec o s in let '(rs, s'') := qspec_all os' s' in (r :: rs, s'')
  end.

Lemma qexec_refines o q vs :
  contains q vs ->
  exists q', qexec o q = Ret ((qspec o (status q, vs)).1, q') /\
    status q' = (qspec o (status q, vs)).2.1 /\ contains q' (qspec o (status q, vs)).2.2.
Proof.
  intros Hq. destruct o as [pick v| | | |]; simpl.
  - destruct (status q) eqn:Hs.
    + destruct (Enqueue_contains pick v q vs Hq Hs) as (q' & -> & ? & ?). simpl. eauto.
    + unfold Enqueue. rewrite Hs. simpl. eauto.
  - apply dequeue_contains in Hq as Hd. unfold Dequeue. destruct vs as [|v vs].
    + rewrite Hd. simpl. eauto.
    + destruct Hd as (q' & -> & ? & ?). simpl. eauto.
  - eauto using Close_contains.
  - exists q. unfold Count. by rewrite (contains_count q vs).
  - eauto.
Qed.

(** C25. The recycled linked list is a FIFO queue: for every sequence of
    calls on a new queue and every choice the node pool makes, no call
    panics, each returns what the abstract queue returns (a closed queue
    refuses [Enqueue] and still drains), and the nodes afterwards hold the
    abstract queue's elements in order. *)
Theorem mqueue_refines_fifo os :
  exists q, qexec_all os NewMQueue = Ret ((qspec_all os (true, [])).1, q) /\
    status q = (qspec_all os (true, [])).2.1 /\ contains q (qspec_all os (true, [])).2.2.
Proof.
  cut (forall q vs, contains q vs -> exists q',
    qexec_all os q = Ret ((qspec_all os (status q, vs)).1, q') /\
    status q' = (qspec_all os (status q, vs)).2.1 /\
    contains q' (qspec_all os (status q, vs)).2.2).
  { intros Hc. apply (Hc NewMQueue []), New_contains. }
  induction os as [|o os' IH]; intros q vs Hq; cbn [qexec_all qspec_all]; [eauto|].
  destruct (qexec_refines o q vs Hq) as (q1 & -> & Hs1 & Hq1).
  destruct (qspec o (status q, vs)) as [r [open vs1]]. simpl in *. subst open.
  destruct (IH q1 vs1 Hq1) as (q2 & -> & Hs2 & Hq2).
  destruct (qspec_all os' (status q1, vs1)) as [rs [open vs2]]. simpl in *. eauto.
Qed.

(** ** Blocking consumers *)

(** A goroutine in [DequeueWait] or in [DequeueFunc(fn)]. *)
Inductive kind := KWait | KFunc (fn : T -> bool -> bool).
(** Its position: about to call [dequeue], about to take the lock and test
    the queue, asleep in [recvCond.Wait], or returned. *)
Inductive pc :=
| PDequeue
| PCheck
| PWait
| PRetWait (t : T) (ok isClose : bool)
| PRetFunc (err : option error).

(** Where the loop body goes after [dequeue] returned. *)
Definition after_dequeue (k : kind) (t : T) (ok isClose : bool) : pc :=
  match k with
  | KWait => if ok then PRetWait t ok isClose
             else if isClose then PRetWait t ok isClose else PCheck
  | KFunc fn =>
      if ok then if negb (fn t isClose) then PRetFunc None else PCheck
      else if isClose then PRetFunc (Some (Errorf "queue is close and empty")) else PCheck
  end.
(** The critical section that may sleep. *)
Definition check_wait (q : MQueue) : pc := if status q && (count q =? 0) then PWait else PDequeue.
(** [Broadcast]: a sleeping goroutine retakes the lock, releases it and
    starts the loop again. *)
Definition wake (g : kind * pc) : kind * pc :=
  match g with (k, PWait) => (k, PDequeue) | _ => g end.

(** The queue and its consumers, with the history of accepted and of
    delivered elements. *)
Record sys := mkSys {
  sq : MQueue;
  gs : list (kind * pc);
  accepted : list T;
  delivered : list T
}.

(** A step of consumer [i]. *)
Inductive gstep (i : nat) : sys -> sys -> Prop :=
| step_dequeue s k t ok isClose q' :
    gs s !! i = Some (k, PDequeue) -> dequeue (sq s) = Ret ((t, ok, isClose), q') ->
    gstep i s (mkSys q' (<[i := (k, after_dequeue k t ok isClose)]> (gs s)) (accepted s)
                 (delivered s ++ if ok then [t] else []))
| step_check s k :
    gs s !! i = Some (k, PCheck) ->
    gstep i s (mkSys (sq s) (<[i := (k, check_wait (sq s))]> (gs s)) (accepted s) (delivered s)).

Inductive qstep : sys -> sys -> Prop :=
| step_consumer i s s' : gstep i s s' -> qstep s s'
| step_spawn s k : qstep s (mkSys (sq s) (gs s ++ [(k, PDequeue)]) (accepted s) (delivered s))
| step_enqueue s pick v q' :
    Enqueue pick v (sq s) = Ret (None, q') ->
    qstep s (mkSys q' (wake <$> gs s) (accepted s ++ [v]) (delivered s))
| step_refused s pick v e q' :
    Enqueue pick v (sq s) = Ret (Some e, q') ->
    qstep s (mkSys q' (gs s) (accepted s) (delivered s))
| step_close s :
    qstep s (mkSys (Close (sq s)) (wake <$> gs s) (accepted s) (delivered s)).

Definition sys0 : sys := mkSys NewMQueue [] [] [].

(** States after [n] steps. *)
Inductive reach : nat -> sys -> Prop :=
| reach_0 : reach 0 sys0
| reach_S n s s' : reach n s -> qstep s s' -> reach (S n) s'.

(** A sleeping consumer means an open and empty queue. *)
Definition sleepers_ok (s : sys) (vs : list T) : Prop :=
  forall i k, gs s !! i = Some (k, PWait) -> status (sq s) = true /\ vs = [].

Definition sys_inv (n : nat) (s : sys) : Prop :=
  exists vs, contains (sq s) vs /\ accepted s = delivered s ++ vs /\ (length vs <= n)%nat /\
    sleepers_ok s vs.

Lemma wake_not_waiting (l : list (kind * pc)) i k : (wake <$> l) !! i <> Some (k, PWait).
Proof.
  rewrite list_lookup_fmap. destruct (l !! i) as [[k' p]|]; [|done]. by destruct p.
Qed.

Lemma after_dequeue_awake k t ok isClose : after_dequeue k t ok isClose <> PWait.
Proof. destruct k; simpl; by repeat case_match. Qed.

Lemma gstep_inv n i s s' : Z.of_nat n < 2 ^ 63 -> gstep i s s' -> sys_inv n s -> sys_inv n s'.
Proof.
  intros Hn Hs (vs & Hq & Ha & Hl & Hw). inversion Hs; subst; simpl.
  - apply dequeue_contains in Hq as Hd. destruct vs as [|v vs].
    + rewrite Hd in *. simplify_eq. exists []. split_and!; simpl; try done.
      { by rewrite app_nil_r. }
      intros j k' Hj. apply list_lookup_insert_Some in Hj as [(<- & E & _)|[_ Hj]].
      * injection E as <- E. by apply after_dequeue_awake in E.
      * by apply (Hw j k').
    + destruct Hd as (q1 & Hd & Hs1 & Hq1). rewrite Hd in *. simplify_eq. exists vs.
      split_and!; simpl in *; try done; [by rewrite <- app_assoc|lia|].
      intros j k' Hj. apply list_lookup_insert_Some in Hj as [(<- & E & _)|[_ Hj]].
      * injection E as <- E. by apply after_dequeue_awake in E.
      * by apply (Hw j k') in Hj as [_ ?].
  - exists vs. split_and!; simpl; try done. intros j k' Hj.
    apply list_lookup_insert_Some in Hj as [(<- & E & _)|[_ Hj]]; [|by apply (Hw j k')].
    unfold check_wait in E. rewrite (contains_count _ _ Hq) in E.
    case_match eqn:Et; [|done]. to_prop. split; [done|].
    rewrite i64_small in * by (unfold in_signed; lia). destruct vs; [done|simpl in *; lia].
Qed.

Lemma qstep_inv n s s' : Z.of_nat n < 2 ^ 63 -> qstep s s' -> sys_inv n s -> sys_inv (S n) s'.
Proof.
  intros Hn Hs Hi. inversion Hs as [i s1 s2 Hg| | | |]; subst.
  { destruct (gstep_inv n i s s' Hn Hg Hi) as (vs & ? & ? & ? & ?).
    exists vs. split_and!; try done. lia. }
  all: destruct Hi as (vs & Hq & Ha & Hl & Hw).
  - exists vs. split_and!; simpl; try done; [lia|]. intros i k' Hi.
    apply lookup_app_Some in Hi as [Hi|[_ Hi]]; [by apply (Hw i k')|].
    by apply list_lookup_singleton_Some in Hi as [_ ?].
  - destruct (status (sq s)) eqn:Es; [|unfold Enqueue in H; by rewrite Es in H].
    destruct (Enqueue_contains pick v _ _ Hq Es) as (q1 & E & Es1 & Hq1).
    rewrite E in H. simplify_eq/=.
    exists (vs ++ [v]). rewrite Ha, app_assoc, length_app. split_and!; simpl; try done; [lia|].
    intros i k Hi. by apply wake_not_waiting in Hi.
  - destruct (status (sq s)) eqn:Es.
    { destruct (Enqueue_contains pick v _ _ Hq Es) as (q1 & E & _). congruence. }
    unfold Enqueue in H. rewrite Es in H. simplify_eq/=. exists vs. split_and!; simpl; try done. lia.
  - exists vs. split_and!; simpl; try done; [by apply Close_contains|lia|].
    intros i k Hi. by apply wake_not_waiting in Hi.
Qed.

Lemma reach_inv n s : reach n s -> Z.of_nat n < 2 ^ 63 -> sys_inv n s.
Proof.
  induction 1 as [|n s s' _ IH Hs]; intros Hn.
  - exists []. split_and!; try done. apply New_contains.
  - eapply qstep_inv; [|done|apply IH]; lia.
Qed.

(** C5. Blocking consumers never lose an element nor a wake-up: after any
    interleaving of fewer than 2^63 steps, the elements delivered so far and
    those still queued are exactly those accepted, in order and once each;
    a consumer sleeps only while the queue is open and empty; and no consumer
    is stuck in a panic. *)
Theorem blocking_queue_safe n s :
  reach n s -> Z.of_nat n < 2 ^ 63 ->
  (exists vs, contains (sq s) vs /\ accepted s = delivered s ++ vs) /\
  (forall i k, gs s !! i = Some (k, PWait) ->
     status (sq s) = true /\ accepted s = delivered s) /\
  (forall i k p, gs s !! i = Some (k, p) -> p = PDequeue \/ p = PCheck -> exists s', gstep i s s').
Proof.
  intros Hr Hn. destruct (reach_inv n s Hr Hn) as (vs & Hq & Ha & _ & Hw). split_and!.
  - eauto.
  - intros i k Hi. destruct (Hw i k Hi) as [? ->]. by rewrite app_nil_r in Ha.
  - intros i k p Hi [->| ->]; [|eexists; by eapply step_check].
    apply dequeue_contains in Hq. destruct vs as [|v vs].
    + eexists. by eapply step_dequeue.
    + destruct Hq as (q' & Hd & _). eexists. by eapply step_dequeue.
Qed.

Definition returned (p : pc) : bool :=
  match p with PRetWait _ _ _ | PRetFunc _ => true | _ => false end.

Lemma check_closed s i k :
  status (sq s) = false -> gs s !! i = Some (k, PCheck) ->
  gstep i s (mkSys (sq s) (<[i := (k, PDequeue)]> (gs s)) (accepted s) (delivered s)).
Proof.
  intros Hs Hi. assert (check_wait (sq s) = PDequeue) as <- by (unfold check_wait; by rewrite Hs).
  by apply step_check.
Qed.

(** On a closed queue, the iterations of one consumer end. *)
Lemma closed_consumer_returns vs s i k :
  contains (sq s) vs -> status (sq s) = false -> gs s !! i = Some (k, PDequeue) ->
  exists s' p, rtc (gstep i) s s' /\ gs s' !! i = Some (k, p) /\ returned p = true.
Proof.
  revert s. induction vs as [|v vs IH]; intros s Hq Hs Hi;
    pose proof (lookup_lt_Some _ _ _ Hi) as Hlt; apply dequeue_contains in Hq.
  - eexists _, (after_dequeue k zeroValue false true). split_and!.
    + apply rtc_once. eapply step_dequeue; [done|]. rewrite Hq, Hs. done.
    + simpl. by rewrite list_lookup_insert_eq.
    + by destruct k.
  - destruct Hq as (q' & Hd & Hs' & Hq'). rewrite Hs in Hd. simpl in Hd.
    pose proof (step_dequeue i s k v true true q' Hi Hd) as Hstep.
    destruct (returned (after_dequeue k v true true)) eqn:Er.
    { eexists _, _. split; [by apply rtc_once|]. split; [|done].
      simpl. by rewrite list_lookup_insert_eq. }
    assert (after_dequeue k v true true = PCheck) as Hp.
    { destruct k as [|fn]; simpl in *; [done|]. by destruct (fn v true). }
    rewrite Hp in Hstep. set (s1 := mkSys _ _ _ _) in Hstep.
    assert (gs s1 !! i = Some (k, PCheck)) as Hi1 by by apply list_lookup_insert_eq.
    pose proof (check_closed s1 i k ltac:(simpl; congruence) Hi1) as Hstep2.
    set (s2 := mkSys _ _ _ _) in Hstep2.
    destruct (IH s2) as (s' & p & Hr & ?); [exact Hq'|simpl; congruence| |].
    { apply list_lookup_insert_eq. simpl. by rewrite length_insert. }
    exists s', p. split; [|done]. by eapply rtc_l, rtc_l.
Qed.

(** [Close] releases every consumer: in a reachable state with a closed
    queue, a consumer that has not returned is not asleep, and its own steps
    bring it to its return, whatever [fn] answers. *)
Theorem close_releases_consumers n s i k p :
  reach n s -> Z.of_nat n < 2 ^ 63 -> status (sq s) = false -> gs s !! i = Some (k, p) ->
  exists s' p', rtc (gstep i) s s' /\ gs s' !! i = Some (k, p') /\ returned p' = true.
Proof.
  intros Hr Hn Hs Hi. destruct (reach_inv n s Hr Hn) as (vs & Hq & _ & _ & Hw).
  destruct p as [| | |t ok isClose|err].
  - by eapply closed_consumer_returns.
  - pose proof (check_closed s i k Hs Hi) as Hstep.
    set (s1 := mkSys _ _ _ _) in Hstep.
    destruct (closed_consumer_returns vs s1 i k) as (s' & p & Hr' & ?); [done..| |].
    { apply list_lookup_insert_eq. by eapply lookup_lt_Some. }
    exists s', p. split; [|done]. by eapply rtc_l.
  - destruct (Hw i k Hi). congruence.
  - exists s, (PRetWait t ok isClose). by split; [apply rtc_refl|].
  - exists s, (PRetFunc err). by split; [apply rtc_refl|].
Qed.
End queue.

(** A consumer that found the queue empty and sleeps, and the state after
    [Close]. *)
Definition asleep : sys (T := Z) :=
  mkSys NewMQueue [(KWait, PWait)] [] [].
Definition closed_on_sleeper : sys (T := Z) :=
  mkSys (Close NewMQueue) [(KWait, PDequeue)] [] [].

Lemma asleep_reached : reach 0 3 asleep.
Proof.
  set (s1 := mkSys (T := Z) NewMQueue [(KWait, PDequeue)] [] []).
  set (s2 := mkSys (T := Z) NewMQueue [(KWait, PCheck)] [] []).
  apply (reach_S 0 2 s2); [apply (reach_S 0 1 s1); [apply (reach_S 0 0 sys0); [apply reach_0|]|]|].
  - exact (step_spawn 0 sys0 KWait).
  - refine (step_consumer 0 0 s1 s2 _).
    exact (step_dequeue 0 0 s1 KWait 0 false false NewMQueue eq_refl eq_refl).
  - refine (step_consumer 0 0 s2 asleep _). exact (step_check 0 0 s2 KWait eq_refl).
Qed.

Lemma blocking_queue_safe_witness :
  gs asleep !! 0%nat = Some (KWait, PWait) /\ status (sq asleep) = true /\
  accepted asleep = delivered asleep.
Proof.
  split; [reflexivity|].
  destruct (blocking_queue_safe 0 3 asleep asleep_reached ltac:(lia)) as (_ & Hw & _).
  apply (Hw 0%nat KWait). reflexivity.
Defined.

Lemma close_releases_consumers_witness :
  exists s' p', rtc (gstep 0 0) closed_on_sleeper s' /\ gs s' !! 0%nat = Some (KWait, p') /\
    returned p' = true.
Proof.
  apply (close_releases_consumers 0 4 closed_on_sleeper 0 KWait PDequeue); [|lia|reflexivity..].
  apply (reach_S 0 3 asleep); [apply asleep_reached|apply (step_close 0 asleep)].
Defined.
