(* ===== verification/ChannelQueue.v ===== *)
(** * The queue of channels ([utils/rabbitMQ/rabbitQueue.go])

    A singly linked list with a head, an end and an atomic length, under one
    lock. The nodes live in a heap; the queue is shown to be the abstract FIFO
    queue for every sequence of calls. *)
From stdpp Require Import base gmap list numbers fin_maps.
From S2P Require Import Prelude GoIO.

Section queue.
Context {rChannel : Type}.

Record Node := mkNode { data : rChannel; next : option positive }.
Record ChannelQueue := mkCQ { head : option positive; end_ : option positive; l : Z }.
(** The nodes and the queue. *)
Record store := mkStore { nodes : gmap positive Node; queue : ChannelQueue }.

Definition NewChannelQueue : store := mkStore ∅ (mkCQ None None 0).

Definition Add (d : rChannel) (s : store) : outcome store :=
  let n := fresh (dom (nodes s)) in
  let h := <[n := mkNode d None]> (nodes s) in
  let len := i32 (l (queue s) + 1) in
  match end_ (queue s) with
  | None => Ret (mkStore h (mkCQ (Some n) (Some n) len))
  | Some e =>
      match h !! e with
      | None => Panic
      | Some x => Ret (mkStore (<[e := mkNode (data x) (Some n)]> h) (mkCQ (head (queue s)) (Some n) len))
      end
  end.

Definition Pop (s : store) : outcome (option rChannel * bool * store) :=
  match head (queue s) with
  | None => Ret (None, false, s)
  | Some p =>
      match nodes s !! p with
      | None => Panic
      | Some x =>
          let e := match next x with None => None | Some _ => end_ (queue s) end in
          Ret (Some (data x), true, mkStore (nodes s) (mkCQ (next x) e (i32 (l (queue s) - 1))))
      end
  end.

Definition Count (s : store) : Z := l (queue s).

(** ** Representation: the nodes [ls] hold the elements [xs], linked in order *)
Record repr (s : store) (ls : list positive) (xs : list rChannel) : Prop := mkRepr {
  repr_nodup : NoDup ls;
  repr_length : length ls = length xs;
  repr_head : head (queue s) = ls !! 0%nat;
  repr_end : end_ (queue s) = last ls;
  repr_count : l (queue s) = i32 (Z.of_nat (length xs));
  repr_nodes : forall i p d, ls !! i = Some p -> xs !! i = Some d ->
    nodes s !! p = Some (mkNode d (ls !! S i))
}.

Lemma repr_in_heap s ls xs p : repr s ls xs -> p ∈ ls -> p ∈ dom (nodes s).
Proof.
  intros Hr [i Hi]%list_elem_of_lookup_1.
  destruct (lookup_lt_is_Some_2 xs i) as [d Hd].
  { rewrite <- (repr_length _ _ _ Hr). by eapply lookup_lt_Some. }
  apply elem_of_dom. by rewrite (repr_nodes _ _ _ Hr i p d).
Qed.

Lemma Pop_repr s ls xs : repr s ls xs ->
  match xs with
  | [] => Pop s = Ret (None, false, s)
  | d :: xs' => exists s', Pop s = Ret (Some d, true, s') /\ repr s' (tail ls) xs'
  end.
Proof.
  intros [Hnd Hl Hh He Hc Hn]. unfold Pop. destruct xs as [|d xs], ls as [|p ls]; try done.
  { by rewrite Hh. }
  rewrite Hh. simpl. rewrite (Hn 0%nat p d eq_refl eq_refl). simpl. eexists. split; [done|].
  apply NoDup_cons in Hnd as [Hp Hnd]. split; simpl; [done|by injection Hl|by destruct ls|..].
  - destruct ls as [|p' ls]; [done|]. by rewrite He.
  - rewrite Hc, <- Z.add_opp_r, wrapS_add by lia. simpl. f_equal. lia.
  - intros i q e Hq Hx. by rewrite (Hn (S i) q e).
Qed.

(** The nodes after a new one is linked behind the last. *)
Lemma link_nodes (h : gmap positive Node) ls xs n d e x :
  NoDup ls -> length ls = length xs -> n ∉ ls -> last ls = Some e ->
  (forall i p y, ls !! i = Some p -> xs !! i = Some y -> h !! p = Some (mkNode y (ls !! S i))) ->
  h !! e = Some x ->
  forall i p y, (ls ++ [n]) !! i = Some p -> (xs ++ [d]) !! i = Some y ->
    <[e := mkNode (data x) (Some n)]> (<[n := mkNode d None]> h) !! p = Some (mkNode y ((ls ++ [n]) !! S i)).
Proof.
  intros Hnd Hl Hn He Hh Hx i p y. rewrite last_lookup in He. pose proof (lookup_lt_Some _ _ _ He) as Hlt.
  assert (e <> n) as Hen by (intros ->; by apply Hn, (list_elem_of_lookup_2 _ _ _ He)).
  intros [Hp|[Hi Hp]]%lookup_app_Some.
  - pose proof (lookup_lt_Some _ _ _ Hp) as Hpi. rewrite lookup_app_l by lia. intros Hy.
    assert (p <> n) as Hpn by (intros ->; by apply Hn, (list_elem_of_lookup_2 _ _ _ Hp)).
    specialize (Hh i p y Hp Hy) as Hpy. destruct (decide (p = e)) as [->|Hpe].
    + rewrite lookup_insert_eq. assert (i = pred (length ls)) as -> by (by eapply NoDup_lookup).
      simplify_eq. simpl. rewrite lookup_app_r by lia. by replace (S (pred (length ls)) - length ls)%nat with 0%nat by lia.
    + rewrite !lookup_insert_ne by done. rewrite Hpy. do 2 f_equal. symmetry. apply lookup_app_l.
      destruct (decide (S i < length ls)%nat); [done|]. exfalso. apply Hpe.
      replace (pred (length ls)) with i in He by lia. congruence.
  - assert (i = length ls /\ p = n) as [-> ->].
    { destruct (i - length ls)%nat as [|[|]] eqn:E; simplify_eq/=. split; [lia|done]. }
    rewrite lookup_app_r, Hl, Nat.sub_diag by lia. intros [= <-].
    rewrite lookup_insert_ne, lookup_insert_eq by done. do 2 f_equal.
    symmetry. apply lookup_ge_None. rewrite length_app. simpl. lia.
Qed.

Lemma Add_repr s ls xs d : repr s ls xs ->
  exists s' n, Add d s = Ret s' /\ repr s' (ls ++ [n]) (xs ++ [d]).
Proof.
  intros Hr. pose proof (fun p => repr_in_heap s ls xs p Hr) as Hdom. destruct Hr as [Hnd Hl Hh He Hc Hn].
  unfold Add. set (n := fresh (dom (nodes s))). assert (n ∉ dom (nodes s)) as Hfresh by apply is_fresh.
  assert (n ∉ ls) as Hnew by (intros Hin; by apply Hfresh, Hdom).
  assert (i32 (l (queue s) + 1) = i32 (Z.of_nat (length (xs ++ [d])))) as Hlen.
  { rewrite Hc, wrapS_add, length_app by lia. f_equal. simpl. lia. }
  assert (NoDup (ls ++ [n])) as Hnd' by (apply NoDup_app; split_and!; [done|set_solver|apply NoDup_singleton]).
  assert (length (ls ++ [n]) = length (xs ++ [d])) as Hl' by (rewrite !length_app, Hl; done).
  assert (Some n = last (ls ++ [n])) as Hlast by (by rewrite last_snoc).
  rewrite He. destruct (last ls) as [e|] eqn:Ee.
  - assert (e ∈ ls) as Hin by (rewrite last_lookup in Ee; by eapply list_elem_of_lookup_2).
    destruct (proj1 (elem_of_dom _ _) (Hdom e Hin)) as [x Hx].
    rewrite lookup_insert_ne, Hx by (intros ->; done). eexists _, n. split; [done|].
    split; simpl; [done..| |done|done|by apply link_nodes].
    rewrite Hh. destruct ls; [by apply not_elem_of_nil in Hin|done].
  - apply last_None in Ee. subst ls. destruct xs; [|done]. eexists _, n. split; [done|].
    split; simpl; try done. intros [|i] p x; [|done]. intros [= <-] [= <-]. apply lookup_insert_eq.
Qed.

(** ** Refinement *)
Inductive call := CAdd (d : rChannel) | CPop | CCount.
Inductive answer := ANone | APop (d : option rChannel) (ok : bool) | ACount (n : Z).

Definition run_call (c : call) (s : store) : outcome (answer * store) :=
  match c with
  | CAdd d => s ← Add d s; Ret (ANone, s)
  | CPop => '(d, ok, s) ← Pop s; Ret (APop d ok, s)
  | CCount => Ret (ACount (Count s), s)
  end.
Fixpoint run_calls (cs : list call) (s : store) : outcome (list answer * store) :=
  match cs with
  | [] => Ret ([], s)
  | c :: cs' => '(a, s) ← run_call c s; '(as_, s) ← run_calls cs' s; Ret (a :: as_, s)
  end.

(** The abstract queue. *)
Definition fifo_call (c : call) (xs : list rChannel) : answer * list rChannel :=
  match c with
  | CAdd d => (ANone, xs ++ [d])
  | CPop => match xs with [] => (APop None false, []) | d :: xs' => (APop (Some d) true, xs') end
  | CCount => (ACount (i32 (Z.of_nat (length xs))), xs)
  end.
Fixpoint fifo_calls (cs : list call) (xs : list rChannel) : list answer :=
  match cs with [] => [] | c :: cs' => (fifo_call c xs).1 :: fifo_calls cs' (fifo_call c xs).2 end.

Lemma run_call_refines c s ls xs : repr s ls xs ->
  exists s' ls', run_call c s = Ret ((fifo_call c xs).1, s') /\ repr s' ls' (fifo_call c xs).2.
Proof.
  intros Hr. destruct c as [d| |]; simpl.
  - destruct (Add_repr s ls xs d Hr) as (s' & n & -> & Hr'). simpl. eauto.
  - pose proof (Pop_repr s ls xs Hr) as Hp. destruct xs as [|d xs].
    + rewrite Hp. simpl. eauto.
    + destruct Hp as (s' & -> & Hr'). simpl. eauto.
  - unfold Count. rewrite (repr_count _ _ _ Hr). eauto.
Qed.

Lemma run_calls_refines cs s ls xs : repr s ls xs ->
  exists s', run_calls cs s = Ret (fifo_calls cs xs, s').
Proof.
  revert s ls xs. induction cs as [|c cs IH]; intros s ls xs Hr; simpl; [eauto|].
  destruct (run_call_refines c s ls xs Hr) as (s1 & ls1 & -> & Hr1). simpl.
  destruct (IH s1 ls1 _ Hr1) as (s2 & ->). simpl. eauto.
Qed.
End queue.
Arguments Node : clear implicits.
Arguments store : clear implicits.
Arguments call : clear implicits.
Arguments answer : clear implicits.

(** The linked queue of channels is a FIFO queue: for every sequence of
    [Add], [Pop] and [Count] on a new queue no call follows a nil pointer, and
    the answers are those of the abstract queue; the count is its length, in 32
    bits. *)
Theorem channel_queue_refines_fifo {rChannel : Type} (cs : list (call rChannel)) :
  exists s, run_calls cs NewChannelQueue = Ret (fifo_calls cs [], s).
Proof.
  apply (run_calls_refines cs NewChannelQueue [] []). split; simpl; try done. constructor.
Qed.
