(* ===== verification/SendQueue.v ===== *)
(** * The send queue in front of RabbitMQ ([server/rabbitmq_product.go])

    Log messages are spread over eight blocking queues by a shared counter;
    four goroutines per queue hand them to the RabbitMQ pool, whose answer to
    [Push] is arbitrary here. The manager's shutdown closes the queues one
    after the other and waits for the goroutines. All of it is one transition
    system over the shares, each of which is the system of [MQueue]. *)
From Stdlib Require Import Strings.Byte.
From stdpp Require Import base gmap strings numbers list.
From S2P Require Import Prelude GoIO MQueue.

(** ** Messages *)
Record RabbitMqData := mkRabbitMqData {
  ExchangeName : string;
  ExchangeType : string;
  QueueName : string;
  Route : string;
  Data : bytes;
  MessageId : string
}.

(** [*RabbitMqData]; nil is the zero value. *)
Abbreviation pkg := (option RabbitMqData).

Definition GetRabbitMqDataFormat (exChangeName exChangeType queueName route : string)
  (data : bytes) (messageId : string) : pkg :=
  Some (mkRabbitMqData exChangeName exChangeType queueName route data messageId).

Definition GetRabbitMqDataFormatExpire (exChangeName exChangeType queueName route : string)
  (data : bytes) : pkg :=
  Some (mkRabbitMqData exChangeName exChangeType queueName route data EmptyString).

Definition RabbitmqSendQueueSlicesShareSize : nat := 8.
Definition RabbitmqSendQueueSlicesHandlerCount : nat := 4.

(** ** One share: a queue and its goroutines *)
Abbreviation share := (sys (T := pkg)).
Abbreviation handler := (kind (T := pkg) * pc (T := pkg))%type.

(** The function given to [DequeueFunc] answers [true] after every [Push]. *)
Definition processFunc (_ : pkg) (isClose : bool) : bool := true.

Definition share_enqueue (pick : option nat) (m : pkg) (sh : share)
  : outcome (option error * share) :=
  '(e, q) ← Enqueue None pick m (sq sh);
  Ret (e, match e with
          | None => mkSys q (wake <$> gs sh) (accepted sh ++ [m]) (delivered sh)
          | Some _ => mkSys q (gs sh) (accepted sh) (delivered sh)
          end).
Definition share_spawn (sh : share) : share :=
  mkSys (sq sh) (gs sh ++ [(KFunc processFunc, PDequeue)]) (accepted sh) (delivered sh).
Definition share_close (sh : share) : share :=
  mkSys (Close (sq sh)) (wake <$> gs sh) (accepted sh) (delivered sh).

(** Every goroutine of the share has been started and has returned. *)
Definition share_done (sh : share) : bool :=
  bool_decide (length (gs sh) = RabbitmqSendQueueSlicesHandlerCount) &&
  forallb (fun g => returned g.2) (gs sh).

(** ** The whole send queue *)

(** Where [closeRabbitmqSendQueueSlices] is: not called, about to close the
    share [i], waiting for [rabbitmqSendQueueDone], returned. *)
Inductive close_pc := CNot | CLoop (i : nat) | CWait | CDone.

Record sendq := mkSendQ {
  slices : list share;
  counter : Z;
  (** the calls of [pushRabbitmqSendQueue] between [Add] and [Enqueue], with
      the share they go to *)
  pushing : list (Z * pkg);
  (** how many shares [runhandleRabbitmqSendQueue] has started *)
  started : nat;
  (** the goroutines inside [processFunc], by share and number *)
  busy : gmap (nat * nat) pkg;
  closing : close_pc;
  (** history: the messages given to [pushRabbitmqSendQueue], those a closed
      queue refused, and the calls of [Push] with their answers *)
  pushed : list pkg;
  dropped : list pkg;
  sent : list (pkg * option error)
}.

Definition initRabbitmqSendQueueSlices : sendq :=
  mkSendQ (replicate RabbitmqSendQueueSlicesShareSize sys0) 0 [] 0 ∅ CNot [] [] [].

Definition set_slice (i : nat) (sh : share) (s : sendq) : sendq :=
  mkSendQ (<[i := sh]> (slices s)) (counter s) (pushing s) (started s) (busy s) (closing s)
    (pushed s) (dropped s) (sent s).

(** [pushRabbitmqSendQueue]: [Add(1)] and the choice of the share. *)
Definition push_number (m : pkg) (s : sendq) : sendq :=
  let c := u64 (counter s + 1) in
  mkSendQ (slices s) c
    (pushing s ++ [(c mod Z.of_nat RabbitmqSendQueueSlicesShareSize, m)]) (started s) (busy s)
    (closing s) (pushed s ++ [m]) (dropped s) (sent s).

(** The two log messages, up to their [pushRabbitmqSendQueue]: to the default
    exchange; [unique] is the time and a random string. *)
Definition SendAccessLogMessageToInfluxDB (AccesslogToInfluxDBQueue unique : string) (body : bytes)
  : sendq -> sendq :=
  push_number (GetRabbitMqDataFormat EmptyString EmptyString AccesslogToInfluxDBQueue EmptyString body unique).
Definition SendBlackListAccessLogMessage (BlacklistAccesslogQueue unique : string) (body : bytes)
  : sendq -> sendq :=
  push_number (GetRabbitMqDataFormat EmptyString EmptyString BlacklistAccesslogQueue EmptyString body unique).

(** [pushRabbitmqSendQueue]: the [Enqueue] of the [p]-th pending call, whose
    error is dropped; an index out of range panics. *)
Definition push_enqueue (p : nat) (pick : option nat) (s : sendq) : outcome sendq :=
  match pushing s !! p with
  | None => Ret s
  | Some (idx, m) =>
      match slices s !! Z.to_nat idx with
      | None => Panic
      | Some sh =>
          '(e, sh) ← share_enqueue pick m sh;
          Ret (mkSendQ (<[Z.to_nat idx := sh]> (slices s)) (counter s) (delete p (pushing s))
                 (started s) (busy s) (closing s) (pushed s)
                 (match e with None => dropped s | Some _ => dropped s ++ [m] end) (sent s))
      end
  end.

(** [runhandleRabbitmqSendQueue] starts the goroutine of the next share. *)
Definition start_share (s : sendq) : sendq :=
  mkSendQ (slices s) (counter s) (pushing s) (S (started s)) (busy s) (closing s)
    (pushed s) (dropped s) (sent s).

(** A goroutine that took [ds] from its queue enters [processFunc]. *)
Definition enter_process (i j : nat) (ds : list pkg) (s : sendq) : sendq :=
  mkSendQ (slices s) (counter s) (pushing s) (started s)
    (match ds with m :: _ => <[(i, j) := m]> (busy s) | [] => busy s end) (closing s)
    (pushed s) (dropped s) (sent s).

(** [Push] answers [e] to the goroutine [j] of share [i]; an error is only
    logged. *)
Definition push_answer (i j : nat) (m : pkg) (e : option error) (s : sendq) : sendq :=
  mkSendQ (slices s) (counter s) (pushing s) (started s) (delete (i, j) (busy s)) (closing s)
    (pushed s) (dropped s) (sent s ++ [(m, e)]).

Definition set_closing (c : close_pc) (s : sendq) : sendq :=
  mkSendQ (slices s) (counter s) (pushing s) (started s) (busy s) c
    (pushed s) (dropped s) (sent s).

(** [closeRabbitmqSendQueueSlices] after the share [i] is closed. *)
Definition after_close (i : nat) : close_pc :=
  if bool_decide (S i < RabbitmqSendQueueSlicesShareSize)%nat then CLoop (S i) else CWait.

(** [rabbitmqSendQueueDone] is closed: every share was started and every
    goroutine has returned. *)
Definition all_done (s : sendq) : bool :=
  bool_decide (started s = RabbitmqSendQueueSlicesShareSize) && forallb share_done (slices s).

(** The steps of the goroutines that send and of the shutdown. *)
Inductive drain_step : sendq -> sendq -> Prop :=
| d_start s :
    (started s < RabbitmqSendQueueSlicesShareSize)%nat -> drain_step s (start_share s)
| d_spawn s i sh :
    (i < started s)%nat -> slices s !! i = Some sh ->
    (length (gs sh) < RabbitmqSendQueueSlicesHandlerCount)%nat ->
    drain_step s (set_slice i (share_spawn sh) s)
| d_consume s i j sh sh' ds :
    slices s !! i = Some sh -> busy s !! (i, j) = None -> gstep None j sh sh' ->
    delivered sh' = delivered sh ++ ds ->
    drain_step s (enter_process i j ds (set_slice i sh' s))
| d_push s i j m e :
    busy s !! (i, j) = Some m -> drain_step s (push_answer i j m e s)
| d_close s i sh :
    closing s = CLoop i -> slices s !! i = Some sh ->
    drain_step s (set_closing (after_close i) (set_slice i (share_close sh) s))
| d_done s :
    closing s = CWait -> all_done s = true -> drain_step s (set_closing CDone s).

Inductive sendq_step : sendq -> sendq -> Prop :=
| s_drain s s' : drain_step s s' -> sendq_step s s'
| s_number s m : sendq_step s (push_number m s)
| s_enqueue s s' p pick : push_enqueue p pick s = Ret s' -> sendq_step s s'
| s_shutdown s : closing s = CNot -> sendq_step s (set_closing (CLoop 0) s).

(** States after [n] steps. *)
Inductive sendq_reach : nat -> sendq -> Prop :=
| sendq_reach_0 : sendq_reach 0 initRabbitmqSendQueueSlices
| sendq_reach_S n s s' : sendq_reach n s -> sendq_step s s' -> sendq_reach (S n) s'.

(** ** The invariant of a share *)

(** A goroutine returns only from a closed queue whose every element has been
    handed out. *)
Definition handler_ok (sh : share) (g : handler) : Prop :=
  g.1 = KFunc processFunc /\
  (returned g.2 = true -> status (sq sh) = false /\ accepted sh = delivered sh).

Record share_inv (n : nat) (sh : share) : Prop := mkShareInv {
  si_reach : exists m, (m <= n)%nat /\ reach None m sh;
  si_gs : Forall (handler_ok sh) (gs sh);
  si_len : (length (gs sh) <= RabbitmqSendQueueSlicesHandlerCount)%nat
}.

Lemma share_inv_mono n n' sh : (n <= n')%nat -> share_inv n sh -> share_inv n' sh.
Proof. intros Hn [(m & ? & ?) ? ?]. split; [|done..]. exists m. split; [lia|done]. Qed.

Lemma share_contents n sh :
  Z.of_nat n < 2 ^ 63 -> share_inv n sh ->
  exists vs, contains None (sq sh) vs /\ accepted sh = delivered sh ++ vs /\ sleepers_ok sh vs.
Proof.
  intros Hn [(m & Hm & Hr) _ _]. destruct (reach_inv None m sh Hr) as (vs & ? & ? & _ & ?); [lia|].
  eauto.
Qed.

Lemma share_step n sh sh' :
  share_inv n sh -> qstep None sh sh' -> Forall (handler_ok sh') (gs sh') ->
  (length (gs sh') <= RabbitmqSendQueueSlicesHandlerCount)%nat -> share_inv (S n) sh'.
Proof.
  intros [(m & Hm & Hr) _ _] Hs. split; [|done..]. exists (S m). split; [lia|]. by eapply reach_S.
Qed.

Lemma wake_ok sh sh' (l : list handler) :
  (forall g, handler_ok sh g -> handler_ok sh' g) ->
  Forall (handler_ok sh) l -> Forall (handler_ok sh') (wake <$> l).
Proof.
  intros Hi Hl. apply Forall_fmap. eapply Forall_impl; [done|]. intros g Hg%Hi.
  by destruct g as [k []].
Qed.

Lemma share_enqueue_inv n pick m sh :
  Z.of_nat n < 2 ^ 63 -> share_inv n sh ->
  exists e sh', share_enqueue pick m sh = Ret (e, sh') /\ share_inv (S n) sh' /\
    delivered sh' = delivered sh /\ status (sq sh') = status (sq sh) /\
    ((e = None /\ status (sq sh) = true /\ gs sh' = wake <$> gs sh /\
      accepted sh' = accepted sh ++ [m]) \/
     (is_Some e /\ status (sq sh) = false /\ gs sh' = gs sh /\ accepted sh' = accepted sh)).
Proof.
  intros Hn Hi. destruct (share_contents n sh Hn Hi) as (vs & Hq & _). unfold share_enqueue.
  destruct (status (sq sh)) eqn:Es.
  - destruct (Enqueue_contains None pick m _ _ Hq Es) as (q' & E & Es' & _).
    pose proof (share_step n sh _ Hi (step_enqueue None sh pick m q' E)) as Hr.
    rewrite E. simpl. eexists _, _. split; [done|]. split; [|split_and!; try done; by left].
    apply Hr; [|simpl; rewrite length_fmap; apply Hi]. apply (wake_ok sh); [|apply Hi]. intros g [Hk Hret]. split; [done|].
    intros [? _]%Hret. congruence.
  - assert (Enqueue None pick m (sq sh) = Ret (Some (Errorf "is close"), sq sh)) as E.
    { unfold Enqueue. by rewrite Es. }
    pose proof (share_step n sh _ Hi (step_refused None sh pick m _ _ E)) as Hr.
    rewrite E. simpl. eexists _, _. split; [done|].
    split; [|split_and!; try done; right; eauto]. apply Hr; apply Hi.
Qed.

Lemma share_spawn_inv n sh :
  (length (gs sh) < RabbitmqSendQueueSlicesHandlerCount)%nat ->
  share_inv n sh -> share_inv (S n) (share_spawn sh).
Proof.
  intros Hl Hi. apply (share_step n sh _ Hi (step_spawn None sh (KFunc processFunc))).
  - simpl. apply Forall_app. split; [apply Hi|by repeat constructor].
  - simpl. rewrite length_app. simpl. lia.
Qed.

Lemma share_close_inv n sh : share_inv n sh -> share_inv (S n) (share_close sh).
Proof.
  intros Hi. apply (share_step n sh _ Hi (step_close None sh)).
  - apply (wake_ok sh); [|apply Hi]. intros g [Hk Hret]. split; [done|]. by intros [_ ?]%Hret.
  - simpl. rewrite length_fmap. apply Hi.
Qed.

(** What a goroutine of a share does in one step: it takes an element, or
    finds nothing to take. *)
Lemma share_gstep_cases n j sh sh' :
  Z.of_nat n < 2 ^ 63 -> share_inv n sh -> gstep None j sh sh' ->
  exists p p', gs sh !! j = Some (KFunc processFunc, p) /\ (p = PDequeue \/ p = PCheck) /\
    gs sh' = <[j := (KFunc processFunc, p')]> (gs sh) /\ 
    accepted sh' = accepted sh /\ status (sq sh') = status (sq sh) /\
    ((exists m, p = PDequeue /\ p' = PCheck /\ delivered sh' = delivered sh ++ [m] /\
       (length (delivered sh) < length (accepted sh))%nat) \/
     (delivered sh' = delivered sh /\
       ((p = PDequeue /\ status (sq sh) = true /\ returned p' = false) \/
        (p = PDequeue /\ status (sq sh) = false /\ returned p' = true /\
          accepted sh = delivered sh) \/
        (p = PCheck /\ p' = check_wait (sq sh))))).
Proof.
  intros Hn Hi Hs. destruct (share_contents n sh Hn Hi) as (vs & Hq & Ha & _).
  destruct Hi as [_ Hok _]. rewrite Forall_lookup in Hok.
  inversion Hs as [s0 k t ok isClose q' Hj Hd|s0 k Hj]; subst; simpl;
    destruct (Hok _ _ Hj) as [Hk _]; simpl in Hk; subst k.
  - apply dequeue_contains in Hq. destruct vs as [|v vs].
    + rewrite Hq in Hd. simplify_eq. eexists _, _. split_and!; eauto. right.
      rewrite app_nil_r in *. split; [done|]. simpl. destruct (status (sq sh)); simpl; eauto 10.
    + destruct Hq as (q1 & Hd' & Hs1 & _). rewrite Hd' in Hd. simplify_eq.
      eexists _, _. split_and!; eauto. left. eexists. split_and!; try done.
      rewrite Ha, length_app. simpl. lia.
  - eexists _, _. split_and!; eauto 10.
Qed.

Lemma share_gstep_inv n j sh sh' :
  Z.of_nat n < 2 ^ 63 -> share_inv n sh -> gstep None j sh sh' -> share_inv (S n) sh'.
Proof.
  intros Hn Hi Hs. apply (share_step n sh sh' Hi); [by eapply step_consumer|..];
  destruct (share_gstep_cases n j sh sh' Hn Hi Hs) as (p & p' & Hj & _ & -> & Ha & Hst & Hc);
    [|rewrite length_insert; apply Hi].
  destruct Hi as [_ Hok _]. apply Forall_insert.
  - eapply Forall_impl; [done|]. intros g [Hk Hret]. split; [done|]. intros Hg.
    destruct (Hret Hg) as [? E]. rewrite Hst, Ha. split; [done|].
    destruct Hc as [(m & _ & _ & _ & Hlt)|[-> _]]; [rewrite E in Hlt; lia|done].
  - split; [done|]. simpl. rewrite Hst, Ha.
    destruct Hc as [(m & -> & -> & -> & _)|[-> Hc]]; [done|].
    destruct Hc as [(-> & ? & ?)|[(-> & ? & ? & ?)|[-> ->]]]; [congruence|done|].
    unfold check_wait. by case_match.
Qed.

(** ** The invariant of the send queue *)

(** How many shares are closed. *)
Definition closed_shares (c : close_pc) : nat :=
  match c with CNot => 0 | CLoop i => i | CWait | CDone => RabbitmqSendQueueSlicesShareSize end.

(** The values a map holds. *)
Definition held (b : gmap (nat * nat) pkg) : list pkg := (map_to_list b).*2.

Lemma held_insert b k m : b !! k = None -> held (<[k := m]> b) ≡ₚ m :: held b.
Proof. intros Hk. unfold held. by rewrite map_to_list_insert. Qed.
Lemma held_delete b k m : b !! k = Some m -> held b ≡ₚ m :: held (delete k b).
Proof.
  intros Hk. rewrite <- (held_insert (delete k b) k m) by apply lookup_delete_eq.
  by rewrite insert_delete_id.
Qed.

Record sendq_inv (n : nat) (s : sendq) : Prop := mkSendqInv {
  sv_len : length (slices s) = RabbitmqSendQueueSlicesShareSize;
  sv_shares : forall i sh, slices s !! i = Some sh ->
    share_inv n sh /\
    status (sq sh) = negb (bool_decide (i < closed_shares (closing s))%nat);
  sv_started : (started s <= RabbitmqSendQueueSlicesShareSize)%nat;
  sv_pushing : Forall (fun p => 0 <= p.1 < Z.of_nat RabbitmqSendQueueSlicesShareSize) (pushing s);
  sv_loop : forall i, closing s = CLoop i -> (i < RabbitmqSendQueueSlicesShareSize)%nat;
  sv_pushed : pushed s ≡ₚ (pushing s).*2 ++ dropped s ++ concat (accepted <$> slices s);
  sv_delivered : concat (delivered <$> slices s) ≡ₚ (sent s).*1 ++ held (busy s);
  sv_busy : forall i j m, busy s !! (i, j) = Some m ->
    exists sh, slices s !! i = Some sh /\ gs sh !! j = Some (KFunc processFunc, PCheck);
  sv_dropped : closing s = CNot -> dropped s = [];
  sv_done : closing s = CDone -> all_done s = true
}.

Lemma sendq_inv_init : sendq_inv 0 initRabbitmqSendQueueSlices.
Proof.
  split; try done; [|simpl; lia].
  intros i sh Hi. apply lookup_replicate in Hi as [-> _]. split; [|done].
  split; [|constructor|simpl; lia]. exists 0%nat. split; [done|constructor].
Qed.

(** The shares after one of them took a step that keeps its status. *)
Lemma shares_insert n (l : list share) c i sh sh' :
  (forall i sh, l !! i = Some sh ->
     share_inv n sh /\ status (sq sh) = negb (bool_decide (i < c)%nat)) ->
  l !! i = Some sh -> share_inv (S n) sh' -> status (sq sh') = status (sq sh) ->
  forall j shj, <[i := sh']> l !! j = Some shj ->
     share_inv (S n) shj /\ status (sq shj) = negb (bool_decide (j < c)%nat).
Proof.
  intros Hl Hi Hi' Hs j shj Hj. apply list_lookup_insert_Some in Hj as [(<- & -> & _)|[_ Hj]].
  - split; [done|]. rewrite Hs. by apply Hl.
  - destruct (Hl _ _ Hj) as [? ?]. split; [|done]. by eapply share_inv_mono; [|done]; lia.
Qed.

(** Goroutines inside [processFunc] stay there when others step. *)
Lemma busy_insert (l : list share) (b : gmap (nat * nat) pkg) i sh sh' :
  (forall i j m, b !! (i, j) = Some m ->
    exists sh, l !! i = Some sh /\ gs sh !! j = Some (KFunc processFunc, PCheck)) ->
  l !! i = Some sh ->
  (forall j, is_Some (b !! (i, j)) -> gs sh !! j = Some (KFunc processFunc, PCheck) ->
     gs sh' !! j = Some (KFunc processFunc, PCheck)) ->
  forall i' j m, b !! (i', j) = Some m ->
    exists sh, <[i := sh']> l !! i' = Some sh /\ gs sh !! j = Some (KFunc processFunc, PCheck).
Proof.
  intros Hb Hi Hs i' j m Hm. destruct (Hb _ _ _ Hm) as (shj & Hj & Hg).
  destruct (decide (i' = i)) as [->|Hne].
  - simplify_eq. exists sh'. rewrite list_lookup_insert_eq by by eapply lookup_lt_Some.
    split; [done|]. by eapply Hs.
  - exists shj. by rewrite list_lookup_insert_ne.
Qed.

Lemma wake_busy (l : list handler) j :
  l !! j = Some (KFunc processFunc, PCheck) ->
  (wake <$> l) !! j = Some (KFunc processFunc, PCheck).
Proof. intros Hj. by rewrite list_lookup_fmap, Hj. Qed.

Lemma all_done_share s i sh :
  all_done s = true -> slices s !! i = Some sh -> share_done sh = true.
Proof.
  intros [_ Hd]%andb_prop Hi. rewrite forallb_forall in Hd. apply Hd.
  apply list_elem_of_In. by eapply list_elem_of_lookup_2.
Qed.

Lemma share_done_returned sh j k p :
  share_done sh = true -> gs sh !! j = Some (k, p) -> returned p = true.
Proof.
  intros [_ Hd]%andb_prop Hj. rewrite forallb_forall in Hd. apply (Hd (k, p)).
  apply list_elem_of_In. by eapply list_elem_of_lookup_2.
Qed.

Lemma share_done_length sh :
  share_done sh = true -> length (gs sh) = RabbitmqSendQueueSlicesHandlerCount.
Proof. intros [Hd _]%andb_prop. by apply bool_decide_eq_true in Hd. Qed.

Lemma forallb_insert {A : Type} (f : A -> bool) (l : list A) i x :
  forallb f l = true -> f x = true -> forallb f (<[i := x]> l) = true.
Proof.
  revert i. induction l as [|y l IH]; intros [|i] Hl Hx; simpl in *; try done;
    apply andb_prop in Hl as [Hy Hl]; apply andb_true_intro; auto.
Qed.

Lemma push_enqueue_inv n s p pick :
  Z.of_nat n < 2 ^ 63 -> sendq_inv n s ->
  exists s', push_enqueue p pick s = Ret s' /\ sendq_inv (S n) s'.
Proof.
  intros Hn Hv. unfold push_enqueue. destruct (pushing s !! p) as [[idx m]|] eqn:Ep.
  2: { exists s. split; [done|]. destruct Hv. split; try done. intros i sh Hi.
       destruct (sv_shares0 i sh Hi). split; [|done]. by eapply share_inv_mono; [|done]; lia. }
  destruct Hv. pose proof (proj1 (Forall_lookup _ _) sv_pushing0 _ _ Ep) as Hidx. simpl in Hidx.
  destruct (lookup_lt_is_Some_2 (slices s) (Z.to_nat idx)) as [sh Hsh]; [lia|]. rewrite Hsh.
  destruct (sv_shares0 _ _ Hsh) as [Hi Hst].
  destruct (share_enqueue_inv n pick m sh Hn Hi) as (e & sh' & -> & Hi' & Hd & Hs & Hc).
  simpl. eexists. split; [done|].
  pose proof (delete_Permutation _ _ _ Ep) as Hperm.
  assert ((pushing s).*2 ≡ₚ m :: (delete p (pushing s)).*2) as Hp2 by by rewrite Hperm at 1.
  destruct (concat_insert accepted _ _ _ Hsh) as [Ha1 Ha2].
  destruct (concat_insert delivered _ _ _ Hsh) as [Hd1 Hd2].
  split; simpl; try done.
  - by rewrite length_insert.
  - by eapply shares_insert.
  - rewrite Hperm in sv_pushing0. by apply Forall_cons_1 in sv_pushing0 as [_ ?].
  - rewrite sv_pushed0, Hp2, Ha1, Ha2.
    destruct Hc as [(-> & _ & _ & ->)|([? ->] & _ & _ & ->)]; solve_Permutation.
  - rewrite Hd2, Hd. by rewrite <- Hd1.
  - eapply busy_insert; [done..|]. intros j _ Hj.
    destruct Hc as [(_ & _ & -> & _)|(_ & _ & -> & _)]; [by apply wake_busy|done].
  - intros Hc0. rewrite Hc0, bool_decide_eq_false_2 in Hst by (simpl; lia).
    simpl in Hst. rewrite (sv_dropped0 Hc0).
    destruct Hc as [(-> & _)|(_ & ? & _)]; [done|congruence].
  - intros Hcl. specialize (sv_done0 Hcl). 
    rewrite Hcl, bool_decide_eq_true_2 in Hst by (simpl in *; lia). simpl in Hst.
    destruct Hc as [(_ & ? & _)|(_ & _ & Hg & _)]; [congruence|].
    pose proof (all_done_share s _ sh sv_done0 Hsh) as Hdn. apply andb_prop in sv_done0 as [Hst' Hf].
    apply andb_true_intro. split; [done|]. apply forallb_insert; [done|]. unfold share_done. by rewrite Hg.
Qed.

Lemma sendq_inv_mono n s : sendq_inv n s -> sendq_inv (S n) s.
Proof.
  intros []. split; try done. intros i sh Hi. destruct (sv_shares0 i sh Hi). split; [|done].
  by eapply share_inv_mono; [|done]; lia.
Qed.

Lemma push_number_inv n m s : sendq_inv n s -> sendq_inv (S n) (push_number m s).
Proof.
  intros []%sendq_inv_mono. split; simpl; try done.
  - apply Forall_app. split; [done|]. constructor; [|done]. simpl. by apply Z.mod_pos_bound.
  - rewrite fmap_app, sv_pushed0. simpl. solve_Permutation.
Qed.

Lemma start_share_inv n s :
  (started s < RabbitmqSendQueueSlicesShareSize)%nat ->
  sendq_inv n s -> sendq_inv (S n) (start_share s).
Proof.
  intros Hs []%sendq_inv_mono. split; simpl; try done.
  intros Hc. specialize (sv_done0 Hc). apply andb_prop in sv_done0 as [E _].
  apply bool_decide_eq_true in E. lia.
Qed.

Lemma share_spawn_sendq_inv n s i sh :
  slices s !! i = Some sh -> (length (gs sh) < RabbitmqSendQueueSlicesHandlerCount)%nat ->
  sendq_inv n s -> sendq_inv (S n) (set_slice i (share_spawn sh) s).
Proof.
  intros Hi Hl []. destruct (sv_shares0 _ _ Hi) as [Hsh _].
  destruct (concat_insert accepted _ _ _ Hi) as [Ha1 Ha2].
  destruct (concat_insert delivered _ _ _ Hi) as [Hd1 Hd2].
  split; simpl; try done.
  - by rewrite length_insert.
  - eapply shares_insert; [done..| |done]. by apply share_spawn_inv.
  - by rewrite sv_pushed0, Ha1, Ha2.
  - by rewrite Hd2, <- sv_delivered0, Hd1.
  - eapply busy_insert; [done..|]. intros j _ Hj. by apply lookup_app_l_Some.
  - intros Hc. pose proof (all_done_share s _ sh (sv_done0 Hc) Hi) as Hd%share_done_length. lia.
Qed.

Lemma share_consume_inv n s i j sh sh' ds :
  Z.of_nat n < 2 ^ 63 -> slices s !! i = Some sh -> busy s !! (i, j) = None ->
  gstep None j sh sh' -> delivered sh' = delivered sh ++ ds ->
  sendq_inv n s -> sendq_inv (S n) (enter_process i j ds (set_slice i sh' s)).
Proof.
  intros Hn Hi Hb Hg Hds []. destruct (sv_shares0 _ _ Hi) as [Hsh _].
  destruct (share_gstep_cases n j sh sh' Hn Hsh Hg) as (p & p' & Hj & Hp & Hgs & Ha & Hst & Hc).
  destruct (concat_insert accepted _ _ _ Hi) as [Ha1 Ha2].
  destruct (concat_insert delivered _ _ _ Hi) as [Hd1 Hd2].
  assert (forall i' j' m, busy s !! (i', j') = Some m ->
    exists sh, <[i := sh']> (slices s) !! i' = Some sh /\
      gs sh !! j' = Some (KFunc processFunc, PCheck)) as Hbusy.
  { eapply busy_insert; [done..|]. intros j' [m Hm] Hj'. rewrite Hgs.
    rewrite list_lookup_insert_ne; [done|]. intros ->. congruence. }
  assert (held (match ds with m :: _ => <[(i, j):=m]> (busy s) | [] => busy s end) ≡ₚ
    held (busy s) ++ ds) as Hbusy2.
  { destruct Hc as [(m & _ & _ & E & _)|[E _]]; rewrite E in Hds.
    - apply app_inv_head in Hds. subst ds. rewrite held_insert by done. solve_Permutation.
    - rewrite <- (app_nil_r (delivered sh)) in Hds at 1. apply app_inv_head in Hds. subst ds.
      by rewrite app_nil_r. }
  split; simpl; try done.
  - by rewrite length_insert.
  - eapply shares_insert; [done..| |done]. by eapply share_gstep_inv.
  - by rewrite sv_pushed0, Ha1, Ha2, Ha.
  - rewrite Hd2, Hds. rewrite Hd1 in sv_delivered0.
    rewrite Hbusy2, app_assoc. rewrite <- sv_delivered0. solve_Permutation.
  - intros i' j' m. destruct ds as [|m0 ds]; [by apply Hbusy|].
    rewrite lookup_insert_Some. intros [[[= <- <-] _]|[_ Hm]]; [|by eapply Hbusy].
    exists sh'. rewrite list_lookup_insert_eq by by eapply lookup_lt_Some. split; [done|].
    rewrite Hgs. destruct Hc as [(? & _ & -> & _)|[E _]].
    + apply list_lookup_insert_eq. by eapply lookup_lt_Some.
    + rewrite E in Hds. apply (f_equal length) in Hds. rewrite length_app in Hds. simpl in Hds. lia.
  - intros Hcl. pose proof (all_done_share s _ sh (sv_done0 Hcl) Hi) as Hd.
    pose proof (share_done_returned _ _ _ _ Hd Hj). by destruct Hp; subst p.
Qed.

Lemma push_answer_inv n s i j m e :
  busy s !! (i, j) = Some m -> sendq_inv n s -> sendq_inv (S n) (push_answer i j m e s).
Proof.
  intros Hb []%sendq_inv_mono. split; simpl; try done.
  - rewrite sv_delivered0, (held_delete _ _ _ Hb), fmap_app. simpl. solve_Permutation.
  - intros i' j' m' [_ Hm]%lookup_delete_Some. by eapply sv_busy0.
Qed.

Lemma closed_shares_after i :
  (i < RabbitmqSendQueueSlicesShareSize)%nat -> closed_shares (after_close i) = S i.
Proof. unfold after_close. intros Hi. case_bool_decide; simpl; unfold RabbitmqSendQueueSlicesShareSize in *; lia. Qed.

Lemma after_close_busy i : after_close i <> CNot /\ after_close i <> CDone.
Proof. unfold after_close. by case_bool_decide. Qed.

Lemma close_share_inv n s i sh :
  closing s = CLoop i -> slices s !! i = Some sh -> sendq_inv n s ->
  sendq_inv (S n) (set_closing (after_close i) (set_slice i (share_close sh) s)).
Proof.
  intros Hc Hi []. destruct (sv_shares0 _ _ Hi) as [Hsh _]. rewrite Hc in sv_shares0.
  destruct (concat_insert accepted _ _ _ Hi) as [Ha1 Ha2].
  destruct (concat_insert delivered _ _ _ Hi) as [Hd1 Hd2].
  split; simpl; try done.
  - by rewrite length_insert.
  - intros j shj Hj. rewrite (closed_shares_after i) by auto.
    apply list_lookup_insert_Some in Hj as [(<- & <- & _)|[Hne Hj]].
    + split; [by apply share_close_inv|]. by rewrite bool_decide_eq_true_2 by lia.
    + destruct (sv_shares0 _ _ Hj) as [? ->]. split; [by eapply share_inv_mono; [|done]; lia|].
      f_equal. apply bool_decide_ext. simpl. lia.
  - intros j. unfold after_close. case_bool_decide; [|done]. by intros [= <-].
  - by rewrite sv_pushed0, Ha1, Ha2.
  - by rewrite Hd2, <- sv_delivered0, Hd1.
  - eapply busy_insert; [done..|]. intros j _ Hj. by apply wake_busy.
  - by intros ?%after_close_busy.
  - by intros ?%after_close_busy.
Qed.

Lemma drain_step_inv n s s' :
  Z.of_nat n < 2 ^ 63 -> drain_step s s' -> sendq_inv n s -> sendq_inv (S n) s'.
Proof.
  intros Hn Hs Hv. destruct Hs.
  - by apply start_share_inv.
  - by apply share_spawn_sendq_inv.
  - by eapply share_consume_inv.
  - by apply push_answer_inv.
  - by apply close_share_inv.
  - apply sendq_inv_mono in Hv as []. rewrite H in sv_shares0. by split.
Qed.

Lemma sendq_step_inv n s s' :
  Z.of_nat n < 2 ^ 63 -> sendq_step s s' -> sendq_inv n s -> sendq_inv (S n) s'.
Proof.
  intros Hn Hs Hv. destruct Hs as [s s' Hd|s m|s s' p pick He|s Hc].
  - by eapply drain_step_inv.
  - by apply push_number_inv.
  - destruct (push_enqueue_inv n s p pick Hn Hv) as (s1 & E & ?). congruence.
  - apply sendq_inv_mono in Hv as []. rewrite Hc in sv_shares0. split; try done.
    intros i [= <-]. unfold RabbitmqSendQueueSlicesShareSize. lia.
Qed.

Lemma sendq_reach_inv n s : sendq_reach n s -> Z.of_nat n < 2 ^ 63 -> sendq_inv n s.
Proof.
  induction 1 as [|n s s' _ IH Hs]; intros Hn; [apply sendq_inv_init|].
  eapply sendq_step_inv; [|done|apply IH]; lia.
Qed.

(** What the queues hold, as the invariants of the shares see it. *)
Lemma shares_split n (l : list share) :
  Z.of_nat n < 2 ^ 63 -> (forall i sh, l !! i = Some sh -> share_inv n sh) ->
  exists qss, Forall2 (fun sh q => contains None (sq sh) q /\ accepted sh = delivered sh ++ q) l qss /\
    concat (accepted <$> l) ≡ₚ concat (delivered <$> l) ++ concat qss.
Proof.
  intros Hn. induction l as [|sh l IH]; intros Hl; [exists []; by split|].
  destruct (IH (fun i => Hl (S i))) as (qss & Hq & Hp).
  destruct (share_contents n sh Hn (Hl 0%nat sh eq_refl)) as (q & Hc & Ha & _).
  exists (q :: qss). split; [by constructor|]. simpl. rewrite Hp, Ha. solve_Permutation.
Qed.

Lemma done_empty n s qss :
  sendq_inv n s -> closing s = CDone ->
  Forall2 (fun sh q => contains None (sq sh) q /\ accepted sh = delivered sh ++ q) (slices s) qss ->
  concat qss = [] /\ busy s = ∅.
Proof.
  intros Hv Hc Hq. destruct Hv. specialize (sv_done0 Hc). split.
  - assert (Forall (fun q => q = []) qss) as Hn; [|clear - Hn; by induction Hn as [|q qss -> _ IH]].
    apply Forall_lookup. intros i q Hi. destruct (Forall2_lookup_r _ _ _ _ _ Hq Hi) as (sh & Hsh & _ & Ha).
    pose proof (all_done_share s i sh sv_done0 Hsh) as Hd.
    destruct (lookup_lt_is_Some_2 (gs sh) 0) as [[k p] Hg].
    { rewrite (share_done_length _ Hd). unfold RabbitmqSendQueueSlicesHandlerCount. lia. }
    pose proof (share_done_returned _ _ _ _ Hd Hg) as Hr.
    destruct (sv_shares0 _ _ Hsh) as [[_ Hok _] _].
    destruct (proj2 (proj1 (Forall_lookup _ _) Hok _ _ Hg) Hr) as [_ E].
    rewrite E in Ha. apply (f_equal length) in Ha. rewrite length_app in Ha.
    destruct q; [done|simpl in Ha; lia].
  - apply map_eq. intros [i j]. rewrite lookup_empty. destruct (busy s !! (i, j)) as [m|] eqn:E; [|done].
    destruct (sv_busy0 _ _ _ E) as (sh & Hsh & Hg).
    pose proof (all_done_share s i sh sv_done0 Hsh) as Hd.
    by pose proof (share_done_returned _ _ _ _ Hd Hg).
Qed.

(** Where the messages are. *)
Lemma sendq_places n s :
  Z.of_nat n < 2 ^ 63 -> sendq_inv n s ->
  (exists qss, Forall2 (fun sh q => contains None (sq sh) q) (slices s) qss /\
     pushed s ≡ₚ (pushing s).*2 ++ dropped s ++ concat qss ++ held (busy s) ++ (sent s).*1) /\
  (closing s = CDone -> pushed s ≡ₚ (pushing s).*2 ++ dropped s ++ (sent s).*1).
Proof.
  intros Hn Hv. destruct (shares_split n (slices s) Hn) as (qss & Hq & Hp).
  { intros i sh Hi. by destruct (sv_shares n s Hv i sh Hi). }
  assert (pushed s ≡ₚ (pushing s).*2 ++ dropped s ++ concat qss ++ held (busy s) ++ (sent s).*1)
    as Hall.
  { rewrite (sv_pushed n s Hv), Hp, (sv_delivered n s Hv). solve_Permutation. }
  split.
  - exists qss. split; [|done]. eapply Forall2_impl; [done|]. by intros ?? [? _].
  - intros Hc. destruct (done_empty n s qss Hv Hc Hq) as [E1 E2]. by rewrite E1, E2 in Hall.
Qed.

(** C7. No log message is lost or sent twice inside the process: after any
    interleaving of fewer than 2^63 steps, every message given to
    [pushRabbitmqSendQueue] is in exactly one place: on the way into its
    queue, refused by a closed queue, in a queue, with a goroutine, or handed
    to [Push] once; no message is refused before the shutdown begins, the
    index of the share is always in range, and when
    [closeRabbitmqSendQueueSlices] has returned, every message a queue
    accepted was handed to [Push]. *)
Theorem send_queue_loses_nothing n s :
  sendq_reach n s -> Z.of_nat n < 2 ^ 63 ->
  (exists qss, Forall2 (fun sh q => contains None (sq sh) q) (slices s) qss /\
     pushed s ≡ₚ (pushing s).*2 ++ dropped s ++ concat qss ++ held (busy s) ++ (sent s).*1) /\
  (closing s = CNot -> dropped s = []) /\
  (forall p pick, exists s', push_enqueue p pick s = Ret s') /\
  (closing s = CDone -> pushed s ≡ₚ (pushing s).*2 ++ dropped s ++ (sent s).*1).
Proof.
  intros Hr Hn. pose proof (sendq_reach_inv n s Hr Hn) as Hv.
  destruct (sendq_places n s Hn Hv) as [Hp Hd]. split_and!; [done|apply Hv| |done].
  intros p pick. destruct (push_enqueue_inv n s p pick Hn Hv) as (s' & ? & _). eauto.
Qed.

(** ** The shutdown ends *)

(** The work left on a closed share, and in the whole send queue. *)
Definition pc_work (p : pc (T := pkg)) : nat :=
  match p with PWait | PCheck => 2 | PDequeue => 1 | _ => 0 end.
Definition share_work (sh : share) : nat :=
  3 * (length (accepted sh) - length (delivered sh)) +
  2 * (RabbitmqSendQueueSlicesHandlerCount - length (gs sh)) +
  sum_list_with (fun g => pc_work g.2) (gs sh).
Definition close_work (c : close_pc) : nat :=
  match c with
  | CNot => S (S RabbitmqSendQueueSlicesShareSize)
  | CLoop i => S (RabbitmqSendQueueSlicesShareSize - i)
  | CWait => 1
  | CDone => 0
  end.
Definition work (s : sendq) : nat :=
  sum_list_with share_work (slices s) + (RabbitmqSendQueueSlicesShareSize - started s) +
  size (busy s) + close_work (closing s).

Lemma sum_wake (l : list handler) :
  (sum_list_with (fun g => pc_work g.2) (wake <$> l) <=
   sum_list_with (fun g => pc_work g.2) l)%nat.
Proof.
  induction l as [|[k p] l IH]; [done|]. change (wake <$> (k, p) :: l) with (wake (k, p) :: (wake <$> l)).
  cbn [sum_list_with]. destruct p; cbn [wake snd pc_work]; lia.
Qed.

Lemma share_work_gstep n j sh sh' ds :
  Z.of_nat n < 2 ^ 63 -> share_inv n sh -> status (sq sh) = false ->
  gstep None j sh sh' -> delivered sh' = delivered sh ++ ds ->
  (share_work sh' + (match ds with [] => 0 | _ => 1 end) < share_work sh)%nat.
Proof.
  intros Hn Hi Hs Hg Hds.
  destruct (share_gstep_cases n j sh sh' Hn Hi Hg) as (p & p' & Hj & _ & Hgs & Ha & _ & Hc).
  pose proof (sum_list_insert (fun g => pc_work g.2) _ _ _ (KFunc processFunc, p') Hj) as Hsum.
  simpl in Hsum. unfold share_work. rewrite Hgs, length_insert, Ha.
  destruct Hc as [(m & -> & -> & E & Hlt)|[E Hc]]; rewrite E in *.
  - apply app_inv_head in Hds. subst ds. rewrite length_app in *. simpl in *. lia.
  - rewrite <- (app_nil_r (delivered sh)) in Hds at 1. apply app_inv_head in Hds. subst ds.
    destruct Hc as [(_ & ? & _)|[(-> & _ & Hr & _)|[-> ->]]]; [congruence| |].
    + destruct p'; try done; simpl in *; lia.
    + unfold check_wait in *. rewrite Hs in *. simpl in *. lia.
Qed.

Lemma share_work_spawn sh :
  (length (gs sh) < RabbitmqSendQueueSlicesHandlerCount)%nat ->
  (share_work (share_spawn sh) < share_work sh)%nat.
Proof.
  intros Hl. unfold share_work, share_spawn. simpl. rewrite length_app, sum_list_with_app.
  simpl. lia.
Qed.

Lemma share_work_close sh : (share_work (share_close sh) <= share_work sh)%nat.
Proof.
  unfold share_work, share_close. cbn [gs accepted delivered]. rewrite length_fmap. pose proof (sum_wake (gs sh)). lia.
Qed.

Lemma close_work_after i :
  (i < RabbitmqSendQueueSlicesShareSize)%nat ->
  (close_work (after_close i) < close_work (CLoop i))%nat.
Proof.
  unfold after_close, close_work, RabbitmqSendQueueSlicesShareSize. intros Hi.
  case_bool_decide; lia.
Qed.

(** Closing a share never adds work. *)
Lemma close_step_decreases n s i sh :
  sendq_inv n s -> closing s = CLoop i -> slices s !! i = Some sh ->
  (work (set_closing (after_close i) (set_slice i (share_close sh) s)) < work s)%nat.
Proof.
  intros Hv Hc Hi. pose proof (sum_list_insert share_work _ _ _ (share_close sh) Hi).
  pose proof (share_work_close sh). pose proof (close_work_after i (sv_loop n s Hv i Hc)).
  unfold work. cbn [set_closing set_slice slices started busy closing]. rewrite Hc. lia.
Qed.

Lemma drain_decreases n s s' :
  Z.of_nat n < 2 ^ 63 -> sendq_inv n s ->
  closed_shares (closing s) = RabbitmqSendQueueSlicesShareSize ->
  drain_step s s' -> (work s' < work s)%nat.
Proof.
  intros Hn Hv Hc Hs. destruct Hs as [s Hl|s i sh _ Hi Hl|s i j sh sh' ds Hi Hb Hg Hds|s i j m e Hb|s i sh Hcl Hi|s Hcl Hd].
  - unfold work. cbn [start_share slices started busy closing]. lia.
  - pose proof (sum_list_insert share_work _ _ _ (share_spawn sh) Hi).
    pose proof (share_work_spawn sh Hl). unfold work. simpl. lia.
  - destruct (sv_shares n s Hv i sh Hi) as [Hsh Hst].
    rewrite Hc, bool_decide_eq_true_2 in Hst
      by (rewrite <- (sv_len n s Hv); by eapply lookup_lt_Some).
    pose proof (share_work_gstep n j sh sh' ds Hn Hsh Hst Hg Hds).
    pose proof (sum_list_insert share_work _ _ _ sh' Hi). unfold work.
    destruct ds as [|m ds]; simpl; [lia|]. rewrite map_size_insert_None by done. lia.
  - unfold work. simpl. rewrite map_size_delete_Some by by eexists.
    assert (size (busy s) <> 0)%nat; [|lia]. intros E%map_size_empty_inv. by rewrite E in Hb.
  - by eapply close_step_decreases.
  - unfold work. cbn [set_closing slices started busy closing]. rewrite Hcl. simpl. lia.
Qed.

Lemma find_undone (l : list share) :
  forallb share_done l = false -> exists i sh, l !! i = Some sh /\ share_done sh = false.
Proof.
  induction l as [|sh l IH]; [done|]. simpl. destruct (share_done sh) eqn:E; simpl.
  - intros (i & sh' & ? & ?)%IH. by exists (S i), sh'.
  - intros _. by exists 0%nat, sh.
Qed.

Lemma find_running (l : list handler) :
  forallb (fun g => returned g.2) l = false ->
  exists j k p, l !! j = Some (k, p) /\ returned p = false.
Proof.
  induction l as [|[k p] l IH]; [done|]. simpl. destruct (returned p) eqn:E; simpl.
  - intros (i & k' & p' & ? & ?)%IH. by exists (S i), k', p'.
  - intros _. by exists 0%nat, k, p.
Qed.

(** A goroutine of a closed share that has not returned can step. *)
Lemma closed_share_steps n sh j k p :
  Z.of_nat n < 2 ^ 63 -> share_inv n sh -> status (sq sh) = false ->
  gs sh !! j = Some (k, p) -> returned p = false ->
  exists sh' ds, gstep None j sh sh' /\ delivered sh' = delivered sh ++ ds.
Proof.
  intros Hn Hi Hs Hj Hp. destruct (share_contents n sh Hn Hi) as (vs & Hq & _ & Hw).
  destruct p as [| | | |]; try done.
  - apply dequeue_contains in Hq. destruct vs as [|v vs].
    + eexists _, _. split; [by eapply step_dequeue|done].
    + destruct Hq as (q' & Hd & _). eexists _, _. split; [by eapply step_dequeue|done].
  - eexists _, []. split; [by eapply step_check|]. simpl. by rewrite app_nil_r.
  - destruct (Hw j k Hj). congruence.
Qed.

(** While the shutdown has not returned, some step makes it progress. *)
Lemma drain_progress n s :
  Z.of_nat n < 2 ^ 63 -> sendq_inv n s -> closing s <> CNot -> closing s <> CDone ->
  exists s', drain_step s s' /\ (work s' < work s)%nat.
Proof.
  intros Hn Hv Hc1 Hc2. destruct (closing s) as [|i| |] eqn:Hc; try done.
  { destruct (lookup_lt_is_Some_2 (slices s) i) as [sh Hi].
    { rewrite (sv_len n s Hv). by apply (sv_loop n s Hv). }
    eexists. split; [by eapply d_close|by eapply close_step_decreases]. }
  cut (exists s', drain_step s s').
  { intros [s' Hs]. exists s'. split; [done|]. eapply drain_decreases; [done..| |done]. by rewrite Hc. }
  destruct (all_done s) eqn:Hd; [eauto using d_done|]. unfold all_done in Hd.
  destruct (decide (started s < RabbitmqSendQueueSlicesShareSize)%nat) as [|Hst];
    [eauto using d_start|]. pose proof (sv_started n s Hv) as Hst'.
  rewrite bool_decide_eq_true_2 in Hd by lia. apply find_undone in Hd as (i & sh & Hi & Hd).
  destruct (decide (busy s = ∅)) as [Hb|Hb].
  2: { apply map_choose in Hb as ([i' j] & m & Hb).
       exists (push_answer i' j m None s). by apply d_push. }
  destruct (sv_shares n s Hv i sh Hi) as [Hsh Hcl].
  pose proof (lookup_lt_Some _ _ _ Hi) as Hlt. rewrite (sv_len n s Hv) in Hlt.
  destruct (decide (length (gs sh) < RabbitmqSendQueueSlicesHandlerCount)%nat) as [Hl|Hl].
  { exists (set_slice i (share_spawn sh) s). apply d_spawn; [lia|done..]. }
  pose proof (si_len n sh Hsh) as Hl'.
  unfold share_done in Hd. rewrite bool_decide_eq_true_2 in Hd by lia.
  apply find_running in Hd as (j & k & p & Hj & Hp).
  rewrite Hc, bool_decide_eq_true_2 in Hcl by done.
  destruct (closed_share_steps n sh j k p Hn Hsh Hcl Hj Hp) as (sh' & ds & Hg & Hds).
  eexists. eapply d_consume; [done| |done..]. by rewrite Hb.
Qed.

#[global] Instance close_pc_eq_dec : EqDecision close_pc.
Proof. solve_decision. Defined.

Lemma drain_keeps_closing s s' : drain_step s s' -> closing s <> CNot -> closing s' <> CNot.
Proof. intros Hs Hc. destruct Hs; simpl; try done. apply after_close_busy. Qed.

(** Once every share is closed, each step of a run takes some work away. *)
Lemma drain_run_bounded n s k s' :
  sendq_inv n s -> Z.of_nat (n + work s) < 2 ^ 63 ->
  closed_shares (closing s) = RabbitmqSendQueueSlicesShareSize -> nsteps drain_step k s s' ->
  exists n', sendq_inv n' s' /\ Z.of_nat (n' + work s') < 2 ^ 63 /\ (k + work s' <= work s)%nat /\
    closed_shares (closing s') = RabbitmqSendQueueSlicesShareSize.
Proof.
  intros Hv Hn Hc Hk. revert n Hv Hn Hc.
  induction Hk as [s|k s s1 s' Hs _ IH]; intros n Hv Hn Hc; [exists n; split_and!; [done..|lia|done]|].
  pose proof (drain_decreases n s s1 ltac:(lia) Hv Hc Hs) as Hlt.
  destruct (IH (S n)) as (n' & ? & ? & ? & ?); [|lia| |].
  - eapply drain_step_inv; [|done..]. lia.
  - destruct Hs; simpl; try done. rewrite H in Hc.
    pose proof (sv_loop n s Hv i H). simpl in Hc. lia.
  - exists n'. split_and!; [done..|lia|done].
Qed.

Lemma drain_to_end n s :
  Z.of_nat (n + work s) < 2 ^ 63 -> sendq_inv n s -> closing s <> CNot ->
  exists s', rtc drain_step s s' /\ closing s' = CDone.
Proof.
  remember (work s) as w eqn:Hw. revert n s Hw.
  induction w as [w IH] using (well_founded_induction lt_wf). intros n s -> Hn Hv Hc.
  destruct (decide (closing s = CDone)) as [Hd|Hd]; [exists s; by split; [apply rtc_refl|]|].
  destruct (drain_progress n s ltac:(lia) Hv Hc Hd) as (s1 & Hs & Hlt).
  destruct (IH (work s1) Hlt (S n) s1 eq_refl) as (s' & ? & ?); [lia| | |].
  - eapply drain_step_inv; [|done..]. lia.
  - by eapply drain_keeps_closing.
  - exists s'. split; [by eapply rtc_l|done].
Qed.


(** ** Concrete runs *)
Definition demo_message : pkg := GetRabbitMqDataFormat "" "" "accesslog" "" [Byte.x01] "id".

(** The first message is in its queue, the second one on its way. *)
Definition demo_queued : sendq :=
  default initRabbitmqSendQueueSlices
    (match push_enqueue 0 None (push_number demo_message initRabbitmqSendQueueSlices) with
     | Ret s => Some (push_number None s)
     | Panic => None
     end).

Lemma demo_queued_reached : sendq_reach 3 demo_queued.
Proof.
  eapply sendq_reach_S; [eapply sendq_reach_S; [eapply sendq_reach_S; [apply sendq_reach_0|]|]|].
  - apply (s_number _ demo_message).
  - apply (s_enqueue _ _ 0 None). vm_compute. reflexivity.
  - apply (s_number _ None).
Qed.

Lemma send_queue_loses_nothing_witness :
  closing demo_queued = CNot /\ dropped demo_queued = [] /\
  (pushing demo_queued = [(2, None)] /\ length (pushed demo_queued) = 2%nat) /\
  exists s', push_enqueue 0 None demo_queued = Ret s'.
Proof.
  destruct (send_queue_loses_nothing 3 demo_queued demo_queued_reached ltac:(lia))
    as (_ & Hd & Hp & _).
  split_and!; [reflexivity|apply Hd; reflexivity|vm_compute; reflexivity..|apply Hp].
Defined.

