(* ===== verification/TaskConsumer.v ===== *)
(** * The task manager of the server ([utils/taskConsumerManager/manager.go])

    [AddTask count fc] starts a loop that keeps up to [count] goroutines
    running [fc]; [Stop] cancels the context and waits for every loop. The
    manager, its loops and their workers are one transition system; a running
    [fc] is a worker that may return at any time, or never. *)
From stdpp Require Import base list numbers relations.
From S2P Require Import Prelude.

(** A goroutine that runs [fc]: inside [fc], after [wg.Done()], ended. *)
Inductive worker := WRun | WToken | WEnd.

(** The loop of [AddTask]: at the outer [select]; after the send on [tChan],
    at the inner [select]; about to start a worker; in the deferred
    [wg.Wait()]; about to close [tChan]; about to call [m.wg.Done()]; ended. *)
Inductive loop_pc := LSelect | LCheck | LStart | LWait | LClose | LDone | LEnd.

#[global] Instance loop_pc_eq_dec : EqDecision loop_pc.
Proof. solve_decision. Defined.

Record loop := mkLoop {
  count : nat;
  lpc : loop_pc;
  (** the elements in the buffer of [tChan], and whether it is closed *)
  tChan : nat;
  tClosed : bool;
  workers : list worker
}.

(** [Stop]: not called, in [m.wg.Wait()], returned. *)
Inductive stop_pc := SNot | SWait | SRet.

#[global] Instance stop_pc_eq_dec : EqDecision stop_pc.
Proof. solve_decision. Defined.

Record Manager := mkManager {
  cancelled : bool;
  (** the counter of [m.wg] *)
  wg : nat;
  loops : list loop;
  (** the calls of [AddTask] that have passed the test of the context *)
  adding : list nat;
  stopping : stop_pc
}.

Definition New : Manager := mkManager false 0 [] [] SNot.

Definition is_run (w : worker) : bool := match w with WRun => true | _ => false end.
(** A worker that has not yet received from [tChan]. *)
Definition has_token (w : worker) : bool := match w with WEnd => false | _ => true end.
Definition count_if (p : worker -> bool) (ws : list worker) : nat := length (filter (fun w => p w = true) ws).

(** The counter of the loop's own [wg]. *)
Definition loop_wg (l : loop) : nat := count_if is_run (workers l).

Definition set_pc (p : loop_pc) (l : loop) : loop :=
  mkLoop (count l) p (tChan l) (tClosed l) (workers l).
Definition set_worker (j : nat) (w : worker) (l : loop) : loop :=
  mkLoop (count l) (lpc l) (tChan l) (tClosed l) (<[j := w]> (workers l)).

(** [<-tChan] of a worker: takes an element, or finds the channel closed. *)
Definition receive (l : loop) : option loop :=
  match tChan l with
  | S n => Some (mkLoop (count l) (lpc l) n (tClosed l) (workers l))
  | O => if tClosed l then Some l else None
  end.

(** The steps of one loop and of its workers, given the state of the context. *)
Inductive loop_step (done : bool) : loop -> loop -> Prop :=
| l_cancelled l : lpc l = LSelect -> done = true -> loop_step done l (set_pc LWait l)
| l_token l :
    lpc l = LSelect -> (tChan l < count l)%nat ->
    loop_step done l (mkLoop (count l) LCheck (S (tChan l)) (tClosed l) (workers l))
| l_check l :
    lpc l = LCheck -> loop_step done l (set_pc (if done then LWait else LStart) l)
| l_start l :
    lpc l = LStart ->
    loop_step done l (mkLoop (count l) LSelect (tChan l) (tClosed l) (workers l ++ [WRun]))
| l_wait l : lpc l = LWait -> loop_wg l = 0%nat -> loop_step done l (set_pc LClose l)
| l_close l :
    lpc l = LClose -> loop_step done l (mkLoop (count l) LDone (tChan l) true (workers l))
| l_fc_returns l j :
    workers l !! j = Some WRun -> loop_step done l (set_worker j WToken l)
| l_receive l j l' :
    workers l !! j = Some WToken -> receive l = Some l' ->
    loop_step done l (set_worker j WEnd l').

Definition set_loop (i : nat) (l : loop) (m : Manager) : Manager :=
  mkManager (cancelled m) (wg m) (<[i := l]> (loops m)) (adding m) (stopping m).

(** [AddTask] up to and after the test of the context. *)
Definition AddTask_check (n : nat) (m : Manager) : Manager :=
  if cancelled m then m
  else mkManager (cancelled m) (wg m) (loops m) (adding m ++ [n]) (stopping m).
Definition AddTask_go (k n : nat) (m : Manager) : Manager :=
  mkManager (cancelled m) (S (wg m)) (loops m ++ [mkLoop n LSelect 0 false []])
    (delete k (adding m)) (stopping m).
(** [m.wg.Done()] of the loop [i]; a counter that falls below zero panics. *)
Definition loop_done (i : nat) (l : loop) (m : Manager) : outcome Manager :=
  match wg m with
  | O => Panic
  | S n => Ret (mkManager (cancelled m) n (<[i := set_pc LEnd l]> (loops m)) (adding m) (stopping m))
  end.
Definition Stop_cancel (m : Manager) : Manager :=
  mkManager true (wg m) (loops m) (adding m) SWait.
Definition Stop_return (m : Manager) : Manager :=
  mkManager (cancelled m) (wg m) (loops m) (adding m) SRet.

(** The steps of the manager's own goroutines. *)
Inductive run_step : Manager -> Manager -> Prop :=
| m_loop m i l l' :
    loops m !! i = Some l -> loop_step (cancelled m) l l' -> run_step m (set_loop i l' m)
| m_done m i l m' :
    loops m !! i = Some l -> lpc l = LDone -> loop_done i l m = Ret m' -> run_step m m'
| m_stopped m : stopping m = SWait -> wg m = 0%nat -> run_step m (Stop_return m).

Inductive task_step : Manager -> Manager -> Prop :=
| t_run m m' : run_step m m' -> task_step m m'
| t_check m n : task_step m (AddTask_check n m)
| t_go m k n : adding m !! k = Some n -> task_step m (AddTask_go k n m)
| t_stop m : stopping m = SNot -> task_step m (Stop_cancel m).

Abbreviation task_reach := (rtc task_step New).

(** ** The invariant *)

Definition in_loop (p : loop_pc) : bool :=
  match p with LSelect | LCheck | LStart => true | _ => false end.
Definition has_waited (p : loop_pc) : bool :=
  match p with LClose | LDone | LEnd => true | _ => false end.
(** The element the loop itself has put into [tChan] for the next worker. *)
Definition own_token (p : loop_pc) : nat := match p with LCheck | LStart => 1 | _ => 0 end.

Record loop_inv (l : loop) : Prop := mkLoopInv {
  li_cap : (tChan l <= count l)%nat;
  li_tokens : (count_if has_token (workers l) + own_token (lpc l) <= tChan l)%nat;
  li_closed : tClosed l = true -> lpc l = LDone \/ lpc l = LEnd;
  li_waited : has_waited (lpc l) = true -> loop_wg l = 0%nat
}.

Lemma count_app p ws ws' : count_if p (ws ++ ws') = (count_if p ws + count_if p ws')%nat.
Proof. unfold count_if. by rewrite filter_app, length_app. Qed.

Lemma count_cons p w ws : count_if p (w :: ws) = ((if p w then 1 else 0) + count_if p ws)%nat.
Proof. unfold count_if. rewrite filter_cons. destruct (p w); by case_decide. Qed.

Lemma count_insert p ws j w w' :
  ws !! j = Some w ->
  (count_if p (<[j := w']> ws) + (if p w then 1 else 0) =
   count_if p ws + (if p w' then 1 else 0))%nat.
Proof.
  revert j. induction ws as [|v ws IH]; intros [|j] Hj; simplify_eq/=; rewrite !count_cons;
    [lia|]. specialize (IH j Hj). lia.
Qed.

Lemma count_pos p ws j w : ws !! j = Some w -> p w = true -> (0 < count_if p ws)%nat.
Proof.
  intros Hj Hp. revert j Hj. induction ws as [|v ws IH]; intros [|j] Hj; simplify_eq/=;
    rewrite count_cons; [rewrite Hp; lia|]. specialize (IH j Hj). lia.
Qed.

Lemma loop_step_inv done l l' : loop_step done l l' -> loop_inv l -> loop_inv l'.
Proof.
  intros Hs [Hc Ht Hcl Hw].
  destruct Hs as [l Hp _|l Hp Hlt|l Hp|l Hp|l Hp Hz|l Hp|l j Hj|l j l' Hj Hr];
    try rewrite Hp in *; simpl in *.
  - split; simpl; try done; try lia. by intros [|]%Hcl.
  - split; simpl; try done; try lia. by intros [|]%Hcl.
  - destruct done; split; simpl; try done; try lia; by intros [|]%Hcl.
  - split; simpl; try done; [|by intros [|]%Hcl].
    rewrite count_app, count_cons. unfold count_if at 2. simpl. lia.
  - split; simpl; try done; try lia. by intros [|]%Hcl.
  - split; simpl; auto.
  - pose proof (count_insert has_token _ _ _ WToken Hj).
    pose proof (count_insert is_run _ _ _ WToken Hj). simpl in *.
    split; simpl; try done; [lia|]. intros ?%Hw. unfold loop_wg in *. simpl. lia.
  - pose proof (count_insert has_token _ _ _ WEnd Hj).
    pose proof (count_insert is_run _ _ _ WEnd Hj).
    pose proof (count_pos has_token _ _ _ Hj eq_refl). simpl in *.
    unfold receive in Hr. destruct (tChan l) as [|n]; [lia|]. simplify_eq/=.
    split; simpl; try done; try lia. intros ?%Hw. unfold loop_wg in *. simpl. lia.
Qed.

(** The loops that have not called [m.wg.Done()]. *)
Definition alive (l : loop) : bool := match lpc l with LEnd => false | _ => true end.
Definition alive_loops (ls : list loop) : nat := length (filter (fun l => alive l = true) ls).

Lemma alive_cons l ls : alive_loops (l :: ls) = ((if alive l then 1 else 0) + alive_loops ls)%nat.
Proof. unfold alive_loops. rewrite filter_cons. destruct (alive l); by case_decide. Qed.

Lemma alive_insert ls i l l' :
  ls !! i = Some l ->
  (alive_loops (<[i := l']> ls) + (if alive l then 1 else 0) =
   alive_loops ls + (if alive l' then 1 else 0))%nat.
Proof.
  revert i. induction ls as [|k ls IH]; intros [|i] Hi; simplify_eq/=; rewrite !alive_cons; [lia|].
  specialize (IH i Hi). lia.
Qed.

(** No task function runs in the loop, nor will the loop start one. *)
Definition quiet (l : loop) : Prop := loop_wg l = 0%nat /\ lpc l <> LStart.

Record mgr_inv (m : Manager) : Prop := mkMgrInv {
  mi_loops : Forall loop_inv (loops m);
  mi_wg : wg m = alive_loops (loops m);
  mi_cancel : cancelled m = negb (bool_decide (stopping m = SNot));
  mi_ret : stopping m = SRet -> Forall quiet (loops m)
}.

Lemma receive_frame l l' :
  receive l = Some l' -> lpc l' = lpc l /\ workers l' = workers l /\ (tChan l' <= tChan l)%nat.
Proof.
  unfold receive. destruct (tChan l) as [|n] eqn:E; [destruct (tClosed l)|]; intros [= <-];
    simpl; split_and!; try done; lia.
Qed.

Lemma loop_step_alive done l l' : loop_step done l l' -> alive l' = alive l.
Proof.
  intros Hs. destruct Hs as [l Hp _|l Hp Hlt|l Hp|l Hp|l Hp Hz|l Hp|l j Hj|l j l' Hj Hr];
    unfold alive; simpl; rewrite ?Hp; try done.
  - by destruct done.
  - by destruct (receive_frame _ _ Hr) as (-> & _).
Qed.

(** A quiet loop of a cancelled manager stays quiet. *)
Lemma loop_step_quiet l l' : loop_step true l l' -> quiet l -> quiet l'.
Proof.
  intros Hs [Hw Hp']. destruct Hs as [l Hp _|l Hp Hlt|l Hp|l Hp|l Hp Hz|l Hp|l j Hj|l j l' Hj Hr];
    split; simpl; try done; unfold loop_wg in *; simpl.
  - pose proof (count_pos is_run _ _ _ Hj eq_refl). lia.
  - pose proof (count_insert is_run _ _ _ WEnd Hj). simpl in *.
    destruct (receive_frame _ _ Hr) as (_ & -> & _). lia.
  - by destruct (receive_frame _ _ Hr) as (-> & _).
Qed.

Lemma run_step_inv m m' : run_step m m' -> mgr_inv m -> mgr_inv m'.
Proof.
  intros Hs [Hl Hw Hc Hr]. destruct Hs as [m i l l' Hi Hs|m i l m' Hi Hp Hd|m Hst Hz].
  - pose proof (alive_insert _ _ _ l' Hi). rewrite (loop_step_alive _ _ _ Hs) in *.
    split; simpl; [|lia|done|].
    + apply Forall_insert; [done|]. eapply loop_step_inv; [done|]. by eapply Forall_lookup_1.
    + intros E. apply Forall_insert; [auto|]. rewrite E in Hc. rewrite Hc in Hs.
      eapply loop_step_quiet; [done|]. by eapply Forall_lookup_1; [apply Hr|].
  - unfold loop_done in Hd. destruct (wg m) as [|n] eqn:Ew; [done|]. simplify_eq/=.
    pose proof (alive_insert _ _ _ (set_pc LEnd l) Hi) as Ha. unfold alive in Ha. rewrite Hp in Ha.
    simpl in Ha. split; simpl; [|lia|done|].
    + apply Forall_insert; [done|]. apply (Forall_lookup_1 _ _ _ _ Hl) in Hi as [].
      rewrite Hp in *. split; simpl in *; try done. by right.
    + intros E. apply Forall_insert; [auto|]. apply (Forall_lookup_1 _ _ _ _ (Hr E)) in Hi as [? _].
      by split.
  - split; simpl; try done; [by rewrite Hst in Hc|]. intros _.
    rewrite Hw in Hz. clear Hw Hr. induction Hl as [|l ls Hl Hls IH]; [done|].
    rewrite alive_cons in Hz. constructor; [|apply IH; lia]. unfold alive in Hz.
    destruct (lpc l) eqn:E; try lia. destruct Hl as [_ _ _ Hq]. split; [|congruence].
    apply Hq. by rewrite E.
Qed.

Lemma manager_step_inv m m' : task_step m m' -> mgr_inv m -> mgr_inv m'.
Proof.
  intros Hs Hi. destruct Hs as [m m' Hs|m n|m k n Hk|m Hst]; [by eapply run_step_inv|..];
    destruct Hi as [Hl Hw Hc Hr].
  - unfold AddTask_check. destruct (cancelled m) eqn:E; split; simpl; done || congruence.
  - split; simpl.
    + apply Forall_app. split; [done|]. constructor; [|done].
      split; simpl; try done; unfold count_if; simpl; lia.
    + unfold alive_loops in *. rewrite filter_app, length_app. simpl. lia.
    + done.
    + intros E. apply Forall_app. split; [auto|]. by constructor.
  - split; simpl; try done. 
Qed.

Lemma New_inv : mgr_inv New.
Proof. by split; [constructor|..]. Qed.

Lemma task_run_inv m m' : rtc task_step m m' -> mgr_inv m -> mgr_inv m'.
Proof. induction 1; eauto using manager_step_inv. Qed.

Lemma task_reach_inv m : task_reach m -> mgr_inv m.
Proof. intros Hr. by eapply task_run_inv, New_inv. Qed.

(** C14. The task manager keeps its promises in every interleaving: a task
    added with [count] never has more than [count] functions running, no
    [Done] is one too many, a worker never blocks when it gives its place
    back, and when [Stop] has returned no task function runs nor will start,
    even for calls of [AddTask] that raced with [Stop]. *)
Theorem task_manager_safe m :
  task_reach m ->
  (forall i l, loops m !! i = Some l ->
     (loop_wg l <= count l)%nat /\
     (lpc l = LDone -> exists m', loop_done i l m = Ret m') /\
     (forall j, workers l !! j = Some WToken -> is_Some (receive l))) /\
  (stopping m = SRet -> forall i l, loops m !! i = Some l -> loop_wg l = 0%nat /\ lpc l <> LStart).
Proof.
  intros Hr. apply task_reach_inv in Hr as [Hl Hw _ Hret]. split.
  - intros i l Hi. pose proof (Forall_lookup_1 _ _ _ _ Hl Hi) as [Hcap Htok _ _]. split_and!.
    + assert (loop_wg l <= count_if has_token (workers l))%nat; [|lia].
      unfold loop_wg. clear. induction (workers l) as [|w ws IH]; [done|].
      rewrite !count_cons. destruct w; simpl; lia.
    + intros Hp. unfold loop_done. rewrite Hw. pose proof (alive_insert _ _ _ (set_pc LEnd l) Hi) as Ha.
      unfold alive in Ha. rewrite Hp in Ha. simpl in Ha.
      destruct (alive_loops (loops m)); [lia|eauto].
    + intros j Hj. pose proof (count_pos has_token _ _ _ Hj eq_refl). unfold receive.
      destruct (tChan l); [lia|done].
  - intros E i l Hi. by apply (Forall_lookup_1 _ _ _ _ (Hret E) Hi).
Qed.

(** ** [Stop] returns when the task functions do *)

Definition worker_work (w : worker) : nat := match w with WRun => 2 | WToken => 1 | WEnd => 0 end.
Definition pc_work (p : loop_pc) : nat :=
  match p with
  | LStart => 8 | LSelect => 5 | LCheck => 4 | LWait => 3 | LClose => 2 | LDone => 1 | LEnd => 0
  end.
Definition loop_work (l : loop) : nat :=
  pc_work (lpc l) + sum_list_with worker_work (workers l).
Definition work (m : Manager) : nat :=
  sum_list_with loop_work (loops m) + (if bool_decide (stopping m = SWait) then 1 else 0).

Lemma loop_work_decreases l l' : loop_step true l l' -> (loop_work l' < loop_work l)%nat.
Proof.
  intros Hs. unfold loop_work.
  destruct Hs as [l Hp _|l Hp Hlt|l Hp|l Hp|l Hp Hz|l Hp|l j Hj|l j l' Hj Hr]; simpl;
    rewrite ?Hp; simpl; try lia.
  - rewrite sum_list_with_app. simpl. lia.
  - pose proof (sum_list_insert worker_work _ _ _ WToken Hj). simpl in *. lia.
  - destruct (receive_frame _ _ Hr) as (-> & Hw & _). rewrite Hw.
    pose proof (sum_list_insert worker_work _ _ _ WEnd Hj). simpl in *. lia.
Qed.

Lemma run_step_decreases m m' :
  cancelled m = true -> run_step m m' -> (work m' < work m)%nat.
Proof.
  intros Hc Hs. unfold work. destruct Hs as [m i l l' Hi Hs|m i l m' Hi Hp Hd|m Hst Hz].
  - rewrite Hc in Hs. pose proof (loop_work_decreases l l' Hs).
    pose proof (sum_list_insert loop_work _ _ _ l' Hi). simpl. lia.
  - unfold loop_done in Hd. destruct (wg m); simplify_eq/=.
    pose proof (sum_list_insert loop_work _ _ _ (set_pc LEnd l) Hi) as E.
    unfold loop_work at 2 4 in E. rewrite Hp in E. simpl in *. lia.
  - simpl. rewrite Hst. simpl. lia.
Qed.

Lemma run_step_frame m m' :
  run_step m m' -> cancelled m' = cancelled m /\
  (stopping m' = stopping m \/ stopping m = SWait /\ stopping m' = SRet).
Proof.
  intros Hs. destruct Hs as [m i l l' Hi Hs|m i l m' Hi Hp Hd|m Hst Hz]; simpl; auto.
  unfold loop_done in Hd. destruct (wg m); simplify_eq/=. auto.
Qed.

Lemma running_found l : loop_wg l <> 0%nat -> exists j, workers l !! j = Some WRun.
Proof.
  unfold loop_wg. induction (workers l) as [|w ws IH]; [done|]. rewrite count_cons. intros Hz.
  destruct w; [by exists 0%nat|..]; (destruct IH as [j Hj]; [simpl in Hz; lia|by exists (S j)]).
Qed.

(** A loop that has not ended can step once the context is cancelled. *)
Lemma alive_loop_steps l :
  lpc l <> LDone -> lpc l <> LEnd -> exists l', loop_step true l l'.
Proof.
  intros H1 H2. destruct (lpc l) eqn:E; try done.
  - eauto using loop_step.
  - eauto using loop_step.
  - eauto using loop_step.
  - destruct (decide (loop_wg l = 0)%nat) as [|Hz]; [eauto using loop_step|].
    destruct (running_found l Hz) as [j Hj]. eauto using loop_step.
  - eauto using loop_step.
Qed.

Lemma alive_found ls : alive_loops ls <> 0%nat -> exists i l, ls !! i = Some l /\ lpc l <> LEnd.
Proof.
  induction ls as [|l ls IH]; [done|]. rewrite alive_cons. intros Hz.
  destruct (alive l) eqn:E.
  - exists 0%nat, l. split; [done|]. intros H. unfold alive in E. by rewrite H in E.
  - destruct IH as (i & l' & ? & ?); [lia|]. by exists (S i), l'.
Qed.

Lemma stop_progress m :
  mgr_inv m -> stopping m = SWait -> exists m', run_step m m'.
Proof.
  intros [_ Hw Hc _] Hs. rewrite Hs in Hc. simpl in Hc.
  destruct (decide (wg m = 0)%nat) as [Hz|Hz]; [eauto using run_step|].
  rewrite Hw in Hz. destruct (alive_found _ Hz) as (i & l & Hi & Hp).
  destruct (decide (lpc l = LDone)) as [Hd|Hd].
  - destruct (wg m) as [|n] eqn:E; [congruence|]. eexists. eapply m_done; [done..|].
    unfold loop_done. by rewrite E.
  - destruct (alive_loop_steps l) as [l' Hl]; [done..|]. exists (set_loop i l' m).
    eapply m_loop; [done|]. by rewrite Hc.
Qed.

(** [Stop] ends when the task functions do: once it has cancelled the
    context, every run of the manager's goroutines is bounded by the work
    that was left, and wherever [Stop] has not returned yet some goroutine
    can step (a task function returns, or a loop goes on). *)
Theorem task_manager_stops m k m' :
  task_reach m -> stopping m = SWait -> nsteps run_step k m m' ->
  (k <= work m)%nat /\ (stopping m' = SRet \/ exists m'', run_step m' m'').
Proof.
  intros Hr Hs Hk. apply task_reach_inv in Hr.
  assert (cancelled m = true) as Hc by (rewrite (mi_cancel m Hr), Hs; done).
  assert (mgr_inv m' /\ (k + work m' <= work m)%nat /\ (stopping m' = SWait \/ stopping m' = SRet))
    as (Hi & Hle & Hst); [|split; [lia|]; destruct Hst; eauto using stop_progress].
  assert (stopping m = SWait \/ stopping m = SRet) as Hs' by auto. clear Hs.
  induction Hk as [m|k m m1 m' Hs _ IH]; [split_and!; [done|lia|done]|].
  pose proof (run_step_decreases m m1 Hc Hs). destruct (run_step_frame m m1 Hs) as [Hc1 Hst].
  destruct IH as (? & ? & ?); [by eapply run_step_inv|congruence| |split_and!; [done|lia|done]].
  destruct Hst as [E|[_ ?]]; [by rewrite E|by right].
Qed.

(** ** A concrete run: one task with one place, stopped while it runs *)
Definition demo_running : Manager :=
  mkManager true 1 [mkLoop 1 LSelect 1 false [WRun]] [] SWait.

Lemma demo_running_reached : task_reach demo_running.
Proof.
  eapply rtc_l; [apply (t_check New 1)|]. eapply rtc_l; [by apply (t_go _ 0 1)|].
  eapply rtc_l; [eapply t_run, (m_loop _ 0); [reflexivity|apply l_token; simpl; [done|lia]]|].
  eapply rtc_l; [eapply t_run, (m_loop _ 0); [reflexivity|by apply l_check]|].
  eapply rtc_l; [eapply t_run, (m_loop _ 0); [reflexivity|by apply l_start]|].
  eapply rtc_l; [by apply t_stop|]. apply rtc_refl.
Qed.

Lemma task_manager_safe_witness :
  loops demo_running !! 0%nat = Some (mkLoop 1 LSelect 1 false [WRun]) /\
  (loop_wg (mkLoop 1 LSelect 1 false [WRun]) <= 1)%nat.
Proof.
  split; [reflexivity|].
  destruct (task_manager_safe demo_running demo_running_reached) as [H _].
  destruct (H 0%nat (mkLoop 1 LSelect 1 false [WRun]) eq_refl) as [Hle _]. exact Hle.
Defined.

Lemma task_manager_stops_witness :
  (0 <= work demo_running)%nat /\
  (stopping demo_running = SRet \/ exists m, run_step demo_running m).
Proof.
  apply (task_manager_stops demo_running 0); [apply demo_running_reached|reflexivity|constructor].
Defined.
