(* ===== verification/AtomicTask.v ===== *)
(** * The counting task runner ([utils/taskRunManager/atomicTask.go])

    [Run] starts a goroutine when fewer than [count] run, and otherwise sleeps
    on a condition until one ends; [Wait] sleeps until none runs. Callers,
    waiters and task goroutines are a transition system in which every atomic
    operation and every critical section is one step. *)
From stdpp Require Import base list numbers relations.
From S2P Require Import Prelude.

(** A call of [Run]: before the load, before the compare-and-swap of the value
    loaded, before [Block], asleep in [cond.Wait], returned. *)
Inductive run_pc := RLoad | RCas (c : Z) | RBlock | RSleep | RReturn.
(** A call of [Wait]: before [Block], asleep, before the load, returned. *)
Inductive wait_pc := VBlock | VSleep | VLoad | VReturn.
(** A task goroutine: in [t()], before [Add(-1)], before [Release], ended. *)
Inductive task_pc := TRun | TAdd | TRelease | TEnd.

Record AtomicTask := mkAtomicTask {
  atomicCount : Z;
  count : Z;
  runs : list run_pc;
  waits : list wait_pc;
  tasks : list task_pc
}.

Definition NewAtomicTask (n : Z) : AtomicTask := mkAtomicTask 0 (i32 n) [] [] [].

Definition set_run (j : nat) (p : run_pc) (s : AtomicTask) : AtomicTask :=
  mkAtomicTask (atomicCount s) (count s) (<[j := p]> (runs s)) (waits s) (tasks s).
Definition set_wait (j : nat) (p : wait_pc) (s : AtomicTask) : AtomicTask :=
  mkAtomicTask (atomicCount s) (count s) (runs s) (<[j := p]> (waits s)) (tasks s).
Definition set_task (j : nat) (p : task_pc) (s : AtomicTask) : AtomicTask :=
  mkAtomicTask (atomicCount s) (count s) (runs s) (waits s) (<[j := p]> (tasks s)).

(** [Run] after its load: the first operand of the condition. *)
Definition after_load (s : AtomicTask) : run_pc :=
  if atomicCount s <? count s then RCas (atomicCount s) else RBlock.
(** [CompareAndSwap(c, c+1)], and the start of the goroutine when it holds. *)
Definition compare_and_swap (j : nat) (c : Z) (s : AtomicTask) : AtomicTask :=
  if atomicCount s =? c
  then mkAtomicTask (i32 (c + 1)) (count s) (<[j := RReturn]> (runs s)) (waits s) (tasks s ++ [TRun])
  else set_run j RBlock s.
(** [Block] of [Run] and of [Wait], under the lock of the condition. *)
Definition run_block (s : AtomicTask) : run_pc :=
  if atomicCount s =? count s then RSleep else RLoad.
Definition wait_block (s : AtomicTask) : wait_pc :=
  if negb (atomicCount s =? 0) then VSleep else VLoad.
Definition wait_load (s : AtomicTask) : wait_pc :=
  if atomicCount s =? 0 then VReturn else VBlock.
(** [Broadcast] wakes every sleeper. *)
Definition wake_run (p : run_pc) : run_pc := match p with RSleep => RLoad | _ => p end.
Definition wake_wait (p : wait_pc) : wait_pc := match p with VSleep => VLoad | _ => p end.
Definition Release (j : nat) (s : AtomicTask) : AtomicTask :=
  mkAtomicTask (atomicCount s) (count s) (wake_run <$> runs s) (wake_wait <$> waits s)
    (<[j := TEnd]> (tasks s)).
Definition task_add (j : nat) (s : AtomicTask) : AtomicTask :=
  mkAtomicTask (i32 (atomicCount s - 1)) (count s) (runs s) (waits s) (<[j := TRelease]> (tasks s)).

Inductive atomic_step : AtomicTask -> AtomicTask -> Prop :=
| a_call_run s :
    atomic_step s (mkAtomicTask (atomicCount s) (count s) (runs s ++ [RLoad]) (waits s) (tasks s))
| a_call_wait s :
    atomic_step s (mkAtomicTask (atomicCount s) (count s) (runs s) (waits s ++ [VBlock]) (tasks s))
| a_load s j : runs s !! j = Some RLoad -> atomic_step s (set_run j (after_load s) s)
| a_cas s j c : runs s !! j = Some (RCas c) -> atomic_step s (compare_and_swap j c s)
| a_run_block s j : runs s !! j = Some RBlock -> atomic_step s (set_run j (run_block s) s)
| a_wait_block s j : waits s !! j = Some VBlock -> atomic_step s (set_wait j (wait_block s) s)
| a_wait_load s j : waits s !! j = Some VLoad -> atomic_step s (set_wait j (wait_load s) s)
| a_task_returns s j : tasks s !! j = Some TRun -> atomic_step s (set_task j TAdd s)
| a_task_add s j : tasks s !! j = Some TAdd -> atomic_step s (task_add j s)
| a_release s j : tasks s !! j = Some TRelease -> atomic_step s (Release j s).

Abbreviation atomic_reach n := (rtc atomic_step (NewAtomicTask n)).

(** ** The invariant *)

(** A task that counts: it has not decremented [atomicCount]. *)
Definition counted (t : task_pc) : nat := match t with TRun | TAdd => 1 | _ => 0 end.
Definition releasing (s : AtomicTask) : Prop := exists j, tasks s !! j = Some TRelease.

Record atomic_inv (s : AtomicTask) : Prop := mkAtomicInv {
  ai_count : atomicCount s = Z.of_nat (sum_list_with counted (tasks s));
  ai_bound : 0 <= atomicCount s <= count s;
  ai_width : count s < 2 ^ 31;
  (** a value a caller is about to swap was below the limit *)
  ai_cas : forall j c, runs s !! j = Some (RCas c) -> c < count s;
  ai_run : forall j, runs s !! j = Some RSleep -> atomicCount s = count s \/ releasing s;
  ai_wait : forall j, waits s !! j = Some VSleep -> atomicCount s <> 0 \/ releasing s
}.

Lemma releasing_insert s j p q s' :
  tasks s !! j = Some p -> p <> TRelease -> tasks s' = <[j := q]> (tasks s) ->
  releasing s -> releasing s'.
Proof.
  intros Hj Hp E [k Hk]. exists k. rewrite E, list_lookup_insert_ne; [done|]. congruence.
Qed.

Lemma new_releasing s j q :
  tasks s !! j = Some q -> releasing (task_add j s).
Proof. intros Hj. exists j. simpl. apply list_lookup_insert_eq. by eapply lookup_lt_Some. Qed.

Lemma set_run_inv s j p :
  atomic_inv s -> (forall c, p = RCas c -> c < count s) -> (p = RSleep -> atomicCount s = count s) ->
  atomic_inv (set_run j p s).
Proof.
  intros [] Hc Hs. split; simpl; try done.
  - intros k c Hk. apply list_lookup_insert_Some in Hk as [(_ & E & _)|[_ Hk]]; eauto.
  - intros k Hk. apply list_lookup_insert_Some in Hk as [(_ & E & _)|[_ Hk]]; [left; auto|eauto].
Qed.

Lemma set_wait_inv s j p :
  atomic_inv s -> (p = VSleep -> atomicCount s <> 0) -> atomic_inv (set_wait j p s).
Proof.
  intros [] Hs. split; simpl; try done.
  intros k Hk. apply list_lookup_insert_Some in Hk as [(_ & E & _)|[_ Hk]]; [left; auto|eauto].
Qed.

Lemma compare_and_swap_inv s j c :
  runs s !! j = Some (RCas c) -> atomic_inv s -> atomic_inv (compare_and_swap j c s).
Proof.
  intros Hj Hi. unfold compare_and_swap. destruct (atomicCount s =? c) eqn:E; to_prop.
  2: by apply set_run_inv.
  destruct Hi. pose proof (ai_cas0 _ _ Hj).
  assert (i32 (c + 1) = c + 1) as Ew by (apply i32_small; unfold in_signed; lia).
  assert (forall A, (exists k, tasks s !! k = Some TRelease) ->
    A \/ exists k, (tasks s ++ [TRun]) !! k = Some TRelease) as Hrel.
  { intros A [k Hk]. right. exists k. by apply lookup_app_l_Some. }
  split; simpl; rewrite ?Ew; try lia.
  - rewrite sum_list_with_app. simpl. lia.
  - intros k c' Hk. apply list_lookup_insert_Some in Hk as [(_ & ? & _)|[_ Hk]]; [done|eauto].
  - intros k Hk. apply list_lookup_insert_Some in Hk as [(_ & ? & _)|[_ Hk]]; [done|].
    destruct (ai_run0 k Hk) as [|Hr]; [lia|by apply Hrel].
Qed.

Lemma task_add_inv s j : tasks s !! j = Some TAdd -> atomic_inv s -> atomic_inv (task_add j s).
Proof.
  intros Hj []. pose proof (sum_list_insert counted _ _ _ TRelease Hj) as Hsum. simpl in Hsum.
  assert (i32 (atomicCount s - 1) = atomicCount s - 1) as Ew
    by (apply i32_small; unfold in_signed; lia).
  split; simpl; rewrite ?Ew; try lia; [done|..]; intros k Hk; right; by eapply new_releasing.
Qed.

Lemma Release_inv s j : tasks s !! j = Some TRelease -> atomic_inv s -> atomic_inv (Release j s).
Proof.
  intros Hj []. pose proof (sum_list_insert counted _ _ _ TEnd Hj) as Hsum. simpl in Hsum.
  split; simpl; try done; [lia|..]; intros k.
  - intros c. rewrite list_lookup_fmap. destruct (runs s !! k) as [[]|] eqn:E; simpl;
      intros [=]; subst; eauto.
  - rewrite list_lookup_fmap. by destruct (runs s !! k) as [[]|].
  - rewrite list_lookup_fmap. by destruct (waits s !! k) as [[]|].
Qed.

Lemma atomic_step_inv s s' : atomic_step s s' -> atomic_inv s -> atomic_inv s'.
Proof.
  intros Hs Hi. destruct Hs as [s|s|s j Hj|s j c Hj|s j Hj|s j Hj|s j Hj|s j Hj|s j Hj|s j Hj].
  - destruct Hi. split; simpl; try done; intros k.
    + intros c [Hk|[_ Hk]]%lookup_app_Some; [eauto|]. by apply list_lookup_singleton_Some in Hk as [_ ?].
    + intros [Hk|[_ Hk]]%lookup_app_Some; [eauto|]. by apply list_lookup_singleton_Some in Hk as [_ ?].
  - destruct Hi. split; simpl; try done; intros k.
    intros [Hk|[_ Hk]]%lookup_app_Some; [eauto|]. by apply list_lookup_singleton_Some in Hk as [_ ?].
  - apply set_run_inv; [done|..]; unfold after_load; case_match; to_prop; try done.
    by intros c [= <-].
  - by apply compare_and_swap_inv.
  - apply set_run_inv; [done|..]; unfold run_block; case_match; to_prop; done.
  - apply set_wait_inv; [done|]. unfold wait_block. destruct (atomicCount s =? 0) eqn:E; to_prop; done.
  - apply set_wait_inv; [done|]. unfold wait_load. by case_match.
  - destruct Hi. pose proof (sum_list_insert counted _ _ _ TAdd Hj) as Hsum. simpl in Hsum.
    assert (releasing s -> releasing (set_task j TAdd s)) as Hr by by eapply releasing_insert.
    split; simpl; try done; [lia|..]; intros k Hk.
    + destruct (ai_run0 k Hk); auto.
    + destruct (ai_wait0 k Hk); auto.
  - by apply task_add_inv.
  - by apply Release_inv.
Qed.

Lemma atomic_run_inv s s' : rtc atomic_step s s' -> atomic_inv s -> atomic_inv s'.
Proof. induction 1; eauto using atomic_step_inv. Qed.

Lemma New_atomic_inv n : 0 <= n < 2 ^ 31 -> atomic_inv (NewAtomicTask n).
Proof. intros Hn. rewrite <- (i32_small n) in Hn at 1 2; [|unfold in_signed; lia]. split; simpl; try done; lia. Qed.

Definition task_running (t : task_pc) : bool := match t with TRun => true | _ => false end.

(** A task goroutine that has not ended. *)
Lemma counted_task (ts : list task_pc) :
  sum_list_with counted ts <> 0%nat -> exists j t, ts !! j = Some t /\ t <> TEnd.
Proof.
  induction ts as [|t ts IH]; [done|]. simpl. destruct t; [by exists 0%nat, TRun|by exists 0%nat, TAdd|..];
    simpl; intros (j & t & ? & ?)%IH; by exists (S j), t.
Qed.

(** The counting task runner is safe in every interleaving: at most
    [count] tasks run at once and the counter never leaves its range; a caller
    of [Run] that sleeps waits for a task goroutine that will wake it, and so
    does a caller of [Wait]: no wake-up is lost. *)
Theorem atomic_task_safe n s :
  0 < n < 2 ^ 31 -> atomic_reach n s ->
  (length (filter (fun t => task_running t = true) (tasks s)) <= Z.to_nat n)%nat /\
  0 <= atomicCount s <= n /\
  ((exists j, runs s !! j = Some RSleep) \/ (exists j, waits s !! j = Some VSleep) ->
   exists j t, tasks s !! j = Some t /\ t <> TEnd).
Proof.
  intros Hn Hr. assert (count s = n) as Hcount.
  { transitivity (count (NewAtomicTask n)); [|simpl; apply i32_small; unfold in_signed; lia].
    clear - Hr. induction Hr as [|? ? ? Hs _ IH]; [done|]. rewrite IH.
    destruct Hs; try done. unfold compare_and_swap. by case_match. }
  apply atomic_run_inv in Hr as []; [|apply New_atomic_inv; lia].
  assert (length (filter (fun t => task_running t = true) (tasks s)) <=
    sum_list_with counted (tasks s))%nat as Hle.
  { clear. induction (tasks s) as [|t ts IH]; [done|]. rewrite filter_cons.
    destruct t; [rewrite decide_True by done|rewrite decide_False by done..]; simpl; lia. }
  split_and!; [lia..|].
  assert (releasing s -> exists j t, tasks s !! j = Some t /\ t <> TEnd) as Hrel
    by (intros [j Hj]; by exists j, TRelease).
  intros [[j Hj]|[j Hj]].
  - destruct (ai_run0 j Hj) as [|]; [|auto]. apply counted_task. lia.
  - destruct (ai_wait0 j Hj) as [|]; [|auto]. apply counted_task. lia.
Qed.

(** One place, one task, and a second caller asleep. *)
Definition demo_full : AtomicTask :=
  mkAtomicTask 1 1 [RReturn; RSleep] [] [TRun].

Lemma demo_full_reached : atomic_reach 1 demo_full.
Proof.
  eapply rtc_l; [apply a_call_run|]. eapply rtc_l; [by apply (a_load _ 0)|].
  eapply rtc_l; [by apply (a_cas _ 0 0)|].
  eapply rtc_l; [apply a_call_run|]. eapply rtc_l; [by apply (a_load _ 1)|].
  eapply rtc_l; [by apply (a_run_block _ 1)|]. apply rtc_refl.
Qed.

Lemma atomic_task_safe_witness :
  runs demo_full !! 1%nat = Some RSleep /\ exists j t, tasks demo_full !! j = Some t /\ t <> TEnd.
Proof.
  split; [reflexivity|].
  destruct (atomic_task_safe 1 demo_full ltac:(lia) demo_full_reached) as (_ & _ & H).
  apply H. left. by exists 1%nat.
Defined.
