(* ===== verification/ChanTask.v ===== *)
(** * The channel task runner ([utils/taskRunManager/chanTask.go])

    [ChanTask] bounds the running goroutines by the buffer of a channel.
    [RunTaskGetSpecifyQuantityResultContext] runs a function over a list of
    parameters on it and returns a channel with at most the wanted number of
    results; [RunTaskGetSpecifyQuantityResultTimeOutContext] forwards them
    until a timeout. All goroutines are one transition system; what [fn] may
    return for a parameter is the relation [fn]. *)
From stdpp Require Import base list numbers relations.
From S2P Require Import Prelude.

Section quantity.
Context {T P : Type} (fn : P -> option T -> Prop).
Context (ps : list P) (expectResultCount poolCount : nat).

(** The goroutine of one parameter: in [fn]; with a result, at the test of the
    context; before [resultCount.Add(-1)]; before the send; before
    [enterCount.Add(-1)]; before [cancel()] of a surplus result; before
    [cancel()] and before [closeChan()] after the last result; before
    [<-c.tChan]; before [c.wg.Done()]; ended. *)
Inductive tpc :=
| TFn (p : P)
| TOk (v : T)
| TResult (v : T)
| TSend (v : T)
| TEnter
| TSurplus
| TCancel
| TClose
| TToken
| TDone
| TEnd.

(** The goroutine that drives them: in the [for] loop; after [wg.Add(1)],
    before the send on [tChan]; in [chanTask.Wait()]; before the deferred
    [cancel()] and [closeChan()]; ended. *)
Inductive mpc := MFor (rest : list P) | MSend (p : P) (rest : list P) | MWait | MCancel | MClose | MEnd.

Record state := mkState {
  main : mpc;
  gs : list tpc;
  wg : nat;
  tChan : nat;
  (** the contexts [pCtx] and [ctx] are done *)
  parent : bool;
  cancelled : bool;
  resultCount : Z;
  enterCount : Z;
  (** [resChan]: its buffer and whether it is closed *)
  resChan : list T;
  closed : bool;
  (** history: results received by the caller, results of [fn], results that
      were not sent *)
  received : list T;
  results : list T;
  unsent : list T
}.

Definition start : state :=
  mkState (MFor ps) [] 0 0 false false (i32 (Z.of_nat expectResultCount))
    (i32 (Z.of_nat expectResultCount)) [] false [] [] [].

Definition set_main (m : mpc) (s : state) : state :=
  mkState m (gs s) (wg s) (tChan s) (parent s) (cancelled s) (resultCount s) (enterCount s)
    (resChan s) (closed s) (received s) (results s) (unsent s).
Definition set_g (j : nat) (q : tpc) (s : state) : state :=
  mkState (main s) (<[j := q]> (gs s)) (wg s) (tChan s) (parent s) (cancelled s) (resultCount s)
    (enterCount s) (resChan s) (closed s) (received s) (results s) (unsent s).
Definition set_ctx (s : state) : state :=
  mkState (main s) (gs s) (wg s) (tChan s) (parent s) true (resultCount s)
    (enterCount s) (resChan s) (closed s) (received s) (results s) (unsent s).
(** [closeChan], a [sync.OnceFunc]. *)
Definition closeChan (s : state) : state :=
  mkState (main s) (gs s) (wg s) (tChan s) (parent s) (cancelled s) (resultCount s)
    (enterCount s) (resChan s) true (received s) (results s) (unsent s).

(** [ChanTask.Run]: [wg.Add(1)], then the send on [tChan] and the start. *)
Definition Run_add (p : P) (rest : list P) (s : state) : state :=
  mkState (MSend p rest) (gs s) (S (wg s)) (tChan s) (parent s) (cancelled s) (resultCount s)
    (enterCount s) (resChan s) (closed s) (received s) (results s) (unsent s).
Definition Run_send (p : P) (rest : list P) (s : state) : state :=
  mkState (MFor rest) (gs s ++ [TFn p]) (wg s) (S (tChan s)) (parent s) (cancelled s) (resultCount s)
    (enterCount s) (resChan s) (closed s) (received s) (results s) (unsent s).

(** [fn] returns. *)
Definition fn_returns (j : nat) (r : option T) (s : state) : state :=
  mkState (main s) (<[j := match r with Some v => TOk v | None => TToken end]> (gs s)) (wg s) (tChan s)
    (parent s) (cancelled s) (resultCount s) (enterCount s) (resChan s) (closed s) (received s)
    (results s ++ match r with Some v => [v] | None => [] end) (unsent s).
(** The [select] on [ctx.Done()]. *)
Definition test_ctx (j : nat) (v : T) (s : state) : state :=
  mkState (main s) (<[j := if cancelled s then TToken else TResult v]> (gs s)) (wg s) (tChan s)
    (parent s) (cancelled s) (resultCount s) (enterCount s) (resChan s) (closed s) (received s)
    (results s) (unsent s ++ if cancelled s then [v] else []).
(** [resultCount.Add(-1) < 0]. *)
Definition take_result (j : nat) (v : T) (s : state) : state :=
  let c := i32 (resultCount s - 1) in
  mkState (main s) (<[j := if c <? 0 then TSurplus else TSend v]> (gs s)) (wg s) (tChan s)
    (parent s) (cancelled s) c (enterCount s) (resChan s) (closed s) (received s)
    (results s) (unsent s ++ if c <? 0 then [v] else []).
(** The [select] that sends, or finds the buffer full; a send on a closed
    channel panics. *)
Definition send (j : nat) (v : T) (s : state) : outcome state :=
  if closed s then Panic
  else if bool_decide (length (resChan s) < expectResultCount)%nat
  then Ret (mkState (main s) (<[j := TEnter]> (gs s)) (wg s) (tChan s) (parent s) (cancelled s)
              (resultCount s) (enterCount s) (resChan s ++ [v]) (closed s) (received s)
              (results s) (unsent s))
  else Ret (mkState (main s) (<[j := TToken]> (gs s)) (wg s) (tChan s) (parent s) (cancelled s)
              (resultCount s) (enterCount s) (resChan s) (closed s) (received s)
              (results s) (unsent s ++ [v])).
(** [enterCount.Add(-1) == 0]. *)
Definition enter (j : nat) (s : state) : state :=
  let c := i32 (enterCount s - 1) in
  mkState (main s) (<[j := if c =? 0 then TCancel else TToken]> (gs s)) (wg s) (tChan s)
    (parent s) (cancelled s) (resultCount s) c (resChan s) (closed s) (received s)
    (results s) (unsent s).
(** The deferred [<-c.tChan] and [c.wg.Done()] of [ChanTask.Run]. *)
Definition give_token (j : nat) (s : state) : state :=
  mkState (main s) (<[j := TDone]> (gs s)) (wg s) (tChan s - 1) (parent s) (cancelled s) (resultCount s)
    (enterCount s) (resChan s) (closed s) (received s) (results s) (unsent s).
Definition wg_done (j : nat) (s : state) : state :=
  mkState (main s) (<[j := TEnd]> (gs s)) (wg s - 1) (tChan s) (parent s) (cancelled s) (resultCount s)
    (enterCount s) (resChan s) (closed s) (received s) (results s) (unsent s).
(** The caller receives a result; the parent context is cancelled. *)
Definition receive (v : T) (rest : list T) (s : state) : state :=
  mkState (main s) (gs s) (wg s) (tChan s) (parent s) (cancelled s) (resultCount s)
    (enterCount s) rest (closed s) (received s ++ [v]) (results s) (unsent s).
Definition cancel_parent (s : state) : state :=
  mkState (main s) (gs s) (wg s) (tChan s) true true (resultCount s)
    (enterCount s) (resChan s) (closed s) (received s) (results s) (unsent s).

(** The goroutines of the function itself. *)
Inductive task_step : state -> state -> Prop :=
| q_next s p rest : main s = MFor (p :: rest) -> task_step s (Run_add p rest s)
| q_run s p rest :
    main s = MSend p rest -> (tChan s < poolCount)%nat -> task_step s (Run_send p rest s)
| q_all s : main s = MFor [] -> task_step s (set_main MWait s)
| q_wait s : main s = MWait -> wg s = 0%nat -> task_step s (set_main MCancel s)
| q_cancel s : main s = MCancel -> task_step s (set_main MClose (set_ctx s))
| q_close s : main s = MClose -> task_step s (set_main MEnd (closeChan s))
| q_fn s j p r : gs s !! j = Some (TFn p) -> fn p r -> task_step s (fn_returns j r s)
| q_test s j v : gs s !! j = Some (TOk v) -> task_step s (test_ctx j v s)
| q_result s j v : gs s !! j = Some (TResult v) -> task_step s (take_result j v s)
| q_send s j v s' : gs s !! j = Some (TSend v) -> send j v s = Ret s' -> task_step s s'
| q_enter s j : gs s !! j = Some TEnter -> task_step s (enter j s)
| q_surplus s j : gs s !! j = Some TSurplus -> task_step s (set_g j TToken (set_ctx s))
| q_last_cancel s j : gs s !! j = Some TCancel -> task_step s (set_g j TClose (set_ctx s))
| q_last_close s j : gs s !! j = Some TClose -> task_step s (set_g j TToken (closeChan s))
| q_token s j : gs s !! j = Some TToken -> (0 < tChan s)%nat -> task_step s (give_token j s)
| q_done s j : gs s !! j = Some TDone -> task_step s (wg_done j s).

Inductive quantity_step : state -> state -> Prop :=
| q_task s s' : task_step s s' -> quantity_step s s'
| q_receive s v rest : resChan s = v :: rest -> quantity_step s (receive v rest s)
| q_parent s : quantity_step s (cancel_parent s).

(** ** The invariant *)

Definition w_send (t : tpc) : nat := match t with TSend _ => 1 | _ => 0 end.
Definition w_enter (t : tpc) : nat := match t with TEnter => 1 | _ => 0 end.
(** before [resultCount.Add(-1)] *)
Definition w_early (t : tpc) : nat := match t with TFn _ | TOk _ | TResult _ => 1 | _ => 0 end.
Definition w_token (t : tpc) : nat := match t with TDone | TEnd => 0 | _ => 1 end.
Definition w_live (t : tpc) : nat := match t with TEnd => 0 | _ => 1 end.
(** The result a goroutine carries. *)
Definition carried (t : tpc) : list T :=
  match t with TOk v | TResult v | TSend v => [v] | _ => [] end.
Definition after_last (t : tpc) : bool := match t with TCancel | TClose => true | _ => false end.

Definition sent (s : state) : list T := received s ++ resChan s.
Abbreviation total f s := (sum_list_with f (gs s)).

(** The parameters not yet given to a goroutine. *)
Definition left_over (m : mpc) : list P :=
  match m with MFor rest => rest | MSend p rest => p :: rest | _ => [] end.
Definition main_past_wait (m : mpc) : bool :=
  match m with MCancel | MClose | MEnd => true | _ => false end.
Definition pending_add (m : mpc) : nat := match m with MSend _ _ => 1 | _ => 0 end.

(** Every place in the result channel is taken. *)
Definition full (s : state) : Prop := (total w_send s + length (sent s) = expectResultCount)%nat.

Record inv (s : state) : Prop := mkInv {
  iv_left : exists used, ps = used ++ left_over (main s) /\ length (gs s) = length used;
  iv_wg : wg s = (total w_live s + pending_add (main s))%nat;
  iv_tchan : (tChan s = total w_token s)%nat /\ (tChan s <= poolCount)%nat;
  iv_past : main_past_wait (main s) = true -> total w_live s = 0%nat;
  iv_granted : Z.of_nat (total w_send s + length (sent s)) =
    Z.of_nat expectResultCount - Z.max 0 (resultCount s);
  iv_low : Z.of_nat expectResultCount + Z.of_nat (total w_early s) - Z.of_nat (length (gs s)) <=
    resultCount s <= Z.of_nat expectResultCount;
  iv_enter : enterCount s =
    Z.of_nat expectResultCount - Z.of_nat (length (sent s)) + Z.of_nat (total w_enter s) /\
    (total w_enter s <= length (sent s))%nat;
  iv_last : Exists (fun t => after_last t = true) (gs s) -> length (sent s) = expectResultCount;
  iv_surplus : Exists (fun t => t = TSurplus) (gs s) -> full s;
  iv_closed : closed s = true -> length (sent s) = expectResultCount \/ main s = MEnd;
  iv_end : main s = MEnd -> closed s = true;
  iv_cancel : cancelled s = true ->
    parent s = true \/ full s \/ main s = MClose \/ main s = MEnd;
  iv_results : results s ≡ₚ sent s ++ unsent s ++ concat (carried <$> gs s);
  iv_unsent : unsent s <> [] -> parent s = true \/ full s;
  iv_params : Forall (fun t => match t with TFn p => p ∈ ps | _ => True end) (gs s);
  iv_fn : Forall (fun v => exists p, p ∈ ps /\ fn p (Some v)) (results s)
}.

Hypothesis width : Z.of_nat (expectResultCount + length ps) < 2 ^ 31.

Lemma start_inv : inv start.
Proof.
  assert (i32 (Z.of_nat expectResultCount) = Z.of_nat expectResultCount) as E
    by (apply i32_small; unfold in_signed; lia).
  split; simpl; rewrite ?E; try done; try lia; try (by intros ?%Exists_nil).
  by exists [].
Qed.

(** The counts after the goroutine [j] moved from [p] to [q]. *)
Lemma totals s j p q :
  gs s !! j = Some p ->
  (total w_send (set_g j q s) + w_send p = total w_send s + w_send q /\
   total w_enter (set_g j q s) + w_enter p = total w_enter s + w_enter q /\
   total w_early (set_g j q s) + w_early p = total w_early s + w_early q /\
   total w_token (set_g j q s) + w_token p = total w_token s + w_token q /\
   total w_live (set_g j q s) + w_live p = total w_live s + w_live q)%nat.
Proof. intros Hj. split_and!; by apply sum_list_insert. Qed.

Lemma carried_insert s j p q :
  gs s !! j = Some p -> exists rest,
    concat (carried <$> gs s) ≡ₚ carried p ++ rest /\
    concat (carried <$> <[j := q]> (gs s)) ≡ₚ carried q ++ rest.
Proof. intros Hj. destruct (concat_insert carried _ _ _ Hj) as [H1 H2]. eauto. Qed.

Lemma after_last_insert s j q :
  after_last q = false -> Exists (fun t => after_last t = true) (<[j := q]> (gs s)) ->
  Exists (fun t => after_last t = true) (gs s).
Proof. intros Hq [?|?]%Exists_insert; [congruence|done]. Qed.

Lemma surplus_insert s j q :
  q <> TSurplus -> Exists (fun t => t = TSurplus) (<[j := q]> (gs s)) ->
  Exists (fun t => t = TSurplus) (gs s).
Proof. intros Hq [?|?]%Exists_insert; [congruence|done]. Qed.

(** Facts about the state in which the goroutine [j] moved from [p] to [q]. *)
Ltac moved Hj q :=
  destruct (totals _ _ _ q Hj) as (Hsend & Henter & Hearly & Htoken & Hlive);
  destruct (carried_insert _ _ _ q Hj) as (others & Hc1 & Hc2);
  pose proof (lookup_lt_Some _ _ _ Hj);
  cbn [w_send w_enter w_early w_token w_live carried set_g gs] in *.
Ltac close_inv :=
  unfold full, sent in *; split;
  unfold full, sent, give_token, wg_done, enter, take_result, test_ctx, fn_returns, Run_send,
    Run_add, receive, cancel_parent, set_main, set_g, set_ctx, closeChan in *; simpl in *;
  rewrite ?app_nil_r, ?length_insert, ?length_app in *; cbn [length] in *; try done; try lia;
  try (intros ?%after_last_insert; [intuition lia|done]);
  try (intros ?%surplus_insert; [intuition lia|done]);
  try (apply Forall_insert; [done|done]);
  try (intuition lia);
  try (match goal with
       | H : results _ ≡ₚ _, H1 : concat _ ≡ₚ _, H2 : concat _ ≡ₚ _ |- _ =>
           rewrite H, H1, H2; simpl; rewrite ?app_nil_r; solve_Permutation
       end).

Lemma token_inv s j : gs s !! j = Some TToken -> inv s -> inv (give_token j s).
Proof. intros Hj []. moved Hj TDone. close_inv. Qed.

Lemma wg_done_inv s j : gs s !! j = Some TDone -> inv s -> inv (wg_done j s).
Proof. intros Hj []. moved Hj TEnd. close_inv. Qed.

Lemma surplus_inv s j : gs s !! j = Some TSurplus -> inv s -> inv (set_g j TToken (set_ctx s)).
Proof.
  intros Hj []. assert (full s) as Hf.
  { apply iv_surplus0, Exists_exists. exists TSurplus. split; [by eapply list_elem_of_lookup_2|done]. }
  moved Hj TToken. close_inv.
Qed.

Lemma after_last_full s j p :
  gs s !! j = Some p -> after_last p = true -> inv s ->
  length (sent s) = expectResultCount /\ total w_send s = 0%nat.
Proof.
  intros Hj Hp []. assert (length (sent s) = expectResultCount).
  { apply iv_last0, Exists_exists. exists p. split; [by eapply list_elem_of_lookup_2|done]. }
  split; [done|lia].
Qed.

Lemma last_cancel_inv s j : gs s !! j = Some TCancel -> inv s -> inv (set_g j TClose (set_ctx s)).
Proof.
  intros Hj Hi. destruct (after_last_full s j TCancel Hj eq_refl Hi). destruct Hi.
  moved Hj TClose. close_inv.
Qed.

Lemma last_close_inv s j : gs s !! j = Some TClose -> inv s -> inv (set_g j TToken (closeChan s)).
Proof.
  intros Hj Hi. destruct (after_last_full s j TClose Hj eq_refl Hi). destruct Hi.
  moved Hj TToken. close_inv.
Qed.

Lemma enter_inv s j : gs s !! j = Some TEnter -> inv s -> inv (enter j s).
Proof.
  intros Hj []. unfold enter.
  assert (i32 (enterCount s - 1) = enterCount s - 1) as Ew.
  { apply i32_small. unfold in_signed. moved Hj TToken. lia. }
  rewrite Ew. destruct (enterCount s - 1 =? 0) eqn:E; to_prop.
  - moved Hj TCancel. close_inv.
  - moved Hj TToken. close_inv.
Qed.

Lemma send_inv s j v s' : gs s !! j = Some (TSend v) -> send j v s = Ret s' -> inv s -> inv s'.
Proof.
  intros Hj Hs []. unfold send in Hs. destruct (closed s) eqn:Ec; [done|].
  moved Hj TEnter. unfold sent in *. rewrite length_app in *.
  rewrite bool_decide_eq_true_2 in Hs by lia. injection Hs as <-.
  close_inv.
Qed.


Lemma take_result_inv s j v : gs s !! j = Some (TResult v) -> inv s -> inv (take_result j v s).
Proof.
  intros Hj []. unfold take_result.
  assert (i32 (resultCount s - 1) = resultCount s - 1) as Ew.
  { apply i32_small. unfold in_signed. destruct iv_left0 as (used & E & ?).
    apply (f_equal length) in E. rewrite length_app in E. lia. }
  rewrite Ew. destruct (resultCount s - 1 <? 0) eqn:E; to_prop.
  - moved Hj TSurplus. close_inv.
  - moved Hj (TSend v). close_inv.
Qed.

Lemma live_main s j p :
  gs s !! j = Some p -> p <> TEnd -> inv s -> main_past_wait (main s) = false.
Proof.
  intros Hj Hp Hi. destruct (main_past_wait (main s)) eqn:E; [|done].
  pose proof (iv_past s Hi E). pose proof (sum_list_insert w_live _ _ _ TEnd Hj) as Hs.
  destruct p; simpl in Hs; try done; lia.
Qed.

Lemma test_ctx_inv s j v : gs s !! j = Some (TOk v) -> inv s -> inv (test_ctx j v s).
Proof.
  intros Hj Hi. pose proof (live_main s j _ Hj ltac:(done) Hi) as Hm. destruct Hi.
  unfold test_ctx. destruct (cancelled s) eqn:E.
  - moved Hj TToken. close_inv. intros _.
    destruct (iv_cancel0 eq_refl) as [?|[?|[Em|Em]]]; [auto|lia|by rewrite Em in Hm..].
  - moved Hj (TResult v). close_inv.
Qed.

Lemma fn_returns_inv s j p r :
  gs s !! j = Some (TFn p) -> fn p r -> inv s -> inv (fn_returns j r s).
Proof.
  intros Hj Hf []. unfold fn_returns. destruct r as [v|].
  - moved Hj (TOk v). close_inv. apply Forall_app. split; [done|]. constructor; [|done].
    exists p. split; [|done]. by apply (Forall_lookup_1 _ _ _ _ iv_params0) in Hj.
  - moved Hj TToken. close_inv.
Qed.

(** The same for a step of the driving goroutine. *)
Ltac main_inv :=
  close_inv;
  try match goal with
      | H : closed _ = true -> _ |- closed _ = true -> _ =>
          intros Hcl; destruct (H Hcl); [by left|done]
      | H : cancelled _ = true -> _ |- cancelled _ = true -> _ =>
          intros Hca; destruct (H Hca) as [?|[?|[?|?]]]; auto; done
      end.

Lemma Run_add_inv s p rest : main s = MFor (p :: rest) -> inv s -> inv (Run_add p rest s).
Proof. intros Hm []. rewrite Hm in *. main_inv. Qed.

Lemma Exists_snoc {A : Type} (Q : A -> Prop) l x : Exists Q (l ++ [x]) -> ~ Q x -> Exists Q l.
Proof. intros [?|[?|?%Exists_nil]%Exists_cons]%Exists_app; done. Qed.

Lemma Run_send_inv s p rest :
  main s = MSend p rest -> (tChan s < poolCount)%nat -> inv s -> inv (Run_send p rest s).
Proof.
  intros Hm Hl []. rewrite Hm in *.
  pose proof (sum_list_with_app w_send (gs s) [TFn p]).
  pose proof (sum_list_with_app w_enter (gs s) [TFn p]).
  pose proof (sum_list_with_app w_early (gs s) [TFn p]).
  pose proof (sum_list_with_app w_token (gs s) [TFn p]).
  pose proof (sum_list_with_app w_live (gs s) [TFn p]).
  destruct iv_left0 as (used & Hps & Hlen). main_inv.
  - exists (used ++ [p]). rewrite <- app_assoc, length_app. simpl. split; [done|lia].
  - intros He%Exists_snoc; [auto|done].
  - intros He%Exists_snoc; [|done]. specialize (iv_surplus0 He). lia.
  - intros Hca. destruct (iv_cancel0 Hca) as [?|[?|[?|?]]]; [auto|right; left; lia|done..].
  - rewrite iv_results0, fmap_app, concat_app. simpl. by rewrite !app_nil_r.
  - apply Forall_app. split; [done|]. constructor; [|done]. rewrite Hps. set_solver.
Qed.

Lemma task_step_inv s s' : task_step s s' -> inv s -> inv s'.
Proof.
  intros Hs Hi. destruct Hs as [s p rest Hm|s p rest Hm Hl|s Hm|s Hm Hw|s Hm|s Hm| | | | | | | | | |].
  - by apply Run_add_inv.
  - by apply Run_send_inv.
  - destruct Hi. rewrite Hm in *. main_inv.
  - destruct Hi. rewrite Hm in *. main_inv.
  - destruct Hi. rewrite Hm in *. main_inv.
  - destruct Hi. rewrite Hm in *. main_inv.
  - by eapply fn_returns_inv.
  - by apply test_ctx_inv.
  - by apply take_result_inv.
  - by eapply send_inv.
  - by apply enter_inv.
  - by apply surplus_inv.
  - by apply last_cancel_inv.
  - by apply last_close_inv.
  - by apply token_inv.
  - by apply wg_done_inv.
Qed.

Lemma quantity_step_inv s s' : quantity_step s s' -> inv s -> inv s'.
Proof.
  intros Hs Hi. destruct Hs as [s s' Hs|s v rest Hr|s]; [by eapply task_step_inv|..]; destruct Hi.
  - assert (sent (receive v rest s) = sent s) as E.
    { unfold sent. simpl. by rewrite Hr, <- app_assoc. }
    split; unfold full in *; rewrite ?E; done.
  - main_inv.
Qed.

Lemma quantity_run_inv s s' : rtc quantity_step s s' -> inv s -> inv s'.
Proof. induction 1; eauto using quantity_step_inv. Qed.

Lemma quantity_reach_inv s : rtc quantity_step start s -> inv s.
Proof. intros Hr. by eapply quantity_run_inv, start_inv. Qed.

Definition in_fn (t : tpc) : bool := match t with TFn _ => true | _ => false end.

(** What the invariant says of a state. *)
Lemma inv_summary s :
  inv s ->
  (length (filter (fun t => in_fn t = true) (gs s)) <= poolCount)%nat /\
  (length (sent s) <= expectResultCount)%nat /\
  Forall (fun v => exists p, p ∈ ps /\ fn p (Some v)) (sent s) /\
  (forall j v, gs s !! j = Some (TSend v) -> exists s', send j v s = Ret s' /\ sent s' = sent s ++ [v]) /\
  (main s = MEnd -> closed s = true /\
    (parent s = true \/ length (sent s) = expectResultCount \/ sent s ≡ₚ results s)).
Proof.
  intros Hi. pose proof Hi as Hi'. destruct Hi'. split_and!.
  - assert (length (filter (fun t => in_fn t = true) (gs s)) <= total w_token s)%nat; [|lia].
    clear. induction (gs s) as [|t ts IH]; [done|]. rewrite filter_cons.
    destruct t; [rewrite decide_True by done|rewrite decide_False by done..]; simpl; lia.
  - lia.
  - rewrite iv_results0 in iv_fn0. by apply Forall_app in iv_fn0 as [? _].
  - intros j v Hj. pose proof (live_main s j _ Hj ltac:(done) Hi) as Hm. moved Hj TEnter.
    unfold send, sent in *. rewrite length_app in *. destruct (closed s).
    { destruct (iv_closed0 eq_refl) as [?|Em]; [lia|by rewrite Em in Hm]. }
    rewrite bool_decide_eq_true_2 by lia. eexists. split; [done|]. simpl. by rewrite app_assoc.
  - intros Hm. split; [auto|]. pose proof (iv_past0 ltac:(by rewrite Hm)) as Hz.
    assert (total w_send s = 0%nat /\ concat (carried <$> gs s) = []) as [Hs Hc].
    { clear - Hz. induction (gs s) as [|t ts IH]; [done|]. destruct t; simpl in *; try lia. by apply IH. }
    rewrite Hc, app_nil_r in iv_results0. destruct (unsent s) as [|v vs] eqn:Eu.
    + right. right. by rewrite iv_results0, app_nil_r.
    + destruct (iv_unsent0 ltac:(done)) as [?|Hf]; [auto|]. unfold full in Hf. right. left. lia.
Qed.
(** ** With a timeout *)

(** The forwarding goroutine: at its [select]; with a result in hand; before
    the deferred [cancel()] and [close(resChan)]; ended. *)
Inductive fpc := FLoop | FSend (v : T) | FCancel | FClose | FEnd.

Record fstate := mkF {
  inner : state;
  fwd : fpc;
  (** its own [resChan] *)
  outChan : list T;
  outClosed : bool;
  (** history: results the caller received, results dropped, and whether the
      timeout ended the forwarding *)
  outReceived : list T;
  outDropped : list T;
  timedOut : bool
}.

Definition fstart : fstate := mkF start FLoop [] false [] [] false.

Definition set_fwd (p : fpc) (s : state) (f : fstate) : fstate :=
  mkF s p (outChan f) (outClosed f) (outReceived f) (outDropped f) (timedOut f).
Definition set_inner (s : state) (f : fstate) : fstate := set_fwd (fwd f) s f.

(** The [select] that forwards, or finds the buffer full. *)
Definition forward (v : T) (f : fstate) : outcome fstate :=
  if outClosed f then Panic
  else if bool_decide (length (outChan f) < expectResultCount)%nat
  then Ret (mkF (inner f) FLoop (outChan f ++ [v]) (outClosed f) (outReceived f) (outDropped f)
              (timedOut f))
  else Ret (mkF (inner f) FLoop (outChan f) (outClosed f) (outReceived f) (outDropped f ++ [v])
              (timedOut f)).

Inductive timeout_step : fstate -> fstate -> Prop :=
| f_inner f s' : task_step (inner f) s' -> timeout_step f (set_inner s' f)
| f_timeout f : timeout_step f (set_inner (cancel_parent (inner f)) f)
| f_done f :
    fwd f = FLoop -> parent (inner f) = true ->
    timeout_step f (mkF (inner f) FCancel (outChan f) (outClosed f) (outReceived f) (outDropped f) true)
| f_result f v rest :
    fwd f = FLoop -> resChan (inner f) = v :: rest ->
    timeout_step f (set_fwd (FSend v) (receive v rest (inner f)) f)
| f_closed f :
    fwd f = FLoop -> resChan (inner f) = [] -> closed (inner f) = true ->
    timeout_step f (set_fwd FCancel (inner f) f)
| f_forward f v f' : fwd f = FSend v -> forward v f = Ret f' -> timeout_step f f'
| f_cancel f : fwd f = FCancel -> timeout_step f (set_fwd FClose (cancel_parent (inner f)) f)
| f_close f :
    fwd f = FClose ->
    timeout_step f (mkF (inner f) FEnd (outChan f) true (outReceived f) (outDropped f) (timedOut f))
| f_receive f v rest :
    outChan f = v :: rest ->
    timeout_step f (mkF (inner f) (fwd f) rest (outClosed f) (outReceived f ++ [v]) (outDropped f)
                      (timedOut f)).

Definition forwarded (f : fstate) : list T := outReceived f ++ outChan f.
Definition in_hand (p : fpc) : list T := match p with FSend v => [v] | _ => [] end.
Definition forwarding (p : fpc) : bool := match p with FLoop | FSend _ => true | _ => false end.

Record finv (f : fstate) : Prop := mkFinv {
  fi_inner : inv (inner f);
  fi_dropped : outDropped f = [];
  fi_forwarded : forwarded f ++ in_hand (fwd f) = received (inner f);
  fi_open : outClosed f = true -> fwd f = FEnd;
  fi_end : forwarding (fwd f) = false ->
    timedOut f = true \/ (resChan (inner f) = [] /\ closed (inner f) = true)
}.

(** Nothing is sent on a channel that is closed. *)
Lemma closed_frozen s s' :
  inv s -> task_step s s' -> closed s = true ->
  closed s' = true /\ resChan s' = resChan s /\ received s' = received s.
Proof.
  intros Hi Hs Hc. destruct Hs as [| | | | | | | | |s j v s' Hj Hsend| | | | | |]; try done.
  unfold send in Hsend. by rewrite Hc in Hsend.
Qed.

Lemma task_step_received s s' : task_step s s' -> received s' = received s.
Proof.
  intros Hs. destruct Hs as [| | | | | | | | |s j v s' Hj Hsend| | | | | |]; try done.
  unfold send in Hsend. repeat case_match; by simplify_eq/=.
Qed.

Lemma timeout_step_inv f f' : timeout_step f f' -> finv f -> finv f'.
Proof.
  intros Hs [Hi Hd Hf Ho He]. destruct Hs as [f s' Hs|f|f Hp Hpa|f v rest Hp Hr|f Hp Hr Hc|f v f' Hp Hfo|f Hp|f Hp|f v rest Hr].
  - split; simpl; try done; [by eapply task_step_inv|by rewrite (task_step_received _ _ Hs)|].
    intros [?|[Hr Hc]]%He; [by left|right]. by destruct (closed_frozen _ _ Hi Hs Hc) as (-> & -> & _).
  - split; simpl; try done. by eapply quantity_step_inv; [apply q_parent|].
  - rewrite Hp in *. split; simpl; try done; try (by intros ?%Ho). by left.
  - rewrite Hp in *. split; simpl; try done; try (by intros ?%Ho).
    + by eapply quantity_step_inv; [apply q_receive|].
    + rewrite <- Hf. simpl. by rewrite app_nil_r.
  - rewrite Hp in *. split; simpl; try done; try (by intros ?%Ho). auto.
  - unfold forward in Hfo. rewrite Hp in *. destruct (outClosed f) eqn:Eo; [by specialize (Ho eq_refl)|].
    assert (length (outChan f) < expectResultCount)%nat as Hlt.
    { destruct (inv_summary _ Hi) as (_ & Hle & _). unfold sent in Hle. rewrite <- Hf in Hle.
      unfold forwarded in Hle. rewrite !length_app in Hle. simpl in Hle. lia. }
    rewrite bool_decide_eq_true_2 in Hfo by done. injection Hfo as <-. split; simpl; try done.
    rewrite app_nil_r, <- Hf. unfold forwarded. simpl. by rewrite <- app_assoc.
  - rewrite Hp in *. split; simpl; try done; try (by intros ?%Ho).
    by eapply quantity_step_inv; [apply q_parent|].
  - rewrite Hp in *. split; simpl; try done.
  - split; simpl; try done. rewrite <- Hf. unfold forwarded. simpl. by rewrite Hr, <- !app_assoc.
Qed.

Lemma timeout_run_inv f f' : rtc timeout_step f f' -> finv f -> finv f'.
Proof. induction 1; eauto using timeout_step_inv. Qed.

Lemma fstart_inv : finv fstart.
Proof. split; simpl; try done. apply start_inv. Qed.
End quantity.

(** C20. [RunTaskGetSpecifyQuantityResultContext] in every interleaving of its
    goroutines with the caller: at most [poolCount] calls of [fn] run at once,
    a result is never sent on a closed channel nor dropped for lack of space,
    at most [expectResultCount] results are sent, each of them one that [fn]
    returned for a parameter; and when the function's goroutine has ended, the
    channel is closed and holds, unless the caller's context was cancelled,
    the wanted number of results or all the results there are. *)
Theorem quantity_results_exact {T P : Type} (fn : P -> option T -> Prop) (ps : list P)
    (expectResultCount poolCount : nat) s :
  Z.of_nat (expectResultCount + length ps) < 2 ^ 31 ->
  rtc (quantity_step fn expectResultCount poolCount) (start ps expectResultCount) s ->
  (length (filter (fun t => in_fn t = true) (gs s)) <= poolCount)%nat /\
  (length (sent s) <= expectResultCount)%nat /\
  Forall (fun v => exists p, p ∈ ps /\ fn p (Some v)) (sent s) /\
  (forall j v, gs s !! j = Some (TSend v) ->
     exists s', send expectResultCount j v s = Ret s' /\ sent s' = sent s ++ [v]) /\
  (main s = MEnd -> closed s = true /\
    (parent s = true \/ length (sent s) = expectResultCount \/ sent s ≡ₚ results s)).
Proof. intros Hw Hr. by eapply inv_summary, quantity_reach_inv. Qed.

(** [RunTaskGetSpecifyQuantityResultTimeOutContext] forwards the results in
    order and drops none: at every moment what the caller has received and can
    receive is a prefix of the results that were sent, and when the channel is
    closed it is all of them unless the timeout struck. *)
Theorem timeout_forwards_in_order {T P : Type} (fn : P -> option T -> Prop) (ps : list P)
    (expectResultCount poolCount : nat) f :
  Z.of_nat (expectResultCount + length ps) < 2 ^ 31 ->
  rtc (timeout_step fn expectResultCount poolCount) (fstart ps expectResultCount) f ->
  outDropped f = [] /\ forwarded f `prefix_of` sent (inner f) /\
  (outClosed f = true -> timedOut f = true \/
     (closed (inner f) = true /\ forwarded f = sent (inner f))).
Proof.
  intros Hw Hr. destruct (timeout_run_inv fn ps expectResultCount poolCount Hw _ _ Hr) as [Hi Hd Hf Ho He];
    [by apply fstart_inv|]. split_and!; [done|..].
  - exists (in_hand (fwd f) ++ resChan (inner f)). unfold sent. by rewrite <- Hf, app_assoc.
  - intros Hc. rewrite (Ho Hc) in *. destruct (He eq_refl) as [?|[Hr' Hcl]]; [by left|right].
    split; [done|]. unfold sent. by rewrite Hr', <- Hf, !app_nil_r.
Qed.

(** One parameter whose function answers, and one wanted result. *)
Definition demo_fn (p : nat) (r : option nat) : Prop := r = Some (p + 1)%nat.
Definition demo_sent : state (T := nat) (P := nat) :=
  mkState (MFor []) [TEnter] 1 1 false false 0 1 [8%nat] false [] [8%nat] [].

Lemma demo_sent_steps : rtc (task_step demo_fn 1 1) (start [7%nat] 1) demo_sent.
Proof.
  eapply rtc_l; [by eapply q_next|]. eapply rtc_l; [eapply q_run; [reflexivity|simpl; lia]|].
  eapply rtc_l; [by eapply (q_fn _ _ _ _ 0)|]. eapply rtc_l; [by eapply (q_test _ _ _ _ 0)|].
  eapply rtc_l; [by eapply (q_result _ _ _ _ 0)|]. eapply rtc_l; [by eapply (q_send _ _ _ _ 0)|].
  apply rtc_refl.
Qed.

Lemma quantity_results_exact_witness :
  sent demo_sent = [8%nat] /\ (length (sent demo_sent) <= 1)%nat.
Proof.
  split; [reflexivity|].
  destruct (quantity_results_exact demo_fn [7%nat] 1 1 demo_sent) as (_ & Hle & _);
    [simpl; lia| |exact Hle].
  eapply rtc_subrel; [|apply demo_sent_steps]. intros s s' Hs. by apply q_task.
Defined.

Lemma timeout_forwards_in_order_witness :
  sent (inner (fstart [7%nat] 1 : fstate (T := nat))) = [] /\
  outDropped (fstart [7%nat] 1 : fstate (T := nat)) = [].
Proof.
  split; [reflexivity|].
  destruct (timeout_forwards_in_order demo_fn [7%nat] 1 1 (fstart [7%nat] 1)) as [H _];
    [simpl; lia|apply rtc_refl|exact H].
Defined.
