(* ===== verification/RabbitPool.v ===== *)
(** * The RabbitMQ pool: connections, channels, publishing
    ([utils/rabbitMQ/rabbitMQPool.go], [rabbitLoadBalance.go])

    The pool keeps [maxConnection] connections, used in turn, and a table of
    channels indexed by a CRC-32 of the connection's number and the names of
    the message. The AMQP client library is the class [Amqp]: each call gets an
    answer that may depend on everything before, so that connections may break
    and calls may fail at any time. The pool's connection records are shared
    by pointer, hence a heap. *)
From Stdlib Require Import Strings.Byte.
From stdpp Require Import base gmap strings numbers list pretty relations.
From S2P Require Import Prelude GoIO SendQueue.

(** ** CRC-32 ([hash/crc32], [ChecksumIEEE]) *)
Definition crc_bit (c : Z) : Z :=
  if Z.testbit c 0 then Z.lxor (Z.shiftr c 1) 0xEDB88320 else Z.shiftr c 1.
Definition crc_byte (c : Z) (b : byte) : Z := Nat.iter 8 crc_bit (Z.lxor c (byte_Z b)).
Definition ChecksumIEEE (bs : bytes) : Z :=
  Z.lxor (foldl crc_byte 0xFFFFFFFF bs) 0xFFFFFFFF.

Definition hashCode (s : string) : Z :=
  let v := i64 (ChecksumIEEE (bytes_of_str s)) in
  if 0 <=? v then v else if 0 <=? i64 (- v) then i64 (- v) else -1.

Definition channelHashCode (clientType connIndex : Z)
  (exChangeName exChangeType queueName route : string) : Z :=
  hashCode (Itoa clientType +:+ "-" +:+ Itoa connIndex +:+ "-" +:+ exChangeName +:+ "-" +:+
            exChangeType +:+ "-" +:+ queueName +:+ "-" +:+ route)%string.

(** ** The client library *)
(** A header value; [retry_nums] is read with a type assertion. *)
Inductive header_value := HInt32 (n : Z) | HOther.
Abbreviation header := (gmap string header_value).

Record Publishing := mkPublishing {
  ContentType : string;
  Body : bytes;
  Expiration : string;
  Headers : header;
  DeliveryMode : Z;
  Timestamp : Z;
  PubMessageId : string
}.
Definition amqp_Persistent : Z := 2.

Class Amqp (W : Type) := {
  Dial : string -> W -> result error positive * W;
  IsClosed : positive -> W -> bool * W;
  Channel : positive -> W -> result error positive * W;
  Publish : positive -> string -> string -> Publishing -> W -> option error * W;
  Now : W -> Z * W
}.

(** ** The pool *)
Definition DEFAULT_MAX_CONNECTION : Z := 5.
Definition DEFAULT_MAX_CONSUME_CHANNEL : Z := 5.
Definition DEFAULT_PUSH_MAX_TIME : Z := 99.
Definition LOAD_BALANCE_ROUND : Z := 1.
Definition RABBITMQ_TYPE_PUBLISH : Z := 1.
Definition RABBITMQ_TYPE_CONSUME : Z := 2.
Definition DEFAULT_RETRY_MIN_RANDOM_TIME : Z := 5000.
Definition DEFAULT_RETRY_MAX_RADNOM_TIME : Z := 15000.
Definition RCODE_PUSH_MAX_ERROR : Z := 501.
Definition RCODE_GET_CHANNEL_ERROR : Z := 502.

Record RabbitMqError := mkRabbitMqError { Code : Z; Message : string; Detail : string }.
Definition NewRabbitMqError := mkRabbitMqError.

(** [rChannel] and [rConn]; a nil connection is [None]. *)
Record rChannel := mkRChannel { ch : positive; ch_index : Z }.
Record rConn := mkRConn { conn : option positive; index : Z }.

Record RabbitPool := mkPool {
  minRandomRetryTime : Z;
  maxRandomRetryTime : Z;
  maxConnection : Z;
  pushMaxTime : Z;
  connectionIndex : Z;
  connectionBalance : Z;
  channelPool : gmap Z rChannel;
  (** the slices of pointers per client type, and the records they point to *)
  connections : gmap Z (list positive);
  rconns : gmap positive rConn;
  consumeMaxChannel : Z;
  productCurrentRetry : Z;
  clientType : Z;
  host : string;
  port : Z;
  user : string;
  password : string;
  virtualHost : string
}.

Definition newRabbitPool (clientType : Z) : RabbitPool :=
  mkPool DEFAULT_RETRY_MIN_RANDOM_TIME DEFAULT_RETRY_MAX_RADNOM_TIME DEFAULT_MAX_CONNECTION
    DEFAULT_PUSH_MAX_TIME 0 LOAD_BALANCE_ROUND ∅ ∅ ∅ DEFAULT_MAX_CONSUME_CHANNEL 0 clientType EmptyString 0
    EmptyString EmptyString EmptyString.
Definition NewProductPool : RabbitPool := newRabbitPool RABBITMQ_TYPE_PUBLISH.
Definition NewConsumePool : RabbitPool := newRabbitPool RABBITMQ_TYPE_CONSUME.

Definition set_connectionIndex (i : Z) (p : RabbitPool) : RabbitPool :=
  mkPool (minRandomRetryTime p) (maxRandomRetryTime p) (maxConnection p) (pushMaxTime p) i
    (connectionBalance p) (channelPool p) (connections p) (rconns p) (consumeMaxChannel p) (productCurrentRetry p)
    (clientType p) (host p) (port p) (user p) (password p) (virtualHost p).
Definition set_channelPool (m : gmap Z rChannel) (p : RabbitPool) : RabbitPool :=
  mkPool (minRandomRetryTime p) (maxRandomRetryTime p) (maxConnection p) (pushMaxTime p)
    (connectionIndex p) (connectionBalance p) m (connections p) (rconns p) (consumeMaxChannel p) (productCurrentRetry p)
    (clientType p) (host p) (port p) (user p) (password p) (virtualHost p).
Definition set_connections (m : gmap Z (list positive)) (h : gmap positive rConn) (p : RabbitPool)
  : RabbitPool :=
  mkPool (minRandomRetryTime p) (maxRandomRetryTime p) (maxConnection p) (pushMaxTime p)
    (connectionIndex p) (connectionBalance p) (channelPool p) m h (consumeMaxChannel p) (productCurrentRetry p)
    (clientType p) (host p) (port p) (user p) (password p) (virtualHost p).
Definition set_productCurrentRetry (n : Z) (p : RabbitPool) : RabbitPool :=
  mkPool (minRandomRetryTime p) (maxRandomRetryTime p) (maxConnection p) (pushMaxTime p)
    (connectionIndex p) (connectionBalance p) (channelPool p) (connections p) (rconns p) (consumeMaxChannel p) n
    (clientType p) (host p) (port p) (user p) (password p) (virtualHost p).
Definition set_address (h : string) (pt : Z) (u pw vh : string) (p : RabbitPool) : RabbitPool :=
  mkPool (minRandomRetryTime p) (maxRandomRetryTime p) (maxConnection p) (pushMaxTime p)
    (connectionIndex p) (connectionBalance p) (channelPool p) (connections p) (rconns p) (consumeMaxChannel p)
    (productCurrentRetry p) (clientType p) h pt u pw vh.
Definition SetMaxConsumeChannel (n : Z) (p : RabbitPool) : RabbitPool :=
  mkPool (minRandomRetryTime p) (maxRandomRetryTime p) (maxConnection p) (pushMaxTime p)
    (connectionIndex p) (connectionBalance p) (channelPool p) (connections p) (rconns p) n
    (productCurrentRetry p) (clientType p) (host p) (port p) (user p) (password p) (virtualHost p).
Definition SetMaxConnection (n : Z) (p : RabbitPool) : RabbitPool :=
  mkPool (minRandomRetryTime p) (maxRandomRetryTime p) n (pushMaxTime p)
    (connectionIndex p) (connectionBalance p) (channelPool p) (connections p) (rconns p)
    (consumeMaxChannel p) (productCurrentRetry p) (clientType p) (host p) (port p) (user p)
    (password p) (virtualHost p).
Definition SetRandomRetryTime (min max : Z) (p : RabbitPool) : RabbitPool :=
  mkPool min max (maxConnection p) (pushMaxTime p)
    (connectionIndex p) (connectionBalance p) (channelPool p) (connections p) (rconns p)
    (consumeMaxChannel p) (productCurrentRetry p) (clientType p) (host p) (port p) (user p)
    (password p) (virtualHost p).
Definition SetConnectionBalance (balance : Z) (p : RabbitPool) : RabbitPool :=
  mkPool (minRandomRetryTime p) (maxRandomRetryTime p) (maxConnection p) (pushMaxTime p)
    (connectionIndex p) balance (channelPool p) (connections p) (rconns p)
    (consumeMaxChannel p) (productCurrentRetry p) (clientType p) (host p) (port p) (user p)
    (password p) (virtualHost p).
Definition GetHost (p : RabbitPool) : string := host p.
Definition GetPort (p : RabbitPool) : Z := port p.
(** [conn] through the pointer [l]. *)
Definition set_conn (l : positive) (c : option positive) (p : RabbitPool) : RabbitPool :=
  set_connections (connections p)
    (match rconns p !! l with
     | Some rc => <[l := mkRConn c (index rc)]> (rconns p)
     | None => rconns p
     end) p.

(** [strings.TrimSpace] for ASCII text. *)
Definition is_space (c : Ascii.ascii) : bool :=
  let n := Ascii.nat_of_ascii c in bool_decide (n = 32 \/ 9 <= n <= 13)%nat.
Fixpoint trim_left (s : string) : string :=
  match s with
  | String.String c s' => if is_space c then trim_left s' else s
  | EmptyString => EmptyString
  end.
Definition TrimSpace (s : string) : string := String.rev (trim_left (String.rev (trim_left s))).

(** [RabbitLoadBalance.RoundRobin]. *)
Definition RoundRobin (cIndex max : Z) : Z :=
  if max =? 0 then 0 else Z.rem (i32 (cIndex + 1)) max.

Section pool.
Context {W : Type} `{Amqp W}.

(** Code that works on the pool and calls the library. [None] stands for a
    loop that is still running when the fuel is used up. *)
Record St := mkSt { pool : RabbitPool; amqp : W }.
Definition M (A : Type) : Type := St -> option (outcome (A * St)).

#[global] Instance M_ret : MRet M := fun A a s => Some (Ret (a, s)).
#[global] Instance M_bind : MBind M := fun A B f m s =>
  match m s with
  | Some (Ret (a, s')) => f a s'
  | Some Panic => Some Panic
  | None => None
  end.
Definition panic {A : Type} : M A := fun _ => Some Panic.
Definition get : M RabbitPool := fun s => Some (Ret (pool s, s)).
Definition modify (f : RabbitPool -> RabbitPool) : M () :=
  fun s => Some (Ret ((), mkSt (f (pool s)) (amqp s))).
Definition lib {A : Type} (f : W -> A * W) : M A :=
  fun s => let '(a, w) := f (amqp s) in Some (Ret (a, mkSt (pool s) w)).
(** [p.f] through a pointer; a dangling pointer panics. *)
Definition deref (l : positive) : M rConn := fun s =>
  match rconns (pool s) !! l with Some rc => Some (Ret (rc, s)) | None => Some Panic end.

(** [connection] and [rConnect]. *)
Definition connection (user password host : string) (port : Z) (vHost : string)
  : M (result error positive) :=
  let virtualHost := if bool_decide (TrimSpace vHost = EmptyString) then "/" else vHost in
  lib (Dial ("amqp://" +:+ user +:+ ":" +:+ password +:+ "@" +:+ host +:+ ":" +:+ Itoa port +:+
             virtualHost)).
Definition rConnect : M (result error positive) :=
  p ← get;
  let virtualHost :=
    if bool_decide (TrimSpace (virtualHost p) = EmptyString) then "/" else virtualHost p in
  connection (user p) (password p) (host p) (port p) virtualHost.

(** [append(connections[clientType], &rConn{...})]. *)
Definition append_conn (c : positive) (i : Z) (p : RabbitPool) : RabbitPool :=
  let l := fresh (dom (rconns p)) in
  set_connections
    (<[clientType p := default [] (connections p !! clientType p) ++ [l]]> (connections p))
    (<[l := mkRConn (Some c) i]> (rconns p)) p.

(** The loop of [initConnections] from [i], with [n] iterations left. *)
Fixpoint init_loop (n : nat) (i : Z) : M (option error) :=
  match n with
  | O => mret None
  | S n' =>
      r ← rConnect;
      match r with
      | Err e => mret (Some e)
      | Ok c => modify (append_conn c i);; init_loop n' (i + 1)
      end
  end.
Definition initConnections : M (option error) :=
  modify (fun p => set_connections (<[clientType p := []]> (connections p)) (rconns p) p);;
  p ← get;
  init_loop (Z.to_nat (maxConnection p)) 0.

Definition Connect (host : string) (port : Z) (user password : string) : M (option error) :=
  modify (set_address host port user password "/");; initConnections.
Definition ConnectVirtualHost (host : string) (port : Z) (user password virtualHost : string)
  : M (option error) :=
  modify (set_address host port user password virtualHost);; initConnections.

Definition getConnection : M positive :=
  p ← get;
  let changeConnectionIndex := connectionIndex p in
  let currentIndex := RoundRobin changeConnectionIndex (maxConnection p) in
  let currentNum := i32 (currentIndex - changeConnectionIndex) in
  let i := i32 (connectionIndex p + currentNum) in
  modify (set_connectionIndex i);;
  let conns := default [] (connections p !! clientType p) in
  match (if 0 <=? i then conns !! Z.to_nat i else None) with
  | Some l => mret l
  | None => panic
  end.

Definition deleteChannel (rc : rConn) (exChangeName exChangeType queueName route : string) : M () :=
  modify (fun p => set_channelPool
    (delete (channelHashCode (clientType p) (index rc) exChangeName exChangeType queueName route)
       (channelPool p)) p).

(** [rCreateChannel] and [initChannels]; a nil connection panics. *)
Definition rCreateChannel (rc : rConn) : M (result error positive) :=
  match conn rc with
  | None => panic
  | Some c =>
      r ← lib (Channel c);
      mret (match r with
            | Ok ch => Ok ch
            | Err e => Err (Errorf ("Create Connect Channel Error: " +:+ Error e))
            end)
  end.
Definition initChannels (rc : rConn) : M (result error rChannel) :=
  r ← rCreateChannel rc;
  mret (match r with Ok c => Ok (mkRChannel c 0) | Err e => Err e end).

Definition getChannelQueueReset (l : positive)
  (exChangeName exChangeType queueName route : string) (isReset : bool)
  : M (result error rChannel) :=
  rc ← deref l;
  p ← get;
  let code := channelHashCode (clientType p) (index rc) exChangeName exChangeType queueName route in
  (if isReset then deleteChannel rc exChangeName exChangeType queueName route else mret ());;
  p ← get;
  match channelPool p !! code with
  | Some c => mret (Ok c)
  | None =>
      r ← initChannels rc;
      match r with
      | Err e => mret (Err e)
      | Ok c => modify (fun p => set_channelPool (<[code := c]> (channelPool p)) p);; mret (Ok c)
      end
  end.

Definition getChannelQueue (l : positive) (exChangeName exChangeType queueName route : string)
  : M (result error rChannel) :=
  getChannelQueueReset l exChangeName exChangeType queueName route false.

(** [rc.conn == nil || rc.conn.IsClosed()]. *)
Definition conn_down (rc : rConn) : M bool :=
  match conn rc with None => mret true | Some c => lib (IsClosed c) end.

(** [tryConn] with a connection; the recursive call's result is discarded. *)
Fixpoint tryConn (fuel : nat) (l : positive) (isRetry : bool)
  (exchangeName exchangeType queueName route : string) : M (positive * bool) :=
  match fuel with
  | O => fun _ => None
  | S fuel' =>
      (if isRetry
       then modify (fun p => set_productCurrentRetry (i32 (productCurrentRetry p + 1)) p)
       else mret ());;
      rc ← deref l;
      down ← conn_down rc;
      (if (down : bool)
       then deleteChannel rc exchangeName exchangeType queueName route;;
            p ← get;
            r ← connection (user p) (password p) (host p) (port p) (virtualHost p);
            match r with
            | Ok c => modify (set_conn l (Some c))
            | Err _ =>
                modify (set_conn l None);;
                tryConn fuel' l true exchangeName exchangeType queueName route;; mret ()
            end
       else mret ());;
      mret (l, isRetry)
  end.

(** The critical section of [rPush], under [channelLock]. *)
Definition push_channel (fuel : nat) (d : RabbitMqData) : M (result error rChannel) :=
  l ← getConnection;
  '(l, isTry) ← tryConn fuel l false (ExchangeName d) (ExchangeType d) (QueueName d) (Route d);
  getChannelQueueReset l (ExchangeName d) (ExchangeType d) (QueueName d) (Route d) isTry.

(** The message [rPush] publishes. *)
Definition push_message (d : RabbitMqData) (now : Z) : Publishing :=
  mkPublishing "application/octet-stream" (Data d) EmptyString ∅ amqp_Persistent now (MessageId d).
Definition push_publish (d : RabbitMqData) (c : rChannel) : M (option error) :=
  now ← lib Now;
  lib (Publish (ch c) (ExchangeName d) (QueueName d) (push_message d now)).

(** [rPush]: [n] bounds the number of attempts it still makes. *)
Fixpoint rPush (n fuel : nat) (d : RabbitMqData) (sendTime : Z) : M (option RabbitMqError) :=
  match n with
  | O => fun _ => None
  | S n' =>
      p ← get;
      if pushMaxTime p <=? sendTime
      then mret (Some (NewRabbitMqError RCODE_PUSH_MAX_ERROR "重试超过最大次数" EmptyString))
      else
        r ← push_channel fuel d;
        match r with
        | Err e => mret (Some (NewRabbitMqError RCODE_GET_CHANNEL_ERROR "获取信道失败" (Error e)))
        | Ok c =>
            err ← push_publish d c;
            match err with
            | Some _ => rPush n' fuel d (sendTime + 1)
            | None => mret None
            end
        end
  end.

(** ** Specifications

    [spec m s Q]: [m] does not panic from [s], and [Q] holds if it returns. *)
Definition spec {A : Type} (m : M A) (s : St) (Q : A -> St -> Prop) : Prop :=
  match m s with
  | None => True
  | Some Panic => False
  | Some (Ret (a, s')) => Q a s'
  end.

Lemma spec_ret {A : Type} (a : A) s (Q : A -> St -> Prop) : Q a s -> spec (mret a) s Q.
Proof. done. Qed.
Lemma spec_bind {A B : Type} (m : M A) (f : A -> M B) s Q :
  spec m s (fun a s' => spec (f a) s' Q) -> spec (m ≫= f) s Q.
Proof. unfold spec, mbind, M_bind. by destruct (m s) as [[[a s']|]|]. Qed.
Lemma spec_mono {A : Type} (m : M A) s (Q Q' : A -> St -> Prop) :
  spec m s Q -> (forall a s', Q a s' -> Q' a s') -> spec m s Q'.
Proof. unfold spec. intros Hm HQ. destruct (m s) as [[[a s']|]|]; auto. Qed.
Lemma spec_get s (Q : RabbitPool -> St -> Prop) : Q (pool s) s -> spec get s Q.
Proof. done. Qed.
Lemma spec_modify f s (Q : () -> St -> Prop) :
  Q () (mkSt (f (pool s)) (amqp s)) -> spec (modify f) s Q.
Proof. done. Qed.
(** The library may answer anything. *)
Lemma spec_lib {A : Type} (f : W -> A * W) s (Q : A -> St -> Prop) :
  (forall a w, f (amqp s) = (a, w) -> Q a (mkSt (pool s) w)) -> spec (lib f) s Q.
Proof. intros HQ. unfold spec, lib. destruct (f (amqp s)) as [a w] eqn:E. by apply HQ. Qed.
Lemma spec_deref l rc s (Q : rConn -> St -> Prop) :
  rconns (pool s) !! l = Some rc -> Q rc s -> spec (deref l) s Q.
Proof. intros Hl HQ. unfold spec, deref. by rewrite Hl. Qed.

(** The connections of the pool: [ls] in order, with their numbers. *)
Definition conns_ok (p : RabbitPool) (ls : list positive) : Prop :=
  connections p !! clientType p = Some ls /\
  forall i l, ls !! i = Some l -> exists rc, rconns p !! l = Some rc /\ index rc = Z.of_nat i.

(** A pool whose connections were all made. *)
Record pool_ok (p : RabbitPool) (ls : list positive) : Prop := mkPoolOk {
  po_conns : conns_ok p ls;
  po_len : Z.of_nat (length ls) = maxConnection p;
  po_max : maxConnection p < 2 ^ 31;
  po_index : 0 <= connectionIndex p < maxConnection p
}.

(** What the pool operations never change. *)
Definition same_config (p q : RabbitPool) : Prop :=
  maxConnection p = maxConnection q /\ pushMaxTime p = pushMaxTime q /\
  clientType p = clientType q /\ connections p = connections q /\
  connectionIndex p = connectionIndex q.

Lemma RoundRobin_spec i max :
  0 <= i < max -> max < 2 ^ 31 -> RoundRobin i max = (i + 1) mod max.
Proof.
  intros Hi Hm. unfold RoundRobin. destruct (max =? 0) eqn:E; to_prop; [lia|].
  rewrite i32_small by (unfold in_signed; lia). by apply Z.rem_mod_nonneg; lia.
Qed.

Lemma getConnection_run s ls :
  pool_ok (pool s) ls ->
  exists l, ls !! Z.to_nat ((connectionIndex (pool s) + 1) mod maxConnection (pool s)) = Some l /\
    getConnection s = Some (Ret (l, mkSt (set_connectionIndex
      ((connectionIndex (pool s) + 1) mod maxConnection (pool s)) (pool s)) (amqp s))).
Proof.
  intros [[Hc Hls] Hlen Hmax Hi]. unfold getConnection, mbind, M_bind, get. simpl.
  rewrite RoundRobin_spec by lia. set (i := connectionIndex (pool s)) in *.
  set (n := maxConnection (pool s)) in *.
  pose proof (Z.mod_pos_bound (i + 1) n ltac:(lia)) as Hb.
  rewrite (i32_small ((i + 1) mod n - i)) by (unfold in_signed; lia).
  replace (i + ((i + 1) mod n - i)) with ((i + 1) mod n) by lia.
  rewrite i32_small by (unfold in_signed; lia). rewrite Hc. simpl.
  destruct (lookup_lt_is_Some_2 ls (Z.to_nat ((i + 1) mod n))) as [l Hl]; [lia|].
  exists l. split; [done|]. destruct (0 <=? (i + 1) mod n) eqn:E; to_prop; [|lia].
  by rewrite Hl.
Qed.

Lemma pool_ok_next p ls :
  pool_ok p ls -> pool_ok (set_connectionIndex ((connectionIndex p + 1) mod maxConnection p) p) ls.
Proof.
  intros [Hc Hl Hm Hi]. split; simpl; try done. apply Z.mod_pos_bound. lia.
Qed.

(** [set_conn] keeps the connections' numbers. *)
Lemma set_conn_ok p ls l c : conns_ok p ls -> conns_ok (set_conn l c p) ls.
Proof.
  intros [Hc Hls]. split; [done|]. intros i l' Hi. destruct (Hls i l' Hi) as (rc & Hrc & Hx).
  unfold set_conn, set_connections. simpl. destruct (rconns p !! l) as [rc0|] eqn:E; [|eauto].
  destruct (decide (l = l')) as [<-|Hne]; simplify_eq.
  - exists (mkRConn c (index rc)). by rewrite lookup_insert_eq.
  - exists rc. by rewrite lookup_insert_ne.
Qed.

(** A change of the pool that keeps its configuration and connections. *)
Definition pool_step (p q : RabbitPool) : Prop :=
  same_config p q /\ (forall ls, conns_ok p ls -> conns_ok q ls) /\
  (forall l', is_Some (rconns p !! l') -> is_Some (rconns q !! l')).

Lemma pool_step_ok p q ls : pool_step p q -> pool_ok p ls -> pool_ok q ls.
Proof.
  intros [(E1 & E2 & E3 & E4 & E5) [Hc _]] [? ? ? ?].
  split; [auto|by rewrite <- E1|by rewrite <- E1|by rewrite <- E1, <- E5].
Qed.

#[global] Instance pool_step_preorder : PreOrder pool_step.
Proof.
  split.
  - intros p. unfold pool_step, same_config. split_and!; auto.
  - intros p q r [(? & ? & ? & ? & ?) [? ?]] [(? & ? & ? & ? & ?) [? ?]].
    unfold pool_step, same_config. split_and!; auto; congruence.
Qed.

Lemma pool_step_same p q : same_config p q -> rconns p = rconns q -> pool_step p q.
Proof.
  intros Hs E. split; [done|]. destruct Hs as (_ & _ & E3 & E4 & _). unfold conns_ok.
  rewrite <- E, <- E3, <- E4. by split.
Qed.

Lemma pool_step_set_conn p l c : pool_step p (set_conn l c p).
Proof.
  split; [done|]. split; [by intros ls ?; apply set_conn_ok|]. intros l' Hl'.
  unfold set_conn, set_connections. simpl. destruct (rconns p !! l) as [rc|] eqn:E; [|done].
  apply lookup_insert_is_Some'. by right.
Qed.

Lemma set_conn_lookup p l c rc :
  rconns p !! l = Some rc -> rconns (set_conn l c p) !! l = Some (mkRConn c (index rc)).
Proof. intros E. unfold set_conn, set_connections. simpl. rewrite E. apply lookup_insert_eq. Qed.

Lemma connection_spec u pw h pt vh s Q :
  (forall r w, Q r (mkSt (pool s) w)) -> spec (connection u pw h pt vh) s Q.
Proof. intros HQ. apply spec_lib. auto. Qed.

Lemma deleteChannel_spec rc en et qn rt s (Q : () -> St -> Prop) :
  (forall m, m ⊆ channelPool (pool s) -> Q () (mkSt (set_channelPool m (pool s)) (amqp s))) ->
  spec (deleteChannel rc en et qn rt) s Q.
Proof. intros HQ. apply spec_modify, HQ, delete_subseteq. Qed.

(** The record [l] holds a connection again. *)
Definition usable (l : positive) (p : RabbitPool) : Prop :=
  exists rc, rconns p !! l = Some rc /\ is_Some (conn rc).

Lemma tryConn_spec fuel l isRetry en et qn rt s :
  is_Some (rconns (pool s) !! l) ->
  spec (tryConn fuel l isRetry en et qn rt) s (fun r s' =>
    r = (l, isRetry) /\ pool_step (pool s) (pool s') /\ usable l (pool s')).
Proof.
  revert isRetry s. induction fuel as [|fuel IH]; intros isRetry s Hl; [done|].
  cbn [tryConn]. apply spec_bind.
  apply (spec_mono _ _ (fun _ s1 => pool_step (pool s) (pool s1))).
  { destruct isRetry; [apply spec_modify|apply spec_ret]; by apply pool_step_same. }
  intros _ s1 Hs1. pose proof Hs1 as (_ & _ & Hd1). destruct (Hd1 l Hl) as [rc Hrc].
  apply spec_bind. apply (spec_deref l rc); [done|]. apply spec_bind.
  apply (spec_mono _ _ (fun down s2 => pool s2 = pool s1 /\ (down = false -> is_Some (conn rc)))).
  { unfold conn_down. destruct (conn rc); [|by apply spec_ret]. apply spec_lib. by intros. }
  intros down s2 [E2 Hup]. apply spec_bind.
  apply (spec_mono _ _ (fun _ s3 => pool_step (pool s1) (pool s3) /\ usable l (pool s3))).
  2: { intros _ s3 [H3 Hu]. apply spec_ret. split_and!; [done| |done]. by etrans. }
  destruct down; [|apply spec_ret; rewrite E2; split; [done|exists rc; auto]].
  apply spec_bind, deleteChannel_spec. intros m _. apply spec_bind, spec_get.
  apply spec_bind, connection_spec. intros r w. rewrite E2. destruct r as [c|e].
  - apply spec_modify. split.
    + etrans; [|apply pool_step_set_conn]. by apply pool_step_same.
    + eexists. split; [by apply set_conn_lookup|done].
  - apply spec_bind, spec_modify. apply spec_bind.
    eapply spec_mono; [apply IH|].
    + simpl. eexists. by apply set_conn_lookup.
    + intros x s3 (_ & H3 & Hu). apply spec_ret. split; [|done].
      etrans; [|exact H3]. etrans; [|apply pool_step_set_conn]. by apply pool_step_same.
Qed.

Lemma getChannelQueueReset_spec l en et qn rt b s :
  usable l (pool s) ->
  spec (getChannelQueueReset l en et qn rt b) s (fun _ s' => pool_step (pool s) (pool s')).
Proof.
  intros (rc & Hrc & [c Hc]). unfold getChannelQueueReset.
  apply spec_bind. apply (spec_deref l rc); [done|]. apply spec_bind, spec_get. apply spec_bind.
  apply (spec_mono _ _ (fun _ s1 => pool_step (pool s) (pool s1))).
  { destruct b; [|by apply spec_ret]. apply deleteChannel_spec. intros m _. by apply pool_step_same. }
  intros _ s1 H1. apply spec_bind, spec_get. case_match; [by apply spec_ret|].
  apply spec_bind. unfold initChannels, rCreateChannel. rewrite Hc. apply spec_bind, spec_bind, spec_lib.
  intros r w _. apply spec_ret, spec_ret. destruct r; [|by apply spec_ret].
  apply spec_bind, spec_modify, spec_ret. simpl. etrans; [exact H1|]. by apply pool_step_same.
Qed.

(** The critical section of [rPush] never panics on a connected pool and
    leaves it connected. *)
Lemma push_channel_spec fuel d s ls :
  pool_ok (pool s) ls ->
  spec (push_channel fuel d) s (fun _ s' =>
    pool_ok (pool s') ls /\ pushMaxTime (pool s') = pushMaxTime (pool s)).
Proof.
  intros Hok. destruct (getConnection_run s ls Hok) as (l & Hl & E).
  unfold push_channel. apply spec_bind. unfold spec at 1. rewrite E.
  pose proof (pool_ok_next _ _ Hok) as Hok1. set (s1 := mkSt _ _) in *.
  apply spec_bind. eapply spec_mono.
  { apply tryConn_spec. destruct (po_conns _ _ Hok1) as [_ Hls].
    destruct (Hls _ _ Hl) as (rc & Hrc & _). eauto. }
  intros x s2 (-> & H2 & Hu). eapply spec_mono; [by apply getChannelQueueReset_spec|].
  intros r s3 H3. assert (pool_step (pool s1) (pool s3)) as H13 by by etrans.
  split; [by eapply pool_step_ok|]. by destruct H13 as [(_ & <- & _) _].
Qed.

(** ** Connecting *)

(** The invariant of the loop: [i] connections so far. *)
Lemma append_conn_ok p ls c i :
  conns_ok p ls -> i = Z.of_nat (length ls) ->
  exists l, conns_ok (append_conn c i p) (ls ++ [l]) /\
    maxConnection (append_conn c i p) = maxConnection p /\
    connectionIndex (append_conn c i p) = connectionIndex p /\
    pushMaxTime (append_conn c i p) = pushMaxTime p.
Proof.
  intros [Hc Hls] ->. exists (fresh (dom (rconns p))). split; [|done].
  assert (rconns p !! fresh (dom (rconns p)) = None) as Hf by apply not_elem_of_dom, is_fresh.
  unfold append_conn, set_connections. split; simpl.
  - by rewrite lookup_insert_eq, Hc.
  - intros j l [Hj|[Hge Hj]]%lookup_app_Some.
    + destruct (Hls j l Hj) as (rc & Hrc & Hx). exists rc.
      rewrite lookup_insert_ne; [done|]. congruence.
    + apply list_lookup_singleton_Some in Hj as [Hj <-]. eexists. rewrite lookup_insert_eq.
      split; [done|]. simpl. lia.
Qed.

Lemma init_loop_spec n i s ls :
  conns_ok (pool s) ls -> i = Z.of_nat (length ls) ->
  exists r s' ls', init_loop n i s = Some (Ret (r, s')) /\ conns_ok (pool s') ls' /\
    maxConnection (pool s') = maxConnection (pool s) /\
    connectionIndex (pool s') = connectionIndex (pool s) /\
    pushMaxTime (pool s') = pushMaxTime (pool s) /\
    match r with
    | None => length ls' = (length ls + n)%nat
    | Some _ => (length ls' < length ls + n)%nat
    end.
Proof.
  revert i s ls. induction n as [|n IH]; intros i s ls Hc Hi.
  { exists None, s, ls. split_and!; done || lia. }
  cbn [init_loop]. unfold rConnect, connection, lib, mbind, M_bind, get.
  destruct (Dial _ (amqp s)) as [[c|e] w].
  - unfold modify. simpl.
    destruct (append_conn_ok (pool s) ls c i Hc Hi) as (l & Hc' & Em & Ei & Et).
    destruct (IH (i + 1) (mkSt (append_conn c i (pool s)) w) (ls ++ [l]))
      as (r & s' & ls' & -> & H1 & H2 & H3 & H5 & H4); [done|rewrite length_app; simpl; lia|].
    exists r, s', ls'. split_and!; [done..|simpl in *; congruence|simpl in *; congruence|simpl in *; congruence|].
    rewrite length_app in H4. destruct r; simpl in *; lia.
  - exists (Some e), (mkSt (pool s) w), ls. split_and!; done || lia.
Qed.

Lemma initConnections_spec s :
  exists r s' ls, initConnections s = Some (Ret (r, s')) /\ conns_ok (pool s') ls /\
    maxConnection (pool s') = maxConnection (pool s) /\
    connectionIndex (pool s') = connectionIndex (pool s) /\
    pushMaxTime (pool s') = pushMaxTime (pool s) /\
    match r with
    | None => length ls = Z.to_nat (maxConnection (pool s))
    | Some _ => (length ls < Z.to_nat (maxConnection (pool s)))%nat
    end.
Proof.
  unfold initConnections, mbind, M_bind, get, modify. simpl. set (s1 := mkSt _ _).
  destruct (init_loop_spec (Z.to_nat (maxConnection (pool s))) 0 s1 [])
    as (r & s' & ls & -> & H1 & H2 & H3 & H5 & H4); [|done|].
  - split; [|by intros i l Hi]. simpl. by rewrite lookup_insert_eq.
  - exists r, s', ls. split_and!; done.
Qed.

(** Consecutive calls of [getConnection]. *)
Fixpoint getConnections (n : nat) : M (list positive) :=
  match n with
  | O => mret []
  | S n' => l ← getConnection; ls ← getConnections n'; mret (l :: ls)
  end.

Lemma getConnections_spec n s ls :
  pool_ok (pool s) ls ->
  exists out s', getConnections n s = Some (Ret (out, s')) /\ length out = n /\
    forall k, (k < n)%nat -> out !! k =
      ls !! Z.to_nat ((connectionIndex (pool s) + 1 + Z.of_nat k) mod maxConnection (pool s)).
Proof.
  revert s. induction n as [|n IH]; intros s Hok; [exists [], s; split_and!; [done..|lia]|].
  cbn [getConnections]. destruct (getConnection_run s ls Hok) as (l & Hl & E).
  destruct (IH _ (pool_ok_next _ _ Hok : pool_ok (pool (mkSt _ (amqp s))) ls))
    as (out & s' & E' & Hlen & Hout).
  unfold mbind, M_bind. rewrite E, E'. exists (l :: out), s'. split_and!; [done|by simpl; f_equal|].
  intros [|k] Hk; simpl.
  - by rewrite <- Hl, Z.add_0_r.
  - rewrite Hout by lia. f_equal. f_equal. simpl. destruct Hok as [_ _ _ Hi].
    rewrite <- Z.add_assoc, Zplus_mod_idemp_l. f_equal. lia.
Qed.

Lemma Connect_ok t hst pt u pw s0 s :
  pool s0 = newRabbitPool t -> Connect hst pt u pw s0 = Some (Ret (None, s)) ->
  exists ls, pool_ok (pool s) ls /\ connectionIndex (pool s) = 0 /\
    maxConnection (pool s) = DEFAULT_MAX_CONNECTION /\
    pushMaxTime (pool s) = DEFAULT_PUSH_MAX_TIME.
Proof.
  intros Hp Hc. unfold Connect, mbind, M_bind, modify in Hc. simpl in Hc. rewrite Hp in Hc.
  destruct (initConnections_spec (mkSt (set_address hst pt u pw "/" (newRabbitPool t)) (amqp s0)))
    as (r & s' & ls & E & Hok & Em & Ei & Et & Hl). rewrite E in Hc. simplify_eq/=.
  exists ls. split_and!; [|done..]. split; [done|rewrite Em, Hl; done|rewrite Em; done|].
  rewrite Em, Ei. unfold DEFAULT_MAX_CONNECTION. lia.
Qed.

(** Load balancing: after [Connect] succeeded on a new pool, any number of
    [getConnection] calls succeed and hand out the connections in turn, the
    one of number [(k + 1) mod maxConnection] at the [k]-th call. *)
Theorem connections_in_turn t hst pt u pw s0 s n :
  pool s0 = newRabbitPool t -> Connect hst pt u pw s0 = Some (Ret (None, s)) ->
  exists ls out s', connections (pool s) !! clientType (pool s) = Some ls /\
    length ls = Z.to_nat DEFAULT_MAX_CONNECTION /\
    getConnections n s = Some (Ret (out, s')) /\ length out = n /\
    forall k, (k < n)%nat ->
      out !! k = ls !! Z.to_nat (Z.of_nat (k + 1) mod DEFAULT_MAX_CONNECTION).
Proof.
  intros Hp Hcon. destruct (Connect_ok t hst pt u pw s0 s Hp Hcon) as (ls & Hok & Ei & Em & _).
  destruct (getConnections_spec n s ls Hok) as (out & s' & E & Hl & Hout).
  exists ls, out, s'. pose proof Hok as [[Hc _] Hlen _ _]. rewrite Em in *.
  split_and!; [done|lia|done..|]. intros k Hk. rewrite Hout by done. rewrite Ei. do 3 f_equal. lia.
Qed.

(** One attempt of [rPush]. *)
Lemma rPush_S n fuel d k s :
  rPush (S n) fuel d k s =
    if pushMaxTime (pool s) <=? k
    then Some (Ret (Some (NewRabbitMqError RCODE_PUSH_MAX_ERROR "重试超过最大次数" EmptyString), s))
    else match push_channel fuel d s with
         | Some (Ret (Err e, s1)) =>
             Some (Ret (Some (NewRabbitMqError RCODE_GET_CHANNEL_ERROR "获取信道失败" (Error e)), s1))
         | Some (Ret (Ok c, s1)) =>
             match push_publish d c s1 with
             | Some (Ret (Some _, s2)) => rPush n fuel d (k + 1) s2
             | Some (Ret (None, s2)) => Some (Ret (None, s2))
             | Some Panic => Some Panic
             | None => None
             end
         | Some Panic => Some Panic
         | None => None
         end.
Proof.
  cbn [rPush]. unfold mbind, M_bind, get. destruct (pushMaxTime (pool s) <=? k); [done|].
  destruct (push_channel fuel d s) as [[[[c|e] s1]|]|]; try done.
  by destruct (push_publish d c s1) as [[[[|] s2]|]|].
Qed.

(** [getConnection] on a pool with too few connections. *)
Lemma getConnection_short s ls :
  conns_ok (pool s) ls -> 0 <= connectionIndex (pool s) -> maxConnection (pool s) < 2 ^ 31 ->
  connectionIndex (pool s) + 1 < maxConnection (pool s) ->
  getConnection s =
    match ls !! Z.to_nat (connectionIndex (pool s) + 1) with
    | Some l => Some (Ret (l, mkSt (set_connectionIndex (connectionIndex (pool s) + 1) (pool s))
                               (amqp s)))
    | None => Some Panic
    end.
Proof.
  intros [Hc _] Hi Hmax Hlt. unfold getConnection, mbind, M_bind, get. simpl.
  rewrite RoundRobin_spec by lia. rewrite Z.mod_small by lia.
  set (i := connectionIndex (pool s)) in *.
  rewrite (i32_small (i + 1 - i)) by (unfold in_signed; lia).
  replace (i + (i + 1 - i)) with (i + 1) by lia.
  rewrite i32_small by (unfold in_signed; lia). rewrite Hc. simpl.
  destruct (0 <=? i + 1) eqn:E; to_prop; [|lia]. by destruct (ls !! _).
Qed.

Lemma getConnections_S n s :
  getConnections (S n) s =
    match getConnection s with
    | Some (Ret (l, s1)) =>
        match getConnections n s1 with
        | Some (Ret (ls, s2)) => Some (Ret (l :: ls, s2))
        | Some Panic => Some Panic
        | None => None
        end
    | Some Panic => Some Panic
    | None => None
    end.
Proof. done. Qed.

Lemma getConnections_short n s ls :
  conns_ok (pool s) ls -> 0 <= connectionIndex (pool s) -> maxConnection (pool s) < 2 ^ 31 ->
  Z.of_nat (length ls) < maxConnection (pool s) ->
  connectionIndex (pool s) + 1 < maxConnection (pool s) ->
  Z.of_nat (length ls) <= connectionIndex (pool s) + Z.of_nat (S n) ->
  getConnections (S n) s = Some Panic.
Proof.
  revert s. induction n as [|n IH]; intros s Hc Hi Hmax Hl Hlt Hn; rewrite getConnections_S;
    rewrite (getConnection_short s ls) by done.
  - by rewrite lookup_ge_None_2 by lia.
  - destruct (ls !! _) as [l|] eqn:El; [|done]. apply lookup_lt_Some in El.
    rewrite IH; simpl in *; [done|done|lia..].
Qed.

(** A pool that could not connect crashes: [Connect] returns the error with
    fewer connections than [maxConnection], the caller only logs it, and one
    of the next five [getConnection] calls panics; when at most one connection
    was made, the very first [Push] does. *)
Theorem partial_connect_panics t hst pt u pw s0 s e :
  pool s0 = newRabbitPool t -> Connect hst pt u pw s0 = Some (Ret (Some e, s)) ->
  getConnections 5 s = Some Panic /\
  ((length (default [] (connections (pool s) !! clientType (pool s))) <= 1)%nat ->
   forall n fuel d, rPush (S n) fuel d 0 s = Some Panic).
Proof.
  intros Hp Hc. unfold Connect, mbind, M_bind, modify in Hc. simpl in Hc. rewrite Hp in Hc.
  destruct (initConnections_spec (mkSt (set_address hst pt u pw "/" (newRabbitPool t)) (amqp s0)))
    as (r & s' & ls & E & Hok & Em & Ei & Et & Hl). rewrite E in Hc.
  injection Hc as -> ->. simpl in Em, Ei, Et, Hl.
  change (Z.to_nat DEFAULT_MAX_CONNECTION) with 5%nat in Hl.
  change DEFAULT_MAX_CONNECTION with 5 in Em. split.
  - apply (getConnections_short 4 s ls); [done|lia..].
  - pose proof Hok as [Hcs _]. rewrite Hcs. intros Hle n fuel d. simpl in Hle.
    assert (push_channel fuel d s = Some Panic) as Hpc.
    { unfold push_channel, mbind at 1, M_bind at 1. rewrite (getConnection_short s ls) by (done || lia).
      by rewrite lookup_ge_None_2 by lia. }
    rewrite rPush_S, Hpc, Et. done.
Qed.

(** [common.GetRabbitMqProductPool] and [common.GetRabbitConsumerPool], the body
    run once: an error of [Connect] is only logged. *)
Definition log_error (r : option (outcome (option error * St))) : option (outcome St) :=
  match r with
  | Some (Ret (_, s)) => Some (Ret s)
  | Some Panic => Some Panic
  | None => None
  end.
Definition GetRabbitMqProductPool (hst : string) (pt : Z) (u pw : string) (w : W) : option (outcome St) :=
  log_error (Connect hst pt u pw (mkSt NewProductPool w)).
Definition GetRabbitConsumerPool (hst : string) (pt : Z) (u pw : string) (w : W) : option (outcome St) :=
  log_error (Connect hst pt u pw (mkSt NewConsumePool w)).

(** The producers' pool is always there, and a [Push] on it panics at once when
    the server refused the first connection. *)
Lemma product_pool_returned hst pt u pw w : exists s,
  GetRabbitMqProductPool hst pt u pw w = Some (Ret s) /\
  (length (default [] (connections (pool s) !! clientType (pool s))) = 0%nat ->
   forall n fuel d, rPush (S n) fuel d 0 s = Some Panic).
Proof.
  unfold GetRabbitMqProductPool.
  destruct (initConnections_spec (mkSt (set_address hst pt u pw "/" NewProductPool) w))
    as (r & s' & ls & E & Hok & Em & Ei & Et & Hl).
  assert (Connect hst pt u pw (mkSt NewProductPool w) = Some (Ret (r, s'))) as Ec.
  { unfold Connect, mbind, M_bind, modify. simpl. by rewrite E. }
  rewrite Ec. exists s'. split; [done|]. simpl in Em, Ei, Et, Hl. intros H0.
  destruct r as [e|].
  - destruct (partial_connect_panics RABBITMQ_TYPE_PUBLISH hst pt u pw (mkSt NewProductPool w) s' e eq_refl Ec)
      as [_ Hp]. apply Hp. lia.
  - exfalso. destruct Hok as [Hcs _]. simpl in Hcs. rewrite Hcs in H0. simpl in H0.
    change (Z.to_nat DEFAULT_MAX_CONNECTION) with 5%nat in Hl. lia.
Qed.

(** ** Concurrent pushes

    Any number of goroutines are in [Push]. The critical section under
    [channelLock] is one step, [Publish] another. *)
Inductive push_pc :=
| PTry (sendTime : Z)
| PPublish (sendTime : Z) (c : rChannel)
| PReturn (r : option RabbitMqError).

(** A call of [Publish] with its answer. *)
Record publish_call := mkCall {
  on_channel : positive;
  on_exchange : string;
  on_key : string;
  what : Publishing;
  answer : option error
}.

Record pusher := mkPusher { msg : RabbitMqData; ppc : push_pc; calls : list publish_call }.
Record pushers := mkPushers { shared : St; ps : list pusher }.

(** Where [rPush] goes after the critical section and after [Publish]. *)
Definition after_channel (k : Z) (r : result error rChannel) : push_pc :=
  match r with
  | Err e => PReturn (Some (NewRabbitMqError RCODE_GET_CHANNEL_ERROR "获取信道失败" (Error e)))
  | Ok c => PPublish k c
  end.
Definition after_publish (k : Z) (err : option error) : push_pc :=
  match err with Some _ => PTry (k + 1) | None => PReturn None end.

Inductive push_step : pushers -> pushers -> Prop :=
| ps_call S d : push_step S (mkPushers (shared S) (ps S ++ [mkPusher d (PTry 0) []]))
| ps_max S i d k cs :
    ps S !! i = Some (mkPusher d (PTry k) cs) -> pushMaxTime (pool (shared S)) <= k ->
    push_step S (mkPushers (shared S) (<[i := mkPusher d (PReturn
      (Some (NewRabbitMqError RCODE_PUSH_MAX_ERROR "重试超过最大次数" EmptyString))) cs]> (ps S)))
| ps_channel S i d k cs fuel r s' :
    ps S !! i = Some (mkPusher d (PTry k) cs) -> k < pushMaxTime (pool (shared S)) ->
    push_channel fuel d (shared S) = Some (Ret (r, s')) ->
    push_step S (mkPushers s' (<[i := mkPusher d (after_channel k r) cs]> (ps S)))
| ps_publish S i d k cs c now w err w' :
    ps S !! i = Some (mkPusher d (PPublish k c) cs) ->
    Now (amqp (shared S)) = (now, w) ->
    Publish (ch c) (ExchangeName d) (QueueName d) (push_message d now) w = (err, w') ->
    push_step S (mkPushers (mkSt (pool (shared S)) w') (<[i := mkPusher d (after_publish k err)
      (cs ++ [mkCall (ch c) (ExchangeName d) (QueueName d) (push_message d now) err])]> (ps S))).

(** Each call publishes the message of the pusher. *)
Definition call_of (d : RabbitMqData) (c : publish_call) : Prop :=
  on_exchange c = ExchangeName d /\ on_key c = QueueName d /\
  exists now, what c = push_message d now.
Definition failed (c : publish_call) : Prop := is_Some (answer c).

(** What the calls of a pusher say about where it is. *)
Definition pusher_ok (maxTime : Z) (q : pusher) : Prop :=
  Forall (call_of (msg q)) (calls q) /\
  match ppc q with
  | PTry k => Z.of_nat (length (calls q)) = k /\ k <= maxTime /\ Forall failed (calls q)
  | PPublish k _ => Z.of_nat (length (calls q)) = k /\ k < maxTime /\ Forall failed (calls q)
  | PReturn None =>
      Z.of_nat (length (calls q)) <= maxTime /\
      exists cs c, calls q = cs ++ [c] /\ Forall failed cs /\ answer c = None
  | PReturn (Some e) =>
      Forall failed (calls q) /\
      (Code e = RCODE_PUSH_MAX_ERROR /\ Z.of_nat (length (calls q)) = maxTime \/
       Code e = RCODE_GET_CHANNEL_ERROR /\ Z.of_nat (length (calls q)) < maxTime)
  end.

Lemma push_step_ok S S' ls maxTime :
  0 <= maxTime -> push_step S S' ->
  pool_ok (pool (shared S)) ls /\ pushMaxTime (pool (shared S)) = maxTime /\
    Forall (pusher_ok maxTime) (ps S) ->
  pool_ok (pool (shared S')) ls /\ pushMaxTime (pool (shared S')) = maxTime /\
    Forall (pusher_ok maxTime) (ps S').
Proof.
  intros Hmt Hs (Hok & Hm & Hps). destruct Hs as [S d|S i d k cs Hi Hk|S i d k cs fuel r s' Hi Hk Hc|
    S i d k cs c now w err w' Hi Hnow Hpub]; simpl.
  - split_and!; [done..|]. apply Forall_app. split; [done|]. constructor; [|done].
    by split_and!; [constructor|..].
  - split_and!; [done..|]. apply Forall_insert; [done|].
    destruct (Forall_lookup_1 _ _ _ _ Hps Hi) as (Hc & Hl & Hle & Hf). split; [done|].
    split; [done|]. left. split; [done|]. simpl in *. lia.
  - pose proof (push_channel_spec fuel d (shared S) ls Hok) as Hsp. unfold spec in Hsp.
    rewrite Hc in Hsp. destruct Hsp as [Hok' Hm']. split_and!; [done|congruence|].
    apply Forall_insert; [done|].
    destruct (Forall_lookup_1 _ _ _ _ Hps Hi) as (Hc' & Hl & Hle & Hf). split; [done|].
    simpl in *. destruct r; simpl; [split_and!; [done|lia|done]|]. split; [done|]. right.
    split; [done|lia].
  - split_and!; [done..|]. apply Forall_insert; [done|].
    destruct (Forall_lookup_1 _ _ _ _ Hps Hi) as (Hc & Hl & Hle & Hf). simpl in *.
    split; simpl.
    + apply Forall_app. split; [done|]. constructor; [|done]. split_and!; [done..|by eexists].
    + rewrite length_app. simpl. destruct err as [e|]; simpl.
      * split_and!; [lia..|]. apply Forall_app. split; [done|]. constructor; [by eexists|done].
      * split; [lia|]. by eexists _, _.
Qed.

Lemma push_run_ok S S' ls maxTime :
  0 <= maxTime -> rtc push_step S S' ->
  pool_ok (pool (shared S)) ls /\ pushMaxTime (pool (shared S)) = maxTime /\
    Forall (pusher_ok maxTime) (ps S) ->
  pool_ok (pool (shared S')) ls /\ pushMaxTime (pool (shared S')) = maxTime /\
    Forall (pusher_ok maxTime) (ps S').
Proof. intros Hmt Hr. induction Hr; eauto using push_step_ok. Qed.


(** The function [rPush] is the run of one goroutine. *)
Lemma rPush_steps n fuel d k s r s' cs :
  rPush n fuel d k s = Some (Ret (r, s')) ->
  exists cs', rtc push_step (mkPushers s [mkPusher d (PTry k) cs])
    (mkPushers s' [mkPusher d (PReturn r) cs']).
Proof.
  revert k s cs. induction n as [|n IH]; intros k s cs Hr; [done|]. rewrite rPush_S in Hr.
  destruct (pushMaxTime (pool s) <=? k) eqn:Ek; to_prop.
  { simplify_eq. exists cs. apply rtc_once. by apply (ps_max (mkPushers s' [mkPusher d (PTry k) cs]) 0 d k cs). }
  destruct (push_channel fuel d s) as [[[[c|e] s1]|]|] eqn:Ec; try done.
  2: { simplify_eq. exists cs. apply rtc_once.
       apply (ps_channel (mkPushers s [mkPusher d (PTry k) cs]) 0 d k cs fuel (Err e) s'); [done|simpl; lia|done]. }
  assert (push_step (mkPushers s [mkPusher d (PTry k) cs])
    (mkPushers s1 [mkPusher d (PPublish k c) cs])) as Hstep.
  { apply (ps_channel (mkPushers s [mkPusher d (PTry k) cs]) 0 d k cs fuel (Ok c) s1); [done|simpl; lia|done]. }
  unfold push_publish, mbind, M_bind, lib in Hr. destruct (Now (amqp s1)) as [now w] eqn:En. simpl in Hr.
  destruct (Publish _ _ _ _ w) as [err w'] eqn:Ep. simpl in Hr.
  pose proof (ps_publish (mkPushers s1 [mkPusher d (PPublish k c) cs]) 0 d k cs c now w err w' eq_refl En Ep)
    as Hstep2. simpl in Hstep2. destruct err as [e|].
  - destruct (IH _ _ (cs ++ [mkCall (ch c) (ExchangeName d) (QueueName d) (push_message d now) (Some e)])
      Hr) as (cs' & Hrun). exists cs'. eapply rtc_l; [done|]. by eapply rtc_l.
  - simplify_eq. eexists. eapply rtc_l; [done|]. by eapply rtc_once.
Qed.

(** ** Channels that outlive their connection

    [tryConn] replaces a connection that was closed and forgets the channel of
    the message at hand, but not those of other queues on that connection. A
    time in which the network is quiet: the connections [live] are open and
    stay so, and the channels [dead] belong to connections that were closed. *)
Section stale.
Context (steady : W -> Prop) (live dead : positive -> Prop).
Hypothesis live_open : forall c w, steady w -> live c ->
  exists w', IsClosed c w = (false, w') /\ steady w'.
Hypothesis now_steady : forall w, steady w -> steady (Now w).2.
Hypothesis dead_publish : forall c ex key m w, steady w -> dead c ->
  exists e w', Publish c ex key m w = (Some e, w') /\ steady w'.

(** Every connection is open, and the channel in the table for [d] is dead. *)
Record stale (d : RabbitMqData) (ls : list positive) (s : St) : Prop := mkStale {
  st_ok : pool_ok (pool s) ls;
  st_live : forall l, l ∈ ls -> exists rc c, rconns (pool s) !! l = Some rc /\ conn rc = Some c /\ live c;
  st_dead : forall i, 0 <= i < maxConnection (pool s) -> exists c,
    channelPool (pool s) !! channelHashCode (clientType (pool s)) i (ExchangeName d)
      (ExchangeType d) (QueueName d) (Route d) = Some c /\ dead (ch c);
  st_steady : steady (amqp s)
}.

Lemma stale_world d ls s w : stale d ls s -> steady w -> stale d ls (mkSt (pool s) w).
Proof. by intros [] Hw. Qed.

(** A critical section on such a pool changes the turn only. *)
Lemma stale_channel d ls s fuel :
  stale d ls s ->
  exists c s', push_channel (S fuel) d s = Some (Ret (Ok c, s')) /\ dead (ch c) /\ stale d ls s' /\
    pushMaxTime (pool s') = pushMaxTime (pool s) /\ channelPool (pool s') = channelPool (pool s).
Proof.
  intros Hst. destruct (getConnection_run s ls (st_ok _ _ _ Hst)) as (l & Hl & E).
  pose proof (pool_ok_next _ _ (st_ok _ _ _ Hst)) as Hok1.
  destruct (st_live _ _ _ Hst l) as (rc & c & Hrc & Hc & Hlive); [by eapply list_elem_of_lookup_2|].
  destruct (live_open c (amqp s) (st_steady _ _ _ Hst) Hlive) as (w' & Ew & Hw').
  destruct (po_conns _ _ (st_ok _ _ _ Hst)) as [_ Hls].
  destruct (Hls _ _ Hl) as (rc' & Hrc' & Hidx). rewrite Hrc in Hrc'. injection Hrc' as <-.
  pose proof (po_index _ _ Hok1) as Hi1. simpl in Hi1.
  destruct (st_dead _ _ _ Hst (index rc)) as (cc & Hcc & Hdead).
  { rewrite Hidx. rewrite Z2Nat.id; lia. }
  exists cc. eexists. split.
  - unfold push_channel, mbind at 1, M_bind at 1. rewrite E.
    cbn [tryConn]. unfold deref, conn_down, getChannelQueueReset, lib, mbind, M_bind, get, mret, M_ret.
    simpl. rewrite Hrc, Hc. simpl. rewrite Ew. simpl. unfold deref. simpl. rewrite Hrc. simpl.
    rewrite Hcc. reflexivity.
  - split_and!; try done. destruct Hst. split; simpl; try done.
Qed.

(** A channel of a closed connection is never replaced: once every
    connection has been renewed while the table still holds dead channels for
    a queue, every [Push] to that queue fails with error 501 after 99
    attempts, on open connections, and leaves the table as it was, so that all
    later ones fail as well. *)
Theorem stale_channels_fail_forever d ls s fuel :
  stale d ls s -> pushMaxTime (pool s) = DEFAULT_PUSH_MAX_TIME ->
  exists s', rPush 100 (S fuel) d 0 s =
      Some (Ret (Some (NewRabbitMqError RCODE_PUSH_MAX_ERROR "重试超过最大次数" EmptyString), s')) /\
    stale d ls s' /\ pushMaxTime (pool s') = DEFAULT_PUSH_MAX_TIME /\
    channelPool (pool s') = channelPool (pool s).
Proof.
  intros Hst Hm.
  cut (forall n k s, stale d ls s -> pushMaxTime (pool s) = DEFAULT_PUSH_MAX_TIME ->
    Z.of_nat n + k = DEFAULT_PUSH_MAX_TIME -> exists s', rPush (S n) (S fuel) d k s =
      Some (Ret (Some (NewRabbitMqError RCODE_PUSH_MAX_ERROR "重试超过最大次数" EmptyString), s')) /\
    stale d ls s' /\ pushMaxTime (pool s') = DEFAULT_PUSH_MAX_TIME /\
    channelPool (pool s') = channelPool (pool s)).
  { intros Hcut. by apply (Hcut 99%nat 0 s). }
  clear s Hst Hm. induction n as [|n IH]; intros k s Hst Hm Hk; rewrite rPush_S, Hm.
  { destruct (DEFAULT_PUSH_MAX_TIME <=? k) eqn:E; to_prop; [eauto|lia]. }
  destruct (DEFAULT_PUSH_MAX_TIME <=? k) eqn:E; to_prop; [lia|].
  destruct (stale_channel d ls s fuel Hst) as (c & s1 & -> & Hd & Hst1 & Hm1 & Hcp).
  assert (exists e w', push_publish d c s1 = Some (Ret (Some e, mkSt (pool s1) w')) /\ steady w')
    as (e & w' & -> & Hw').
  { unfold push_publish, mbind, M_bind, lib. pose proof (now_steady _ (st_steady _ _ _ Hst1)) as Hw.
    destruct (Now (amqp s1)) as [now w]. simpl in *.
    destruct (dead_publish (ch c) (ExchangeName d) (QueueName d) (push_message d now) w Hw Hd)
      as (e & w' & Ep & Hw'). rewrite Ep. eauto. }
  destruct (IH (k + 1) (mkSt (pool s1) w')) as (s' & -> & ? & ? & E'); [by apply stale_world|simpl; congruence|lia|].
  exists s'. split_and!; try done. simpl in E'. congruence.
Qed.
End stale.
End pool.

(** ** A reference client

    Connections that can be cut; a channel works while its connection does. *)
Record ref_amqp := mkRef {
  next_id : positive;
  opened : gset positive;
  chan_conn : gmap positive positive;
  clock : Z
}.

#[global] Instance ref_amqp_ops : Amqp ref_amqp := {|
  Dial _ w := (Ok (next_id w), mkRef (Pos.succ (next_id w)) ({[next_id w]} ∪ opened w) (chan_conn w)
                                 (clock w));
  IsClosed c w := (negb (bool_decide (c ∈ opened w)), w);
  Channel c w :=
    if bool_decide (c ∈ opened w)
    then (Ok (next_id w), mkRef (Pos.succ (next_id w)) (opened w) (<[next_id w := c]> (chan_conn w))
                            (clock w))
    else (Err (Errorf "channel/connection is not open"), w);
  Publish c _ _ _ w :=
    (match chan_conn w !! c with
     | Some k => if bool_decide (k ∈ opened w) then None
                 else Some (Errorf "channel/connection is not open")
     | None => Some (Errorf "channel/connection is not open")
     end, w);
  Now w := (clock w, w)
|}.

Definition ref_start : ref_amqp := mkRef 1 ∅ ∅ 7.
Definition access_log : RabbitMqData := mkRabbitMqData EmptyString EmptyString "access" EmptyString [] "1".
Definition black_log : RabbitMqData := mkRabbitMqData EmptyString EmptyString "black" EmptyString [] "2".

Definition run {A : Type} (m : M (W := ref_amqp) A) (s : St) : St :=
  match m s with Some (Ret (_, s')) => s' | _ => s end.
Definition cut (s : St (W := ref_amqp)) : St :=
  mkSt (pool s) (mkRef (next_id (amqp s)) ∅ (chan_conn (amqp s)) (clock (amqp s))).
Definition push5 (d : RabbitMqData) (s : St) : St := Nat.iter 5 (run (rPush 100 2 d 0)) s.

Definition demo_connected : St := run (Connect "mq" 5672 "u" "p") (mkSt NewProductPool ref_start).
(** Both logs are written, the connections break, the access log goes on. *)
Definition demo_stale : St := push5 access_log (cut (push5 black_log (push5 access_log demo_connected))).

Example crc_check : ChecksumIEEE (bytes_of_str "123456789") = 0xCBF43926.
Proof. vm_compute. reflexivity. Qed.

Definition demo_new : St (W := ref_amqp) := mkSt NewProductPool ref_start.

Lemma demo_connects : Connect "mq" 5672 "u" "p" demo_new = Some (Ret (None, demo_connected)).
Proof. vm_compute. reflexivity. Qed.

Lemma connections_in_turn_witness :
  exists out s', getConnections 7 demo_connected = Some (Ret (out, s')) /\ length out = 7%nat.
Proof.
  destruct (connections_in_turn RABBITMQ_TYPE_PUBLISH "mq" 5672 "u" "p" demo_new demo_connected 7
    eq_refl demo_connects) as (ls & out & s' & _ & _ & E & Hl & _).
  exists out, s'. split; assumption.
Defined.

(** A server that refuses every connection. *)
#[global] Instance refusing : Amqp unit := {|
  Dial _ w := (Err (Errorf "connection refused"), w);
  IsClosed _ w := (true, w);
  Channel _ w := (Err (Errorf "channel/connection is not open"), w);
  Publish _ _ _ _ w := (Some (Errorf "channel/connection is not open"), w);
  Now w := (0, w)
|}.

Lemma partial_connect_panics_witness :
  exists s, Connect "mq" 5672 "u" "p" (mkSt NewProductPool ()) =
      Some (Ret (Some (Errorf "connection refused"), s)) /\
    getConnections 5 s = Some Panic /\ rPush 1 1 access_log 0 s = Some Panic.
Proof.
  eexists. split; [vm_compute; reflexivity|].
  match goal with |- getConnections 5 ?s = _ /\ _ =>
    destruct (partial_connect_panics RABBITMQ_TYPE_PUBLISH "mq" 5672 "u" "p" (mkSt NewProductPool ()) s
      (Errorf "connection refused")) as [H1 H2]
  end; [reflexivity|vm_compute; reflexivity|].
  split; [exact H1|]. apply H2. vm_compute. lia.
Defined.


(** The world after the connections were renewed, while nothing else breaks. *)
Definition demo_world : ref_amqp := amqp demo_stale.
Definition demo_steady (w : ref_amqp) : Prop :=
  opened w = opened demo_world /\ chan_conn w = chan_conn demo_world.
Definition demo_live (c : positive) : Prop := c ∈ opened demo_world.
Definition demo_dead (c : positive) : Prop :=
  match chan_conn demo_world !! c with Some k => k ∉ opened demo_world | None => True end.

#[global] Instance demo_live_dec c : Decision (demo_live c).
Proof. unfold demo_live. apply _. Defined.
#[global] Instance demo_dead_dec c : Decision (demo_dead c).
Proof. unfold demo_dead. destruct (chan_conn demo_world !! c); apply _. Defined.

Definition demo_conns : list positive := [1; 2; 3; 4; 5]%positive.

Lemma demo_is_stale : stale demo_steady demo_live demo_dead black_log demo_conns demo_stale.
Proof.
  split.
  - split; [split|..].
    + vm_compute. reflexivity.
    + intros i l Hi. assert (i < 5)%nat as Hlt by (apply lookup_lt_Some in Hi; exact Hi).
      do 5 (destruct i as [|i]; [injection Hi as <-; eexists; split; vm_compute; reflexivity|]). lia.
    + reflexivity.
    + reflexivity.
    + vm_compute. split; [discriminate|reflexivity].
  - intros l Hl. assert (exists rc, rconns (pool demo_stale) !! l = Some rc /\
      exists c, conn rc = Some c /\ bool_decide (demo_live c) = true) as (rc & Hrc & c & Hc & Hb).
    { unfold demo_conns in Hl. repeat (apply elem_of_cons in Hl as [->|Hl];
        [eexists; split; [vm_compute; reflexivity|eexists; split; [reflexivity|vm_compute; reflexivity]]|]).
      by apply not_elem_of_nil in Hl. }
    exists rc, c. split_and!; [done..|]. by apply bool_decide_eq_true in Hb.
  - intros i Hi. assert (i = 0 \/ i = 1 \/ i = 2 \/ i = 3 \/ i = 4) as Hcases.
    { change (maxConnection (pool demo_stale)) with 5 in Hi. lia. }
    assert (exists c, channelPool (pool demo_stale) !! channelHashCode (clientType (pool demo_stale)) i
      (ExchangeName black_log) (ExchangeType black_log) (QueueName black_log) (Route black_log) = Some c
      /\ bool_decide (demo_dead (ch c)) = true) as (c & Hc & Hb).
    { destruct Hcases as [->|[->|[->|[->| ->]]]]; (eexists; split; vm_compute; reflexivity). }
    exists c. split; [done|]. by apply bool_decide_eq_true in Hb.
  - unfold demo_steady, demo_world. split; reflexivity.
Qed.

Lemma demo_live_open c w :
  demo_steady w -> demo_live c -> exists w', IsClosed c w = (false, w') /\ demo_steady w'.
Proof.
  unfold demo_steady, demo_live. generalize demo_world. intros w0 [Ho Hc] Hl. exists w. simpl.
  by rewrite Ho, bool_decide_eq_true_2.
Qed.

Lemma demo_dead_publish c ex key m w :
  demo_steady w -> demo_dead c ->
  exists e w', Publish c ex key m w = (Some e, w') /\ demo_steady w'.
Proof.
  unfold demo_steady, demo_dead. generalize demo_world. intros w0 [Ho Hc] Hd. simpl. rewrite Hc.
  destruct (chan_conn w0 !! c) as [k|]; [|eauto]. rewrite Ho, bool_decide_eq_false_2 by done. eauto.
Qed.


Lemma stale_channels_fail_forever_witness :
  exists s', rPush 100 2 black_log 0 demo_stale =
    Some (Ret (Some (NewRabbitMqError RCODE_PUSH_MAX_ERROR "重试超过最大次数" EmptyString), s')).
Proof.
  destruct (stale_channels_fail_forever demo_steady demo_live demo_dead demo_live_open
    (fun w Hw => Hw) demo_dead_publish black_log demo_conns demo_stale 1 demo_is_stale)
    as (s' & E & _); [vm_compute; reflexivity|].
  exists s'. exact E.
Defined.
