(* ===== verification/RabbitConsume.v ===== *)
(** * The RabbitMQ pool: declaring, consuming, retrying
    ([utils/rabbitMQ/rabbitMQPool.go])

    The set-up of a consumer, the handling of a delivery with its retries
    through a dead-letter queue, and the loop that reconnects. The library
    calls for channels extend those of [RabbitPool]; how RabbitMQ routes
    messages is a parameter with its documented rules. *)
From Stdlib Require Import Strings.Byte.
From stdpp Require Import base gmap strings numbers list pretty relations.
From S2P Require Import Prelude GoIO SendQueue RabbitPool.

(** ** Declarations *)

(** Arguments of a queue, and of a declaration. *)
Inductive arg := AInt (n : Z) | AStr (s : string).
Abbreviation table := (gmap string arg).

Class AmqpChannel (W : Type) `{Amqp W} := {
  ExchangeDeclare : positive -> string -> string -> W -> option error * W;
  QueueDeclare : positive -> string -> table -> W -> result error string * W;
  QueueBind : positive -> string -> string -> string -> W -> option error * W;
  Qos : positive -> W -> W;
  Consume : positive -> string -> W -> option error * W;
  CloseChannel : positive -> W -> W;
  CloseConn : positive -> W -> W
}.

Definition EXCHANGE_TYPE_FANOUT : string := "fanout".
Definition EXCHANGE_TYPE_DIRECT : string := "direct".
Definition EXCHANGE_TYPE_TOPIC : string := "topic".
Definition RCODE_CHANNEL_QUEUE_EXCHANGE_BIND_ERROR : Z := 503.
Definition RCODE_CONNECTION_ERROR : Z := 504.
Definition RCODE_CHANNEL_CREATE_ERROR : Z := 506.
Definition RCODE_RETRY_MAX_ERROR : Z := 507.

(** The handlers are present or nil; what they answer is an argument of the
    code that calls them. *)
Record ConsumeReceive := mkReceive {
  rExchangeName : string;
  rExchangeType : string;
  rRoute : string;
  rQueueName : string;
  hasEventSuccess : bool;
  hasEventFail : bool;
  IsTry : bool;
  MaxReTry : Z;
  IsAutoAck : bool
}.

(** A call of [EventFail]. *)
Record fail_call := mkFail { f_code : Z; f_data : option bytes }.

(** The names of the dead-letter exchange, queue and routing key. *)
Definition deadExchangeName (r : ConsumeReceive) : string := rExchangeName r +:+ "-" +:+ "dead".
Definition deadQueueName (r : ConsumeReceive) : string := rQueueName r +:+ "-" +:+ "dead".
Definition deadRouteKey (r : ConsumeReceive) : string :=
  if bool_decide (rRoute r = EmptyString) then EmptyString else rRoute r +:+ "-" +:+ "dead".

(** The arguments of the queue [rDeclare] declares. *)
Definition queue_args (isDeadQueue : bool) (oldExChangeName oldRoute : string) : table :=
  let argsQue : table := ∅ in
  let argsQue :=
    if isDeadQueue
    then
      let argsQue := <["expires" := AInt 172800000]> argsQue in
      let argsQue := <["x-message-ttl" := AInt 5000]> argsQue in
      let argsQue := <["x-dead-letter-exchange" := AStr oldExChangeName]> argsQue in
      let oldRoute := TrimSpace oldRoute in
      if bool_decide (oldRoute = EmptyString) then argsQue
      else <["x-dead-letter-routing-key" := AStr oldRoute]> argsQue
    else argsQue in
  <["x-message-ttl" := AInt 172800000]> argsQue.

(** Whether [rDeclare] declares a queue. *)
Definition declares_queue (clientType : Z) (exChangeType : string) : bool :=
  (negb (clientType =? RABBITMQ_TYPE_PUBLISH) && negb (bool_decide (exChangeType = EXCHANGE_TYPE_FANOUT)))
  || ((clientType =? RABBITMQ_TYPE_CONSUME) &&
      (bool_decide (exChangeType = EXCHANGE_TYPE_FANOUT) || bool_decide (exChangeType = EXCHANGE_TYPE_DIRECT))).

Definition known_type (exChangeType : string) : bool :=
  bool_decide (exChangeType = EXCHANGE_TYPE_DIRECT) || bool_decide (exChangeType = EXCHANGE_TYPE_FANOUT) ||
  bool_decide (exChangeType = EXCHANGE_TYPE_TOPIC).

Section consume.
Context {W : Type} `{Amqp W} `{!AmqpChannel W}.
Implicit Types (r : ConsumeReceive).

(** [rDeclare]: the channel is returned as it was given, so only the error
    matters. *)
Definition rDeclare (clientType : Z) (c : positive)
  (exChangeName exChangeType queueName route : string) (isDeadQueue : bool)
  (oldExChangeName oldRoute : string) : M (W := W) (option error) :=
  if (clientType =? RABBITMQ_TYPE_PUBLISH) && negb (known_type exChangeType)
  then mret (Some (Errorf "交换机类型错误"))
  else
    e ← (if bool_decide (exChangeName = EmptyString) then mret None
         else lib (ExchangeDeclare c exChangeName exChangeType));
    match e with
    | Some e => mret (Some (Errorf ("MQ注册交换机失败:" +:+ Error e)))
    | None =>
        if negb (declares_queue clientType exChangeType) then mret None
        else
          q ← lib (QueueDeclare c queueName (queue_args isDeadQueue oldExChangeName oldRoute));
          match q with
          | Err e => mret (Some (Errorf ("MQ注册队列失败:" +:+ Error e)))
          | Ok name =>
              if bool_decide (exChangeName = EmptyString) then mret None
              else
                b ← lib (QueueBind c name route exChangeName);
                mret (match b with
                      | Some e => Some (Errorf ("MQ绑定队列失败:" +:+ Error e))
                      | None => None
                      end)
          end
    end.

(** ** The set-up of a consumer *)

(** [consumeTask] up to its loop: it returned the error value, or it runs
    with its channels and its connection. *)
Inductive setup := SReturn (err : option error) | SRun (c : positive) (dc : option positive) (rc : rConn).

Definition report r (code : Z) : list fail_call :=
  if hasEventFail r then [mkFail code None] else [].

(** The declaration for the dead-letter queue, on a channel of its own;
    [err] is the result of the declaration before it. A failure of the channel
    is reported with [err.Error()], which panics when [err] is nil. *)
Definition declare_dead (clientType : Z) (rc : rConn) (c : positive) r (err : option error)
  : M (W := W) (list fail_call * option positive * option error * bool) :=
  d ← rCreateChannel rc;
  match d with
  | Err _ =>
      match err, hasEventFail r with
      | None, true => panic
      | _, _ => mret (report r RCODE_CHANNEL_CREATE_ERROR, None, err, true)
      end
  | Ok dc =>
      err ← rDeclare clientType c (deadExchangeName r) EXCHANGE_TYPE_DIRECT (deadQueueName r)
        (deadRouteKey r) true (rExchangeName r) (rRoute r);
      mret ([], Some dc, err, false)
  end.

(** The deferred calls of [consumeTask]. *)
Definition close_all (dc : option positive) (c : positive) (rc : rConn) : M (W := W) () :=
  (match dc with Some d => lib (fun w => ((), CloseChannel d w)) | None => mret () end);;
  lib (fun w => ((), CloseChannel c w));;
  match conn rc with Some k => lib (fun w => ((), CloseConn k w)) | None => panic end.

Definition consume_setup (num : Z) r : M (W := W) (list fail_call * setup) :=
  l ← getConnection;
  rc ← deref l;
  p ← get;
  ch ← rCreateChannel rc;
  match ch with
  | Err e => mret (report r RCODE_CHANNEL_CREATE_ERROR, SReturn (Some e))
  | Ok c =>
      err ← rDeclare (clientType p) c (rExchangeName r) (rExchangeType r) (rQueueName r) (rRoute r)
        false EmptyString EmptyString;
      '(fs, dc, err, stop) ←
        (if IsTry r && (Z.rem num 2 =? 0)
         then declare_dead (clientType p) rc c r err
         else mret ([], None, err, false));
      if (stop : bool) then close_all dc c rc;; mret (fs, SReturn err)
      else
        match err with
        | Some e =>
            close_all dc c rc;;
            mret (fs ++ report r RCODE_CHANNEL_QUEUE_EXCHANGE_BIND_ERROR, SReturn (Some e))
        | None =>
            lib (fun w => ((), Qos c w));;
            e ← lib (Consume c (rQueueName r));
            match e with
            | Some e =>
                close_all dc c rc;; mret (fs ++ report r RCODE_GET_CHANNEL_ERROR, SReturn (Some e))
            | None => mret (fs, SRun c dc rc)
            end
        end
  end.

(** [rListenerConsume]: the consumers whose set-up returned an error are
    counted, and when all of them did, the connection is reported as broken. *)
Definition counts_as_failure (s : setup) : bool :=
  match s with SReturn (Some _) => true | _ => false end.
Definition listener_reports (consumeMaxChannel : Z) (results : list setup) : bool :=
  consumeMaxChannel <=? i32 (Z.of_nat (length (filter (fun s => counts_as_failure s = true) results))).

(** Two faults of the set-up of a consumer with retries: when the channel
    for the dead-letter queue cannot be made, [EventFail] gets [err.Error()] of
    the wrong variable, which is nil, and the goroutine panics; and when the
    queue could not be declared but the dead-letter queue could, the first
    error is overwritten and the consumer runs all the same. *)
Theorem setup_error_paths num r s l s1 rc c s2 err s3 :
  IsTry r = true -> Z.rem num 2 = 0 -> hasEventFail r = true ->
  getConnection s = Some (Ret (l, s1)) -> rconns (pool s1) !! l = Some rc ->
  rCreateChannel rc s1 = Some (Ret (Ok c, s2)) ->
  rDeclare (clientType (pool s1)) c (rExchangeName r) (rExchangeType r) (rQueueName r) (rRoute r)
    false EmptyString EmptyString s2 = Some (Ret (err, s3)) ->
  (forall e s4, err = None -> rCreateChannel rc s3 = Some (Ret (Err e, s4)) ->
     consume_setup num r s = Some Panic) /\
  (forall dc s4 s5, rCreateChannel rc s3 = Some (Ret (Ok dc, s4)) ->
     rDeclare (clientType (pool s1)) c (deadExchangeName r) EXCHANGE_TYPE_DIRECT (deadQueueName r)
       (deadRouteKey r) true (rExchangeName r) (rRoute r) s4 = Some (Ret (None, s5)) ->
     (Consume c (rQueueName r) (Qos c (amqp s5))).1 = None ->
     exists s6, consume_setup num r s = Some (Ret (([], SRun c (Some dc) rc), s6))).
Proof.
  intros Ht Hn Hf Hg Hrc Hc Hd. unfold consume_setup, deref, get, mbind, M_bind.
  rewrite Hg, Hrc, Hc, Hd, Ht, Hn. simpl. unfold declare_dead, mbind, M_bind. split.
  - intros e s4 -> Hdc. by rewrite Hdc, Hf.
  - intros dc s4 s5 Hdc Hdd Hco. rewrite Hdc, Hdd. simpl. unfold lib. simpl.
    destruct (Consume c (rQueueName r) (Qos c (amqp s5))) as [e w]. simpl in Hco. subst e. by eexists.
Qed.
End consume.

(** ** Deliveries and retries *)
Record Delivery := mkDelivery { dBody : bytes; dHeaders : header }.

(** What the consumer does with a delivery; [DRetry] is the goroutine that
    publishes to the dead-letter exchange after a pause. *)
Inductive action :=
| DAck
| DHandle (body : bytes)
| DRetry (exchange key : string) (body : bytes) (headers : header)
| DFail (code : Z) (data : bytes).

(** [header["retry_nums"]], 0 when absent; a value of another type panics. *)
Definition retry_nums (h : header) : outcome Z :=
  match h !! "retry_nums" with
  | None => Ret 0
  | Some (HInt32 n) => Ret n
  | Some HOther => Panic
  end.

(** *** The expiration of a retry

    [float64] of an integer, rounded to 53 significant bits, half to even. *)
Definition float64_of (z : Z) : Z :=
  let a := Z.abs z in
  if a <=? 2 ^ 53 then z
  else
    let e := Z.log2 a - 52 in
    let q := a / 2 ^ e in
    let r := a mod 2 ^ e in
    let half := 2 ^ (e - 1) in
    let q := if (half <? r) || ((half =? r) && Z.odd q) then q + 1 else q in
    Z.sgn z * (q * 2 ^ e).
(** [RandomAround]; [draw n] is the answer of [rand.Int] below [n], which panics
    unless [n] is positive. *)
Definition rand_Int (draw n : Z) : outcome Z := if n <=? 0 then Panic else Ret (draw mod n).
Definition RandomAround (draw min max : Z) : outcome (result error Z) :=
  if max <? min then Ret (Err (Errorf "the min is greater than max!"))
  else if min <? 0 then
    let i64Min := i64 (Z.abs (float64_of min)) in
    r ← rand_Int draw (i64 (i64 (max + 1) + i64Min));
    Ret (Ok (i64 (r - i64Min)))
  else
    r ← rand_Int draw (i64 (i64 (max - min) + 1));
    Ret (Ok (i64 (min + r))).
Definition retry_expiration (draw : Z) (p : RabbitPool) : outcome Z :=
  r ← RandomAround draw (minRandomRetryTime p) (maxRandomRetryTime p);
  Ret (match r with Ok n => n | Err _ => 5000 end).

(** A draw stays between its bounds when they are exact in [float64] and their
    distance is an [int64]. *)
Lemma RandomAround_in_range draw min max :
  - 2 ^ 53 <= min <= max -> max - min < 2 ^ 63 - 1 -> max < 2 ^ 63 - 1 ->
  exists r, RandomAround draw min max = Ret (Ok r) /\ min <= r <= max.
Proof.
  intros [Hlo Hle] Hd Hm. unfold RandomAround.
  rewrite (proj2 (Z.ltb_ge max min)) by lia. destruct (Z.ltb_spec min 0) as [Hneg|Hpos].
  - assert (float64_of min = min) as ->.
    { unfold float64_of. by rewrite (proj2 (Z.leb_le _ _)) by lia. }
    rewrite (i64_small (Z.abs min)), (i64_small (max + 1)) by (unfold in_signed; lia).
    rewrite i64_small by (unfold in_signed; lia). unfold rand_Int.
    rewrite (proj2 (Z.leb_gt _ _)) by lia. simpl.
    pose proof (Z.mod_pos_bound draw (max + 1 + Z.abs min) ltac:(lia)) as Hb.
    eexists. split; [reflexivity|]. rewrite i64_small by (unfold in_signed; lia). lia.
  - rewrite (i64_small (max - min)) by (unfold in_signed; lia).
    rewrite i64_small by (unfold in_signed; lia). unfold rand_Int.
    rewrite (proj2 (Z.leb_gt _ _)) by lia. simpl.
    pose proof (Z.mod_pos_bound draw (max - min + 1) ltac:(lia)) as Hb.
    eexists. split; [reflexivity|]. rewrite i64_small by (unfold in_signed; lia). lia.
Qed.

(** The retries of a new pool expire after five to fifteen seconds. *)
Lemma retry_expiration_default draw t :
  exists n, retry_expiration draw (newRabbitPool t) = Ret n /\ 5000 <= n <= 15000.
Proof.
  destruct (RandomAround_in_range draw 5000 15000) as (r & E & Hr); [lia..|].
  exists r. unfold retry_expiration. change (minRandomRetryTime (newRabbitPool t)) with 5000.
  change (maxRandomRetryTime (newRabbitPool t)) with 15000. by rewrite E.
Qed.

(** The case of the loop in [consumeTask] for a delivery; [isOk] is the answer
    of [EventSuccess]. *)
Definition on_delivery (r : ConsumeReceive) (isOk : bool) (d : Delivery) : outcome (list action) :=
  let ack := if IsAutoAck r then [DAck] else [] in
  if negb (hasEventSuccess r) then Ret ack
  else if negb (negb isOk && IsTry r) then Ret (ack ++ [DHandle (dBody d)])
  else
    n ← retry_nums (dHeaders d);
    let retryNums := i32 (n + 1) in
    Ret (ack ++ [DHandle (dBody d)] ++
      (if MaxReTry r <=? retryNums
       then (if hasEventFail r then [DFail RCODE_RETRY_MAX_ERROR (dBody d)] else [])
       else [DRetry (deadExchangeName r) (deadRouteKey r) (dBody d)
               (<["retry_nums" := HInt32 retryNums]> ∅)])).

(** The client a handler gets with a delivery; [rc_channel] is whether it has a
    channel. *)
Record retryClient := mkRetryClient {
  rc_channel : bool;
  rc_data : option Delivery;
  rc_header : header;
  rc_deadExchangeName : string;
  rc_deadQueueName : string;
  rc_deadRouteKey : string;
  rc_receive : ConsumeReceive
}.
Definition newRetryClient (channel : bool) (data : Delivery) (h : header)
    (deadExchangeName deadQueueName deadRouteKey : string) (receive : ConsumeReceive) : retryClient :=
  mkRetryClient channel (Some data) h deadExchangeName deadQueueName deadRouteKey receive.

(** [retryClient.Push]; the header it builds is not the one it publishes. *)
Definition retryClient_Push (c : retryClient) (pushData : bytes)
  : outcome (list action * option RabbitMqError) :=
  if rc_channel c then
    n ← retry_nums (rc_header c);
    let retryNums := i32 (n + 1) in
    Ret (if MaxReTry (rc_receive c) <=? retryNums
         then (if hasEventFail (rc_receive c) then [DFail RCODE_RETRY_MAX_ERROR pushData] else [])
         else [DRetry (rc_deadExchangeName c) (rc_deadRouteKey c) pushData (rc_header c)], None)
  else
    let msg := "获取队列 " +:+ rc_deadQueueName c +:+ " 的消费通道失败" in
    Ret ([], Some (NewRabbitMqError RCODE_GET_CHANNEL_ERROR msg msg)).
(** [retryClient.Ack]; [answer] is that of the delivery. *)
Definition retryClient_Ack (c : retryClient) (answer : option error) : option error :=
  if negb (IsAutoAck (rc_receive c))
  then (match rc_data c with Some _ => answer | None => Some (Errorf "ack data nil") end)
  else None.

(** A delivery can be acknowledged through its client exactly when the
    consumer does not do it itself: the answer is that of the broker. *)
Lemma client_Ack_exact ch d h ex q rt r answer :
  retryClient_Ack (newRetryClient ch d h ex q rt r) answer = if IsAutoAck r then None else answer.
Proof. unfold retryClient_Ack. simpl. by destruct (IsAutoAck r). Qed.

(** The message a retry puts back, if the actions hold one. *)
Fixpoint comes_back (acts : list action) : option Delivery :=
  match acts with
  | [] => None
  | DRetry _ _ b h :: _ => Some (mkDelivery b h)
  | _ :: acts' => comes_back acts'
  end.

(** All actions for a message that [handle] gets again for every retry, when a
    retry comes back with its headers; [None] when it is still retried after
    [n] deliveries. *)
Fixpoint redeliver (n : nat) (handle : Delivery -> outcome (list action)) (d : Delivery)
  : option (outcome (list action)) :=
  match n with
  | O => None
  | S n' =>
      match handle d with
      | Panic => Some Panic
      | Ret acts =>
          match comes_back acts with
          | None => Some (Ret acts)
          | Some d' =>
              match redeliver n' handle d' with
              | Some (Ret rest) => Some (Ret (acts ++ rest))
              | x => x
              end
          end
      end
  end.

Lemma redeliver_S n handle d :
  redeliver (S n) handle d =
    match handle d with
    | Panic => Some Panic
    | Ret acts =>
        match comes_back acts with
        | None => Some (Ret acts)
        | Some d' =>
            match redeliver n handle d' with
            | Some (Ret rest) => Some (Ret (acts ++ rest))
            | x => x
            end
        end
    end.
Proof. done. Qed.

Fixpoint handled (b : bytes) (acts : list action) : nat :=
  match acts with
  | [] => 0
  | DHandle b' :: acts' => (if bool_decide (b = b') then 1 else 0) + handled b acts'
  | _ :: acts' => handled b acts'
  end.

Lemma handled_app b l l' : handled b (l ++ l') = (handled b l + handled b l')%nat.
Proof. induction l as [|[] l IH]; simpl; lia. Qed.

(** One delivery of a message whose handler fails, [k] retries in. *)
Lemma on_delivery_fails r d k :
  hasEventSuccess r = true -> IsTry r = true -> hasEventFail r = true ->
  retry_nums (dHeaders d) = Ret k -> 0 <= k < 2 ^ 31 - 1 ->
  exists acts, on_delivery r false d = Ret acts /\ handled (dBody d) acts = 1%nat /\
    if MaxReTry r <=? k + 1
    then last acts = Some (DFail RCODE_RETRY_MAX_ERROR (dBody d)) /\ comes_back acts = None
    else comes_back acts = Some (mkDelivery (dBody d) (<["retry_nums" := HInt32 (k + 1)]> ∅)).
Proof.
  intros Hs Ht Hf Hn Hk. unfold on_delivery. rewrite Hs, Ht, Hf, Hn. simpl.
  rewrite i32_small by (unfold in_signed; lia). eexists. split; [done|].
  destruct (IsAutoAck r), (MaxReTry r <=? k + 1); simpl; rewrite ?bool_decide_eq_true_2 by done;
    split; done.
Qed.

Lemma redeliver_fails r d k m :
  hasEventSuccess r = true -> IsTry r = true -> hasEventFail r = true -> MaxReTry r < 2 ^ 31 ->
  retry_nums (dHeaders d) = Ret k -> 0 <= k -> k + Z.of_nat (S m) = MaxReTry r ->
  exists acts, redeliver (S m) (on_delivery r false) d = Some (Ret acts) /\
    handled (dBody d) acts = S m /\ last acts = Some (DFail RCODE_RETRY_MAX_ERROR (dBody d)).
Proof.
  intros Hs Ht Hf Hmax. revert d k. induction m as [|m IH]; intros d k Hn Hk Hm;
    destruct (on_delivery_fails r d k Hs Ht Hf Hn ltac:(lia)) as (acts & E & Hh & Hrest).
  - destruct (MaxReTry r <=? k + 1) eqn:El; to_prop; [|lia]. destruct Hrest as [Hl Hc].
    exists acts. cbn [redeliver]. by rewrite E, Hc.
  - destruct (MaxReTry r <=? k + 1) eqn:El; to_prop; [lia|].
    destruct (IH (mkDelivery (dBody d) (<["retry_nums" := HInt32 (k + 1)]> ∅)) (k + 1))
      as (rest & Er & Hhr & Hlr); [done|lia..|].
    simpl in Hhr, Hlr. exists (acts ++ rest). rewrite redeliver_S, E, Hrest, Er. split; [done|].
    rewrite handled_app, Hh, Hhr. split; [done|]. rewrite last_app. by rewrite Hlr.
Qed.

(** Retries are bounded: a new message whose handler fails every time is
    handled exactly [MaxReTry] times, provided its retries come back with
    their headers; the last delivery reports error 507 with the body and
    nothing is retried any more. *)
Theorem retries_are_bounded r b h :
  hasEventSuccess r = true -> IsTry r = true -> hasEventFail r = true ->
  1 <= MaxReTry r < 2 ^ 31 -> h !! "retry_nums" = None ->
  exists acts, redeliver (Z.to_nat (MaxReTry r)) (on_delivery r false) (mkDelivery b h) = Some (Ret acts) /\
    handled b acts = Z.to_nat (MaxReTry r) /\ last acts = Some (DFail RCODE_RETRY_MAX_ERROR b).
Proof.
  intros Hs Ht Hf Hm Hh.
  destruct (Z.to_nat (MaxReTry r)) as [|m] eqn:Em; [lia|].
  apply (redeliver_fails r (mkDelivery b h) 0); try done; [lia|..].
  - unfold retry_nums. simpl. by rewrite Hh.
  - lia.
Qed.

(** A handler that asks for the retry through the client it was given. *)
Definition with_client (r : ConsumeReceive) (d : Delivery) : outcome (list action) :=
  acts ← on_delivery r true d;
  '(more, _) ← retryClient_Push
    (newRetryClient true d (dHeaders d) (deadExchangeName r) (deadQueueName r) (deadRouteKey r) r) (dBody d);
  Ret (acts ++ more).

(** Retries through [retryClient.Push] never end: it publishes the header
    of the delivery instead of the one it counted up, so the same message
    comes back unchanged, however often. *)
Theorem client_retries_never_end r b h n :
  hasEventSuccess r = true -> 2 <= MaxReTry r -> h !! "retry_nums" = None ->
  redeliver n (with_client r) (mkDelivery b h) = None /\
  exists acts, with_client r (mkDelivery b h) = Ret acts /\ comes_back acts = Some (mkDelivery b h).
Proof.
  intros Hs Hm Hh.
  assert (exists acts, with_client r (mkDelivery b h) = Ret acts /\
    comes_back acts = Some (mkDelivery b h)) as (acts & E & Hc).
  { unfold with_client, on_delivery, retryClient_Push, retry_nums. simpl. rewrite Hs, Hh. simpl.
    change (i32 (0 + 1)) with 1. destruct (MaxReTry r <=? 1) eqn:El; to_prop; [lia|].
    eexists. split; [done|]. by destruct (IsAutoAck r). }
  split; [|eauto]. induction n as [|n IH]; [done|]. cbn [redeliver]. by rewrite E, Hc, IH.
Qed.

Definition demo_receive : ConsumeReceive :=
  mkReceive EmptyString EXCHANGE_TYPE_DIRECT EmptyString "authEventMsg" true true true 3 true.

Lemma retries_are_bounded_witness :
  exists acts, redeliver 3 (on_delivery demo_receive false) (mkDelivery [Byte.x41] ∅) = Some (Ret acts) /\
    handled [Byte.x41] acts = 3%nat.
Proof.
  destruct (retries_are_bounded demo_receive [Byte.x41] ∅) as (acts & E & Hh & _);
    [reflexivity..|simpl; lia|apply lookup_empty|].
  exists acts. split; [exact E|exact Hh].
Defined.

Lemma client_retries_never_end_witness :
  redeliver 1000 (with_client demo_receive) (mkDelivery [Byte.x41] ∅) = None.
Proof.
  apply (client_retries_never_end demo_receive [Byte.x41] ∅ 1000); [reflexivity|simpl; lia|apply lookup_empty].
Defined.

(** ** What the broker knows, and where a retry goes *)
Record topology := mkTopology {
  exchanges : gmap string string;
  queues : gmap string table;
  (** exchange, routing key, queue *)
  bindings : list (string * string * string)
}.

Definition add_exchange (n ty : string) (t : topology) : topology :=
  mkTopology (<[n := ty]> (exchanges t)) (queues t) (bindings t).
Definition add_queue (n : string) (a : table) (t : topology) : topology :=
  mkTopology (exchanges t) (<[n := a]> (queues t)) (bindings t).
Definition add_binding (q key ex : string) (t : topology) : topology :=
  mkTopology (exchanges t) (queues t) ((ex, key, q) :: bindings t).

(** A client whose successful declarations reach the broker. *)
Class AmqpTopology (W : Type) `{AmqpChannel W} := {
  topo : W -> topology;
  topo_channel c w : topo (Channel c w).2 = topo w;
  topo_qos c w : topo (Qos c w) = topo w;
  topo_consume c q w : topo (Consume c q w).2 = topo w;
  topo_exchange c n ty w w' :
    ExchangeDeclare c n ty w = (None, w') -> topo w' = add_exchange n ty (topo w);
  topo_queue c n a w n' w' :
    n <> EmptyString -> QueueDeclare c n a w = (Ok n', w') ->
    n' = n /\ topo w' = add_queue n a (topo w);
  topo_bind c q key ex w w' :
    QueueBind c q key ex w = (None, w') -> topo w' = add_binding q key ex (topo w)
}.

(** The rules of RabbitMQ the retries rely on: the default exchange leads to
    the queue named by the routing key, a direct exchange to the queues bound
    with that key; an expired message goes to the dead-letter exchange of its
    queue, with the dead-letter routing key or else its own. *)
Class Routing := {
  route : topology -> string -> string -> list string;
  expire : topology -> string -> string -> option (string * string);
  route_default t key q : q ∈ route t EmptyString key <-> q = key /\ is_Some (queues t !! q);
  route_direct t ex key q :
    ex <> EmptyString -> exchanges t !! ex = Some EXCHANGE_TYPE_DIRECT ->
    q ∈ route t ex key <-> (ex, key, q) ∈ bindings t;
  expire_dead t q key args ex :
    queues t !! q = Some args -> args !! "x-dead-letter-exchange" = Some (AStr ex) ->
    expire t q key = Some (ex, match args !! "x-dead-letter-routing-key" with
                               | Some (AStr k) => k
                               | _ => key
                               end)
}.

(** The topology after [rDeclare] succeeded for a consumer of direct type. *)
Definition declared (en qn rt : string) (args : table) (t : topology) : topology :=
  if bool_decide (en = EmptyString) then add_queue qn args t
  else add_binding qn rt en (add_queue qn args (add_exchange en EXCHANGE_TYPE_DIRECT t)).

Section topology.
Context {W : Type} `{AmqpTopology W}.
Implicit Types (r : ConsumeReceive).

Lemma rDeclare_topology c en qn rt dead oe ort s s' :
  qn <> EmptyString ->
  rDeclare RABBITMQ_TYPE_CONSUME c en EXCHANGE_TYPE_DIRECT qn rt dead oe ort s = Some (Ret (None, s')) ->
  topo (amqp s') = declared en qn rt (queue_args dead oe ort) (topo (amqp s)).
Proof.
  intros Hq. unfold rDeclare, declared, lib, mbind, M_bind. simpl.
  destruct (bool_decide (en = EmptyString)) eqn:En; simpl.
  - destruct (QueueDeclare c qn _ (amqp s)) as [[n'|e] w] eqn:Eq; simpl; [|discriminate].
    intros [= <-]. simpl. by destruct (topo_queue _ _ _ _ _ _ Hq Eq).
  - destruct (ExchangeDeclare c en _ (amqp s)) as [[e|] w] eqn:Ee; simpl; [discriminate|].
    destruct (QueueDeclare c qn _ w) as [[n'|e] w1] eqn:Eq; simpl; [|discriminate].
    destruct (topo_queue _ _ _ _ _ _ Hq Eq) as [-> Ht1].
    destruct (QueueBind c qn rt en w1) as [[e|] w2] eqn:Eb; simpl; intros [= <-]; simpl.
    by rewrite (topo_bind _ _ _ _ _ _ Eb), Ht1, (topo_exchange _ _ _ _ _ Ee).
Qed.

(** The declarations of a consumer with retries: [consumeTask] makes these two
    calls, in this order, on an even [num]. *)
Definition declare_both (c c' : positive) r : M (W := W) (option error * option error) :=
  e1 ← rDeclare RABBITMQ_TYPE_CONSUME c (rExchangeName r) (rExchangeType r) (rQueueName r) (rRoute r)
    false EmptyString EmptyString;
  e2 ← rDeclare RABBITMQ_TYPE_CONSUME c' (deadExchangeName r) EXCHANGE_TYPE_DIRECT (deadQueueName r)
    (deadRouteKey r) true (rExchangeName r) (rRoute r);
  mret (e1, e2).

Lemma dead_names_nonempty r : deadExchangeName r <> EmptyString /\ deadQueueName r <> EmptyString.
Proof.
  unfold deadExchangeName, deadQueueName. destruct (rExchangeName r), (rQueueName r); by split.
Qed.

Lemma declare_both_topology c c' r s s' :
  rExchangeType r = EXCHANGE_TYPE_DIRECT -> rQueueName r <> EmptyString ->
  declare_both c c' r s = Some (Ret ((None, None), s')) ->
  topo (amqp s') =
    declared (deadExchangeName r) (deadQueueName r) (deadRouteKey r)
      (queue_args true (rExchangeName r) (rRoute r))
      (declared (rExchangeName r) (rQueueName r) (rRoute r) (queue_args false EmptyString EmptyString)
         (topo (amqp s))).
Proof.
  intros Ht Hq. unfold declare_both, mbind, M_bind. rewrite Ht.
  destruct (rDeclare _ c _ _ _ _ _ _ _ s) as [[[e1 s1]|]|] eqn:E1; try discriminate.
  destruct (rDeclare _ c' _ _ _ _ _ _ _ s1) as [[[e2 s2]|]|] eqn:E2; try discriminate.
  intros [= -> -> <-]. apply rDeclare_topology in E1; [|done].
  apply rDeclare_topology in E2; [|apply dead_names_nonempty]. by rewrite E2, E1.
Qed.
End topology.

Lemma queue_args_dead oe ort :
  queue_args true oe ort !! "x-dead-letter-exchange" = Some (AStr oe) /\
  queue_args true oe ort !! "x-dead-letter-routing-key" =
    if bool_decide (TrimSpace ort = EmptyString) then None else Some (AStr (TrimSpace ort)).
Proof.
  unfold queue_args. destruct (bool_decide (TrimSpace ort = EmptyString)); split; by simplify_map_eq.
Qed.

Lemma dead_suffix_neq (s : string) : s +:+ "-" +:+ "dead" <> s.
Proof.
  intros E. apply (f_equal String.length) in E.
  assert (forall a b : string, String.length (a +:+ b) = (String.length a + String.length b)%nat) as Hl.
  { intros a b. induction a as [|x a IH]; [done|]. simpl. by f_equal. }
  rewrite !Hl in E. simpl in E. lia.
Qed.

(** Where a retry goes: on the queues [consumeTask] has declared, the
    dead-letter exchange holds it in the dead-letter queue only; when it
    expires there, it returns to the queue of a consumer that has an exchange
    of its own, but a consumer on the default exchange without a route, as the
    one for account events is, never gets it back: it reaches no queue. *)
Theorem retry_path {W : Type} `{AmqpTopology W} `{Routing} c c' r s s' :
  rExchangeType r = EXCHANGE_TYPE_DIRECT -> rQueueName r <> EmptyString ->
  TrimSpace (rRoute r) = rRoute r ->
  queues (topo (amqp s)) !! EmptyString = None ->
  (forall q, (deadExchangeName r, deadRouteKey r, q) ∈ bindings (topo (amqp s)) -> q = deadQueueName r) ->
  declare_both c c' r s = Some (Ret ((None, None), s')) ->
  (forall q, q ∈ route (topo (amqp s')) (deadExchangeName r) (deadRouteKey r) <-> q = deadQueueName r) /\
  exists ex key, expire (topo (amqp s')) (deadQueueName r) (deadRouteKey r) = Some (ex, key) /\
    (rExchangeName r <> EmptyString -> rQueueName r ∈ route (topo (amqp s')) ex key) /\
    (rExchangeName r = EmptyString -> rRoute r = EmptyString -> route (topo (amqp s')) ex key = []).
Proof.
  intros Ht Hq Htrim Hnoq Hown Hdecl. rewrite (declare_both_topology c c' r s s' Ht Hq Hdecl).
  destruct (dead_names_nonempty r) as [Hdx Hdq].
  pose proof (dead_suffix_neq (rExchangeName r)) as Hx. pose proof (dead_suffix_neq (rQueueName r)) as Hqq.
  change (rExchangeName r +:+ "-" +:+ "dead") with (deadExchangeName r) in Hx.
  change (rQueueName r +:+ "-" +:+ "dead") with (deadQueueName r) in Hqq.
  set (t0 := declared (rExchangeName r) (rQueueName r) _ _ _).
  assert (forall q, (deadExchangeName r, deadRouteKey r, q) ∈ bindings t0 -> q = deadQueueName r) as Hnb.
  { intros q. unfold t0, declared. case_bool_decide; simpl; [apply Hown|].
    intros [E|Hin]%elem_of_cons; [by injection E|by apply Hown]. }
  assert (queues t0 !! EmptyString = None) as Hnone.
  { unfold t0, declared. case_bool_decide; simpl; by rewrite lookup_insert_ne. }
  set (t1 := declared (deadExchangeName r) _ _ _ t0).
  assert (t1 = add_binding (deadQueueName r) (deadRouteKey r) (deadExchangeName r)
    (add_queue (deadQueueName r) (queue_args true (rExchangeName r) (rRoute r))
      (add_exchange (deadExchangeName r) EXCHANGE_TYPE_DIRECT t0))) as Et1.
  { unfold t1, declared. by rewrite (bool_decide_eq_false_2 _ Hdx). }
  rewrite Et1. clear t1 Et1. set (t1 := add_binding _ _ _ _).
  assert (exchanges t1 !! deadExchangeName r = Some EXCHANGE_TYPE_DIRECT) as Hex1 by apply lookup_insert_eq.
  destruct (queue_args_dead (rExchangeName r) (rRoute r)) as [Ha1 Ha2].
  split.
  - intros q. rewrite (route_direct t1 _ _ q Hdx Hex1). simpl. rewrite elem_of_cons. split.
    + intros [E|Hin]; [by injection E|by apply Hnb].
    + intros ->. by left.
  - eexists _, _. split; [apply (expire_dead t1 _ _ (queue_args true (rExchangeName r) (rRoute r)));
      [apply lookup_insert_eq|exact Ha1]|]. rewrite Ha2, Htrim. split.
    + intros Hne. apply route_direct; [done|..].
      * simpl. rewrite lookup_insert_ne by done. unfold t0, declared.
        rewrite bool_decide_eq_false_2 by done. apply lookup_insert_eq.
      * simpl. apply elem_of_cons. right. unfold t0, declared. rewrite (bool_decide_eq_false_2 _ Hne).
        simpl. apply elem_of_cons. left. unfold deadRouteKey.
        by destruct (decide (rRoute r = EmptyString)) as [E|E];
          [rewrite !bool_decide_eq_true_2, E by done|rewrite bool_decide_eq_false_2 by done].
    + intros He Hr. rewrite He. unfold deadRouteKey. rewrite Hr, !bool_decide_eq_true_2 by done.
      apply elem_of_nil_inv. intros q Hin. apply route_default in Hin as [-> Hs].
      simpl in Hs. rewrite lookup_insert_ne, Hnone in Hs by done. by destruct Hs.
Qed.

(** *** A reference broker *)
Record ref_broker := mkBroker { client : ref_amqp; known : topology }.

Definition lift {A : Type} (f : ref_amqp -> A * ref_amqp) (w : ref_broker) : A * ref_broker :=
  let '(a, c) := f (client w) in (a, mkBroker c (known w)).

#[global] Instance ref_broker_ops : Amqp ref_broker := {|
  Dial u := lift (Dial u);
  IsClosed c := lift (IsClosed c);
  Channel c := lift (Channel c);
  Publish c ex key m := lift (Publish c ex key m);
  Now := lift Now
|}.
#[global] Instance ref_broker_channel : AmqpChannel ref_broker := {|
  ExchangeDeclare _ n ty w := (None, mkBroker (client w) (add_exchange n ty (known w)));
  QueueDeclare _ n a w := (Ok n, mkBroker (client w) (add_queue n a (known w)));
  QueueBind _ q key ex w := (None, mkBroker (client w) (add_binding q key ex (known w)));
  Qos _ w := w;
  Consume _ _ w := (None, w);
  CloseChannel _ w := w;
  CloseConn k w := mkBroker (mkRef (next_id (client w)) (opened (client w) ∖ {[k]}) (chan_conn (client w))
                               (clock (client w))) (known w)
|}.
#[global] Program Instance ref_broker_topology : AmqpTopology ref_broker := {| topo := known |}.
Next Obligation.
  intros c w. change (known (lift (Channel c) w).2 = known w). unfold lift.
  by destruct (Channel c (client w)).
Qed.
Next Obligation. done. Qed.
Next Obligation. done. Qed.
Next Obligation. by intros c n ty w w' [= <-]. Qed.
Next Obligation. by intros c n a w n' w' _ [= <- <-]. Qed.
Next Obligation. by intros c q key ex w w' [= <-]. Qed.

Definition ref_route (t : topology) (ex key : string) : list string :=
  if bool_decide (ex = EmptyString)
  then (if bool_decide (is_Some (queues t !! key)) then [key] else [])
  else if bool_decide (exchanges t !! ex = Some EXCHANGE_TYPE_DIRECT)
  then (filter (fun b => b.1 = (ex, key)) (bindings t)).*2
  else [].
Definition ref_expire (t : topology) (q key : string) : option (string * string) :=
  args ← queues t !! q;
  match (args : table) !! "x-dead-letter-exchange" with
  | Some (AStr ex) => Some (ex, match args !! "x-dead-letter-routing-key" with
                                | Some (AStr k) => k
                                | _ => key
                                end)
  | _ => None
  end.
#[global] Program Instance ref_routing : Routing := {| route := ref_route; expire := ref_expire |}.
Next Obligation.
  intros t key q. unfold ref_route. rewrite bool_decide_eq_true_2 by done. case_bool_decide.
  - rewrite list_elem_of_singleton. split; [by intros ->|by intros [-> _]].
  - split; [by intros ?%not_elem_of_nil|by intros [-> ?]].
Qed.
Next Obligation.
  intros t ex key q Hne Hex. unfold ref_route. rewrite bool_decide_eq_false_2 by done.
  rewrite bool_decide_eq_true_2 by done. rewrite list_elem_of_fmap. split.
  - intros ([[e k] q'] & -> & [E Hin]%list_elem_of_filter). simpl in E. by injection E as -> ->.
  - intros Hin. exists (ex, key, q). split; [done|]. by apply list_elem_of_filter.
Qed.
Next Obligation. intros t q key args ex Hq Ha. unfold ref_expire. rewrite Hq. simpl. by rewrite Ha. Qed.

Definition demo_broker : St (W := ref_broker) :=
  mkSt NewConsumePool (mkBroker ref_start (mkTopology ∅ ∅ [])).

Lemma retry_path_witness :
  exists s', declare_both 1 1 demo_receive demo_broker = Some (Ret ((None, None), s')) /\
    exists ex key, expire (topo (amqp s')) "authEventMsg-dead" EmptyString = Some (ex, key) /\
      route (topo (amqp s')) ex key = [].
Proof.
  eexists. split; [reflexivity|].
  match goal with |- context [topo (amqp ?s)] =>
    destruct (retry_path 1 1 demo_receive demo_broker s) as (_ & ex & key & E & _ & Hlost)
  end; [reflexivity|discriminate|reflexivity|reflexivity| |reflexivity|].
  { intros q Hin. by apply not_elem_of_nil in Hin. }
  exists ex, key. split; [exact E|]. apply Hlost; reflexivity.
Defined.

Definition demo_consumer : St (W := ref_broker) :=
  match Connect "mq" 5672 "u" "p" demo_broker with Some (Ret (_, s)) => s | _ => demo_broker end.

Lemma setup_error_paths_witness :
  exists c dc rc s, consume_setup 0 demo_receive demo_consumer = Some (Ret (([], SRun c (Some dc) rc), s)).
Proof.
  do 3 eexists.
  eapply (setup_error_paths 0 demo_receive demo_consumer); try reflexivity; vm_compute; reflexivity.
Defined.
