(* ===== verification/ConsumeTask.v ===== *)
(** * A consumer from start to end ([utils/rabbitMQ/rabbitMQPool.go])

    [consumeTask] as a whole: the set-up of [RabbitConsume], the loop over
    deliveries and the notification of a closed channel, and the deferred
    calls; the consumers of a pool share its connections; [rListenerConsume]
    counts the consumers that failed without a lock. *)
From Stdlib Require Import Strings.Byte.
From stdpp Require Import base gmap strings numbers list relations.
From S2P Require Import Prelude GoIO SendQueue RabbitPool RabbitConsume.

(** ** The loop *)

(** [amqp.Error], as far as the code looks at it. *)
Record amqp_Error := mkAmqpError { eCode : Z; eReason : string }.

(** What the [select] of [consumeTask] gets: a message, with the answer its
    handler will give (a closed [msgs] gives the zero delivery), or the
    notification that the channel was closed, nil when nothing was wrong. *)
Inductive task_event := TMsg (d : Delivery) (isOk : bool) | TClosed (e : option amqp_Error).
Definition zero_delivery : Delivery := mkDelivery [] ∅.

(** The loop: what it did, and how it ended, unless it still waits for an
    event. [e.Error()] and [e.Code] panic for a nil error. *)
Fixpoint consume_loop (r : ConsumeReceive) (evs : list task_event)
  : outcome (list action * option (list fail_call * amqp_Error)) :=
  match evs with
  | [] => Ret ([], None)
  | TMsg d isOk :: evs' =>
      acts ← on_delivery r isOk d;
      '(rest, fin) ← consume_loop r evs';
      Ret (acts ++ rest, fin)
  | TClosed None :: _ => Panic
  | TClosed (Some e) :: _ => Ret ([], Some (report r RCODE_CONNECTION_ERROR, e))
  end.

(** [consumeTask] returned an error, or nil after [setConnectError] with the
    error of the channel; or it still runs. *)
Inductive task_end := TReturned (err : option error) (connectError : option amqp_Error) | TRunning.

Section task.
Context {W : Type} `{AmqpChannel W}.

Definition consumeTask (num : Z) (r : ConsumeReceive) (evs : list task_event)
  : M (W := W) (list fail_call * list action * task_end) :=
  '(fs, st) ← consume_setup num r;
  match st with
  | SReturn err => mret (fs, [], TReturned err None)
  | SRun c dc rc =>
      match consume_loop r evs with
      | Panic => panic
      | Ret (acts, None) => mret (fs, acts, TRunning)
      | Ret (acts, Some (fs', e)) => close_all dc c rc;; mret (fs ++ fs', acts, TReturned None (Some e))
      end
  end.

(** The world after the deferred calls. *)
Definition closed_world (dc : option positive) (c k : positive) (w : W) : W :=
  CloseConn k (CloseChannel c (match dc with Some d => CloseChannel d w | None => w end)).

Lemma close_all_run dc c rc k s :
  conn rc = Some k -> close_all dc c rc s = Some (Ret ((), mkSt (pool s) (closed_world dc c k (amqp s)))).
Proof. intros E. unfold close_all, lib, mbind, M_bind. rewrite E. by destruct dc. Qed.
End task.

(** The messages of a run of the loop, and what is done with them. *)
Fixpoint on_all (r : ConsumeReceive) (ms : list (Delivery * bool)) : outcome (list action) :=
  match ms with
  | [] => Ret []
  | (d, isOk) :: ms' => acts ← on_delivery r isOk d; rest ← on_all r ms'; Ret (acts ++ rest)
  end.
Abbreviation msgs := (fmap (fun m : Delivery * bool => TMsg m.1 m.2)).

Lemma consume_loop_app r ms evs :
  consume_loop r (msgs ms ++ evs) =
    (acts ← on_all r ms; '(rest, fin) ← consume_loop r evs; Ret (acts ++ rest, fin)).
Proof.
  induction ms as [|[d isOk] ms IH]; csimpl; [by destruct (consume_loop r evs) as [[rest fin]|]|].
  rewrite IH. destruct (on_delivery r isOk d) as [acts|]; [|done]. simpl.
  destruct (on_all r ms) as [acts'|]; [|done]. simpl.
  destruct (consume_loop r evs) as [[rest fin]|]; [|done]. simpl. by rewrite app_assoc.
Qed.

(** A message panics the consumer only when it has to be retried and its
    counter is not an [int32]. *)
Lemma on_all_ret r ms :
  Forall (fun m => m.2 = true \/ IsTry r = false \/ dHeaders m.1 !! "retry_nums" <> Some HOther) ms ->
  exists acts, on_all r ms = Ret acts.
Proof.
  induction 1 as [|[d isOk] ms Hm _ [rest IH]]; simpl; [eauto|]. rewrite IH.
  assert (exists acts, on_delivery r isOk d = Ret acts) as [acts ->]; [|simpl; eauto].
  unfold on_delivery. destruct (hasEventSuccess r); simpl; [|eauto].
  destruct (negb isOk && IsTry r) eqn:E; simpl; [|eauto]. unfold retry_nums. simpl in Hm.
  destruct isOk, (IsTry r); try done. destruct Hm as [?|[?|Hh]]; [done..|].
  destruct (dHeaders d !! "retry_nums") as [[n|]|]; simpl; [eauto|done|eauto].
Qed.

(** ** Shared connections *)

(** What the library promises about closing ([NotifyClose]: "on a graceful
    close, no error will be sent" and the chan is closed): closing a
    connection closes its channels, whose notifications give nil. *)
Class AmqpNotify (W : Type) `{AmqpChannel W} := {
  (** what the notification of a channel gives; [None] while it is open *)
  notified : positive -> W -> option (option amqp_Error);
  owner : positive -> W -> option positive;
  notified_conn k c w : owner c w = Some k -> notified c w = None -> notified c (CloseConn k w) = Some None;
  notified_channel c c' w : c' <> c -> notified c' (CloseChannel c w) = notified c' w;
  owner_channel c c' w : owner c' (CloseChannel c w) = owner c' w
}.

Section shared.
Context {W : Type} `{AmqpNotify W}.

Lemma neighbour_notified dc c k c' (w : W) :
  c' <> c -> dc <> Some c' -> owner c' w = Some k -> notified c' w = None ->
  notified c' (closed_world dc c k w) = Some None.
Proof.
  intros Hc Hdc Ho Hn. unfold closed_world.
  apply notified_conn; destruct dc; rewrite ?owner_channel, ?notified_channel; congruence.
Qed.

(** C40. The life of a consumer: it handles the messages it gets in order; when
    its channel breaks it calls [EventFail] with 504, reports the error once
    for a reconnect, and closes its channels and its connection. That
    connection is shared: every other consumer on it is then told of a close
    without an error, and instead of returning it panics, whatever it handled
    before. *)
Theorem consumer_life num r s fs c dc rc s1 k ms acts e c' :
  consume_setup num r s = Some (Ret ((fs, SRun c dc rc), s1)) -> conn rc = Some k ->
  on_all r ms = Ret acts ->
  consumeTask num r (msgs ms) s = Some (Ret ((fs, acts, TRunning), s1)) /\
  consumeTask num r (msgs ms ++ [TClosed (Some e)]) s =
    Some (Ret ((fs ++ report r RCODE_CONNECTION_ERROR, acts, TReturned None (Some e)),
      mkSt (pool s1) (closed_world dc c k (amqp s1)))) /\
  (c' <> c -> dc <> Some c' -> owner c' (amqp s1) = Some k -> notified c' (amqp s1) = None ->
   exists e', notified c' (closed_world dc c k (amqp s1)) = Some e' /\
     forall r' ms', consume_loop r' (msgs ms' ++ [TClosed e']) = Panic).
Proof.
  intros Hs Hk Hms. assert (forall evs, consumeTask num r (msgs ms ++ evs) s =
    match consume_loop r evs with
    | Panic => Some Panic
    | Ret (rest, None) => Some (Ret ((fs, acts ++ rest, TRunning), s1))
    | Ret (rest, Some (fs', e)) => Some (Ret ((fs ++ fs', acts ++ rest, TReturned None (Some e)),
        mkSt (pool s1) (closed_world dc c k (amqp s1))))
    end) as Hrun.
  { intros evs. unfold consumeTask, mbind, M_bind. rewrite Hs, consume_loop_app, Hms. simpl.
    destruct (consume_loop r evs) as [[rest [[fs' e']|]]|]; simpl; [|done..].
    by rewrite (close_all_run dc c rc k s1 Hk). }
  split_and!.
  - pose proof (Hrun []) as E. simpl in E. by rewrite !app_nil_r in E.
  - rewrite Hrun. simpl. by rewrite app_nil_r.
  - intros Hc Hdc Ho Hn. exists None. split; [by apply neighbour_notified|].
    intros r' ms'. rewrite consume_loop_app. by destruct (on_all r' ms').
Qed.

(** The consumers of two receivers share the connections: those of the second
    get the connections of the first again. *)
Lemma consumers_share t hst pt u pw (s0 s : St (W := W)) :
  pool s0 = newRabbitPool t -> Connect hst pt u pw s0 = Some (Ret (None, s)) ->
  exists out s', getConnections (2 * Z.to_nat DEFAULT_MAX_CONSUME_CHANNEL) s = Some (Ret (out, s')) /\
    forall i, (i < Z.to_nat DEFAULT_MAX_CONSUME_CHANNEL)%nat ->
      is_Some (out !! i) /\ out !! (i + Z.to_nat DEFAULT_MAX_CONSUME_CHANNEL)%nat = out !! i.
Proof.
  intros Hp Hc. destruct (Connect_ok t hst pt u pw s0 s Hp Hc) as (ls & Hok & Ei & Em & _).
  destruct (getConnections_spec (2 * Z.to_nat DEFAULT_MAX_CONSUME_CHANNEL) s ls Hok) as (out & s' & E & Hl & Hout).
  exists out, s'. split; [done|]. intros i Hi. split; [apply lookup_lt_is_Some_2; lia|].
  change (Z.to_nat DEFAULT_MAX_CONSUME_CHANNEL) with 5%nat in *. rewrite !Hout by lia. rewrite Em, Ei.
  unfold DEFAULT_MAX_CONNECTION. do 2 f_equal.
  replace (0 + 1 + Z.of_nat (i + 5)) with (0 + 1 + Z.of_nat i + 1 * 5) by lia. by rewrite Z.mod_add.
Qed.
End shared.

(** ** Counting failures: [failCount++] in [rListenerConsume]

    Each goroutine whose [consumeTask] failed reads the shared counter and then
    writes it, without a lock. *)
Inductive inc_pc := IRead | IWrite (v : Z) | IDone.
Record counting := mkCounting { failCount : Z; incs : list inc_pc }.

Inductive inc_step : counting -> counting -> Prop :=
| i_read s i :
    incs s !! i = Some IRead -> inc_step s (mkCounting (failCount s) (<[i := IWrite (failCount s)]> (incs s)))
| i_write s i v :
    incs s !! i = Some (IWrite v) -> inc_step s (mkCounting (i32 (v + 1)) (<[i := IDone]> (incs s))).

Definition count_start (n : nat) : counting := mkCounting 0 (replicate n IRead).
Definition counted_all (s : counting) : Prop := Forall (fun p => p = IDone) (incs s).

(** All goroutines read before the first one writes. *)
Lemma read_all k n :
  rtc inc_step (mkCounting 0 (replicate k (IWrite 0) ++ replicate n IRead)) (mkCounting 0 (replicate (k + n) (IWrite 0))).
Proof.
  revert k. induction n as [|n IH]; intros k; [by rewrite Nat.add_0_r, app_nil_r|].
  eapply rtc_l; [apply (i_read _ k); simpl; rewrite lookup_app_r; rewrite length_replicate; [|done];
    by rewrite Nat.sub_diag|]. simpl.
  rewrite insert_app_r_alt by (by rewrite length_replicate). rewrite length_replicate, Nat.sub_diag. simpl.
  rewrite (cons_middle (IWrite 0)), (assoc_L (++)), <- (replicate_cons_app _ (IWrite 0)).
  rewrite <- Nat.add_succ_comm. apply (IH (S k)).
Qed.

Lemma write_all k n v :
  (k = 0%nat -> v = 0) -> (k <> 0%nat -> v = 1) ->
  rtc inc_step (mkCounting v (replicate k IDone ++ replicate n (IWrite 0)))
    (mkCounting (if bool_decide (k + n = 0)%nat then 0 else 1) (replicate (k + n) IDone)).
Proof.
  revert k v. induction n as [|n IH]; intros k v H0 H1.
  - rewrite Nat.add_0_r, app_nil_r. case_bool_decide; [rewrite H0|rewrite H1]; done.
  - eapply rtc_l; [apply (i_write _ k 0); simpl; rewrite lookup_app_r; rewrite length_replicate; [|done];
      by rewrite Nat.sub_diag|]. simpl.
    rewrite insert_app_r_alt by (by rewrite length_replicate). rewrite length_replicate, Nat.sub_diag. simpl.
    rewrite (cons_middle IDone), (assoc_L (++)), <- (replicate_cons_app _ IDone).
    rewrite <- Nat.add_succ_comm. apply (IH (S k)); done.
Qed.

(** Failures are lost: when all consumers of a receiver fail at the same time,
    the counter may end at one, and the broken connection is not reported. *)
Theorem failures_are_lost n :
  (2 <= n)%nat -> exists s, rtc inc_step (count_start n) s /\ counted_all s /\ failCount s < Z.of_nat n.
Proof.
  intros Hn. eexists. split; [|split].
  - etransitivity; [apply (read_all 0 n)|]. apply (write_all 0 n 0); done.
  - simpl. apply Forall_replicate. done.
  - simpl. rewrite bool_decide_eq_false_2 by lia. lia.
Qed.

(** ** [RandomNum]: [draw i] is the [i]-th answer of [rand.Intn(10)]. *)
Definition numberAttr : list Z := [0; 1; 2; 3; 4; 5; 6; 7; 8; 9].
Definition RandomNum (draw : nat -> nat) (length : Z) : outcome string :=
  foldr (fun i acc =>
    s ← acc;
    match numberAttr !! draw i with Some n => Ret (Itoa n +:+ s) | None => Panic end)
    (Ret EmptyString) (seq 0 (Z.to_nat length)).

(** A random number has as many digits as asked for. *)
Lemma RandomNum_digits draw n :
  (forall i, draw i < 10)%nat -> exists s, RandomNum draw n = Ret s /\ Z.of_nat (String.length s) = Z.max 0 n.
Proof.
  intros Hd. unfold RandomNum. replace (Z.max 0 n) with (Z.of_nat (Z.to_nat n)) by lia.
  generalize 0%nat at 1. induction (Z.to_nat n) as [|m IH]; intros k; [by exists EmptyString|].
  destruct (IH (S k)) as (s & E & Hs). cbn [seq foldr]. rewrite E. simpl. specialize (Hd k).
  destruct (draw k) as [|[|[|[|[|[|[|[|[|[|]]]]]]]]]]; [..|lia]; (eexists; split; [reflexivity|]);
    change (String.length (_ +:+ s)) with (S (String.length s)); lia.
Qed.

(** ** Witnesses *)
#[global] Program Instance ref_broker_notify : AmqpNotify ref_broker := {|
  notified c w :=
    match chan_conn (client w) !! c with
    | Some k => if bool_decide (k ∈ opened (client w)) then None else Some None
    | None => None
    end;
  owner c w := chan_conn (client w) !! c
|}.
Next Obligation.
  intros k c w Ho Hn. simpl in *. rewrite Ho in *. by rewrite bool_decide_eq_false_2 by set_solver.
Qed.
Next Obligation. done. Qed.
Next Obligation. done. Qed.

(** The five consumers of a first receiver run on the five connections. *)
Definition run_setup (s : St (W := ref_broker)) : St :=
  match consume_setup 1 demo_receive s with Some (Ret (_, s')) => s' | _ => s end.
Definition demo_five : St (W := ref_broker) := Nat.iter 5 run_setup demo_consumer.

(** The first consumer of the second receiver shares the connection of
    number 2 with the channel 6. *)
Lemma demo_shared :
  exists c dc s1,
    consume_setup 0 demo_receive demo_five = Some (Ret (([], SRun c dc (mkRConn (Some 2%positive) 1)), s1)) /\
    6%positive <> c /\ dc <> Some 6%positive /\ owner 6 (amqp s1) = Some 2%positive /\ notified 6 (amqp s1) = None.
Proof. do 3 eexists. split; [vm_compute; reflexivity|]. vm_compute. done. Qed.

Lemma consumer_life_witness :
  exists c dc s1,
    consume_setup 0 demo_receive demo_five = Some (Ret (([], SRun c dc (mkRConn (Some 2%positive) 1)), s1)) /\
    exists e, notified 6 (closed_world dc c 2 (amqp s1)) = Some e /\ consume_loop demo_receive [TClosed e] = Panic.
Proof.
  destruct demo_shared as (c & dc & s1 & Hs & Hc & Hdc & Ho & Hn). exists c, dc, s1. split; [exact Hs|].
  destruct (consumer_life 0 demo_receive demo_five [] c dc (mkRConn (Some 2%positive) 1) s1 2 [] []
    (mkAmqpError 320 "CONNECTION_FORCED") 6 Hs eq_refl eq_refl) as (_ & _ & Hlife).
  destruct (Hlife Hc Hdc Ho Hn) as (e & He & Hp). exists e. split; [exact He|]. exact (Hp demo_receive []).
Defined.

Lemma failures_are_lost_witness :
  exists s, rtc inc_step (count_start 5) s /\ counted_all s /\ failCount s < 5.
Proof. apply (failures_are_lost 5). lia. Defined.
