(* ===== verification/RabbitReconnect.v ===== *)
(** * Reconnecting a consumer ([utils/rabbitMQ/rabbitMQPool.go])

    [rConsume] starts the listeners and waits for an error on the unbuffered
    [errorChanel]; [setConnectError] sends one unless one was already reported
    ([status], under [statusLock]); [retryConsume] reconnects, resets [status]
    and starts over. The goroutine that runs [rConsume] and the consumers that
    report errors are a transition system. *)
From stdpp Require Import base list numbers relations.
From S2P Require Import Prelude.

(** The goroutine of [rConsume]: starting the listeners; in the [select];
    after it received, before it takes the lock; in the loop of
    [retryConsume]; before the lock that resets [status]. *)
Inductive main_pc := MStart | MSelect | MReceived | MRetry | MReset.
(** A call of [setConnectError]: before the lock; with the lock, sending;
    with the lock, after the test and the send; returned. *)
Inductive rep_pc := RLock | RSend | RSet | RReturn.

Record recon := mkRecon {
  main : main_pc;
  status : bool;
  (** [statusLock] is held by this report *)
  lock : option nat;
  reports : list rep_pc;
  (** consumers exist, which may report *)
  started : bool;
  (** history: errors received by [rConsume] *)
  received : nat
}.

(** [RunConsume]: with connections the listeners start at once, without it
    first reconnects. *)
Definition RunConsume (connected : bool) : recon :=
  mkRecon (if connected then MStart else MRetry) false None [] false 0.

Inductive rec_step : recon -> recon -> Prop :=
| c_listeners s :
    main s = MStart ->
    rec_step s (mkRecon MSelect (status s) (lock s) (reports s) true (received s))
| c_call s :
    started s = true ->
    rec_step s (mkRecon (main s) (status s) (lock s) (reports s ++ [RLock]) (started s) (received s))
| c_lock s i :
    reports s !! i = Some RLock -> lock s = None ->
    rec_step s (mkRecon (main s) (status s) (Some i)
      (<[i := if status s then RSet else RSend]> (reports s)) (started s) (received s))
| c_send s i :
    reports s !! i = Some RSend -> main s = MSelect ->
    rec_step s (mkRecon MReceived (status s) (lock s) (<[i := RSet]> (reports s)) (started s)
      (S (received s)))
| c_set s i :
    reports s !! i = Some RSet ->
    rec_step s (mkRecon (main s) true None (<[i := RReturn]> (reports s)) (started s) (received s))
| c_received s :
    main s = MReceived -> lock s = None ->
    rec_step s (mkRecon MRetry true (lock s) (reports s) (started s) (received s))
| c_retry_fails s : main s = MRetry -> rec_step s s
| c_retry_works s :
    main s = MRetry ->
    rec_step s (mkRecon MReset (status s) (lock s) (reports s) (started s) (received s))
| c_reset s :
    main s = MReset -> lock s = None ->
    rec_step s (mkRecon MStart false (lock s) (reports s) (started s) (received s)).

Definition holds (p : rep_pc) : bool := match p with RSend | RSet => true | _ => false end.
(** The states in which the goroutine is about to wait, or waits. *)
Definition waiting (m : main_pc) : bool := match m with MStart | MSelect => true | _ => false end.
(** ... in which it is reconnecting. *)
Definition reconnecting (m : main_pc) : bool := match m with MRetry | MReset => true | _ => false end.

Record rec_inv (s : recon) : Prop := mkRecInv {
  ri_lock : forall i p, reports s !! i = Some p -> holds p = true -> lock s = Some i;
  ri_holder : forall i, lock s = Some i -> exists p, reports s !! i = Some p /\ holds p = true;
  ri_status : waiting (main s) = true -> status s = false;
  ri_retry : reconnecting (main s) = true -> status s = true \/ started s = false;
  ri_received : main s = MReceived -> status s = true \/ exists i, reports s !! i = Some RSet;
  ri_send : forall i, reports s !! i = Some RSend -> waiting (main s) = true;
  ri_set : forall i, reports s !! i = Some RSet -> waiting (main s) = false;
  ri_started : started s = false -> reports s = []
}.

Lemma RunConsume_inv b : rec_inv (RunConsume b).
Proof. by split; simpl; try done; destruct b; auto. Qed.

(** The lock after the report [i] moved to [q]. *)
Lemma move_lock s i p q l :
  rec_inv s -> reports s !! i = Some p ->
  (if holds q then l = Some i /\ (lock s = None \/ lock s = Some i)
   else l = None /\ lock s = Some i) ->
  (forall j x, <[i := q]> (reports s) !! j = Some x -> holds x = true -> l = Some j) /\
  (forall j, l = Some j -> exists x, <[i := q]> (reports s) !! j = Some x /\ holds x = true).
Proof.
  intros [] Hi Hl. split.
  - intros j x Hj Hx. apply list_lookup_insert_Some in Hj as [(<- & -> & _)|[Hne Hj]].
    + rewrite Hx in Hl. by destruct Hl.
    + pose proof (ri_lock0 _ _ Hj Hx) as E. destruct (holds q); destruct Hl as [-> Hl];
        [destruct Hl|]; congruence.
  - intros j Hj. destruct (holds q) eqn:Hq; destruct Hl as [-> Hl]; [|done].
    injection Hj as <-. exists q. split; [|done]. apply list_lookup_insert_eq. by eapply lookup_lt_Some.
Qed.

Lemma c_lock_inv s i :
  reports s !! i = Some RLock -> lock s = None -> rec_inv s ->
  rec_inv (mkRecon (main s) (status s) (Some i)
    (<[i := if status s then RSet else RSend]> (reports s)) (started s) (received s)).
Proof.
  intros Hi Hl Hv. destruct (move_lock s i RLock (if status s then RSet else RSend) (Some i) Hv Hi)
    as [H1 H2]; [destruct (status s); simpl; auto|]. destruct Hv.
  assert (forall j, reports s !! j <> Some RSet) as Hno.
  { intros j Hj. pose proof (ri_lock0 _ _ Hj eq_refl). congruence. }
  split; simpl; try done.
  - intros Hm. destruct (ri_received0 Hm) as [?|[j Hj]]; [by left|by destruct (Hno j)].
  - intros j Hj. apply list_lookup_insert_Some in Hj as [(_ & E & _)|[_ Hj]]; [|eauto].
    destruct (status s) eqn:Es; [done|]. destruct (main s) eqn:Em; try done.
    + destruct (ri_received0 eq_refl) as [?|[k Hk]]; [done|by destruct (Hno k)].
    + destruct (ri_retry0 eq_refl) as [?|Hst]; [done|]. by rewrite (ri_started0 Hst) in Hi.
    + destruct (ri_retry0 eq_refl) as [?|Hst]; [done|]. by rewrite (ri_started0 Hst) in Hi.
  - intros j Hj. apply list_lookup_insert_Some in Hj as [(_ & E & _)|[_ Hj]]; [|eauto].
    destruct (status s) eqn:Es; [|done]. destruct (waiting (main s)); [|done].
    by specialize (ri_status0 eq_refl).
  - intros Hst. by rewrite (ri_started0 Hst) in Hi.
Qed.

Lemma c_send_inv s i :
  reports s !! i = Some RSend -> main s = MSelect -> rec_inv s ->
  rec_inv (mkRecon MReceived (status s) (lock s) (<[i := RSet]> (reports s)) (started s)
    (S (received s))).
Proof.
  intros Hi Hm Hv. pose proof (ri_lock s Hv _ _ Hi eq_refl) as Hl.
  destruct (move_lock s i RSend RSet (lock s) Hv Hi) as [H1 H2]; [simpl; auto|]. destruct Hv.
  split; simpl; try done.
  - intros _. right. exists i. apply list_lookup_insert_eq. by eapply lookup_lt_Some.
  - intros j Hj. apply list_lookup_insert_Some in Hj as [(_ & E & _)|[Hne Hj]]; [done|].
    pose proof (ri_lock0 _ _ Hj eq_refl). congruence.
  - intros Hst. by rewrite (ri_started0 Hst) in Hi.
Qed.

Lemma c_set_inv s i :
  reports s !! i = Some RSet -> rec_inv s ->
  rec_inv (mkRecon (main s) true None (<[i := RReturn]> (reports s)) (started s) (received s)).
Proof.
  intros Hi Hv. pose proof (ri_lock s Hv _ _ Hi eq_refl) as Hl.
  destruct (move_lock s i RSet RReturn None Hv Hi) as [H1 H2]; [simpl; auto|].
  pose proof (ri_set s Hv i Hi) as Hw. destruct Hv.
  split; simpl; try done; try (by rewrite Hw); auto.
  - intros j Hj. apply list_lookup_insert_Some in Hj as [(_ & E & _)|[Hne Hj]]; [done|eauto].
  - intros Hst. by rewrite (ri_started0 Hst) in Hi.
Qed.

Lemma rec_step_inv s s' : rec_step s s' -> rec_inv s -> rec_inv s'.
Proof.
  intros Hs Hv. destruct Hs as [s Hm|s Hst|s i Hi Hl|s i Hi Hm|s i Hi|s Hm Hl|s Hm|s Hm|s Hm Hl].
  - destruct Hv. rewrite Hm in *. split; simpl; try done; eauto.
  - destruct Hv. assert (forall j p, (reports s ++ [RLock]) !! j = Some p -> p <> RLock ->
      reports s !! j = Some p) as Hold.
    { intros j p [?|[_ Hj]]%lookup_app_Some Hp; [done|].
      by apply list_lookup_singleton_Some in Hj as [_ ?]. }
    split; simpl; try done.
    + intros j p Hj Hp. apply (ri_lock0 j p); [|done]. apply Hold; [done|]. by intros ->.
    + intros j Hj. destruct (ri_holder0 j Hj) as (p & ? & ?). exists p. split; [|done].
      by apply lookup_app_l_Some.
    + intros Hm. destruct (ri_received0 Hm) as [?|[j ?]]; [by left|right]. exists j.
      by apply lookup_app_l_Some.
    + intros j Hj. apply (ri_send0 j), Hold; done.
    + intros j Hj. apply (ri_set0 j), Hold; done.
    + congruence.
  - by apply c_lock_inv.
  - by apply c_send_inv.
  - by apply c_set_inv.
  - destruct Hv. split; simpl; try done; [auto|].
    intros j Hj. pose proof (ri_lock0 _ _ Hj eq_refl). congruence.
  - done.
  - destruct Hv. rewrite Hm in *. split; simpl; try done; eauto.
  - destruct Hv. split; simpl; try done;
      intros j Hj; pose proof (ri_lock0 _ _ Hj eq_refl); congruence.
Qed.

Lemma rec_run_inv s s' : rtc rec_step s s' -> rec_inv s -> rec_inv s'.
Proof. induction 1; eauto using rec_step_inv. Qed.

(** C36. Reporting a broken connection, in every interleaving: while the
    consumer's goroutine waits for an error none is marked as reported, so the
    next report is not swallowed; a report that has to be sent finds the
    goroutine waiting or about to wait; whoever holds the lock can go on; and
    the goroutine is never kept from reconnecting: there is no deadlock. *)
Theorem reconnect_never_stuck b s :
  rtc rec_step (RunConsume b) s ->
  (main s = MSelect -> status s = false) /\
  (forall i, reports s !! i = Some RSend -> main s = MStart \/ main s = MSelect) /\
  (forall i, lock s = Some i -> exists s', rec_step s s' /\
     (reports s' !! i <> reports s !! i \/ main s = MStart)) /\
  (main s <> MSelect -> (exists s', rec_step s s' /\ main s' <> main s) \/
     exists i s', lock s = Some i /\ rec_step s s' /\ lock s' = None).
Proof.
  intros Hr. apply rec_run_inv in Hr as Hv; [|apply RunConsume_inv]. clear Hr.
  split; [intros Hm; apply (ri_status s Hv); by rewrite Hm|].
  assert (forall i, reports s !! i = Some RSend -> main s = MStart \/ main s = MSelect) as Hsend.
  { intros i Hi. pose proof (ri_send s Hv i Hi). destruct (main s); auto; done. }
  split; [done|]. split.
  - intros i Hl. destruct (ri_holder s Hv i Hl) as (p & Hp & Hh).
    pose proof (lookup_lt_Some _ _ _ Hp) as Hlt. destruct p; try done.
    + destruct (Hsend i Hp) as [Hm|Hm]; eexists; (split; [by econstructor|]); [by right|].
      left. simpl. rewrite list_lookup_insert_eq by done. congruence.
    + eexists. split; [by eapply c_set|]. left. simpl. rewrite list_lookup_insert_eq by done. congruence.
  - intros Hns. destruct (lock s) as [i|] eqn:Hl.
    + destruct (ri_holder s Hv i Hl) as (p & Hp & Hh). destruct p; try done.
      * destruct (Hsend i Hp) as [Hm|Hm]; [|done]. left. eexists. split; [by eapply c_listeners|].
        simpl. congruence.
      * right. exists i. eexists. split_and!; [done|by eapply c_set|done].
    + left. destruct (main s) eqn:Hm; [|done|..]; eexists;
        [split; [by eapply c_listeners|]|split; [by eapply c_received|]|split; [by eapply c_retry_works|]|
         split; [by eapply c_reset|]]; simpl; congruence.
Qed.

(** ** [RunConsume] does not return *)

(** What happens around the goroutine: an error arrives, or an attempt to
    reconnect ends. *)
Inductive happening := HError | HConnect (ok : bool).

(** [<-pool.errorChanel] and the loop of [retryConsume]; [None] while they
    block. *)
Fixpoint wait_error (hs : list happening) : option (list happening) :=
  match hs with
  | [] => None
  | HError :: hs' => Some hs'
  | _ :: hs' => wait_error hs'
  end.
Fixpoint retry_loop (hs : list happening) : option (list happening) :=
  match hs with
  | [] => None
  | HConnect true :: hs' => Some hs'
  | _ :: hs' => retry_loop hs'
  end.

(** [rConsume] and [retryConsume], which call each other. *)
Fixpoint rConsume (fuel : nat) (connected : bool) (hs : list happening) : option (list happening) :=
  match fuel with
  | O => None
  | S fuel' =>
      hs ← (if connected then Some hs
            else hs ← retry_loop hs; rConsume fuel' true hs);
      hs ← wait_error hs;
      hs ← retry_loop hs;
      rConsume fuel' true hs
  end.

(** [RunConsume] never returns, whatever happens: every error is answered by a
    reconnection that waits for the next one, and no context ends it. *)
Lemma rConsume_none fuel connected hs : rConsume fuel connected hs = None.
Proof.
  revert connected hs. induction fuel as [|fuel IH]; intros connected hs; [done|]. simpl.
  destruct connected; simpl.
  - destruct (wait_error hs) as [hs1|]; [simpl|done]. destruct (retry_loop hs1); [simpl|done]. apply IH.
  - destruct (retry_loop hs) as [hs1|]; [simpl|done]. by rewrite IH.
Qed.

Lemma reconnect_never_stuck_witness :
  exists s, rtc rec_step (RunConsume true) s /\ main s = MSelect /\ status s = false.
Proof.
  exists (mkRecon MSelect false None [] true 0).
  assert (rtc rec_step (RunConsume true) (mkRecon MSelect false None [] true 0)) as Hr
    by (apply rtc_once; apply (c_listeners (RunConsume true)); reflexivity).
  split; [exact Hr|]. split; [reflexivity|].
  apply (reconnect_never_stuck true (mkRecon MSelect false None [] true 0) Hr). reflexivity.
Defined.
