(* ===== verification/Accept.v ===== *)
(** * Accept loops ([server/tcp_server.go])

    [tcpListenerAccept] and [shadowSocksListenerAccept] have the same body: a
    loop that accepts while [isRun] holds, with two goroutines per connection,
    one that runs the handler and one that closes the connection when the
    handler has returned or the context is done. The loop, its connections and
    the environment (clients, [Stop]) are a transition system. *)
From stdpp Require Import base list numbers relations.
From S2P Require Import Prelude.

(** The loop: at the test of [isRun]; in [Accept]; in the deferred
    [wg.Wait()]; returned. *)
Inductive apc := AHead | AAccept | AWait | ARet.
#[global] Instance apc_eq_dec : EqDecision apc.
Proof. solve_decision. Defined.
(** The goroutine of a connection: in its [select]; before [conn.Close()]; in
    [for range done]; after [wg.Done()]. *)
Inductive kpc := KSelect | KClose | KDrain | KDone.

Record conn := mkConn {
  kp : kpc;
  (** the handler has returned and [done] is closed *)
  handled : bool;
  opened : bool
}.

Record listener := mkListener {
  isRun : bool;
  cancelled : bool;
  listening : bool;
  ap : apc;
  conns : list conn
}.

Definition start : listener := mkListener true false true AHead [].

Definition set_ap (p : apc) (s : listener) : listener :=
  mkListener (isRun s) (cancelled s) (listening s) p (conns s).
Definition set_conn (i : nat) (c : conn) (s : listener) : listener :=
  mkListener (isRun s) (cancelled s) (listening s) (ap s) (<[i := c]> (conns s)).

Definition done_all (s : listener) : bool :=
  forallb (fun c => match kp c with KDone => true | _ => false end) (conns s).

(** The goroutines of the loop and of its connections. *)
Inductive own_step : listener -> listener -> Prop :=
| o_test s : ap s = AHead -> own_step s (set_ap (if isRun s then AAccept else AWait) s)
| o_accept_closed s : ap s = AAccept -> listening s = false -> own_step s (set_ap AHead s)
| o_wait s : ap s = AWait -> done_all s = true -> own_step s (set_ap ARet s)
| o_handler s i c :
    conns s !! i = Some c -> handled c = false ->
    own_step s (set_conn i (mkConn (kp c) true (opened c)) s)
| o_select s i c :
    conns s !! i = Some c -> kp c = KSelect -> cancelled s || handled c = true ->
    own_step s (set_conn i (mkConn KClose (handled c) (opened c)) s)
| o_close s i c :
    conns s !! i = Some c -> kp c = KClose ->
    own_step s (set_conn i (mkConn KDrain (handled c) false) s)
| o_drain s i c :
    conns s !! i = Some c -> kp c = KDrain -> handled c = true ->
    own_step s (set_conn i (mkConn KDone (handled c) (opened c)) s).

(** Clients and faults of the network: a connection is accepted, or [Accept]
    fails although the listener is open. *)
Inductive client_step : listener -> listener -> Prop :=
| n_connect s :
    ap s = AAccept -> listening s = true ->
    client_step s (mkListener (isRun s) (cancelled s) (listening s) AHead
      (conns s ++ [mkConn KSelect false true]))
| n_fault s : ap s = AAccept -> listening s = true -> client_step s (set_ap AHead s).

(** [Stop]: [isRun.Store(false)], the [Close] of the listener, the
    cancellation of the context. *)
Inductive stop_step : listener -> listener -> Prop :=
| e_run s : stop_step s (mkListener false (cancelled s) (listening s) (ap s) (conns s))
| e_close s : stop_step s (mkListener (isRun s) (cancelled s) false (ap s) (conns s))
| e_cancel s : stop_step s (mkListener (isRun s) true (listening s) (ap s) (conns s)).

Inductive accept_step : listener -> listener -> Prop :=
| a_own s s' : own_step s s' -> accept_step s s'
| a_client s s' : client_step s s' -> accept_step s s'
| a_stop s s' : stop_step s s' -> accept_step s s'.

(** ** Safety *)
Record conn_ok (c : conn) : Prop := mkConnOk {
  co_open : opened c = true <-> kp c = KSelect \/ kp c = KClose;
  co_done : kp c = KDone -> handled c = true
}.

Record accept_inv (s : listener) : Prop := mkAcceptInv {
  ac_conns : Forall conn_ok (conns s);
  ac_ret : ap s = ARet -> done_all s = true
}.

Lemma done_all_lookup s i c : done_all s = true -> conns s !! i = Some c -> kp c = KDone.
Proof.
  unfold done_all. rewrite forallb_forall. intros Hd Hi. specialize (Hd c).
  destruct (kp c); try done; (discriminate Hd; apply list_elem_of_In; by eapply list_elem_of_lookup_2).
Qed.

Lemma done_all_insert s i c c' :
  conns s !! i = Some c -> kp c = KDone -> kp c' = KDone -> done_all s = true ->
  done_all (set_conn i c' s) = true.
Proof.
  intros Hi Hc Hc' Hd. unfold done_all in *. simpl. rewrite forallb_forall in *. intros x Hx.
  apply list_elem_of_In, list_elem_of_lookup_1 in Hx as [j Hj].
  apply list_lookup_insert_Some in Hj as [(_ & <- & _)|[_ Hj]]; [by rewrite Hc'|].
  apply Hd, list_elem_of_In. by eapply list_elem_of_lookup_2.
Qed.

Lemma own_step_inv s s' : own_step s s' -> accept_inv s -> accept_inv s'.
Proof.
  intros Hs [Hc Hr]. destruct Hs as [s Hp|s Hp Hl|s Hp Hd|s i c Hi Hh|s i c Hi Hk Hsel|s i c Hi Hk|s i c Hi Hk Hh].
  - split; [done|]. simpl. by destruct (isRun s).
  - by split.
  - by split.
  - pose proof (Forall_lookup_1 _ _ _ _ Hc Hi) as [Ho Hd]. split; simpl.
    + apply Forall_insert; [done|]. by split; simpl.
    + intros Hp. pose proof (done_all_lookup s i c (Hr Hp) Hi) as E. rewrite Hd in Hh; done.
  - pose proof (Forall_lookup_1 _ _ _ _ Hc Hi) as [Ho Hd]. split; simpl.
    + apply Forall_insert; [done|]. split; simpl; [|done]. rewrite Ho, Hk. tauto.
    + intros Hp. pose proof (done_all_lookup s i c (Hr Hp) Hi). congruence.
  - split; simpl.
    + apply Forall_insert; [done|]. split; simpl; [|done]. split; [done|by intros [|]].
    + intros Hp. pose proof (done_all_lookup s i c (Hr Hp) Hi). congruence.
  - pose proof (Forall_lookup_1 _ _ _ _ Hc Hi) as [Ho Hd]. split; simpl.
    + apply Forall_insert; [done|]. split; simpl; [|done]. rewrite Ho, Hk. split; intros [|]; done.
    + intros Hp. pose proof (done_all_lookup s i c (Hr Hp) Hi). congruence.
Qed.

Lemma accept_step_inv s s' : accept_step s s' -> accept_inv s -> accept_inv s'.
Proof.
  intros Hs Hv. destruct Hs as [s s' Hs|s s' Hs|s s' Hs]; [by eapply own_step_inv|..].
  - destruct Hv as [Hc Hr]. destruct Hs as [s Hp Hl|s Hp Hl]; [|by split]. split; [|done].
    apply Forall_app. split; [done|]. constructor; [|done]. by split; simpl; [tauto|].
  - destruct Hv as [Hc Hr]. by destruct Hs.
Qed.

Lemma accept_run_inv s s' : rtc accept_step s s' -> accept_inv s -> accept_inv s'.
Proof. induction 1; eauto using accept_step_inv. Qed.

(** No connection outlives its accept loop: in every interleaving with
    clients and with [Stop], a connection is open until its goroutine closes
    it, the goroutine ends only after the handler has returned and the
    connection was closed, and when the loop returns this holds for every
    connection it ever accepted. *)
Theorem accept_loop_safe s i c :
  rtc accept_step start s -> conns s !! i = Some c ->
  (opened c = true <-> kp c = KSelect \/ kp c = KClose) /\
  (kp c = KDone -> handled c = true /\ opened c = false) /\
  (ap s = ARet -> handled c = true /\ opened c = false).
Proof.
  intros Hr Hi. destruct (accept_run_inv start s Hr) as [Hc Hret]; [by split; [constructor|]|].
  destruct (Forall_lookup_1 _ _ _ _ Hc Hi) as [Ho Hd].
  assert (kp c = KDone -> handled c = true /\ opened c = false) as Hdone.
  { intros Hk. split; [auto|]. destruct (opened c); [|done]. destruct (proj1 Ho eq_refl); congruence. }
  split_and!; [done..|]. intros Hp. apply Hdone. by apply (done_all_lookup s i c (Hret Hp)).
Qed.

(** ** Stopping *)
Definition ap_work (p : apc) : nat := match p with AAccept => 3 | AHead => 2 | AWait => 1 | ARet => 0 end.
Definition conn_work (c : conn) : nat :=
  (match kp c with KSelect => 3 | KClose => 2 | KDrain => 1 | KDone => 0 end) +
  (if handled c then 0 else 1).
Definition work (s : listener) : nat := ap_work (ap s) + sum_list_with conn_work (conns s).

(** [Stop] has been here: the context is done, and the loop does not wait for
    a connection. *)
Definition stopped (s : listener) : Prop :=
  isRun s = false /\ (listening s = false \/ ap s <> AAccept) /\ cancelled s = true.

(** Half of it: [isRun] is false and the context done, but the loop may still
    wait for a connection. *)
Definition halted (s : listener) : Prop := isRun s = false /\ cancelled s = true.

Lemma own_step_halted s s' : halted s -> own_step s s' -> halted s' /\ (work s' < work s)%nat.
Proof.
  intros Hst Hs. pose proof Hst as [Hrun Hc]. unfold work.
  destruct Hs as [s Hp|s Hp _|s Hp Hd|s i c Hi Hh|s i c Hi Hk Hsel|s i c Hi Hk|s i c Hi Hk Hh];
    (split; [by split|]); simpl.
  - rewrite Hp, Hrun. simpl. lia.
  - rewrite Hp. simpl. lia.
  - rewrite Hp. simpl. lia.
  - pose proof (sum_list_insert conn_work _ _ _ (mkConn (kp c) true (opened c)) Hi) as E.
    unfold conn_work at 2 4 in E. rewrite Hh in E. simpl in E. lia.
  - pose proof (sum_list_insert conn_work _ _ _ (mkConn KClose (handled c) (opened c)) Hi) as E.
    unfold conn_work at 2 4 in E. rewrite Hk in E. simpl in E. lia.
  - pose proof (sum_list_insert conn_work _ _ _ (mkConn KDrain (handled c) false) Hi) as E.
    unfold conn_work at 2 4 in E. rewrite Hk in E. simpl in E. lia.
  - pose proof (sum_list_insert conn_work _ _ _ (mkConn KDone (handled c) (opened c)) Hi) as E.
    unfold conn_work at 2 4 in E. rewrite Hk in E. simpl in E. lia.
Qed.

Lemma own_step_stopped s s' : stopped s -> own_step s s' -> stopped s' /\ (work s' < work s)%nat.
Proof.
  intros (Hrun & Hl & Hc) Hs. destruct (own_step_halted s s' ltac:(by split) Hs) as [[? ?] Hlt].
  split; [|done]. split_and!; [done| |done]. clear Hlt.
  destruct Hs; simpl; rewrite ?Hrun; auto; by destruct Hl; auto.
Qed.

Lemma not_done_found s :
  done_all s = false -> exists i c, conns s !! i = Some c /\ kp c <> KDone.
Proof.
  unfold done_all. induction (conns s) as [|c cs IH]; [done|]. simpl.
  destruct (kp c) eqn:E; simpl; [exists 0%nat, c; split; [done|congruence]..|].
  intros (i & c' & ? & ?)%IH. by exists (S i), c'.
Qed.

Lemma stopped_progress s : stopped s -> ap s <> ARet -> exists s', own_step s s'.
Proof.
  intros (Hrun & Hl & Hc) Hp. destruct (ap s) eqn:E; [eauto using own_step|..|done].
  { destruct Hl; [eauto using own_step|done]. }
  destruct (done_all s) eqn:Hd; [eauto using own_step|].
  destruct (not_done_found s Hd) as (i & c & Hi & Hk).
  destruct (kp c) eqn:Ek; [..|done].
  - eexists. eapply o_select; [done..|]. by rewrite Hc.
  - eauto using own_step.
  - destruct (handled c) eqn:Eh; eauto using own_step.
Qed.

(** A stopped accept loop ends: once [isRun] is false, the listener closed
    (or the loop out of [Accept]) and the context done, every run of its goroutines is bounded, and where
    the loop has not returned one of them can go on: [Accept] fails, the
    connections are closed, the handlers return. *)
Theorem accept_loop_stops s k s' :
  stopped s -> nsteps own_step k s s' ->
  (k <= work s)%nat /\ (ap s' = ARet \/ exists s'', own_step s' s'').
Proof.
  intros Hst Hk. assert (stopped s' /\ (k + work s' <= work s)%nat) as [Hst' Hle].
  { revert Hst. induction Hk as [s|k s s1 s' Hs _ IH]; intros Hst; [split; [done|lia]|].
    destruct (own_step_stopped s s1 Hst Hs) as [Hst1 Hlt]. destruct (IH Hst1). split; [done|lia]. }
  split; [lia|]. destruct (ap s') eqn:E; [right; apply stopped_progress; congruence..|by left].
Qed.

(** [Stop] for a listener it does not close. *)
Inductive half_stop : listener -> listener -> Prop :=
| h_own s s' : own_step s s' -> half_stop s s'
| h_run s : half_stop s (mkListener false (cancelled s) (listening s) (ap s) (conns s))
| h_cancel s : half_stop s (mkListener (isRun s) true (listening s) (ap s) (conns s)).

(** A loop whose listener stays open does not end: [Stop] closes the
    listeners of the HTTP and SOCKS5 ports but not that of Shadowsocks, and
    without another client its loop stays in [Accept] for ever. *)
Theorem open_listener_blocks s s' :
  ap s = AAccept -> listening s = true -> rtc half_stop s s' -> ap s' = AAccept /\ listening s' = true.
Proof.
  intros Hp Hl Hr. induction Hr as [s|s s1 s' Hs _ IH]; [done|].
  apply IH; destruct Hs as [s s1 Hs| |]; try done; destruct Hs; simpl; congruence.
Qed.

Definition demo_serving : listener := mkListener true false true AAccept [mkConn KSelect false true].

Lemma demo_serving_reached : rtc accept_step start demo_serving.
Proof.
  eapply rtc_l; [apply a_own; by apply (o_test start)|].
  eapply rtc_l; [apply a_client; by apply n_connect|].
  eapply rtc_l; [apply a_own; by apply o_test|]. apply rtc_refl.
Qed.

Lemma accept_loop_safe_witness :
  conns demo_serving !! 0%nat = Some (mkConn KSelect false true) /\
  (opened (mkConn KSelect false true) = true <-> KSelect = KSelect \/ KSelect = KClose).
Proof.
  split; [reflexivity|].
  exact (proj1 (accept_loop_safe demo_serving 0 (mkConn KSelect false true) demo_serving_reached eq_refl)).
Defined.

Definition demo_stopped : listener := mkListener false true false AAccept [mkConn KSelect false true].

Lemma accept_loop_stops_witness :
  (0 <= work demo_stopped)%nat /\ (ap demo_stopped = ARet \/ exists s, own_step demo_stopped s).
Proof.
  apply (accept_loop_stops demo_stopped 0); [by split_and!; [|left|]|constructor].
Defined.

Lemma open_listener_blocks_witness :
  ap (mkListener false true true AAccept []) = AAccept.
Proof.
  apply (open_listener_blocks (mkListener true false true AAccept []) (mkListener false true true AAccept []));
    [reflexivity|reflexivity|].
  eapply rtc_l; [apply (h_run (mkListener true false true AAccept []))|].
  eapply rtc_l; [apply h_cancel|]. apply rtc_refl.
Defined.
