(* ===== verification/Socks5.v ===== *)
(** * The SOCKS5 messages ([utils/socks5/func.go])

    The functions that read the greeting, the credentials and the request of
    a SOCKS5 client from a connection, and the one that writes a reply, with
    the parts of package [net] they use (addresses and their text). Each
    reading function is related to a parser of the flat byte stream, so that
    its result does not depend on how TCP cut the message. Read and write
    deadlines only turn silence into an error of the connection. *)
From Stdlib Require Import Strings.Byte.
From stdpp Require Import base gmap strings numbers pretty list.
From S2P Require Import Prelude GoIO.

Definition socks5Version : byte := x05.
Definition NoAuth : byte := x00.
Definition NoAcceptable : byte := xff.
Definition UserPassAuth : byte := x02.
Definition UserAuthVersion : byte := x01.
Definition AuthSuccess : byte := x00.
Definition AuthFailure : byte := x01.
Definition ConnectCommand : byte := x01.
Definition ipv4Address : byte := x01.
Definition fqdnAddress : byte := x03.
Definition ipv6Address : byte := x04.
Definition SuccessReply : byte := x00.
Definition ServerFailure : byte := x01.
Definition RuleFailure : byte := x02.
Definition NetworkUnreachable : byte := x03.
Definition HostUnreachable : byte := x04.
Definition ConnectionRefused : byte := x05.
Definition AddrTypeNotSupported : byte := x08.
Definition UnrecognizedAddrType : error := Errorf "无法识别的地址类型".

(** ** Package [net] *)

Definition v4InV6Prefix : bytes :=
  [x00;x00;x00;x00;x00;x00;x00;x00;x00;x00;xff;xff].

(** [ip.To4()] and [ip.To16()]; [None] is the nil slice. *)
Definition To4 (ip : bytes) : option bytes :=
  if bool_decide (length ip = 4%nat) then Some ip
  else if bool_decide (length ip = 16%nat) && bool_decide (take 12 ip = v4InV6Prefix)
       then Some (drop 12 ip) else None.
Definition To16 (ip : bytes) : option bytes :=
  if bool_decide (length ip = 4%nat) then Some (v4InV6Prefix ++ ip)
  else if bool_decide (length ip = 16%nat) then Some ip else None.

Definition hex_digit (z : Z) : string :=
  default EmptyString (["0";"1";"2";"3";"4";"5";"6";"7";"8";"9";"a";"b";"c";"d";"e";"f"] !! Z.to_nat z).
(** A 16-bit group in hexadecimal without leading zeros. *)
Definition hex16 (z : Z) : string :=
  (if z >=? 4096 then hex_digit (z / 4096) else EmptyString) +:+
  (if z >=? 256 then hex_digit (z / 256 mod 16) else EmptyString) +:+
  (if z >=? 16 then hex_digit (z / 16 mod 16) else EmptyString) +:+
  hex_digit (z mod 16).

Fixpoint groups (ip : bytes) : list Z :=
  match ip with
  | a :: b :: ip' => (byte_Z a * 256 + byte_Z b) :: groups ip'
  | _ => []
  end.

(** The number of zero groups at the front, and the longest run of at least
    two zero groups, the first one when several are as long: its position and
    its length. *)
Fixpoint zero_run (g : list Z) : nat :=
  match g with 0 :: g' => S (zero_run g') | _ => 0%nat end.
Fixpoint longest_run (i : nat) (g : list Z) (best : nat * nat) : nat * nat :=
  match g with
  | [] => best
  | _ :: g' =>
      let l := zero_run g in
      longest_run (S i) g'
        (if bool_decide (2 <= l)%nat && bool_decide (best.2 < l)%nat then (i, l) else best)
  end.

Definition colon_join (g : list Z) : string := String.concat ":" (hex16 <$> g).
Definition IPv6_String (ip : bytes) : string :=
  let g := groups ip in
  let '(i, l) := longest_run 0 g (0%nat, 0%nat) in
  if bool_decide (l = 0%nat) then colon_join g
  else colon_join (take i g) +:+ "::" +:+ colon_join (drop (i + l) g).

Definition IPv4_String (ip : bytes) : string :=
  String.concat "." (Itoa ∘ byte_Z <$> ip).

(** [ip.String()]. *)
Definition IP_String (ip : bytes) : string :=
  match ip with
  | [] => "<nil>"
  | _ =>
      match To4 ip with
      | Some ip4 => IPv4_String ip4
      | None =>
          if bool_decide (length ip = 16%nat) then IPv6_String ip
          else "?" +:+ String.concat EmptyString
                 ((fun b => hex_digit (byte_Z b / 16) +:+ hex_digit (byte_Z b mod 16)) <$> ip)
      end
  end.

Definition JoinHostPort (host port : string) : string :=
  if Contains host ":" then "[" +:+ host +:+ "]:" +:+ port else host +:+ ":" +:+ port.

(** ** Addresses *)

Record AddrSpec := mkAddr { FQDN : string; IP : bytes; Port : Z }.

Definition AddrSpec_String (a : AddrSpec) : string :=
  if negb (bool_decide (FQDN a = EmptyString))
  then FQDN a +:+ " (" +:+ IP_String (IP a) +:+ "):" +:+ Itoa (Port a)
  else IP_String (IP a) +:+ ":" +:+ Itoa (Port a).

Definition Address (a : AddrSpec) : string :=
  if negb (bool_decide (length (IP a) = 0%nat)) then JoinHostPort (IP_String (IP a)) (Itoa (Port a))
  else JoinHostPort (FQDN a) (Itoa (Port a)).

(** ** Reading *)

(** A read and the continuation of the function: on an error the function
    returns [f err]. *)
Definition on_read {A B} (f : error -> result error B) (r : result error A * Conn)
    (k : A -> Conn -> result error B * Conn) : result error B * Conn :=
  match r with
  | (Ok a, c) => k a c
  | (Err e, c) => (f e, c)
  end.

(** The port field. *)
Definition port_of (port : bytes) : Z :=
  match port with
  | [p0; p1] => Z.lor (Z.shiftl (byte_Z p0) 8) (byte_Z p1)
  | _ => 0
  end.

Definition ReadPort (d : AddrSpec) (r : Conn) : result error AddrSpec * Conn :=
  on_read Err (ReadAtLeast 2 r) (fun port r => (Ok (mkAddr (FQDN d) (IP d) (port_of port)), r)).

Definition ReadAddrSpec (r : Conn) : result error AddrSpec * Conn :=
  on_read Err (ReadByte x00 r) (fun addrType r =>
    if bool_decide (addrType = ipv4Address) then
      on_read Err (ReadAtLeast 4 r) (fun addr r => ReadPort (mkAddr EmptyString addr 0) r)
    else if bool_decide (addrType = ipv6Address) then
      on_read Err (ReadAtLeast 16 r) (fun addr r => ReadPort (mkAddr EmptyString addr 0) r)
    else if bool_decide (addrType = fqdnAddress) then
      on_read Err (ReadByte addrType r) (fun addrLen r =>
        on_read Err (ReadAtLeast (Z.to_nat (byte_Z addrLen)) r) (fun fqdn r =>
          ReadPort (mkAddr (str_of_bytes fqdn) [] 0) r))
    else (Err UnrecognizedAddrType, r)).

(** [header[i]]; the header has three bytes, and the index is in range. *)
Definition nth_byte (i : nat) (b : bytes) : byte := default x00 (b !! i).

Definition ReadDestAddr (bufConn : Conn) : result error AddrSpec * Conn :=
  on_read (fun err => Err (Errorf ("无法获取命令版本" +:+ Error err))) (ReadAtLeast 3 bufConn)
    (fun header bufConn =>
       if negb (bool_decide (nth_byte 0 header = socks5Version))
       then (Err (Errorf ("不支持的命令版本： " +:+ Itoa (byte_Z (nth_byte 0 header)))), bufConn)
       else ReadAddrSpec bufConn).

(** [ReadVersion] returns the version with the error too. *)
Definition ReadVersion (conn : Conn) : (byte * option error) * Conn :=
  match ReadByte x00 conn with
  | (Err err, conn) => ((x00, Some err), conn)
  | (Ok version, conn) =>
      if negb (bool_decide (version = socks5Version))
      then ((version, Some (Errorf ("不支持的SOCKS版本: [" +:+ Itoa (byte_Z version) +:+ "]"))), conn)
      else ((version, None), conn)
  end.

(** [ReadMethods]; on a short read the error comes with the buffer, which the
    caller does not use. *)
Definition ReadMethods (r : Conn) : result error bytes * Conn :=
  on_read Err (ReadByte x00 r) (fun numMethods r =>
    ReadAtLeast (Z.to_nat (byte_Z numMethods)) r).

(** The rest of [GetUserPassword] once the method is announced. *)
Definition read_credentials (conn : Conn) : result error (string * string) * Conn :=
  on_read Err (ReadAtLeast 2 conn) (fun header conn =>
    if negb (bool_decide (nth_byte 0 header = UserAuthVersion))
    then (Err (Errorf ("不支持的身份验证版本: " +:+ Itoa (byte_Z (nth_byte 0 header)))), conn)
    else
      on_read Err (ReadAtLeast (Z.to_nat (byte_Z (nth_byte 1 header))) conn) (fun user conn =>
        on_read Err (ReadByte (nth_byte 0 header) conn) (fun passLen conn =>
          on_read Err (ReadAtLeast (Z.to_nat (byte_Z passLen)) conn) (fun pass conn =>
            (Ok (str_of_bytes user, str_of_bytes pass), conn))))).

Definition GetUserPassword (conn : Conn) : result error (string * string) * Conn :=
  match conn_Write [socks5Version; UserPassAuth] conn with
  | ((_, Some err), conn) => (Err err, conn)
  | ((_, None), conn) => read_credentials conn
  end.

(** ** Writing *)

(** The address type, body and port of a reply, or [None] for an address
    that cannot be formatted. *)
Definition reply_addr (addr : option AddrSpec) : option (byte * bytes * Z) :=
  match addr with
  | None => Some (ipv4Address, [x00; x00; x00; x00], 0)
  | Some addr =>
      if negb (bool_decide (FQDN addr = EmptyString)) then
        let fqdn := bytes_of_str (FQDN addr) in
        Some (fqdnAddress, Z_byte (Z.of_nat (length fqdn)) :: fqdn, u16 (Port addr))
      else match To4 (IP addr) with
      | Some ip4 => Some (ipv4Address, ip4, u16 (Port addr))
      | None =>
          match To16 (IP addr) with
          | Some ip16 => Some (ipv6Address, ip16, u16 (Port addr))
          | None => None
          end
      end
  end.

Definition SendReply (r : Conn) (resp : byte) (addr : option AddrSpec) : option error * Conn :=
  match reply_addr addr with
  | None =>
      (Some (Errorf ("无法格式化地址： " +:+ from_option AddrSpec_String "<nil>" addr)), r)
  | Some (addrType, addrBody, addrPort) =>
      let msg := [socks5Version; resp; x00; addrType] ++ addrBody ++
                 [Z_byte (Z.shiftr addrPort 8); Z_byte (Z.land addrPort 255)] in
      let '((_, err), r) := conn_Write msg r in (err, r)
  end.

(** ** Reading functions as parsers of the stream *)

(** A parser of a flat byte string: a value and what follows it. *)
Definition parser (A : Type) : Type := bytes -> option (A * bytes).
Definition ptake (n : nat) : parser bytes := fun s =>
  if bool_decide (n <= length s)%nat then Some (take n s, drop n s) else None.
Definition pbyte : parser byte := fun s => match s with b :: s' => Some (b, s') | [] => None end.
Definition pbind {A B} (p : parser A) (k : A -> parser B) : parser B := fun s =>
  match p s with Some (a, s') => k a s' | None => None end.
Definition pret {A} (a : A) : parser A := fun s => Some (a, s).
Definition pfail {A} : parser A := fun _ => None.

(** [f] reads from a connection what [p] parses from its stream, however the
    stream is cut into segments, and leaves the sending side alone. *)
Definition reads {A} (f : Conn -> result error A * Conn) (p : parser A) : Prop :=
  forall c, conn_wf c ->
  match p (conn_stream c) with
  | Some (a, rest) => exists c', f c = (Ok a, c') /\ conn_left c rest c'
  | None => exists e c' rest, f c = (Err e, c') /\ conn_left c rest c'
  end.

Lemma reads_take n : reads (ReadAtLeast n) (ptake n).
Proof.
  intros c Hw. unfold ptake. destruct (ReadAtLeast_left n c Hw)
    as [(d & rest & c' & Hs & Hl & E & Hc)|(e & c' & Hl & E & Hc)].
  - rewrite Hs, bool_decide_eq_true_2 by (rewrite length_app; lia). exists c'.
    by rewrite take_app_length', drop_app_length' by done.
  - rewrite bool_decide_eq_false_2 by lia. eauto 10.
Qed.

Lemma reads_byte old : reads (ReadByte old) pbyte.
Proof.
  intros c Hw. destruct (ReadByte_left old c Hw)
    as [(b & rest & c' & Hs & E & Hc)|(e & c' & Hs & E & Hc)]; rewrite Hs; simpl; eauto 10.
Qed.

Lemma reads_bind {A B} f g (p : parser A) (k : A -> Conn -> result error B * Conn) h :
  reads f p -> (forall e, exists e', g e = Err e') -> (forall a, reads (k a) (h a)) ->
  reads (fun c => on_read g (f c) k) (pbind p h).
Proof.
  intros Hf Hg Hk c Hw. specialize (Hf c Hw). unfold pbind, on_read.
  destruct (p (conn_stream c)) as [[a rest]|].
  - destruct Hf as (c1 & -> & Hc1). pose proof Hc1 as (Hs1 & _ & Hw1).
    specialize (Hk a c1 Hw1). rewrite Hs1 in Hk. destruct (h a rest) as [[b rest']|].
    + destruct Hk as (c2 & -> & Hc2). eauto using conn_left_trans.
    + destruct Hk as (e & c2 & rest' & -> & Hc2). eauto 10 using conn_left_trans.
  - destruct Hf as (e & c1 & rest & -> & Hc1). destruct (Hg e) as [e' ->]. eauto 10.
Qed.

Lemma reads_if {A} (b : bool) f g (p q : parser A) :
  reads f p -> reads g q ->
  reads (fun c => if b then f c else g c) (if b then p else q).
Proof. by destruct b. Qed.

Lemma reads_ret {A} (a : A) : reads (fun c => (Ok a, c)) (pret a).
Proof. intros c Hw. exists c. split; [done|]. by split_and!. Qed.

Lemma reads_fail {A} e : reads (A := A) (fun c => (Err e, c)) pfail.
Proof. intros c Hw. exists e, c, (conn_stream c). split; [done|]. by split_and!. Qed.

#[local] Hint Resolve reads_take reads_byte reads_bind reads_if reads_ret reads_fail : hera.

(** Solve a [reads] goal along the structure of the code. *)
Ltac solve_reads :=
  repeat first
    [ apply reads_take | apply reads_byte | apply reads_ret | apply reads_fail
    | eapply reads_bind; [| by eauto |] | apply reads_if | intros ? ].

Definition pport (d : AddrSpec) : parser AddrSpec :=
  pbind (ptake 2) (fun port => pret (mkAddr (FQDN d) (IP d) (port_of port))).
Definition paddr : parser AddrSpec :=
  pbind pbyte (fun t =>
    if bool_decide (t = ipv4Address) then
      pbind (ptake 4) (fun addr => pport (mkAddr EmptyString addr 0))
    else if bool_decide (t = ipv6Address) then
      pbind (ptake 16) (fun addr => pport (mkAddr EmptyString addr 0))
    else if bool_decide (t = fqdnAddress) then
      pbind pbyte (fun n => pbind (ptake (Z.to_nat (byte_Z n))) (fun fqdn =>
        pport (mkAddr (str_of_bytes fqdn) [] 0)))
    else pfail).
Definition pdest : parser AddrSpec :=
  pbind (ptake 3) (fun header =>
    if negb (bool_decide (nth_byte 0 header = socks5Version)) then pfail else paddr).

Lemma ReadAddrSpec_reads : reads ReadAddrSpec paddr.
Proof.
  unfold ReadAddrSpec, paddr. eapply reads_bind; [apply reads_byte|by eauto|]. intros t.
  unfold ReadPort, pport. solve_reads.
Qed.

Lemma ReadDestAddr_reads : reads ReadDestAddr pdest.
Proof.
  unfold ReadDestAddr, pdest. eapply reads_bind; [apply reads_take|by eauto|]. intros header.
  apply reads_if; [apply reads_fail|apply ReadAddrSpec_reads].
Qed.

Lemma ReadMethods_reads :
  reads ReadMethods (pbind pbyte (fun n => ptake (Z.to_nat (byte_Z n)))).
Proof. unfold ReadMethods. solve_reads. Qed.

Definition pcredentials : parser (string * string) :=
  pbind (ptake 2) (fun header =>
    if negb (bool_decide (nth_byte 0 header = UserAuthVersion)) then pfail
    else pbind (ptake (Z.to_nat (byte_Z (nth_byte 1 header)))) (fun user =>
      pbind pbyte (fun n => pbind (ptake (Z.to_nat (byte_Z n))) (fun pass =>
        pret (str_of_bytes user, str_of_bytes pass))))).

Lemma read_credentials_reads : reads read_credentials pcredentials.
Proof. unfold read_credentials, pcredentials. solve_reads. Qed.

(** The connection after a successful [Write]. *)
Definition sent (p : bytes) (c : Conn) : Conn :=
  mkConn (conn_in c) (conn_in_err c) (conn_out c ++ [p]) (conn_out_err c).

Lemma conn_Write_sent p c :
  conn_out_err c = None -> conn_Write p c = ((length p, None), sent p c).
Proof. unfold conn_Write, sent. by intros ->. Qed.

(** ** The messages *)

Definition port_bytes (port : Z) : bytes := [Z_byte (Z.shiftr port 8); Z_byte (Z.land port 255)].

(** The encodings of an address in a request or a reply. *)
Inductive wire_addr : AddrSpec -> bytes -> Prop :=
| wire_ipv4 ip port :
    length ip = 4%nat -> 0 <= port < 65536 ->
    wire_addr (mkAddr EmptyString ip port) (ipv4Address :: ip ++ port_bytes port)
| wire_ipv6 ip port :
    length ip = 16%nat -> 0 <= port < 65536 ->
    wire_addr (mkAddr EmptyString ip port) (ipv6Address :: ip ++ port_bytes port)
| wire_fqdn fqdn port :
    (length fqdn < 256)%nat -> 0 <= port < 65536 ->
    wire_addr (mkAddr (str_of_bytes fqdn) [] port)
      (fqdnAddress :: Z_byte (Z.of_nat (length fqdn)) :: fqdn ++ port_bytes port).

Lemma port_of_spec a b : port_of [a; b] = byte_Z a * 256 + byte_Z b.
Proof. apply (lor_shiftl _ _ 8); [lia|apply byte_Z_range]. Qed.

Lemma port_of_range p : length p = 2%nat -> 0 <= port_of p < 65536.
Proof.
  destruct p as [|a [|b [|]]]; try done. intros _. rewrite port_of_spec.
  pose proof (byte_Z_range a). pose proof (byte_Z_range b). lia.
Qed.

Lemma port_bytes_spec port : port_bytes port = [Z_byte (port / 256); Z_byte port].
Proof.
  unfold port_bytes. rewrite Z.shiftr_div_pow2 by lia. do 2 f_equal.
  change 255 with (Z.ones 8). rewrite Z.land_ones by lia. unfold Z_byte, wrapU.
  by rewrite Z.mod_mod by lia.
Qed.

Lemma port_of_bytes port : 0 <= port < 65536 -> port_of (port_bytes port) = port.
Proof.
  intros Hp. rewrite port_bytes_spec, port_of_spec, !byte_Z_of_Z.
  Z.to_euclidean_division_equations; lia.
Qed.

Lemma bytes_of_port p : length p = 2%nat -> port_bytes (port_of p) = p.
Proof.
  destruct p as [|a [|b [|]]]; try done. intros _. rewrite port_bytes_spec, port_of_spec.
  pose proof (byte_Z_range a). pose proof (byte_Z_range b).
  f_equal; [|f_equal]; apply byte_Z_inj; rewrite byte_Z_of_Z;
    Z.to_euclidean_division_equations; lia.
Qed.

Lemma ptake_Some n s d rest : ptake n s = Some (d, rest) <-> s = d ++ rest /\ length d = n.
Proof.
  unfold ptake. case_bool_decide as Hn; split.
  - intros [= <- <-]. rewrite take_drop, length_take. split; [done|lia].
  - intros [-> <-]. by rewrite take_app_length, drop_app_length.
  - done.
  - intros [-> <-]. rewrite length_app in Hn. lia.
Qed.

Lemma pbind_Some {A B} (p : parser A) (k : A -> parser B) s b rest :
  pbind p k s = Some (b, rest) <-> exists a s', p s = Some (a, s') /\ k a s' = Some (b, rest).
Proof.
  unfold pbind. destruct (p s) as [[a s']|]; split; try done; eauto.
  - by intros (a' & s1 & [= <- <-] & ?).
  - by intros (? & ? & ? & _).
Qed.

Lemma pport_Some d s d' rest :
  pport d s = Some (d', rest) <->
  exists port, 0 <= port < 65536 /\ d' = mkAddr (FQDN d) (IP d) port /\ s = port_bytes port ++ rest.
Proof.
  unfold pport. rewrite pbind_Some. split.
  - intros (p & s' & [-> Hl]%ptake_Some & [= <- <-]). exists (port_of p).
    rewrite bytes_of_port by done. split_and!; try done; by apply port_of_range.
  - intros (port & Hp & -> & ->). exists (port_bytes port), rest.
    rewrite ptake_Some. by unfold pret; rewrite port_of_bytes.
Qed.

Lemma byte_Z_len n : (n < 256)%nat -> Z.to_nat (byte_Z (Z_byte (Z.of_nat n))) = n.
Proof. intros Hn. rewrite byte_Z_of_Z, Z.mod_small by lia. lia. Qed.

Lemma Z_byte_len b : Z_byte (Z.of_nat (Z.to_nat (byte_Z b))) = b.
Proof.
  pose proof (byte_Z_range b). rewrite Z2Nat.id by lia. apply Z_byte_of_byte.
Qed.

(** The parser accepts exactly the encodings. *)
Lemma paddr_Some s d rest : paddr s = Some (d, rest) <-> exists w, s = w ++ rest /\ wire_addr d w.
Proof.
  unfold paddr. rewrite pbind_Some. split.
  - intros (t & s' & Ht & Hd). destruct s as [|t' s0]; [done|]. injection Ht as <- <-.
    case_bool_decide as H4; [|case_bool_decide as H6; [|case_bool_decide as Hf; [|done]]];
      subst; apply pbind_Some in Hd as (a & s1 & Ha & Hd).
    + apply ptake_Some in Ha as [-> Hl]. apply pport_Some in Hd as (port & Hp & -> & ->).
      eexists. split; [|by apply wire_ipv4]. by rewrite <- app_comm_cons, <- app_assoc.
    + apply ptake_Some in Ha as [-> Hl]. apply pport_Some in Hd as (port & Hp & -> & ->).
      eexists. split; [|by apply wire_ipv6]. by rewrite <- app_comm_cons, <- app_assoc.
    + apply pbind_Some in Hd as (fqdn & s2 & Hb & Hd).
      destruct s0 as [|n s0]; [done|]. injection Ha as <- <-.
      apply ptake_Some in Hb as [-> Hl]. apply pport_Some in Hd as (port & Hp & -> & ->).
      pose proof (byte_Z_range n).
      eexists. split; [|apply wire_fqdn; [|done]]; [|rewrite Hl; lia].
      by rewrite Hl, Z_byte_len, <- !app_comm_cons, <- app_assoc.
  - intros (w & -> & Hw). inversion Hw as [ip port Hl Hp|ip port Hl Hp|fqdn port Hl Hp]; subst;
      simpl; eexists _, _; (split; [reflexivity|]); simpl; apply pbind_Some.
    + exists ip, (port_bytes port ++ rest). rewrite <- app_assoc, ptake_Some, pport_Some. eauto 10.
    + exists ip, (port_bytes port ++ rest). rewrite <- app_assoc, ptake_Some, pport_Some. eauto 10.
    + eexists _, _. split; [reflexivity|]. apply pbind_Some.
      exists fqdn, (port_bytes port ++ rest).
      rewrite <- app_assoc, ptake_Some, pport_Some, byte_Z_len by done. eauto 10.
Qed.

Lemma reads_iff {A} f (p : parser A) c a rest :
  reads f p -> conn_wf c ->
  (exists c', f c = (Ok a, c') /\ conn_left c rest c') <-> p (conn_stream c) = Some (a, rest).
Proof.
  intros Hr Hw. specialize (Hr c Hw). split.
  - intros (c1 & E & (Hs & _)). destruct (p (conn_stream c)) as [[a' rest']|].
    + destruct Hr as (c2 & E2 & (Hs2 & _)). congruence.
    + destruct Hr as (e & c2 & rest' & E2 & _). congruence.
  - intros E. by rewrite E in Hr.
Qed.

Lemma pdest_Some s d rest :
  pdest s = Some (d, rest) <->
  exists cmd rsv w, s = [socks5Version; cmd; rsv] ++ w ++ rest /\ wire_addr d w.
Proof.
  unfold pdest. rewrite pbind_Some. split.
  - intros (h & s' & [-> Hl]%ptake_Some & Hd). destruct h as [|v [|cmd [|rsv [|]]]]; try done.
    unfold nth_byte in Hd. simpl in Hd. case_bool_decide as Hv; [|done]. subst v. simpl in Hd.
    apply paddr_Some in Hd as (w & -> & Hw). eauto.
  - intros (cmd & rsv & w & -> & Hw). exists [socks5Version; cmd; rsv], (w ++ rest).
    rewrite ptake_Some. split; [done|]. simpl. apply paddr_Some. eauto.
Qed.

(** C15. [ReadDestAddr] accepts exactly the SOCKS5 requests: whatever the
    segmentation of the stream, it returns [d] and leaves [rest] unread if and
    only if the stream is the version byte, any command byte, any reserved
    byte, an encoding of [d] and [rest]. The command is not checked. *)
Theorem ReadDestAddr_exact c d rest :
  conn_wf c ->
  (exists c', ReadDestAddr c = (Ok d, c') /\ conn_left c rest c') <->
  (exists cmd rsv w, conn_stream c = [socks5Version; cmd; rsv] ++ w ++ rest /\ wire_addr d w).
Proof.
  intros Hw. rewrite (reads_iff _ pdest) by auto using ReadDestAddr_reads. apply pdest_Some.
Qed.

(** A BIND request for port 443 of 1.2.3.4, in three segments. *)
Definition bind_request : Conn := mkConn [[x05; x02]; [x00; x01; x01]; [x02; x03; x04; x01; xbb; xaa]] EOF [] None.

Lemma ReadDestAddr_exact_witness :
  exists c', ReadDestAddr bind_request = (Ok (mkAddr EmptyString [x01; x02; x03; x04] 443), c') /\
    conn_left bind_request [xaa] c'.
Proof.
  apply ReadDestAddr_exact; [by repeat constructor|].
  exists x02, x00, (x01 :: [x01; x02; x03; x04] ++ port_bytes 443).
  split; [reflexivity|]. by apply wire_ipv4.
Defined.

Lemma pcredentials_Some s u p rest :
  pcredentials s = Some ((u, p), rest) <->
  (length (bytes_of_str u) < 256)%nat /\ (length (bytes_of_str p) < 256)%nat /\
  s = [UserAuthVersion; Z_byte (Z.of_nat (length (bytes_of_str u)))] ++ bytes_of_str u ++
      [Z_byte (Z.of_nat (length (bytes_of_str p)))] ++ bytes_of_str p ++ rest.
Proof.
  unfold pcredentials. rewrite pbind_Some. split.
  - intros (h & s' & [-> Hl]%ptake_Some & Hd). destruct h as [|v [|n [|]]]; try done.
    unfold nth_byte in Hd. simpl in Hd. case_bool_decide as Hv; [|done]. subst v. simpl in Hd.
    apply pbind_Some in Hd as (user & s1 & [-> Hu]%ptake_Some & Hd).
    apply pbind_Some in Hd as (m & s2 & Hm & Hd).
    destruct s1 as [|m' s1]; [done|]. injection Hm as <- <-.
    apply pbind_Some in Hd as (pass & s3 & [-> Hp]%ptake_Some & [= <- <- <-]).
    rewrite !bytes_str_bytes, Hu, Hp, !Z_byte_len.
    pose proof (byte_Z_range n). pose proof (byte_Z_range m'). split_and!; [lia..|done].
  - intros (Hu & Hp & ->). eexists _, _. rewrite ptake_Some. split; [done|]. simpl.
    apply pbind_Some. eexists (bytes_of_str u), _. split.
    { apply ptake_Some. split; [done|]. unfold nth_byte. simpl. by rewrite byte_Z_len. }
    apply pbind_Some. eexists _, _. split; [done|].
    apply pbind_Some. exists (bytes_of_str p), rest.
    rewrite ptake_Some, byte_Z_len by done. unfold pret. by rewrite !str_bytes_str.
Qed.

(** [GetUserPassword] announces the user/password method and returns
    exactly the credentials the client encoded, whatever the segmentation,
    leaving the bytes after them unread: names and passwords of up to 255
    bytes, any bytes in them. *)
Theorem GetUserPassword_exact c u p rest :
  conn_wf c -> conn_out_err c = None ->
  (exists c', GetUserPassword c = (Ok (u, p), c') /\
     conn_left (sent [socks5Version; UserPassAuth] c) rest c') <->
  (length (bytes_of_str u) < 256)%nat /\ (length (bytes_of_str p) < 256)%nat /\
  conn_stream c =
    [UserAuthVersion; Z_byte (Z.of_nat (length (bytes_of_str u)))] ++ bytes_of_str u ++
    [Z_byte (Z.of_nat (length (bytes_of_str p)))] ++ bytes_of_str p ++ rest.
Proof.
  intros Hw Ho. unfold GetUserPassword. rewrite conn_Write_sent by done.
  rewrite (reads_iff read_credentials pcredentials) by auto using read_credentials_reads.
  apply pcredentials_Some.
Qed.

Definition login : Conn :=
  mkConn [[x01; x03; x62]; [x6f; x62; x02]; [x70]; [x77; x05]] EOF [] None.

Lemma GetUserPassword_exact_witness :
  exists c', GetUserPassword login = (Ok ("bob", "pw"), c') /\
    conn_left (sent [socks5Version; UserPassAuth] login) [x05] c'.
Proof.
  apply GetUserPassword_exact; [by repeat constructor|reflexivity|].
  split_and!; [simpl; lia..|reflexivity].
Defined.

(** An address as the peer of [SendReply] reads it. *)
Definition normal_addr (a : AddrSpec) : AddrSpec :=
  if bool_decide (FQDN a = EmptyString) then mkAddr EmptyString (default (IP a) (To4 (IP a))) (Port a)
  else mkAddr (FQDN a) [] (Port a).

Lemma To4_length ip ip4 : To4 ip = Some ip4 -> length ip4 = 4%nat.
Proof.
  unfold To4. repeat case_bool_decide; intros [= <-]; try done. rewrite length_drop. lia.
Qed.

Lemma reply_addr_wire a :
  (length (bytes_of_str (FQDN a)) < 256)%nat -> 0 <= Port a < 65536 ->
  match reply_addr (Some a) with
  | Some (t, body, port) => port = Port a /\ wire_addr (normal_addr a) (t :: body ++ port_bytes port)
  | None => FQDN a = EmptyString /\ length (IP a) <> 4%nat /\ length (IP a) <> 16%nat
  end.
Proof.
  intros Hf Hp. unfold reply_addr, normal_addr. destruct a as [f ip port]; simpl in *.
  rewrite (wrapU_small 16) by (change (2 ^ 16) with 65536; lia).
  case_bool_decide as Hfe; simpl; last first.
  { split; [done|]. rewrite <- (str_bytes_str f) at 1. by apply wire_fqdn. }
  destruct (To4 ip) as [ip4|] eqn:E4.
  { split; [done|]. apply wire_ipv4; [by eapply To4_length|done]. }
  unfold To16, To4 in *. case_bool_decide as H4; [done|].
  case_bool_decide as H16; [|done]. split; [done|]. by apply wire_ipv6.
Qed.


