(* ===== verification/ClientHello.v ===== *)
(** * Parsing a TLS ClientHello ([server/sniffing/tls/client_hello.go])

    The proxy looks for the server name in the first bytes a client sends.
    The parser fills the fields of a [ClientHelloMsg] in place and stops at the
    first malformed part; its caller ignores the error and reads [ServerName]
    from the partly filled message. The parser is therefore a state monad with
    errors whose state survives an error.

    [golang.org/x/crypto/cryptobyte] is not part of the repository: its
    [String] methods are the operations of the class [CryptoByte], and their
    documented behaviour the laws of [CryptoByteLaws]. *)
From Stdlib Require Import Strings.Byte.
From stdpp Require Import base gmap strings numbers list.
From S2P Require Import Prelude GoIO.

(** ** The interface of [cryptobyte.String]

    A read returns what it read ([None] when it reports failure) and the
    string afterwards. *)
Class CryptoByte := {
  cb_Skip : nat -> bytes -> bool * bytes;
  cb_ReadUint8 : bytes -> option Z * bytes;
  cb_ReadUint16 : bytes -> option Z * bytes;
  cb_ReadUint32 : bytes -> option Z * bytes;
  cb_ReadBytes : nat -> bytes -> option bytes * bytes;
  cb_CopyBytes : nat -> bytes -> option bytes * bytes;
  cb_ReadUint8LengthPrefixed : bytes -> option bytes * bytes;
  cb_ReadUint16LengthPrefixed : bytes -> option bytes * bytes;
  cb_Empty : bytes -> bool
}.

(** Big-endian numbers. *)
Definition be16 (a b : byte) : Z := byte_Z a * 256 + byte_Z b.
Definition be32 (a b c d : byte) : Z := be16 a b * 65536 + be16 c d.

(** The documented behaviour: a read advances over what it read, and fails
    when the string is too short. Nothing is assumed of the string after a
    failed read. *)
Class CryptoByteLaws (H : CryptoByte) := {
  cb_Skip_ok : forall p s, cb_Skip (length p) (p ++ s) = (true, s);
  cb_Skip_short : forall n s, (length s < n)%nat -> fst (cb_Skip n s) = false;
  cb_ReadUint8_ok : forall a s, cb_ReadUint8 (a :: s) = (Some (byte_Z a), s);
  cb_ReadUint8_short : fst (cb_ReadUint8 []) = None;
  cb_ReadUint16_ok : forall a b s, cb_ReadUint16 (a :: b :: s) = (Some (be16 a b), s);
  cb_ReadUint16_short : forall s, (length s < 2)%nat -> fst (cb_ReadUint16 s) = None;
  cb_ReadUint32_ok : forall a b c d s,
    cb_ReadUint32 (a :: b :: c :: d :: s) = (Some (be32 a b c d), s);
  cb_ReadUint32_short : forall s, (length s < 4)%nat -> fst (cb_ReadUint32 s) = None;
  cb_ReadBytes_ok : forall p s, cb_ReadBytes (length p) (p ++ s) = (Some p, s);
  cb_ReadBytes_short : forall n s, (length s < n)%nat -> fst (cb_ReadBytes n s) = None;
  cb_CopyBytes_ok : forall p s, cb_CopyBytes (length p) (p ++ s) = (Some p, s);
  cb_CopyBytes_short : forall n s, (length s < n)%nat -> fst (cb_CopyBytes n s) = None;
  cb_Prefixed8_ok : forall a p s, byte_Z a = Z.of_nat (length p) ->
    cb_ReadUint8LengthPrefixed (a :: p ++ s) = (Some p, s);
  cb_Prefixed8_short : forall s,
    match s with a :: s' => Z.of_nat (length s') < byte_Z a | [] => True end ->
    fst (cb_ReadUint8LengthPrefixed s) = None;
  cb_Prefixed16_ok : forall a b p s, be16 a b = Z.of_nat (length p) ->
    cb_ReadUint16LengthPrefixed (a :: b :: p ++ s) = (Some p, s);
  cb_Prefixed16_short : forall s,
    match s with a :: b :: s' => Z.of_nat (length s') < be16 a b | _ => True end ->
    fst (cb_ReadUint16LengthPrefixed s) = None;
  cb_Empty_ok : forall s, cb_Empty s = bool_decide (s = [])
}.

(** ** The message *)

Definition scsvRenegotiation : Z := 255.
Definition statusTypeOCSP : Z := 1.
Definition extensionServerName : Z := 0.
Definition extensionStatusRequest : Z := 5.
Definition extensionSupportedCurves : Z := 10.
Definition extensionSupportedPoints : Z := 11.
Definition extensionSignatureAlgorithms : Z := 13.
Definition extensionALPN : Z := 16.
Definition extensionSCT : Z := 18.
Definition extensionExtendedMasterSecret : Z := 23.
Definition extensionSessionTicket : Z := 35.
Definition extensionPreSharedKey : Z := 41.
Definition extensionEarlyData : Z := 42.
Definition extensionSupportedVersions : Z := 43.
Definition extensionCookie : Z := 44.
Definition extensionPSKModes : Z := 45.
Definition extensionSignatureAlgorithmsCert : Z := 50.
Definition extensionKeyShare : Z := 51.
Definition extensionQUICTransportParameters : Z := 57.
Definition extensionRenegotiationInfo : Z := 65281.

Record keyShare := mkKS { group : Z; data : bytes }.
Record pskIdentity := mkPsk { label : bytes; obfuscatedTicketAge : Z }.

Record ClientHelloMsg := mkMsg {
  Vers : Z;
  Random : bytes;
  SessionId : bytes;
  CipherSuites : list Z;
  CompressionMethods : bytes;
  ServerName : string;
  OcspStapling : bool;
  SupportedCurves : list Z;
  SupportedPoints : bytes;
  TicketSupported : bool;
  SessionTicket : bytes;
  SupportedSignatureAlgorithms : list Z;
  SupportedSignatureAlgorithmsCert : list Z;
  SecureRenegotiationSupported : bool;
  SecureRenegotiation : bytes;
  ExtendedMasterSecret : bool;
  AlpnProtocols : list string;
  Scts : bool;
  SupportedVersions : list Z;
  Cookie : bytes;
  KeyShares : list keyShare;
  EarlyData : bool;
  PskModes : bytes;
  PskIdentities : list pskIdentity;
  PskBinders : list bytes;
  QuicTransportParameters : bytes;
  EncryptedClientHello : bytes
}.

(** The zero value, [ClientHelloMsg{}]. *)
Definition zero_msg : ClientHelloMsg :=
  mkMsg 0 [] [] [] [] EmptyString false [] [] false [] [] [] false [] false [] false [] []
  [] false [] [] [] [] [].

(** Assignments to one field. *)
Definition set_Vers (v : Z) (m : ClientHelloMsg) : ClientHelloMsg :=
  mkMsg v (Random m) (SessionId m) (CipherSuites m) (CompressionMethods m) (ServerName m)
    (OcspStapling m) (SupportedCurves m) (SupportedPoints m) (TicketSupported m) (SessionTicket m)
    (SupportedSignatureAlgorithms m) (SupportedSignatureAlgorithmsCert m)
    (SecureRenegotiationSupported m) (SecureRenegotiation m) (ExtendedMasterSecret m) (AlpnProtocols
    m) (Scts m) (SupportedVersions m) (Cookie m) (KeyShares m) (EarlyData m) (PskModes m)
    (PskIdentities m) (PskBinders m) (QuicTransportParameters m) (EncryptedClientHello m).
Definition set_Random (v : bytes) (m : ClientHelloMsg) : ClientHelloMsg :=
  mkMsg (Vers m) v (SessionId m) (CipherSuites m) (CompressionMethods m) (ServerName m)
    (OcspStapling m) (SupportedCurves m) (SupportedPoints m) (TicketSupported m) (SessionTicket m)
    (SupportedSignatureAlgorithms m) (SupportedSignatureAlgorithmsCert m)
    (SecureRenegotiationSupported m) (SecureRenegotiation m) (ExtendedMasterSecret m) (AlpnProtocols
    m) (Scts m) (SupportedVersions m) (Cookie m) (KeyShares m) (EarlyData m) (PskModes m)
    (PskIdentities m) (PskBinders m) (QuicTransportParameters m) (EncryptedClientHello m).
Definition set_SessionId (v : bytes) (m : ClientHelloMsg) : ClientHelloMsg :=
  mkMsg (Vers m) (Random m) v (CipherSuites m) (CompressionMethods m) (ServerName m) (OcspStapling
    m) (SupportedCurves m) (SupportedPoints m) (TicketSupported m) (SessionTicket m)
    (SupportedSignatureAlgorithms m) (SupportedSignatureAlgorithmsCert m)
    (SecureRenegotiationSupported m) (SecureRenegotiation m) (ExtendedMasterSecret m) (AlpnProtocols
    m) (Scts m) (SupportedVersions m) (Cookie m) (KeyShares m) (EarlyData m) (PskModes m)
    (PskIdentities m) (PskBinders m) (QuicTransportParameters m) (EncryptedClientHello m).
Definition set_CipherSuites (v : list Z) (m : ClientHelloMsg) : ClientHelloMsg :=
  mkMsg (Vers m) (Random m) (SessionId m) v (CompressionMethods m) (ServerName m) (OcspStapling m)
    (SupportedCurves m) (SupportedPoints m) (TicketSupported m) (SessionTicket m)
    (SupportedSignatureAlgorithms m) (SupportedSignatureAlgorithmsCert m)
    (SecureRenegotiationSupported m) (SecureRenegotiation m) (ExtendedMasterSecret m) (AlpnProtocols
    m) (Scts m) (SupportedVersions m) (Cookie m) (KeyShares m) (EarlyData m) (PskModes m)
    (PskIdentities m) (PskBinders m) (QuicTransportParameters m) (EncryptedClientHello m).
Definition set_CompressionMethods (v : bytes) (m : ClientHelloMsg) : ClientHelloMsg :=
  mkMsg (Vers m) (Random m) (SessionId m) (CipherSuites m) v (ServerName m) (OcspStapling m)
    (SupportedCurves m) (SupportedPoints m) (TicketSupported m) (SessionTicket m)
    (SupportedSignatureAlgorithms m) (SupportedSignatureAlgorithmsCert m)
    (SecureRenegotiationSupported m) (SecureRenegotiation m) (ExtendedMasterSecret m) (AlpnProtocols
    m) (Scts m) (SupportedVersions m) (Cookie m) (KeyShares m) (EarlyData m) (PskModes m)
    (PskIdentities m) (PskBinders m) (QuicTransportParameters m) (EncryptedClientHello m).
Definition set_ServerName (v : string) (m : ClientHelloMsg) : ClientHelloMsg :=
  mkMsg (Vers m) (Random m) (SessionId m) (CipherSuites m) (CompressionMethods m) v (OcspStapling
    m) (SupportedCurves m) (SupportedPoints m) (TicketSupported m) (SessionTicket m)
    (SupportedSignatureAlgorithms m) (SupportedSignatureAlgorithmsCert m)
    (SecureRenegotiationSupported m) (SecureRenegotiation m) (ExtendedMasterSecret m) (AlpnProtocols
    m) (Scts m) (SupportedVersions m) (Cookie m) (KeyShares m) (EarlyData m) (PskModes m)
    (PskIdentities m) (PskBinders m) (QuicTransportParameters m) (EncryptedClientHello m).
Definition set_OcspStapling (v : bool) (m : ClientHelloMsg) : ClientHelloMsg :=
  mkMsg (Vers m) (Random m) (SessionId m) (CipherSuites m) (CompressionMethods m) (ServerName m) v
    (SupportedCurves m) (SupportedPoints m) (TicketSupported m) (SessionTicket m)
    (SupportedSignatureAlgorithms m) (SupportedSignatureAlgorithmsCert m)
    (SecureRenegotiationSupported m) (SecureRenegotiation m) (ExtendedMasterSecret m) (AlpnProtocols
    m) (Scts m) (SupportedVersions m) (Cookie m) (KeyShares m) (EarlyData m) (PskModes m)
    (PskIdentities m) (PskBinders m) (QuicTransportParameters m) (EncryptedClientHello m).
Definition set_SupportedCurves (v : list Z) (m : ClientHelloMsg) : ClientHelloMsg :=
  mkMsg (Vers m) (Random m) (SessionId m) (CipherSuites m) (CompressionMethods m) (ServerName m)
    (OcspStapling m) v (SupportedPoints m) (TicketSupported m) (SessionTicket m)
    (SupportedSignatureAlgorithms m) (SupportedSignatureAlgorithmsCert m)
    (SecureRenegotiationSupported m) (SecureRenegotiation m) (ExtendedMasterSecret m) (AlpnProtocols
    m) (Scts m) (SupportedVersions m) (Cookie m) (KeyShares m) (EarlyData m) (PskModes m)
    (PskIdentities m) (PskBinders m) (QuicTransportParameters m) (EncryptedClientHello m).
Definition set_SupportedPoints (v : bytes) (m : ClientHelloMsg) : ClientHelloMsg :=
  mkMsg (Vers m) (Random m) (SessionId m) (CipherSuites m) (CompressionMethods m) (ServerName m)
    (OcspStapling m) (SupportedCurves m) v (TicketSupported m) (SessionTicket m)
    (SupportedSignatureAlgorithms m) (SupportedSignatureAlgorithmsCert m)
    (SecureRenegotiationSupported m) (SecureRenegotiation m) (ExtendedMasterSecret m) (AlpnProtocols
    m) (Scts m) (SupportedVersions m) (Cookie m) (KeyShares m) (EarlyData m) (PskModes m)
    (PskIdentities m) (PskBinders m) (QuicTransportParameters m) (EncryptedClientHello m).
Definition set_TicketSupported (v : bool) (m : ClientHelloMsg) : ClientHelloMsg :=
  mkMsg (Vers m) (Random m) (SessionId m) (CipherSuites m) (CompressionMethods m) (ServerName m)
    (OcspStapling m) (SupportedCurves m) (SupportedPoints m) v (SessionTicket m)
    (SupportedSignatureAlgorithms m) (SupportedSignatureAlgorithmsCert m)
    (SecureRenegotiationSupported m) (SecureRenegotiation m) (ExtendedMasterSecret m) (AlpnProtocols
    m) (Scts m) (SupportedVersions m) (Cookie m) (KeyShares m) (EarlyData m) (PskModes m)
    (PskIdentities m) (PskBinders m) (QuicTransportParameters m) (EncryptedClientHello m).
Definition set_SessionTicket (v : bytes) (m : ClientHelloMsg) : ClientHelloMsg :=
  mkMsg (Vers m) (Random m) (SessionId m) (CipherSuites m) (CompressionMethods m) (ServerName m)
    (OcspStapling m) (SupportedCurves m) (SupportedPoints m) (TicketSupported m) v
    (SupportedSignatureAlgorithms m) (SupportedSignatureAlgorithmsCert m)
    (SecureRenegotiationSupported m) (SecureRenegotiation m) (ExtendedMasterSecret m) (AlpnProtocols
    m) (Scts m) (SupportedVersions m) (Cookie m) (KeyShares m) (EarlyData m) (PskModes m)
    (PskIdentities m) (PskBinders m) (QuicTransportParameters m) (EncryptedClientHello m).
Definition set_SupportedSignatureAlgorithms (v : list Z) (m : ClientHelloMsg) : ClientHelloMsg :=
  mkMsg (Vers m) (Random m) (SessionId m) (CipherSuites m) (CompressionMethods m) (ServerName m)
    (OcspStapling m) (SupportedCurves m) (SupportedPoints m) (TicketSupported m) (SessionTicket m) v
    (SupportedSignatureAlgorithmsCert m) (SecureRenegotiationSupported m) (SecureRenegotiation m)
    (ExtendedMasterSecret m) (AlpnProtocols m) (Scts m) (SupportedVersions m) (Cookie m) (KeyShares
    m) (EarlyData m) (PskModes m) (PskIdentities m) (PskBinders m) (QuicTransportParameters m)
    (EncryptedClientHello m).
Definition set_SupportedSignatureAlgorithmsCert (v : list Z) (m : ClientHelloMsg) : ClientHelloMsg :=
  mkMsg (Vers m) (Random m) (SessionId m) (CipherSuites m) (CompressionMethods m) (ServerName m)
    (OcspStapling m) (SupportedCurves m) (SupportedPoints m) (TicketSupported m) (SessionTicket m)
    (SupportedSignatureAlgorithms m) v (SecureRenegotiationSupported m) (SecureRenegotiation m)
    (ExtendedMasterSecret m) (AlpnProtocols m) (Scts m) (SupportedVersions m) (Cookie m) (KeyShares
    m) (EarlyData m) (PskModes m) (PskIdentities m) (PskBinders m) (QuicTransportParameters m)
    (EncryptedClientHello m).
Definition set_SecureRenegotiationSupported (v : bool) (m : ClientHelloMsg) : ClientHelloMsg :=
  mkMsg (Vers m) (Random m) (SessionId m) (CipherSuites m) (CompressionMethods m) (ServerName m)
    (OcspStapling m) (SupportedCurves m) (SupportedPoints m) (TicketSupported m) (SessionTicket m)
    (SupportedSignatureAlgorithms m) (SupportedSignatureAlgorithmsCert m) v (SecureRenegotiation m)
    (ExtendedMasterSecret m) (AlpnProtocols m) (Scts m) (SupportedVersions m) (Cookie m) (KeyShares
    m) (EarlyData m) (PskModes m) (PskIdentities m) (PskBinders m) (QuicTransportParameters m)
    (EncryptedClientHello m).
Definition set_SecureRenegotiation (v : bytes) (m : ClientHelloMsg) : ClientHelloMsg :=
  mkMsg (Vers m) (Random m) (SessionId m) (CipherSuites m) (CompressionMethods m) (ServerName m)
    (OcspStapling m) (SupportedCurves m) (SupportedPoints m) (TicketSupported m) (SessionTicket m)
    (SupportedSignatureAlgorithms m) (SupportedSignatureAlgorithmsCert m)
    (SecureRenegotiationSupported m) v (ExtendedMasterSecret m) (AlpnProtocols m) (Scts m)
    (SupportedVersions m) (Cookie m) (KeyShares m) (EarlyData m) (PskModes m) (PskIdentities m)
    (PskBinders m) (QuicTransportParameters m) (EncryptedClientHello m).
Definition set_ExtendedMasterSecret (v : bool) (m : ClientHelloMsg) : ClientHelloMsg :=
  mkMsg (Vers m) (Random m) (SessionId m) (CipherSuites m) (CompressionMethods m) (ServerName m)
    (OcspStapling m) (SupportedCurves m) (SupportedPoints m) (TicketSupported m) (SessionTicket m)
    (SupportedSignatureAlgorithms m) (SupportedSignatureAlgorithmsCert m)
    (SecureRenegotiationSupported m) (SecureRenegotiation m) v (AlpnProtocols m) (Scts m)
    (SupportedVersions m) (Cookie m) (KeyShares m) (EarlyData m) (PskModes m) (PskIdentities m)
    (PskBinders m) (QuicTransportParameters m) (EncryptedClientHello m).
Definition set_AlpnProtocols (v : list string) (m : ClientHelloMsg) : ClientHelloMsg :=
  mkMsg (Vers m) (Random m) (SessionId m) (CipherSuites m) (CompressionMethods m) (ServerName m)
    (OcspStapling m) (SupportedCurves m) (SupportedPoints m) (TicketSupported m) (SessionTicket m)
    (SupportedSignatureAlgorithms m) (SupportedSignatureAlgorithmsCert m)
    (SecureRenegotiationSupported m) (SecureRenegotiation m) (ExtendedMasterSecret m) v (Scts m)
    (SupportedVersions m) (Cookie m) (KeyShares m) (EarlyData m) (PskModes m) (PskIdentities m)
    (PskBinders m) (QuicTransportParameters m) (EncryptedClientHello m).
Definition set_Scts (v : bool) (m : ClientHelloMsg) : ClientHelloMsg :=
  mkMsg (Vers m) (Random m) (SessionId m) (CipherSuites m) (CompressionMethods m) (ServerName m)
    (OcspStapling m) (SupportedCurves m) (SupportedPoints m) (TicketSupported m) (SessionTicket m)
    (SupportedSignatureAlgorithms m) (SupportedSignatureAlgorithmsCert m)
    (SecureRenegotiationSupported m) (SecureRenegotiation m) (ExtendedMasterSecret m) (AlpnProtocols
    m) v (SupportedVersions m) (Cookie m) (KeyShares m) (EarlyData m) (PskModes m) (PskIdentities m)
    (PskBinders m) (QuicTransportParameters m) (EncryptedClientHello m).
Definition set_SupportedVersions (v : list Z) (m : ClientHelloMsg) : ClientHelloMsg :=
  mkMsg (Vers m) (Random m) (SessionId m) (CipherSuites m) (CompressionMethods m) (ServerName m)
    (OcspStapling m) (SupportedCurves m) (SupportedPoints m) (TicketSupported m) (SessionTicket m)
    (SupportedSignatureAlgorithms m) (SupportedSignatureAlgorithmsCert m)
    (SecureRenegotiationSupported m) (SecureRenegotiation m) (ExtendedMasterSecret m) (AlpnProtocols
    m) (Scts m) v (Cookie m) (KeyShares m) (EarlyData m) (PskModes m) (PskIdentities m) (PskBinders
    m) (QuicTransportParameters m) (EncryptedClientHello m).
Definition set_Cookie (v : bytes) (m : ClientHelloMsg) : ClientHelloMsg :=
  mkMsg (Vers m) (Random m) (SessionId m) (CipherSuites m) (CompressionMethods m) (ServerName m)
    (OcspStapling m) (SupportedCurves m) (SupportedPoints m) (TicketSupported m) (SessionTicket m)
    (SupportedSignatureAlgorithms m) (SupportedSignatureAlgorithmsCert m)
    (SecureRenegotiationSupported m) (SecureRenegotiation m) (ExtendedMasterSecret m) (AlpnProtocols
    m) (Scts m) (SupportedVersions m) v (KeyShares m) (EarlyData m) (PskModes m) (PskIdentities m)
    (PskBinders m) (QuicTransportParameters m) (EncryptedClientHello m).
Definition set_KeyShares (v : list keyShare) (m : ClientHelloMsg) : ClientHelloMsg :=
  mkMsg (Vers m) (Random m) (SessionId m) (CipherSuites m) (CompressionMethods m) (ServerName m)
    (OcspStapling m) (SupportedCurves m) (SupportedPoints m) (TicketSupported m) (SessionTicket m)
    (SupportedSignatureAlgorithms m) (SupportedSignatureAlgorithmsCert m)
    (SecureRenegotiationSupported m) (SecureRenegotiation m) (ExtendedMasterSecret m) (AlpnProtocols
    m) (Scts m) (SupportedVersions m) (Cookie m) v (EarlyData m) (PskModes m) (PskIdentities m)
    (PskBinders m) (QuicTransportParameters m) (EncryptedClientHello m).
Definition set_EarlyData (v : bool) (m : ClientHelloMsg) : ClientHelloMsg :=
  mkMsg (Vers m) (Random m) (SessionId m) (CipherSuites m) (CompressionMethods m) (ServerName m)
    (OcspStapling m) (SupportedCurves m) (SupportedPoints m) (TicketSupported m) (SessionTicket m)
    (SupportedSignatureAlgorithms m) (SupportedSignatureAlgorithmsCert m)
    (SecureRenegotiationSupported m) (SecureRenegotiation m) (ExtendedMasterSecret m) (AlpnProtocols
    m) (Scts m) (SupportedVersions m) (Cookie m) (KeyShares m) v (PskModes m) (PskIdentities m)
    (PskBinders m) (QuicTransportParameters m) (EncryptedClientHello m).
Definition set_PskModes (v : bytes) (m : ClientHelloMsg) : ClientHelloMsg :=
  mkMsg (Vers m) (Random m) (SessionId m) (CipherSuites m) (CompressionMethods m) (ServerName m)
    (OcspStapling m) (SupportedCurves m) (SupportedPoints m) (TicketSupported m) (SessionTicket m)
    (SupportedSignatureAlgorithms m) (SupportedSignatureAlgorithmsCert m)
    (SecureRenegotiationSupported m) (SecureRenegotiation m) (ExtendedMasterSecret m) (AlpnProtocols
    m) (Scts m) (SupportedVersions m) (Cookie m) (KeyShares m) (EarlyData m) v (PskIdentities m)
    (PskBinders m) (QuicTransportParameters m) (EncryptedClientHello m).
Definition set_PskIdentities (v : list pskIdentity) (m : ClientHelloMsg) : ClientHelloMsg :=
  mkMsg (Vers m) (Random m) (SessionId m) (CipherSuites m) (CompressionMethods m) (ServerName m)
    (OcspStapling m) (SupportedCurves m) (SupportedPoints m) (TicketSupported m) (SessionTicket m)
    (SupportedSignatureAlgorithms m) (SupportedSignatureAlgorithmsCert m)
    (SecureRenegotiationSupported m) (SecureRenegotiation m) (ExtendedMasterSecret m) (AlpnProtocols
    m) (Scts m) (SupportedVersions m) (Cookie m) (KeyShares m) (EarlyData m) (PskModes m) v
    (PskBinders m) (QuicTransportParameters m) (EncryptedClientHello m).
Definition set_PskBinders (v : list bytes) (m : ClientHelloMsg) : ClientHelloMsg :=
  mkMsg (Vers m) (Random m) (SessionId m) (CipherSuites m) (CompressionMethods m) (ServerName m)
    (OcspStapling m) (SupportedCurves m) (SupportedPoints m) (TicketSupported m) (SessionTicket m)
    (SupportedSignatureAlgorithms m) (SupportedSignatureAlgorithmsCert m)
    (SecureRenegotiationSupported m) (SecureRenegotiation m) (ExtendedMasterSecret m) (AlpnProtocols
    m) (Scts m) (SupportedVersions m) (Cookie m) (KeyShares m) (EarlyData m) (PskModes m)
    (PskIdentities m) v (QuicTransportParameters m) (EncryptedClientHello m).
Definition set_QuicTransportParameters (v : bytes) (m : ClientHelloMsg) : ClientHelloMsg :=
  mkMsg (Vers m) (Random m) (SessionId m) (CipherSuites m) (CompressionMethods m) (ServerName m)
    (OcspStapling m) (SupportedCurves m) (SupportedPoints m) (TicketSupported m) (SessionTicket m)
    (SupportedSignatureAlgorithms m) (SupportedSignatureAlgorithmsCert m)
    (SecureRenegotiationSupported m) (SecureRenegotiation m) (ExtendedMasterSecret m) (AlpnProtocols
    m) (Scts m) (SupportedVersions m) (Cookie m) (KeyShares m) (EarlyData m) (PskModes m)
    (PskIdentities m) (PskBinders m) v (EncryptedClientHello m).

(** ** The parser's monad *)

(** Why a parse stopped: an error of the code, or a loop bound of the model
    (which is shown never to happen). *)
Inductive stop := SErr (e : error) | OutOfFuel.

Definition parseM (A : Type) : Type := ClientHelloMsg -> result stop A * ClientHelloMsg.
#[global] Instance parseM_ret : MRet parseM := fun A a m => (Ok a, m).
#[global] Instance parseM_bind : MBind parseM := fun A B k p m =>
  match p m with
  | (Ok a, m') => k a m'
  | (Err e, m') => (Err e, m')
  end.
(** [return fmt.Errorf(...)]. *)
Definition fail {A} (msg : string) : parseM A := fun m => (Err (SErr (Errorf msg)), m).
(** An assignment to a field of [m]. *)
Definition assign (f : ClientHelloMsg -> ClientHelloMsg) : parseM unit := fun m => (Ok tt, f m).
Definition get_msg : parseM ClientHelloMsg := fun m => (Ok m, m).
(** [if !s.Read(&x) { return fmt.Errorf(msg) }]. *)
Definition need {A} (r : option A * bytes) (msg : string) : parseM (A * bytes) :=
  match r with
  | (Some a, s) => mret (a, s)
  | (None, _) => fail msg
  end.
(** [if cond { return fmt.Errorf(msg) }]. *)
Definition fail_if (cond : bool) (msg : string) : parseM unit :=
  if cond then fail msg else mret tt.

Section parser.
Context `{CryptoByte}.

(** [for !s.Empty() { body }]; [body] returns what is left of [s]. *)
Fixpoint while_nonempty (fuel : nat) (body : bytes -> parseM bytes) (s : bytes) : parseM unit :=
  if cb_Empty s then mret tt
  else match fuel with
       | O => fun m => (Err OutOfFuel, m)
       | S fuel' => s ← body s; while_nonempty fuel' body s
       end.
(** Every iteration reads at least one byte, so the length is fuel enough. *)
Definition loop (body : bytes -> parseM bytes) (s : bytes) : parseM unit :=
  while_nonempty (length s) body s.

(** One [ReadUint16] of a list, and the assignment that appends it. *)
Definition uint16_item (msg : string) (add : Z -> ClientHelloMsg -> ClientHelloMsg) (s : bytes)
  : parseM bytes :=
  '(x, s) ← need (cb_ReadUint16 s) msg; _ ← assign (add x); mret s.

Definition add_suite (suite : Z) (m : ClientHelloMsg) : ClientHelloMsg :=
  let m := if bool_decide (suite = scsvRenegotiation) then set_SecureRenegotiationSupported true m
           else m in
  set_CipherSuites (CipherSuites m ++ [suite]) m.

(** *** The extensions

    Each returns what is left of [extData]. *)

Definition name_item (extData nameList : bytes) : parseM bytes :=
  let msg := "extensionServerName  nameList error " +:+ str_of_bytes extData in
  '(nameType, nameList) ← need (cb_ReadUint8 nameList) msg;
  '(serverName, nameList) ← need (cb_ReadUint16LengthPrefixed nameList) msg;
  _ ← fail_if (cb_Empty serverName) msg;
  if negb (nameType =? 0) then mret nameList
  else
    m ← get_msg;
    _ ← fail_if (negb (bool_decide (String.length (ServerName m) = 0%nat))) msg;
    _ ← assign (set_ServerName (str_of_bytes serverName));
    _ ← fail_if (HasSuffix (str_of_bytes serverName) ".") msg;
    mret nameList.
Definition ext_ServerName (extData : bytes) : parseM bytes :=
  match cb_ReadUint16LengthPrefixed extData with
  | (None, extData) => fail ("extensionServerName  nameList error " +:+ str_of_bytes extData)
  | (Some nameList, extData) =>
      _ ← fail_if (cb_Empty nameList)
            ("extensionServerName  nameList error " +:+ str_of_bytes extData);
      _ ← loop (name_item extData) nameList;
      mret extData
  end.

Definition ext_StatusRequest (extData : bytes) : parseM bytes :=
  let msg := "extensionStatusRequest     " in
  '(statusType, extData) ← need (cb_ReadUint8 extData) msg;
  '(_, extData) ← need (cb_ReadUint16LengthPrefixed extData) msg;
  '(_, extData) ← need (cb_ReadUint16LengthPrefixed extData) msg;
  _ ← assign (set_OcspStapling (bool_decide (statusType = statusTypeOCSP)));
  mret extData.

(** A non-empty list of 16-bit values with a 16-bit length. *)
Definition uint16_list16 (msg : string) (add : Z -> ClientHelloMsg -> ClientHelloMsg)
    (extData : bytes) : parseM bytes :=
  '(items, extData) ← need (cb_ReadUint16LengthPrefixed extData) msg;
  _ ← fail_if (cb_Empty items) msg;
  _ ← loop (uint16_item msg add) items;
  mret extData.
Definition ext_SupportedCurves : bytes -> parseM bytes :=
  uint16_list16 "extensionSupportedCurves     "
    (fun x m => set_SupportedCurves (SupportedCurves m ++ [x]) m).
Definition ext_SignatureAlgorithms : bytes -> parseM bytes :=
  uint16_list16 "extensionSignatureAlgorithms     "
    (fun x m => set_SupportedSignatureAlgorithms (SupportedSignatureAlgorithms m ++ [x]) m).
Definition ext_SignatureAlgorithmsCert : bytes -> parseM bytes :=
  uint16_list16 "extensionSignatureAlgorithmsCert     "
    (fun x m => set_SupportedSignatureAlgorithmsCert (SupportedSignatureAlgorithmsCert m ++ [x]) m).

Definition ext_SupportedPoints (extData : bytes) : parseM bytes :=
  let msg := "extensionSupportedPoints     " in
  '(points, extData) ← need (cb_ReadUint8LengthPrefixed extData) msg;
  _ ← assign (set_SupportedPoints points);
  _ ← fail_if (bool_decide (length points = 0%nat)) msg;
  mret extData.

(** The result of [ReadBytes] is not looked at. *)
Definition ext_SessionTicket (extData : bytes) : parseM bytes :=
  _ ← assign (set_TicketSupported true);
  match cb_ReadBytes (length extData) extData with
  | (Some ticket, extData) => _ ← assign (set_SessionTicket ticket); mret extData
  | (None, extData) => mret extData
  end.

Definition ext_RenegotiationInfo (extData : bytes) : parseM bytes :=
  '(info, extData) ← need (cb_ReadUint8LengthPrefixed extData) "extensionRenegotiationInfo     ";
  _ ← assign (set_SecureRenegotiation info);
  _ ← assign (set_SecureRenegotiationSupported true);
  mret extData.

Definition proto_item (protoList : bytes) : parseM bytes :=
  let msg := "extensionALPN     " in
  '(proto, protoList) ← need (cb_ReadUint8LengthPrefixed protoList) msg;
  _ ← fail_if (cb_Empty proto) msg;
  _ ← assign (fun m => set_AlpnProtocols (AlpnProtocols m ++ [str_of_bytes proto]) m);
  mret protoList.
Definition ext_ALPN (extData : bytes) : parseM bytes :=
  let msg := "extensionALPN     " in
  '(protoList, extData) ← need (cb_ReadUint16LengthPrefixed extData) msg;
  _ ← fail_if (cb_Empty protoList) msg;
  _ ← loop proto_item protoList;
  mret extData.

Definition ext_SupportedVersions (extData : bytes) : parseM bytes :=
  let msg := "extensionSupportedVersions     " in
  '(versList, extData) ← need (cb_ReadUint8LengthPrefixed extData) msg;
  _ ← fail_if (cb_Empty versList) msg;
  _ ← loop (uint16_item msg (fun x m => set_SupportedVersions (SupportedVersions m ++ [x]) m))
        versList;
  mret extData.

Definition ext_Cookie (extData : bytes) : parseM bytes :=
  let msg := "extensionCookie     " in
  '(cookie, extData) ← need (cb_ReadUint16LengthPrefixed extData) msg;
  _ ← assign (set_Cookie cookie);
  _ ← fail_if (bool_decide (length cookie = 0%nat)) msg;
  mret extData.

Definition share_item (clientShares : bytes) : parseM bytes :=
  let msg := "extensionKeyShare     " in
  '(g, clientShares) ← need (cb_ReadUint16 clientShares) msg;
  '(d, clientShares) ← need (cb_ReadUint16LengthPrefixed clientShares) msg;
  _ ← fail_if (bool_decide (length d = 0%nat)) msg;
  _ ← assign (fun m => set_KeyShares (KeyShares m ++ [mkKS g d]) m);
  mret clientShares.
Definition ext_KeyShare (extData : bytes) : parseM bytes :=
  '(clientShares, extData) ←
    need (cb_ReadUint16LengthPrefixed extData) "extensionKeyShare     ";
  _ ← loop share_item clientShares;
  mret extData.

Definition ext_PSKModes (extData : bytes) : parseM bytes :=
  '(modes, extData) ← need (cb_ReadUint8LengthPrefixed extData) "extensionPSKModes     ";
  _ ← assign (set_PskModes modes);
  mret extData.

(** [CopyBytes] of all of [extData] into a new slice. *)
Definition ext_QUICTransportParameters (extData : bytes) : parseM bytes :=
  _ ← assign (set_QuicTransportParameters (replicate (length extData) x00));
  '(params, extData) ← need (cb_CopyBytes (length extData) extData)
    "extensionQUICTransportParameters     ";
  _ ← assign (set_QuicTransportParameters params);
  mret extData.

Definition psk_item (identities : bytes) : parseM bytes :=
  let msg := "extensionPreSharedKey     " in
  '(l, identities) ← need (cb_ReadUint16LengthPrefixed identities) msg;
  '(age, identities) ← need (cb_ReadUint32 identities) msg;
  _ ← fail_if (bool_decide (length l = 0%nat)) msg;
  _ ← assign (fun m => set_PskIdentities (PskIdentities m ++ [mkPsk l age]) m);
  mret identities.
Definition binder_item (binders : bytes) : parseM bytes :=
  let msg := "extensionPreSharedKey     " in
  '(binder, binders) ← need (cb_ReadUint8LengthPrefixed binders) msg;
  _ ← fail_if (bool_decide (length binder = 0%nat)) msg;
  _ ← assign (fun m => set_PskBinders (PskBinders m ++ [binder]) m);
  mret binders.
Definition ext_PreSharedKey (extensions extData : bytes) : parseM bytes :=
  let msg := "extensionPreSharedKey     " in
  _ ← fail_if (negb (cb_Empty extensions)) msg;
  '(identities, extData) ← need (cb_ReadUint16LengthPrefixed extData) msg;
  _ ← fail_if (cb_Empty identities) msg;
  _ ← loop psk_item identities;
  '(binders, extData) ← need (cb_ReadUint16LengthPrefixed extData) msg;
  _ ← fail_if (cb_Empty binders) msg;
  _ ← loop binder_item binders;
  mret extData.

(** The [switch]: what is left of [extData], or [None] for an extension the
    parser does not know, whose data is skipped. *)
Definition parse_extension (extension : Z) (extensions extData : bytes) : parseM (option bytes) :=
  let known (p : parseM bytes) : parseM (option bytes) := s ← p; mret (Some s) in
  let flag (f : ClientHelloMsg -> ClientHelloMsg) := known (_ ← assign f; mret extData) in
  if extension =? extensionServerName then known (ext_ServerName extData)
  else if extension =? extensionStatusRequest then known (ext_StatusRequest extData)
  else if extension =? extensionSupportedCurves then known (ext_SupportedCurves extData)
  else if extension =? extensionSupportedPoints then known (ext_SupportedPoints extData)
  else if extension =? extensionSessionTicket then known (ext_SessionTicket extData)
  else if extension =? extensionSignatureAlgorithms then known (ext_SignatureAlgorithms extData)
  else if extension =? extensionSignatureAlgorithmsCert then known (ext_SignatureAlgorithmsCert extData)
  else if extension =? extensionRenegotiationInfo then known (ext_RenegotiationInfo extData)
  else if extension =? extensionExtendedMasterSecret then flag (set_ExtendedMasterSecret true)
  else if extension =? extensionALPN then known (ext_ALPN extData)
  else if extension =? extensionSCT then flag (set_Scts true)
  else if extension =? extensionSupportedVersions then known (ext_SupportedVersions extData)
  else if extension =? extensionCookie then known (ext_Cookie extData)
  else if extension =? extensionKeyShare then known (ext_KeyShare extData)
  else if extension =? extensionEarlyData then flag (set_EarlyData true)
  else if extension =? extensionPSKModes then known (ext_PSKModes extData)
  else if extension =? extensionQUICTransportParameters then known (ext_QUICTransportParameters extData)
  else if extension =? extensionPreSharedKey then known (ext_PreSharedKey extensions extData)
  else mret None.

(** One extension of the list: its id and what follows it. *)
Definition extension_step (seenExts : gset Z) (extensions : bytes) : parseM (Z * bytes) :=
  let msg ext := "ReadUint16LengthPrefixed  extData error extension:" +:+ Itoa ext
                 +:+ "  and  extData:" in
  '(extension, extensions) ← need (cb_ReadUint16 extensions) (msg 0);
  '(extData, extensions) ← need (cb_ReadUint16LengthPrefixed extensions) (msg extension);
  _ ← fail_if (bool_decide (extension ∈ seenExts)) ("seenExts  extension error " +:+ Itoa extension);
  left ← parse_extension extension extensions extData;
  _ ← match left with
      | None => mret tt
      | Some extData => fail_if (negb (cb_Empty extData)) " !extData.Empty() "
      end;
  mret (extension, extensions).

Fixpoint extensions_loop (fuel : nat) (seenExts : gset Z) (extensions : bytes) : parseM unit :=
  if cb_Empty extensions then mret tt
  else match fuel with
       | O => fun m => (Err OutOfFuel, m)
       | S fuel' =>
           '(extension, extensions) ← extension_step seenExts extensions;
           extensions_loop fuel' ({[ extension ]} ∪ seenExts) extensions
       end.

Definition skip4 (s : bytes) : parseM bytes :=
  match cb_Skip 4 s with (true, s) => mret s | (false, _) => fail "Skip error" end.

(** Up to the extensions: returns the extension list. *)
Definition unmarshal_head (s : bytes) : parseM bytes :=
  s ← skip4 s;
  '(vers, s) ← need (cb_ReadUint16 s) "Skip error";
  _ ← assign (set_Vers vers);
  '(random, s) ← need (cb_ReadBytes 32 s) "Skip error";
  _ ← assign (set_Random random);
  '(sessionId, s) ← need (cb_ReadUint8LengthPrefixed s) "Skip error";
  _ ← assign (set_SessionId sessionId);
  '(cipherSuites, s) ← need (cb_ReadUint16LengthPrefixed s) "cipherSuites error";
  _ ← assign (fun m => set_SecureRenegotiationSupported false (set_CipherSuites [] m));
  _ ← loop (uint16_item "cipherSuites ReadUint16 error 0" add_suite) cipherSuites;
  '(methods, s) ← need (cb_ReadUint8LengthPrefixed s) "CompressionMethods   error";
  _ ← assign (set_CompressionMethods methods);
  _ ← fail_if (cb_Empty s) "s  Empty  error";
  '(extensions, s) ← need (cb_ReadUint16LengthPrefixed s)
    "ReadUint16LengthPrefixed  extensions error";
  _ ← fail_if (negb (cb_Empty s)) "ReadUint16LengthPrefixed  extensions error";
  mret extensions.

Definition unmarshal (data : bytes) : parseM unit := fun _ =>
  (extensions ← unmarshal_head data; extensions_loop (length extensions) ∅ extensions) zero_msg.

(** [UnmarshalByByte] on a message [m]: the error and the message afterwards;
    [buf[5:]] panics when [buf] has fewer than five bytes. *)
Definition UnmarshalByByte (buf : bytes) (m : ClientHelloMsg)
  : outcome (result stop unit * ClientHelloMsg) :=
  match buf with
  | [] => Ret (Err (SErr (Errorf "len(buf) == 0")), m)
  | b0 :: _ =>
      if negb (bool_decide (b0 = x16)) then Ret (Err (SErr (Errorf "!=0x16")), m)
      else if bool_decide (5 <= length buf)%nat then Ret (unmarshal (drop 5 buf) m)
      else Panic
  end.
End parser.

(** ** Reasoning about the parser *)

(** [wp p Q E m]: from the message [m], [p] does not exceed a loop bound; it
    ends with a result and a message that satisfy [Q], or with an error and a
    message that satisfies [E]. *)
Definition wp {A} (p : parseM A) (Q : A -> ClientHelloMsg -> Prop) (E : ClientHelloMsg -> Prop)
    (m : ClientHelloMsg) : Prop :=
  match p m with
  | (Ok a, m') => Q a m'
  | (Err (SErr _), m') => E m'
  | (Err OutOfFuel, _) => False
  end.

Section wp.
Context {A B : Type}.
Implicit Types (p : parseM A) (Q : B -> ClientHelloMsg -> Prop) (E : ClientHelloMsg -> Prop).

Lemma wp_bind p (k : A -> parseM B) Q E m :
  wp p (fun a m' => wp (k a) Q E m') E m -> wp (p ≫= k) Q E m.
Proof.
  unfold wp, mbind, parseM_bind. destruct (p m) as [[a|[e|]] m']; done.
Qed.

Lemma wp_ret (b : B) Q E m : Q b m -> wp (mret b) Q E m.
Proof. done. Qed.

Lemma wp_fail msg Q E m : E m -> wp (fail (A := B) msg) Q E m.
Proof. done. Qed.

Lemma wp_mono (p : parseM B) (Q Q' : B -> ClientHelloMsg -> Prop) E (E' : ClientHelloMsg -> Prop) m :
  wp p Q E m -> (forall b m', Q b m' -> Q' b m') -> (forall m', E m' -> E' m') -> wp p Q' E' m.
Proof. unfold wp. destruct (p m) as [[a|[e|]] m']; auto. Qed.

Lemma wp_need (r : option B * bytes) msg (Q : B * bytes -> ClientHelloMsg -> Prop) E m :
  (forall b s, r = (Some b, s) -> Q (b, s) m) -> (fst r = None -> E m) -> wp (need r msg) Q E m.
Proof. destruct r as [[b|] s]; unfold need, wp, fail; simpl; auto. Qed.

Lemma wp_assign f (Q : unit -> ClientHelloMsg -> Prop) E m : Q tt (f m) -> wp (assign f) Q E m.
Proof. done. Qed.

Lemma wp_get_msg (Q : ClientHelloMsg -> ClientHelloMsg -> Prop) E m : Q m m -> wp get_msg Q E m.
Proof. done. Qed.

Lemma wp_fail_if (c : bool) msg (Q : unit -> ClientHelloMsg -> Prop) E m :
  (c = true -> E m) -> (c = false -> Q tt m) -> wp (fail_if c msg) Q E m.
Proof. destruct c; unfold fail_if, wp; simpl; auto. Qed.
End wp.

(** Step through the parser's code up to a loop. *)
Ltac wp_step :=
  match goal with
  | |- wp (mbind _ _) _ _ _ => apply wp_bind
  | |- wp (mret _) _ _ _ => apply wp_ret
  | |- wp (fail _) _ _ _ => apply wp_fail
  | |- wp (need _ _) _ _ _ => apply wp_need
  | |- wp (assign _) _ _ _ => apply wp_assign
  | |- wp get_msg _ _ _ => apply wp_get_msg
  | |- wp (fail_if _ _) _ _ _ => apply wp_fail_if
  | |- wp (let '(_, _) := _ in _) _ _ _ => simpl
  | |- wp (if ?b then _ else _) _ _ _ => destruct b eqn:?
  end.
Ltac wp_steps := repeat (wp_step; intros); simpl.

Section facts.
Context `{CryptoByteLaws}.

(** *** Inversion of successful reads *)

Lemma ReadUint8_inv s x s' : cb_ReadUint8 s = (Some x, s') -> exists a, s = a :: s' /\ x = byte_Z a.
Proof.
  destruct s as [|a s]; intros E.
  - pose proof cb_ReadUint8_short as F. by rewrite E in F.
  - rewrite cb_ReadUint8_ok in E. simplify_eq. eauto.
Qed.

Lemma ReadUint16_inv s x s' :
  cb_ReadUint16 s = (Some x, s') -> exists a b, s = a :: b :: s' /\ x = be16 a b.
Proof.
  destruct s as [|a [|b s]]; intros E.
  1,2: apply (f_equal fst) in E; by rewrite cb_ReadUint16_short in E by (simpl; lia).
  rewrite cb_ReadUint16_ok in E. simplify_eq. eauto.
Qed.

Lemma ReadUint32_inv s x s' : cb_ReadUint32 s = (Some x, s') -> exists p, s = p ++ s' /\ length p = 4%nat.
Proof.
  destruct s as [|a [|b [|c [|d s]]]]; intros E.
  1-4: apply (f_equal fst) in E; by rewrite cb_ReadUint32_short in E by (simpl; lia).
  rewrite cb_ReadUint32_ok in E. simplify_eq. by exists [a; b; c; d].
Qed.

Lemma ReadBytes_inv n s p s' : cb_ReadBytes n s = (Some p, s') -> s = p ++ s' /\ length p = n.
Proof.
  intros E. destruct (decide (n <= length s)%nat) as [Hn|Hn].
  - assert (length (take n s) = n) as Hl by (rewrite length_take; lia).
    rewrite <- (take_drop n s), <- Hl in E at 1. rewrite cb_ReadBytes_ok in E. simplify_eq.
    by rewrite take_drop.
  - pose proof (cb_ReadBytes_short n s ltac:(lia)) as F. by rewrite E in F.
Qed.

Lemma CopyBytes_inv n s p s' : cb_CopyBytes n s = (Some p, s') -> s = p ++ s' /\ length p = n.
Proof.
  intros E. destruct (decide (n <= length s)%nat) as [Hn|Hn].
  - assert (length (take n s) = n) as Hl by (rewrite length_take; lia).
    rewrite <- (take_drop n s), <- Hl in E at 1. rewrite cb_CopyBytes_ok in E. simplify_eq.
    by rewrite take_drop.
  - pose proof (cb_CopyBytes_short n s ltac:(lia)) as F. by rewrite E in F.
Qed.

Lemma Prefixed8_inv s p s' :
  cb_ReadUint8LengthPrefixed s = (Some p, s') -> exists a, s = a :: p ++ s' /\ byte_Z a = Z.of_nat (length p).
Proof.
  intros E. destruct s as [|a s].
  { pose proof (cb_Prefixed8_short [] I) as F. by rewrite E in F. }
  pose proof (byte_Z_range a). destruct (decide (byte_Z a <= Z.of_nat (length s))) as [Ha|Ha].
  - assert (length (take (Z.to_nat (byte_Z a)) s) = Z.to_nat (byte_Z a)) as Hl
      by (rewrite length_take; lia).
    rewrite <- (take_drop (Z.to_nat (byte_Z a)) s) in E.
    rewrite cb_Prefixed8_ok in E by lia. simplify_eq. exists a. rewrite take_drop. split; [done|lia].
  - pose proof (cb_Prefixed8_short (a :: s) ltac:(simpl; lia)) as F. by rewrite E in F.
Qed.

Lemma be16_range a b : 0 <= be16 a b < 65536.
Proof. unfold be16. pose proof (byte_Z_range a). pose proof (byte_Z_range b). lia. Qed.

Lemma Prefixed16_inv s p s' :
  cb_ReadUint16LengthPrefixed s = (Some p, s') ->
  exists a b, s = a :: b :: p ++ s' /\ be16 a b = Z.of_nat (length p).
Proof.
  intros E. destruct s as [|a [|b s]].
  1,2: apply (f_equal fst) in E; by rewrite cb_Prefixed16_short in E.
  pose proof (be16_range a b). destruct (decide (be16 a b <= Z.of_nat (length s))) as [Ha|Ha].
  - assert (length (take (Z.to_nat (be16 a b)) s) = Z.to_nat (be16 a b)) as Hl
      by (rewrite length_take; lia).
    rewrite <- (take_drop (Z.to_nat (be16 a b)) s) in E.
    rewrite cb_Prefixed16_ok in E by lia. simplify_eq. exists a, b. rewrite take_drop.
    split; [done|lia].
  - pose proof (cb_Prefixed16_short (a :: b :: s) ltac:(simpl; lia)) as F. by rewrite E in F.
Qed.

Lemma Empty_true s : cb_Empty s = true <-> s = [].
Proof. rewrite cb_Empty_ok. apply bool_decide_eq_true. Qed.
Lemma Empty_false s : cb_Empty s = false <-> s <> [].
Proof. rewrite cb_Empty_ok. apply bool_decide_eq_false. Qed.

(** Invert every read in the context. *)
Ltac inv_reads :=
  repeat match goal with
  | E : cb_ReadUint8 _ = (Some _, _) |- _ => apply ReadUint8_inv in E as (? & -> & ->)
  | E : cb_ReadUint16 _ = (Some _, _) |- _ => apply ReadUint16_inv in E as (? & ? & -> & ->)
  | E : cb_ReadUint32 _ = (Some _, _) |- _ => apply ReadUint32_inv in E as (? & -> & ?)
  | E : cb_ReadBytes _ _ = (Some _, _) |- _ => apply ReadBytes_inv in E as [? ?]
  | E : cb_CopyBytes _ _ = (Some _, _) |- _ => apply CopyBytes_inv in E as [? ?]
  | E : cb_ReadUint8LengthPrefixed _ = (Some _, _) |- _ => apply Prefixed8_inv in E as (? & -> & ?)
  | E : cb_ReadUint16LengthPrefixed _ = (Some _, _) |- _ =>
      apply Prefixed16_inv in E as (? & ? & -> & ?)
  | E : cb_Empty _ = true |- _ => apply Empty_true in E
  | E : cb_Empty _ = false |- _ => apply Empty_false in E
  | E : negb (cb_Empty _) = true |- _ => apply negb_true_iff, Empty_false in E
  | E : negb (cb_Empty _) = false |- _ => apply negb_false_iff, Empty_true in E
  end.

(** A loop whose body reads at least one byte ends, keeping the invariant [I]. *)
Lemma wp_loop body s (I : bytes -> ClientHelloMsg -> Prop) (Q : unit -> ClientHelloMsg -> Prop) E m :
  I s m ->
  (forall s m, s <> [] -> I s m ->
     wp (body s) (fun s' m' => (length s' < length s)%nat /\ I s' m') E m) ->
  (forall m, I [] m -> Q tt m) ->
  wp (loop body s) Q E m.
Proof.
  intros HI Hbody HQ. unfold loop.
  cut (forall fuel s m, (length s <= fuel)%nat -> I s m ->
    wp (while_nonempty fuel body s) Q E m); [intros Hc; by apply Hc|]. clear s m HI.
  induction fuel as [|fuel IH]; intros s m Hf HI; cbn [while_nonempty];
    destruct (cb_Empty s) eqn:Es; inv_reads.
  1,3: subst; apply wp_ret; auto.
  - by destruct s; [|simpl in Hf; lia].
  - apply wp_bind. eapply wp_mono; [by apply Hbody| |done].
    intros s' m' [Hl HI']. apply IH; [lia|done].
Qed.

(** *** Extensions that leave the server name alone *)

Definition keeps {A} (p : parseM A) : Prop := forall m,
  wp p (fun _ m' => ServerName m' = ServerName m) (fun m' => ServerName m' = ServerName m) m.

Lemma keeps_bind {A B} (p : parseM A) (k : A -> parseM B) :
  keeps p -> (forall a, keeps (k a)) -> keeps (p ≫= k).
Proof.
  intros Hp Hk m. apply wp_bind. eapply wp_mono; [apply Hp| |done]. simpl. intros a m' E.
  eapply wp_mono; [apply Hk|simpl; congruence..].
Qed.

Lemma keeps_need {A} (r : option A * bytes) msg : keeps (need r msg).
Proof. by destruct r as [[|] s]. Qed.

Lemma keeps_fail_if c msg : keeps (fail_if c msg).
Proof. by destruct c. Qed.

Lemma keeps_assign f : (forall m, ServerName (f m) = ServerName m) -> keeps (assign f).
Proof. intros Hf m. apply Hf. Qed.

(** A loop body that reads and keeps the name. *)
Definition item_keeps (body : bytes -> parseM bytes) : Prop := forall s m,
  wp (body s) (fun s' m' => (length s' < length s)%nat /\ ServerName m' = ServerName m)
    (fun m' => ServerName m' = ServerName m) m.

Lemma keeps_loop body s : item_keeps body -> keeps (loop body s).
Proof.
  intros Hb m. apply (wp_loop _ _ (fun _ m' => ServerName m' = ServerName m)); [done| |done].
  intros s' m' _ E. eapply wp_mono; [apply Hb| |]; simpl; [|congruence].
  intros ? ? [? ?]. split; [done|congruence].
Qed.

Ltac solve_item :=
  intros s m; wp_steps; inv_reads; rewrite ?length_app; simpl; rewrite ?length_app; done || (split; [lia|done]).

Lemma uint16_item_keeps msg add :
  (forall x m, ServerName (add x m) = ServerName m) -> item_keeps (uint16_item msg add).
Proof. intros Ha s m. unfold uint16_item. wp_steps; inv_reads; [|done]. split; [simpl; lia|apply Ha]. Qed.

Lemma proto_item_keeps : item_keeps proto_item.
Proof. unfold proto_item. solve_item. Qed.
Lemma share_item_keeps : item_keeps share_item.
Proof. unfold share_item. solve_item. Qed.
Lemma psk_item_keeps : item_keeps psk_item.
Proof. unfold psk_item. solve_item. Qed.
Lemma binder_item_keeps : item_keeps binder_item.
Proof. unfold binder_item. solve_item. Qed.

(** Solve a [keeps] goal along the structure of the code. *)
Ltac solve_keeps :=
  repeat first
    [ done
    | apply keeps_need | apply keeps_fail_if
    | apply keeps_assign; done
    | apply keeps_loop, uint16_item_keeps; done
    | apply keeps_loop, proto_item_keeps | apply keeps_loop, share_item_keeps
    | apply keeps_loop, psk_item_keeps | apply keeps_loop, binder_item_keeps
    | apply keeps_bind; [|intros]
    | match goal with |- keeps (match ?x with _ => _ end) => destruct x end ].

Lemma uint16_list16_keeps msg add s :
  (forall x m, ServerName (add x m) = ServerName m) -> keeps (uint16_list16 msg add s).
Proof.
  intros Ha. unfold uint16_list16. apply keeps_bind; [solve_keeps|intros [items s']].
  apply keeps_bind; [solve_keeps|intros _]. apply keeps_bind; [|solve_keeps].
  by apply keeps_loop, uint16_item_keeps.
Qed.

Lemma parse_extension_keeps ext exts d :
  ext <> extensionServerName -> keeps (parse_extension ext exts d).
Proof.
  intros Hne. unfold parse_extension. rewrite (proj2 (Z.eqb_neq _ _) Hne).
  repeat match goal with |- keeps (if ?b then _ else _) => destruct b end;
    unfold ext_StatusRequest, ext_SupportedPoints, ext_SessionTicket, ext_RenegotiationInfo,
      ext_ALPN, ext_SupportedVersions, ext_Cookie, ext_KeyShare, ext_PSKModes,
      ext_QUICTransportParameters, ext_PreSharedKey; solve_keeps;
    by apply uint16_list16_keeps.
Qed.

(** *** Where the server name comes from *)

Definition infix_of (a b : bytes) : Prop := exists p q, b = p ++ a ++ q.

Lemma infix_trans a b c : infix_of a b -> infix_of b c -> infix_of a c.
Proof.
  intros (p & q & ->) (p' & q' & ->). exists (p' ++ p), (q ++ q'). by rewrite <- !app_assoc.
Qed.
Lemma infix_app p a q : infix_of a (p ++ a ++ q).
Proof. by exists p, q. Qed.
Lemma infix_tail p a : infix_of a (p ++ a).
Proof. exists p, []. by rewrite app_nil_r. Qed.
Lemma infix_head a q : infix_of a (a ++ q).
Proof. by exists [], q. Qed.

(** The name recorded so far is empty, or a part of [buf]; while no error was
    reported it does not end with a dot. *)
Definition name_from (buf : bytes) (m : ClientHelloMsg) : Prop :=
  ServerName m = EmptyString \/ infix_of (bytes_of_str (ServerName m)) buf.
Definition name_good (buf : bytes) (m : ClientHelloMsg) : Prop :=
  ServerName m = EmptyString \/
  infix_of (bytes_of_str (ServerName m)) buf /\ HasSuffix (ServerName m) "." = false.

Lemma name_good_from buf m : name_good buf m -> name_from buf m.
Proof. unfold name_good, name_from. tauto. Qed.
#[local] Hint Resolve name_good_from : hera.

Lemma name_item_from buf extData s m :
  infix_of s buf -> name_good buf m ->
  wp (name_item extData s)
    (fun s' m' => (length s' < length s)%nat /\ infix_of s' buf /\ name_good buf m')
    (name_from buf) m.
Proof.
  intros Hs Hg. unfold name_item. wp_steps; inv_reads; auto with hera.
  - split_and!; [simpl; rewrite length_app; lia| |done].
    eapply infix_trans; [|done]. apply (infix_tail (_ :: _ :: _ :: _)).
  - unfold name_from. simpl. right. rewrite bytes_str_bytes.
    eapply infix_trans; [|done]. apply (infix_app [_; _; _]).
  - split_and!; [simpl; rewrite length_app; lia| |].
    + eapply infix_trans; [|done]. apply (infix_tail (_ :: _ :: _ :: _)).
    + right. simpl. rewrite bytes_str_bytes. split; [|done].
      eapply infix_trans; [|done]. apply (infix_app [_; _; _]).
Qed.

Lemma ext_ServerName_from buf extData m :
  infix_of extData buf -> name_good buf m ->
  wp (ext_ServerName extData) (fun _ => name_good buf) (name_from buf) m.
Proof.
  intros Hs Hg. unfold ext_ServerName.
  destruct (cb_ReadUint16LengthPrefixed extData) as [[nameList|] d] eqn:E;
    [|wp_steps; auto with hera].
  inv_reads. wp_step. wp_step; intros; auto with hera. wp_step.
  apply (wp_loop _ _ (fun s m => infix_of s buf /\ name_good buf m)).
  - split; [|done]. eapply infix_trans; [|done]. apply (infix_app [_; _]).
  - intros s m' _ [? ?]. by apply name_item_from.
  - intros m' [_ ?]. done.
Qed.

Lemma extension_step_from buf seen exts m :
  infix_of exts buf -> name_good buf m ->
  wp (extension_step seen exts)
    (fun r m' => (length r.2 < length exts)%nat /\ infix_of r.2 buf /\ name_good buf m')
    (name_from buf) m.
Proof.
  intros Hs Hg. unfold extension_step.
  wp_step. wp_step; intros; auto with hera. wp_step; simpl.
  wp_step; intros; auto with hera. wp_step; simpl. wp_step; intros; auto with hera. wp_step.
  inv_reads. eapply wp_mono with (Q := fun _ => name_good buf) (E := name_from buf); [| |done].
  - destruct (decide (be16 x x0 = extensionServerName)) as [He|He].
    + unfold parse_extension. rewrite He. simpl. apply wp_bind.
      eapply wp_mono; [apply (ext_ServerName_from buf)|intros; by apply wp_ret|done]; [|done].
      eapply infix_trans; [|done]. apply (infix_app [_; _; _; _]).
    + eapply wp_mono; [by apply parse_extension_keeps| |]; simpl; intros;
        unfold name_good, name_from in *; match goal with E : ServerName _ = _ |- _ => rewrite E end;
        tauto.
  - intros [left|] m' Hg'; wp_steps; auto with hera;
      (split_and!; [simpl; rewrite length_app; lia| |done]);
      (eapply infix_trans; [|done]; apply (infix_tail (_ :: _ :: _ :: _ :: _))).
Qed.

(** The loop over the extensions ends, keeping the invariant [I]. *)
Lemma wp_extensions_loop (I : gset Z -> bytes -> ClientHelloMsg -> Prop)
    (Q : unit -> ClientHelloMsg -> Prop) E seen exts m fuel :
  (length exts <= fuel)%nat -> I seen exts m ->
  (forall seen exts m, exts <> [] -> I seen exts m ->
     wp (extension_step seen exts)
       (fun r m' => (length r.2 < length exts)%nat /\ I ({[ r.1 ]} ∪ seen) r.2 m') E m) ->
  (forall seen m, I seen [] m -> Q tt m) ->
  wp (extensions_loop fuel seen exts) Q E m.
Proof.
  intros Hf HI Hstep HQ. revert seen exts m Hf HI.
  induction fuel as [|fuel IH]; intros seen exts m Hf HI; cbn [extensions_loop];
    destruct (cb_Empty exts) eqn:Es; inv_reads.
  1,3: subst; apply wp_ret; eauto.
  - by destruct exts; [|simpl in Hf; lia].
  - apply wp_bind. eapply wp_mono; [by apply Hstep| |done].
    intros [ext exts'] m' [Hl HI']. simpl in *. apply IH; [lia|done].
Qed.

Lemma suites_item_keeps msg : item_keeps (uint16_item msg add_suite).
Proof. apply uint16_item_keeps. intros x m. unfold add_suite. by case_bool_decide. Qed.

(** What remains after a read is a suffix of the string. *)
Class Advances {A} (r : option A * bytes) (s : bytes) : Prop :=
  advances : forall a s', r = (Some a, s') -> infix_of s' s.
#[local] Instance adv16 s : Advances (cb_ReadUint16 s) s.
Proof. intros a s' E. inv_reads. apply (infix_tail [_; _]). Qed.
#[local] Instance advB n s : Advances (cb_ReadBytes n s) s.
Proof. intros a s' E. inv_reads. subst. apply infix_tail. Qed.
#[local] Instance advP8 s : Advances (cb_ReadUint8LengthPrefixed s) s.
Proof. intros a s' E. inv_reads. apply (infix_tail (_ :: _)). Qed.
#[local] Instance advP16 s : Advances (cb_ReadUint16LengthPrefixed s) s.
Proof. intros a s' E. inv_reads. apply (infix_tail (_ :: _ :: _)). Qed.

Lemma read_rest {A} {r : option A * bytes} {s a s'} `{!Advances r s} :
  r = (Some a, s') -> infix_of s' s.
Proof. apply advances. Qed.

Lemma Prefixed16_infix {s p s'} : cb_ReadUint16LengthPrefixed s = (Some p, s') -> infix_of p s.
Proof. intros E. inv_reads. apply (infix_app [_; _]). Qed.

Lemma unmarshal_head_from data m :
  ServerName m = EmptyString ->
  wp (unmarshal_head data) (fun exts m' => infix_of exts data /\ ServerName m' = EmptyString)
    (fun m' => ServerName m' = EmptyString) m.
Proof.
  intros Hm. unfold unmarshal_head, skip4.
  destruct (cb_Skip 4 data) as [[] s] eqn:Es; [|by wp_steps].
  assert (infix_of s data) as Hs.
  { destruct (decide (4 <= length data)%nat) as [Hl|Hl].
    - rewrite <- (take_drop 4 data) in Es |- *.
      assert (length (take 4 data) = 4%nat) as H4 by (rewrite length_take; lia).
      rewrite <- H4 in Es at 1. rewrite cb_Skip_ok in Es. injection Es as <-. apply infix_tail.
    - apply (f_equal fst) in Es. rewrite cb_Skip_short in Es by lia. done. }
  repeat (lazymatch goal with |- wp (loop _ _) _ _ _ => fail | _ => wp_step end; intros; try done).
  eapply wp_mono; [apply keeps_loop, suites_item_keeps| |]; simpl; intros; [|congruence].
  wp_steps; try congruence. split; [|congruence].
  repeat match goal with
  | E : _ = (Some _, ?s) |- infix_of ?s _ => eapply infix_trans; [exact (read_rest E)|]
  | E : cb_ReadUint16LengthPrefixed _ = (Some ?s, _) |- infix_of ?s _ =>
      eapply infix_trans; [exact (Prefixed16_infix E)|]
  end. exact Hs.
Qed.

Lemma unmarshal_from data m :
  wp (unmarshal data) (fun _ => name_good data) (name_from data) m.
Proof.
  change (wp (extensions ← unmarshal_head data; extensions_loop (length extensions) ∅ extensions)
    (fun _ => name_good data) (name_from data) zero_msg).
  apply wp_bind. eapply wp_mono; [by apply unmarshal_head_from| |by left].
  simpl. intros exts m' [Hi Hn].
  apply (wp_extensions_loop (fun _ s m => infix_of s data /\ name_good data m)); [done| | |].
  - split; [done|by left].
  - intros seen s m1 _ [? ?]. by apply extension_step_from.
  - intros _ m1 [_ ?]. done.
Qed.

(** C30. The parser returns on every input, in as many loop iterations as the
    input has bytes at most, with one exception: [UnmarshalByByte] panics
    exactly when the input has one to four bytes and starts with the handshake
    content type 22. *)
Theorem UnmarshalByByte_total buf m :
  (UnmarshalByByte buf m = Panic <->
   exists tl, buf = x16 :: tl /\ (length tl < 4)%nat) /\
  (forall m', UnmarshalByByte buf m <> Ret (Err OutOfFuel, m')).
Proof.
  unfold UnmarshalByByte. destruct buf as [|b0 tl]; [split; [split; [done|by intros (? & ? & _)]|done]|].
  destruct (decide (b0 = x16)) as [->|Hb]; last first.
  { rewrite bool_decide_eq_false_2 by done. simpl.
    split; [split; [done|intros (? & ? & _); congruence]|done]. }
  rewrite bool_decide_eq_true_2 by done. simpl. case_bool_decide as Hl.
  - split; [split; [done|intros (tl' & [= <-] & ?); simpl in *; lia]|].
    intros m' E. pose proof (unmarshal_from (drop 5 (x16 :: tl)) m) as Hw. unfold wp in Hw.
    simpl in Hw. injection E as E. by rewrite E in Hw.
  - split; [split; [|done]|done]. intros _. exists tl. simpl in Hl. split; [done|lia].
Qed.

(** The server name is never invented: on every input, the name left in
    the message, also when the parser reported an error, is empty or a
    contiguous part of the input; without an error it does not end with a
    dot. *)
Theorem server_name_is_in_the_input buf r m :
  UnmarshalByByte buf zero_msg = Ret (r, m) ->
  ServerName m = EmptyString \/
  (exists p q, buf = p ++ bytes_of_str (ServerName m) ++ q) /\
  (r = Ok tt -> HasSuffix (ServerName m) "." = false).
Proof.
  unfold UnmarshalByByte. destruct buf as [|b0 tl]; [intros [= <- <-]; by left|].
  repeat case_bool_decide; simpl; [|done|intros [= <- <-]; by left..]. intros [= E].
  pose proof (unmarshal_from (drop 4 tl) zero_msg) as Hw. unfold wp in Hw. rewrite E in Hw.
  assert (infix_of (drop 4 tl) (b0 :: tl)) as Hi.
  { rewrite <- (take_drop 4 tl) at 2. apply (infix_tail (b0 :: _)). }
  destruct r as [[]|[e|]]; [| |done]; destruct Hw as [Hw|Hw]; try by left.
  - destruct Hw as [Hn Hd]. right. split; [by eapply infix_trans|done].
  - right. split; [by eapply infix_trans|done].
Qed.

(** *** The name of a well-formed hello is found *)

Abbreviation zlen d := (Z.of_nat (length d)).

Definition u16_bytes (z : Z) : bytes := [Z_byte (z / 256); Z_byte z].
Definition with_len16 (d : bytes) : bytes := u16_bytes (Z.of_nat (length d)) ++ d.
Definition with_len8 (d : bytes) : bytes := Z_byte (Z.of_nat (length d)) :: d.
Definition encode_ext (e : Z * bytes) : bytes := u16_bytes e.1 ++ with_len16 e.2.
(** The data of a server_name extension with one host name. *)
Definition sni_data (host : bytes) : bytes := with_len16 (x00 :: with_len16 host).

(** A record with a ClientHello: [rest] are the bytes of the extensions after
    server_name. *)
Record hello := mkHello {
  h_record : bytes;    (** version and length of the record *)
  h_handshake : bytes; (** type and length of the handshake message *)
  h_vers : bytes;
  h_random : bytes;
  h_session : bytes;
  h_suites : bytes;
  h_methods : bytes;
  h_before : list (Z * bytes); (** extensions before server_name *)
  h_host : bytes;
  h_rest : bytes
}.
Definition hello_exts (h : hello) : bytes :=
  concat (encode_ext <$> h_before h) ++ encode_ext (extensionServerName, sni_data (h_host h)) ++ h_rest h.
Definition encode_hello (h : hello) : bytes :=
  x16 :: h_record h ++ h_handshake h ++ h_vers h ++ h_random h ++ with_len8 (h_session h) ++
  with_len16 (h_suites h) ++ with_len8 (h_methods h) ++ with_len16 (hello_exts h).

(** An extension, not the last one, that the parser accepts or skips. *)
Definition ext_accepted (e : Z * bytes) : Prop :=
  0 <= e.1 < 65536 /\ zlen e.2 < 65536 /\
  forall more m, more <> [] -> exists r m', parse_extension e.1 more e.2 m = (Ok r, m') /\
    default [] r = [].

Record hello_ok (h : hello) : Prop := mkHelloOk {
  ho_record : length (h_record h) = 4%nat;
  ho_handshake : length (h_handshake h) = 4%nat;
  ho_vers : length (h_vers h) = 2%nat;
  ho_random : length (h_random h) = 32%nat;
  ho_session : (length (h_session h) < 256)%nat;
  ho_suites : zlen (h_suites h) < 65536 /\ Nat.Even (length (h_suites h));
  ho_methods : (length (h_methods h) < 256)%nat;
  ho_exts : zlen (hello_exts h) < 65536;
  ho_before : Forall ext_accepted (h_before h) /\ NoDup (extensionServerName :: (h_before h).*1);
  ho_host : h_host h <> []
}.

Lemma be16_u16_bytes z : 0 <= z < 65536 -> be16 (Z_byte (z / 256)) (Z_byte z) = z.
Proof. intros Hz. unfold be16. rewrite !byte_Z_of_Z. Z.to_euclidean_division_equations; lia. Qed.

Lemma read_len16 d s :
  zlen d < 65536 -> cb_ReadUint16LengthPrefixed (with_len16 d ++ s) = (Some d, s).
Proof.
  intros Hd. unfold with_len16. rewrite <- app_assoc.
  apply (cb_Prefixed16_ok (Z_byte (zlen d / 256)) (Z_byte (zlen d)) d s). apply be16_u16_bytes. lia.
Qed.

Lemma read_len8 d s :
  (length d < 256)%nat -> cb_ReadUint8LengthPrefixed (with_len8 d ++ s) = (Some d, s).
Proof.
  intros Hd. apply cb_Prefixed8_ok. rewrite byte_Z_of_Z. apply Z.mod_small. lia.
Qed.

Lemma wp_need_ok {A} (r : option A * bytes) a s msg (Q : A * bytes -> ClientHelloMsg -> Prop) E m :
  r = (Some a, s) -> Q (a, s) m -> wp (need r msg) Q E m.
Proof. by intros ->. Qed.

Lemma encode_head_parses h :
  hello_ok h ->
  wp (unmarshal_head (drop 5 (encode_hello h)))
    (fun exts m' => exts = hello_exts h /\ ServerName m' = EmptyString) (fun _ => False) zero_msg.
Proof.
  intros []. unfold encode_hello. rewrite skipn_cons, drop_app_length' by done.
  unfold unmarshal_head, skip4. rewrite <- ho_handshake0 at 1. rewrite cb_Skip_ok.
  do 2 (apply wp_bind; simpl). destruct (h_vers h) as [|v1 [|v2 [|]]]; try done.
  eapply wp_need_ok; [apply cb_ReadUint16_ok|]. simpl. wp_step. wp_step. wp_step.
  eapply wp_need_ok; [rewrite <- ho_random0; apply cb_ReadBytes_ok|]. simpl. wp_step. wp_step. wp_step.
  eapply wp_need_ok; [by apply read_len8|]. simpl. wp_step. wp_step. wp_step.
  eapply wp_need_ok; [by apply read_len16; destruct ho_suites0|]. simpl. wp_step. wp_step. wp_step.
  apply (wp_loop _ _ (fun s m => Nat.Even (length s) /\ ServerName m = EmptyString)).
  - split; [by destruct ho_suites0|done].
  - intros [|a [|b s]] m Hs [Hev Hn]; [done|destruct Hev; simpl in *; lia|].
    unfold uint16_item. wp_step. eapply wp_need_ok; [apply cb_ReadUint16_ok|]. wp_steps.
    split_and!; [lia| |unfold add_suite; by case_bool_decide].
    simpl in Hev. by rewrite !Nat.Even_succ, !Nat.Odd_succ in Hev.
  - intros m [_ Hn]. wp_step. eapply wp_need_ok; [by apply read_len8|]. simpl.
    do 3 wp_step. wp_step; intros Hem; inv_reads; [done|]. wp_step.
    eapply wp_need_ok; [rewrite <- (app_nil_r (with_len16 _)); by apply read_len16|]. simpl.
    wp_step. wp_step; intros; inv_reads; [done|]. done.
Qed.

(** A name, once recorded, stays: another server_name extension is an error
    and no other extension writes it. *)
Lemma name_stable host seen exts m fuel :
  (length exts <= fuel)%nat -> extensionServerName ∈ seen -> ServerName m = host ->
  wp (extensions_loop fuel seen exts) (fun _ m' => ServerName m' = host)
    (fun m' => ServerName m' = host) m.
Proof.
  intros Hf Hin Hm.
  apply (wp_extensions_loop (fun seen _ m => extensionServerName ∈ seen /\ ServerName m = host));
    [done|done| |by intros ? ? []].
  clear seen exts m Hf Hin Hm. intros seen exts m _ [Hin Hm]. unfold extension_step.
  wp_step. wp_step; intros; auto. wp_step; simpl. wp_step; intros; auto. wp_step; simpl.
  wp_step; intros Hs; auto. wp_step. inv_reads. to_prop.
  eapply wp_mono; [apply parse_extension_keeps; congruence| |simpl; congruence].
  simpl. intros [left|] m' Hm'; wp_steps; try congruence;
    (split; [rewrite length_app; lia|split; [set_solver|congruence]]).
Qed.

Lemma extension_step_encoded seen e more m (Q : Z * bytes -> ClientHelloMsg -> Prop) E :
  0 <= e.1 < 65536 -> zlen e.2 < 65536 -> e.1 ∉ seen ->
  wp (parse_extension e.1 more e.2) (fun r m' => wp (match r with
      | None => mret tt
      | Some extData => fail_if (negb (cb_Empty extData)) " !extData.Empty() "
      end) (fun _ => Q (e.1, more)) E m') E m ->
  wp (extension_step seen (encode_ext e ++ more)) Q E m.
Proof.
  intros He Hl Hs Hw. unfold extension_step, encode_ext, u16_bytes. simpl.
  wp_step. eapply wp_need_ok; [apply cb_ReadUint16_ok|]. rewrite be16_u16_bytes by done. wp_step.
  eapply wp_need_ok; [by apply read_len16|]. wp_step.
  rewrite bool_decide_eq_false_2 by done. apply wp_ret, wp_bind.
  eapply wp_mono; [exact Hw| |done]. simpl. intros r m' Hw'. apply wp_bind.
  eapply wp_mono; [exact Hw'| |done]. intros ? m'' HQ. by apply wp_ret.
Qed.

Lemma name_item_encoded extData host m :
  host <> [] -> zlen host < 65536 -> ServerName m = EmptyString ->
  wp (name_item extData (x00 :: with_len16 host))
    (fun s' m' => s' = [] /\ ServerName m' = str_of_bytes host)
    (fun m' => ServerName m' = str_of_bytes host) m.
Proof.
  intros Hne Hl Hm. unfold name_item. wp_step. eapply wp_need_ok; [apply cb_ReadUint8_ok|].
  simpl. wp_step. eapply wp_need_ok; [rewrite <- (app_nil_r (with_len16 _)); by apply read_len16|].
  simpl. wp_steps; inv_reads; try done. rewrite Hm in *. done.
Qed.

Lemma sni_encoded host more m :
  host <> [] -> zlen host + 5 < 65536 -> ServerName m = EmptyString ->
  wp (parse_extension extensionServerName more (sni_data host))
    (fun r m' => r = Some [] /\ ServerName m' = str_of_bytes host)
    (fun m' => ServerName m' = str_of_bytes host) m.
Proof.
  intros Hne Hl Hm. unfold parse_extension. simpl. apply wp_bind.
  unfold ext_ServerName, sni_data. rewrite <- (app_nil_r (with_len16 _)).
  rewrite read_len16 by (simpl; lia).
  wp_step. wp_step; intros; inv_reads; [done|]. wp_step.
  unfold loop. cbn [length while_nonempty]. rewrite (proj2 (Empty_false _)) by done.
  apply wp_bind. eapply wp_mono; [apply name_item_encoded; [done|lia|done]| |done].
  simpl. intros s' m' [-> Hn].
  assert (cb_Empty [] = true) as He by by apply Empty_true.
  destruct (length _) as [|k]; cbn [while_nonempty]; rewrite He; done.
Qed.

(** The extensions before server_name are accepted, then the name is read. *)
Lemma before_then_name before host rest seen m fuel :
  Forall ext_accepted before -> NoDup (extensionServerName :: before.*1) ->
  (forall i, i ∈ extensionServerName :: before.*1 -> i ∉ seen) ->
  host <> [] -> zlen host + 5 < 65536 -> ServerName m = EmptyString ->
  let exts := concat (encode_ext <$> before) ++
              encode_ext (extensionServerName, sni_data host) ++ rest in
  (length exts <= fuel)%nat ->
  wp (extensions_loop fuel seen exts) (fun _ m' => ServerName m' = str_of_bytes host)
    (fun m' => ServerName m' = str_of_bytes host) m.
Proof.
  intros Hacc Hnd Hseen Hne Hl Hm. revert seen m fuel Hseen Hm.
  induction Hacc as [|e before He _ IH]; intros seen m fuel Hseen Hm exts Hf.
  - destruct fuel as [|fuel]; [simpl in Hf; lia|]. cbn [extensions_loop].
    rewrite (proj2 (Empty_false _)) by done. apply wp_bind.
    apply extension_step_encoded; [done| |apply Hseen; set_solver|].
    { simpl. lia. }
    eapply wp_mono; [by apply sni_encoded| |done]. simpl. intros r m' [-> Hn].
    rewrite (proj2 (Empty_true _)) by done. apply wp_ret. apply name_stable; [|set_solver|done].
    subst exts. simpl in Hf. rewrite !length_app in Hf. simpl in Hf. lia.
  - simpl in Hnd. rewrite NoDup_cons, NoDup_cons in Hnd. destruct Hnd as (Hn0 & Hne1 & Hnd).
    destruct fuel as [|fuel]; [simpl in Hf; lia|]. cbn [extensions_loop].
    rewrite (proj2 (Empty_false _)) by done. apply wp_bind.
    destruct He as (Hr & Hle & Hp).
    subst exts. cbn [fmap list_fmap concat] in *. rewrite <- app_assoc in *.
    apply extension_step_encoded; [done..|apply Hseen; set_solver|].
    set (more := concat _ ++ _) in *.
    assert (more <> []) as Hmore by (unfold more; by destruct (concat (encode_ext <$> before))).
    destruct (Hp more m Hmore) as (r & m' & Er & Hr').
    assert (ServerName m' = ServerName m) as Hm'.
    { pose proof (parse_extension_keeps e.1 more e.2 ltac:(set_solver) m) as Hk.
      unfold wp in Hk. by rewrite Er in Hk. }
    unfold wp at 1. rewrite Er.
    assert (wp (extensions_loop fuel ({[ e.1 ]} ∪ seen) more)
      (fun _ m' => ServerName m' = str_of_bytes host)
      (fun m' => ServerName m' = str_of_bytes host) m') as Hrest.
    { apply IH; [by apply NoDup_cons; set_solver| |congruence|].
      - intros i Hi. assert (i ∉ seen) by (apply Hseen; set_solver). set_solver.
      - unfold encode_ext at 1 in Hf. simpl in Hf. rewrite length_app in Hf.
        fold more. lia. }
    destruct r as [s|]; simpl in Hr'; [subst s; rewrite (proj2 (Empty_true _)) by done|];
      by apply wp_ret.
Qed.

(** C16. Sniffing a ClientHello yields its host name: for every record whose
    extensions before server_name are distinct and accepted by the parser, the
    message holds the host name afterwards, whatever bytes follow server_name
    in the extension list, even when these make the parser report an error. *)
Theorem hello_server_name h m0 :
  hello_ok h ->
  exists r m, UnmarshalByByte (encode_hello h) m0 = Ret (r, m) /\
    ServerName m = str_of_bytes (h_host h).
Proof.
  intros Hok. pose proof (encode_head_parses h Hok) as Hh. destruct Hok.
  assert (5 <= length (encode_hello h))%nat as Hl.
  { unfold encode_hello. simpl. rewrite length_app. lia. }
  assert (zlen (h_host h) + 5 < 65536) as Hhost.
  { revert ho_exts0. unfold hello_exts. rewrite !length_app. simpl. rewrite ?length_app. simpl. lia. }
  unfold UnmarshalByByte. unfold encode_hello at 1. rewrite bool_decide_eq_true_2 by done. simpl negb.
  cbv iota. rewrite (bool_decide_eq_true_2 _ Hl).
  assert (wp (unmarshal (drop 5 (encode_hello h))) (fun _ m' => ServerName m' = str_of_bytes (h_host h))
    (fun m' => ServerName m' = str_of_bytes (h_host h)) m0) as Hw.
  { change (wp (exts ← unmarshal_head (drop 5 (encode_hello h)); extensions_loop (length exts) ∅ exts)
      (fun _ m' => ServerName m' = str_of_bytes (h_host h))
      (fun m' => ServerName m' = str_of_bytes (h_host h)) zero_msg).
    apply wp_bind. eapply wp_mono; [exact Hh| |done]. simpl. intros exts m' [-> Hn].
    destruct ho_before0. by apply before_then_name; try set_solver. }
  unfold wp in Hw. destruct (unmarshal _ m0) as [[[]|[e|]] m']; [eauto..|done].
Qed.
End facts.

(** ** A reference instance of [cryptobyte.String] *)

Definition ref_take (n : nat) (s : bytes) : option bytes * bytes :=
  if bool_decide (n <= length s)%nat then (Some (take n s), drop n s) else (None, s).

#[global] Instance ref_cryptobyte : CryptoByte := {|
  cb_Skip n s := match ref_take n s with (Some _, s') => (true, s') | (None, s') => (false, s') end;
  cb_ReadUint8 s := match s with a :: s' => (Some (byte_Z a), s') | _ => (None, s) end;
  cb_ReadUint16 s := match s with a :: b :: s' => (Some (be16 a b), s') | _ => (None, s) end;
  cb_ReadUint32 s :=
    match s with a :: b :: c :: d :: s' => (Some (be32 a b c d), s') | _ => (None, s) end;
  cb_ReadBytes := ref_take;
  cb_CopyBytes := ref_take;
  cb_ReadUint8LengthPrefixed s :=
    match s with a :: s' => ref_take (Z.to_nat (byte_Z a)) s' | _ => (None, s) end;
  cb_ReadUint16LengthPrefixed s :=
    match s with a :: b :: s' => ref_take (Z.to_nat (be16 a b)) s' | _ => (None, s) end;
  cb_Empty s := bool_decide (s = [])
|}.

Lemma ref_take_ok p s : ref_take (length p) (p ++ s) = (Some p, s).
Proof.
  unfold ref_take. rewrite bool_decide_eq_true_2 by (rewrite length_app; lia).
  by rewrite take_app_length, drop_app_length.
Qed.
Lemma ref_take_short n s : (length s < n)%nat -> ref_take n s = (None, s).
Proof. intros Hn. unfold ref_take. by rewrite bool_decide_eq_false_2 by lia. Qed.

#[global] Instance ref_cryptobyte_laws : CryptoByteLaws ref_cryptobyte.
Proof.
  split; simpl; try done; try apply ref_take_ok;
    try (intros n s Hn; by rewrite ref_take_short).
  - intros p s. by rewrite ref_take_ok.
  - intros [|a [|b s]] Hs; simpl in *; done || lia.
  - intros [|a [|b [|c [|d s]]]] Hs; simpl in *; done || lia.
  - intros a p s E. rewrite E, Nat2Z.id. apply ref_take_ok.
  - intros [|a s] Hs; [done|]. by rewrite ref_take_short by lia.
  - intros a b p s E. rewrite E, Nat2Z.id. apply ref_take_ok.
  - intros [|a [|b s]] Hs; try done. by rewrite ref_take_short by lia.
Qed.

(** The message of the repository's test ([clientHello_test.go]): the first
    1460 bytes of a record of 1859, so the extension list is incomplete. *)
Definition test_hello : bytes := Z_byte <$>
  [22; 3; 1; 7; 62; 1; 0; 7; 58; 3; 3; 249; 175; 102; 12; 208; 188; 201; 74; 248; 169; 125; 150;
   127; 52; 106; 216; 235; 104; 119; 45; 205; 68; 245; 40; 246; 64; 138; 125; 160; 75; 147; 176;
   32; 34; 159; 134; 91; 204; 169; 166; 12; 156; 97; 140; 68; 247; 93; 177; 225; 70; 48; 3; 152;
   82; 133; 222; 237; 213; 150; 161; 17; 138; 133; 236; 50; 0; 32; 122; 122; 19; 1; 19; 2; 19; 3;
   192; 43; 192; 47; 192; 44; 192; 48; 204; 169; 204; 168; 192; 19; 192; 20; 0; 156; 0; 157; 0; 47;
   0; 53; 1; 0; 6; 209; 74; 74; 0; 0; 0; 43; 0; 7; 6; 10; 10; 3; 4; 3; 3; 0; 5; 0; 5; 1; 0; 0; 0;
   0; 0; 13; 0; 18; 0; 16; 4; 3; 8; 4; 4; 1; 5; 3; 8; 5; 5; 1; 8; 6; 6; 1; 255; 1; 0; 1; 0; 0; 16;
   0; 14; 0; 12; 2; 104; 50; 8; 104; 116; 116; 112; 47; 49; 46; 49; 0; 23; 0; 0; 0; 10; 0; 12; 0;
   10; 154; 154; 17; 236; 0; 29; 0; 23; 0; 24; 254; 13; 0; 218; 0; 0; 1; 0; 1; 204; 0; 32; 203; 39;
   52; 140; 131; 132; 219; 210; 251; 115; 10; 113; 79; 97; 50; 232; 174; 18; 64; 145; 233; 56; 148;
   160; 118; 70; 63; 207; 158; 238; 78; 97; 0; 176; 147; 84; 89; 115; 31; 145; 214; 56; 242; 67;
   242; 103; 209; 108; 64; 53; 52; 110; 169; 55; 144; 85; 105; 240; 172; 66; 236; 151; 184; 187;
   124; 118; 218; 115; 100; 221; 132; 219; 173; 24; 205; 85; 84; 95; 187; 119; 65; 184; 85; 50;
   136; 187; 115; 141; 3; 231; 81; 76; 113; 55; 112; 138; 191; 133; 69; 141; 187; 112; 194; 236;
   71; 244; 253; 171; 53; 254; 101; 185; 219; 46; 229; 255; 60; 254; 183; 134; 154; 70; 127; 67;
   29; 83; 82; 119; 68; 125; 170; 223; 209; 175; 61; 111; 206; 161; 65; 122; 205; 83; 244; 109; 81;
   227; 122; 148; 71; 24; 201; 201; 112; 95; 118; 235; 186; 125; 124; 108; 234; 188; 66; 207; 2;
   60; 107; 241; 69; 145; 139; 40; 3; 21; 198; 203; 158; 158; 54; 188; 98; 142; 161; 6; 187; 187;
   211; 131; 19; 137; 17; 7; 132; 55; 60; 139; 127; 161; 15; 143; 106; 11; 105; 119; 133; 192; 141;
   85; 79; 15; 0; 18; 0; 0; 0; 0; 0; 18; 0; 16; 0; 0; 13; 109; 98; 100; 46; 98; 97; 105; 100; 117;
   46; 99; 111; 109; 0; 45; 0; 2; 1; 1; 0; 35; 0; 104; 40; 230; 154; 117; 204; 144; 164; 100; 157;
   217; 236; 36; 44; 0; 10; 62; 91; 47; 104; 200; 58; 63; 87; 146; 209; 217; 165; 42; 77; 241; 145;
   89; 229; 9; 141; 44; 147; 12; 67; 139; 17; 129; 186; 22; 92; 154; 174; 244; 119; 26; 76; 75; 50;
   47; 90; 199; 114; 92; 54; 183; 175; 102; 96; 38; 143; 206; 199; 246; 116; 106; 45; 189; 227;
   244; 40; 204; 20; 193; 117; 205; 119; 27; 221; 200; 81; 115; 216; 44; 174; 125; 136; 54; 14; 46;
   13; 22; 57; 189; 113; 58; 162; 139; 113; 102; 0; 27; 0; 3; 2; 0; 2; 0; 11; 0; 2; 1; 0; 0; 51; 4;
   239; 4; 237; 154; 154; 0; 1; 0; 17; 236; 4; 192; 248; 240; 147; 46; 185; 74; 54; 231; 112; 136;
   112; 88; 71; 124; 123; 140; 171; 145; 112; 68; 102; 145; 22; 46; 255; 43; 22; 163; 161; 159;
   145; 181; 88; 205; 12; 105; 155; 218; 135; 51; 55; 151; 93; 170; 104; 174; 1; 58; 213; 39; 93;
   82; 11; 173; 142; 147; 121; 97; 12; 187; 167; 240; 23; 47; 250; 111; 181; 20; 103; 141; 52; 188;
   55; 35; 123; 236; 183; 55; 205; 227; 82; 138; 225; 84; 86; 245; 31; 243; 240; 17; 111; 83; 105;
   157; 92; 194; 165; 85; 116; 51; 208; 180; 162; 164; 109; 167; 87; 105; 161; 119; 141; 217; 70;
   65; 102; 183; 95; 99; 218; 137; 74; 145; 36; 44; 92; 20; 181; 68; 59; 21; 201; 107; 116; 227;
   60; 206; 211; 125; 188; 241; 119; 20; 36; 186; 58; 16; 190; 173; 106; 84; 74; 51; 130; 206; 75;
   24; 81; 74; 0; 30; 119; 110; 147; 42; 159; 88; 101; 1; 61; 80; 81; 193; 149; 150; 228; 115; 141;
   210; 32; 183; 160; 192; 89; 121; 12; 74; 122; 64; 31; 32; 186; 59; 100; 213; 174; 207; 172; 122;
   71; 180; 125; 210; 123; 78; 86; 66; 128; 92; 41; 135; 233; 27; 104; 202; 90; 197; 129; 250; 85;
   150; 134; 27; 178; 179; 69; 144; 116; 95; 241; 72; 69; 79; 218; 162; 11; 88; 35; 155; 192; 149;
   156; 177; 96; 19; 84; 189; 152; 10; 118; 127; 235; 136; 148; 153; 63; 227; 245; 200; 56; 8; 65;
   157; 73; 206; 77; 99; 91; 26; 23; 81; 154; 194; 8; 135; 106; 137; 32; 177; 16; 60; 154; 73; 112;
   146; 106; 63; 245; 173; 138; 81; 91; 75; 219; 149; 67; 122; 205; 179; 228; 163; 111; 23; 108;
   77; 129; 207; 125; 40; 139; 146; 10; 187; 168; 91; 47; 108; 3; 95; 166; 70; 71; 164; 229; 76;
   251; 247; 44; 205; 89; 108; 131; 240; 132; 71; 27; 179; 12; 60; 83; 166; 67; 5; 63; 229; 28; 17;
   227; 14; 230; 128; 2; 65; 96; 170; 44; 226; 118; 90; 20; 3; 155; 9; 61; 78; 50; 191; 54; 108;
   176; 170; 66; 46; 146; 231; 52; 246; 197; 76; 23; 213; 92; 81; 209; 78; 156; 113; 73; 7; 80; 77;
   250; 64; 135; 191; 85; 182; 82; 114; 61; 109; 168; 96; 45; 58; 58; 46; 166; 166; 212; 129; 134;
   240; 104; 6; 118; 231; 80; 80; 137; 76; 3; 180; 93; 83; 108; 19; 28; 183; 199; 211; 27; 131; 70;
   3; 167; 102; 105; 154; 1; 21; 153; 246; 224; 24; 18; 99; 70; 56; 195; 102; 7; 224; 73; 44; 76;
   129; 4; 140; 34; 156; 144; 43; 232; 215; 137; 148; 152; 60; 60; 227; 183; 232; 33; 12; 192; 220;
   170; 191; 137; 155; 178; 18; 181; 156; 21; 15; 85; 67; 122; 198; 53; 166; 0; 105; 200; 105; 188;
   184; 42; 8; 121; 216; 72; 75; 199; 118; 32; 14; 149; 41; 99; 96; 136; 111; 252; 151; 61; 89; 86;
   168; 116; 167; 11; 149; 143; 10; 113; 35; 5; 103; 19; 28; 180; 111; 79; 216; 55; 34; 246; 63;
   37; 37; 178; 101; 226; 141; 64; 164; 206; 138; 183; 14; 224; 137; 60; 18; 92; 86; 61; 11; 141;
   18; 26; 184; 122; 114; 26; 128; 71; 111; 181; 247; 188; 60; 71; 163; 139; 6; 51; 136; 51; 90;
   31; 67; 29; 10; 200; 149; 35; 192; 99; 99; 202; 23; 57; 248; 139; 121; 4; 37; 47; 83; 124; 65;
   234; 105; 68; 249; 136; 131; 245; 104; 137; 50; 30; 31; 3; 37; 28; 247; 71; 67; 212; 4; 212;
   245; 200; 180; 132; 179; 5; 121; 53; 230; 139; 184; 151; 92; 91; 149; 252; 62; 183; 122; 156;
   132; 133; 71; 99; 192; 203; 236; 32; 116; 92; 229; 120; 22; 26; 144; 155; 188; 87; 59; 52; 61;
   107; 67; 100; 163; 27; 61; 150; 184; 99; 4; 197; 109; 6; 42; 4; 148; 116; 46; 201; 181; 97; 12;
   168; 101; 250; 136; 63; 236; 219; 84; 140; 155; 53; 79; 103; 92; 124; 218; 42; 54; 37; 13; 83;
   140; 29; 191; 84; 127; 64; 37; 181; 8; 232; 91; 241; 87; 113; 122; 114; 189; 104; 219; 33; 110;
   9; 46; 213; 133; 26; 172; 113; 142; 196; 69; 67; 82; 144; 51; 31; 99; 100; 152; 194; 75; 154;
   129; 52; 48; 40; 77; 224; 227; 23; 104; 74; 109; 46; 1; 49; 29; 170; 4; 255; 251; 0; 243; 120;
   34; 158; 18; 52; 144; 92; 104; 85; 55; 29; 55; 235; 62; 36; 168; 76; 226; 97; 167; 15; 27; 114;
   134; 201; 63; 15; 150; 88; 210; 244; 183; 113; 24; 177; 21; 134; 117; 123; 240; 106; 195; 244;
   39; 97; 87; 66; 158; 105; 83; 95; 116; 22; 246; 99; 4; 126; 176; 53; 142; 16; 98; 246; 128; 131;
   20; 60; 56; 111; 136; 7; 179; 12; 26; 226; 232; 74; 82; 180; 35; 213; 134; 88; 160; 5; 72; 83;
   130; 7; 180; 248; 113; 137; 235; 65]%Z.

(** The head is parsed, but the name of the server, which is within the 1460
    bytes, is not reached. *)
Example test_hello_truncated :
  match UnmarshalByByte test_hello zero_msg with
  | Ret (Err (SErr e), m) =>
      (Error e, Vers m, length (CipherSuites m), ServerName m) =
      ("ReadUint16LengthPrefixed  extensions error", 771, 16%nat, EmptyString)
  | _ => False
  end.
Proof. vm_compute. reflexivity. Qed.

(** ** Witnesses *)

Definition sample_hello : hello :=
  mkHello [x03; x01; x00; x50] [x01; x00; x00; x4c] [x03; x03] (replicate 32 x07) [x01; x02]
    [x13; x01; x00; xff] [x00] [(43, [x02; x03; x04]); (23, []); (2570, [xaa])]
    (bytes_of_str "a.org") [x00; x10; x00; x00; xff].

Lemma sample_hello_ok : hello_ok sample_hello.
Proof.
  split; try (vm_compute; reflexivity); try (simpl; lia); try done.
  - split; [simpl; lia|]. by exists 2%nat.
  - split.
    + unfold sample_hello, h_before.
      apply List.Forall_cons; [|apply List.Forall_cons; [|apply List.Forall_cons; [|apply List.Forall_nil]]];
        unfold ext_accepted; (split; [by vm_compute|]); (split; [by vm_compute|]); intros more m Hm;
        eexists _, _; (split; [vm_compute; reflexivity|reflexivity]).
    + apply (bool_decide_unpack _). vm_compute. exact I.
Qed.

Lemma hello_server_name_witness :
  exists r m, UnmarshalByByte (encode_hello sample_hello) zero_msg = Ret (r, m) /\
    ServerName m = "a.org".
Proof. apply (hello_server_name sample_hello zero_msg sample_hello_ok). Defined.

Lemma server_name_is_in_the_input_witness :
  exists r m, UnmarshalByByte (encode_hello sample_hello) zero_msg = Ret (r, m) /\
    (ServerName m = EmptyString \/
     (exists p q, encode_hello sample_hello = p ++ bytes_of_str (ServerName m) ++ q) /\
     (r = Ok tt -> HasSuffix (ServerName m) "." = false)).
Proof.
  eexists _, _. split; [vm_compute; reflexivity|].
  apply server_name_is_in_the_input. vm_compute. reflexivity.
Defined.

Lemma UnmarshalByByte_total_witness : UnmarshalByByte [x16; x03] zero_msg = Panic.
Proof.
  apply (proj1 (UnmarshalByByte_total [x16; x03] zero_msg)). exists [x03].
  split; [reflexivity|simpl; lia].
Defined.
