(* ===== verification/Sniffing.v ===== *)
(** * The sniffing tap ([server/sniffing/conn.go])

    [ReadWriterNotice] wraps the client's connection: it keeps a copy of the
    bytes read until the first [Write] (the first answer of the target) and
    then hands them once to a callback. The methods are functions of the tap's
    state; the same code, cut at its atomic operations, is a transition system
    in which one goroutine reads while others write and close. *)
From Stdlib Require Import Strings.Byte.
From stdpp Require Import base strings numbers relations list.
From S2P Require Import Prelude GoIO.

Section tap.
Context {R : Type} `{Reader R, Writer R}.

(** [buf = None] is the nil slice; [has_fc] says whether a callback was
    given; [fc_calls] are the arguments it was called with so far. *)
Record ReadWriterNotice := mkRWN {
  rw : R;
  buf : option bytes;
  isNotice : bool;
  isStart : bool;
  has_fc : bool;
  fc_calls : list bytes;
  rw_closed : bool
}.

(** [rw = None] is the nil interface, [b = None] the nil slice. *)
Definition NewReadWriterNotice (r : option R) (b : option bytes) (fc : bool)
  : result error ReadWriterNotice :=
  match r with
  | None => Err (Errorf "rw io.ReadWriter  == nil")
  | Some r => Ok (mkRWN r (Some (default [] b)) false true fc [] false)
  end.

(** [close_err] is what closing the connection reports. *)
Definition Notice_Close (close_err : option error) (t : ReadWriterNotice)
  : option error * ReadWriterNotice :=
  if isStart t
  then (close_err, mkRWN (rw t) None (isNotice t) false (has_fc t) (fc_calls t) true)
  else (Some (Errorf "ReadWriterNotice is not start"), t).

Definition set_rw (r : R) (t : ReadWriterNotice) : ReadWriterNotice :=
  mkRWN r (buf t) (isNotice t) (isStart t) (has_fc t) (fc_calls t) (rw_closed t).
Definition set_buf (b : option bytes) (t : ReadWriterNotice) : ReadWriterNotice :=
  mkRWN (rw t) b (isNotice t) (isStart t) (has_fc t) (fc_calls t) (rw_closed t).

(** [if rwn.buf != nil { rwn.buf = append(rwn.buf, p[:n]...) }], under the lock. *)
Definition append_buf (d : bytes) (t : ReadWriterNotice) : ReadWriterNotice :=
  set_buf ((fun b => b ++ d) <$> buf t) t.

Definition Notice_Read (n : nat) (t : ReadWriterNotice)
  : (bytes * option error) * ReadWriterNotice :=
  if negb (isStart t) then (([], Some EOF), t)
  else
    let '((d, e), r) := rd_read n (rw t) in
    let t := set_rw r t in
    ((d, e), if negb (isNotice t) then append_buf d t else t).

(** The winner of the compare-and-swap takes the buffer and calls [fc]. *)
Definition set_notice (t : ReadWriterNotice) : ReadWriterNotice :=
  mkRWN (rw t) (buf t) true (isStart t) (has_fc t) (fc_calls t) (rw_closed t).
Definition take_and_call (t : ReadWriterNotice) : ReadWriterNotice :=
  match buf t with
  | None => t
  | Some b => mkRWN (rw t) None (isNotice t) (isStart t) (has_fc t) (fc_calls t ++ [b]) (rw_closed t)
  end.

Definition Notice_Write (p : bytes) (t : ReadWriterNotice)
  : (nat * option error) * ReadWriterNotice :=
  if negb (isStart t) then ((0%nat, Some EOF), t)
  else
    let '((n, e), r) := wr_write p (rw t) in
    let t := set_rw r t in
    if isNotice t then ((n, e), t)
    else
      let t := set_notice t in
      if negb (has_fc t) then ((n, e), t) else ((n, e), take_and_call t).

#[global] Instance notice_reader : Reader ReadWriterNotice := Notice_Read.
#[global] Instance notice_writer : Writer ReadWriterNotice := Notice_Write.

(** ** Concurrent use *)

(** The reading goroutine between its atomic actions: idle, [rw.Read] returned
    [d], or [isNotice] was read as false and the lock is wanted. *)
Inductive rpc := RIdle | RGot (d : bytes) | RAppend (d : bytes).
(** A writing goroutine: idle, [rw.Write] returned, or the swap was won and
    the lock is wanted. *)
Inductive wpc := WIdle | WWrote | WTake.

(** [read_log]: the bytes given to [NewReadWriterNotice] and all those read
    through the tap since. *)
Record tap_state := mkTap { tap : ReadWriterNotice; reader : rpc; writers : list wpc; read_log : bytes }.

Inductive tap_step : tap_state -> tap_state -> Prop :=
| tap_read t ws log n d e r :
    isStart t = true -> rd_read n (rw t) = ((d, e), r) ->
    tap_step (mkTap t RIdle ws log) (mkTap (set_rw r t) (RGot d) ws (log ++ d))
| tap_load t ws log d :
    tap_step (mkTap t (RGot d) ws log)
      (mkTap t (if isNotice t then RIdle else RAppend d) ws log)
| tap_append t ws log d :
    tap_step (mkTap t (RAppend d) ws log) (mkTap (append_buf d t) RIdle ws log)
| tap_write t rd ws log i p n e r :
    ws !! i = Some WIdle -> isStart t = true -> wr_write p (rw t) = ((n, e), r) ->
    tap_step (mkTap t rd ws log) (mkTap (set_rw r t) rd (<[i := WWrote]> ws) log)
| tap_swap t rd ws log i :
    ws !! i = Some WWrote ->
    tap_step (mkTap t rd ws log)
      (if isNotice t then mkTap t rd (<[i := WIdle]> ws) log
       else mkTap (set_notice t) rd (<[i := if has_fc t then WTake else WIdle]> ws) log)
| tap_take t rd ws log i :
    ws !! i = Some WTake ->
    tap_step (mkTap t rd ws log) (mkTap (take_and_call t) rd (<[i := WIdle]> ws) log)
| tap_close t rd ws log e :
    tap_step (mkTap t rd ws log) (mkTap (snd (Notice_Close e t)) rd ws log).

Definition is_take (w : wpc) : bool := match w with WTake => true | _ => false end.
Definition takes (ws : list wpc) : nat := sum_list_with (fun w => Nat.b2n (is_take w)) ws.
(** The calls made and those about to be made. *)
Definition pending_calls (s : tap_state) : nat :=
  (length (fc_calls (tap s)) + takes (writers s))%nat.

(** What the reader holds and has not recorded yet. *)
Definition in_hand (r : rpc) : bytes := match r with RIdle => [] | RGot d | RAppend d => d end.

Definition tap_inv (s : tap_state) : Prop :=
  (pending_calls s <= if isNotice (tap s) then 1 else 0)%nat /\
  Forall (fun b => b `prefix_of` read_log s) (fc_calls (tap s)) /\
  match buf (tap s) with
  | None => True
  | Some b =>
      if isNotice (tap s)
      then match reader s with RAppend d => (b ++ d) `prefix_of` read_log s | _ => b `prefix_of` read_log s end
      else b ++ in_hand (reader s) = read_log s
  end.

Lemma takes_insert ws i w w' :
  ws !! i = Some w -> (takes (<[i := w']> ws) + Nat.b2n (is_take w) = takes ws + Nat.b2n (is_take w'))%nat.
Proof.
  unfold takes. revert i. induction ws as [|w0 ws IH]; intros [|i] Hi; simplify_eq/=; [lia|].
  specialize (IH _ Hi). lia.
Qed.

Lemma Forall_prefix_app (l : list bytes) log d :
  Forall (fun b => b `prefix_of` log) l -> Forall (fun b => b `prefix_of` (log ++ d)) l.
Proof. intros Hl. eapply Forall_impl; [exact Hl|]. intros b. apply prefix_app_r. Qed.

Lemma tap_read_inv t ws log d r :
  tap_inv (mkTap t RIdle ws log) -> tap_inv (mkTap (set_rw r t) (RGot d) ws (log ++ d)).
Proof.
  unfold tap_inv, pending_calls. simpl. intros (Hp & Hc & Hb).
  split_and!; [done|by apply Forall_prefix_app|].
  destruct (buf t); [|done]. destruct (isNotice t); [by apply prefix_app_r|].
  by rewrite app_nil_r in Hb; subst.
Qed.

Lemma tap_swap_inv t rd ws log i :
  ws !! i = Some WWrote -> isNotice t = false -> tap_inv (mkTap t rd ws log) ->
  tap_inv (mkTap (set_notice t) rd (<[i := if has_fc t then WTake else WIdle]> ws) log).
Proof.
  unfold tap_inv, pending_calls. simpl. intros Hi -> (Hp & Hc & Hb). split_and!; [|done|].
  - pose proof (takes_insert ws i WWrote (if has_fc t then WTake else WIdle) Hi) as Ht.
    destruct (has_fc t); simpl in *; lia.
  - destruct (buf t) as [b|]; [|done]. subst log. destruct rd; simpl; first [done | by apply prefix_app_r].
Qed.

Lemma tap_take_inv t rd ws log i :
  ws !! i = Some WTake -> tap_inv (mkTap t rd ws log) ->
  tap_inv (mkTap (take_and_call t) rd (<[i := WIdle]> ws) log).
Proof.
  unfold tap_inv, pending_calls, take_and_call. simpl. intros Hi (Hp & Hc & Hb).
  pose proof (takes_insert ws i WTake WIdle Hi) as Ht. simpl in Ht.
  destruct (isNotice t) eqn:En; [|lia].
  destruct (buf t) as [b|] eqn:Eb; simpl; rewrite ?En, ?Eb, ?length_app; simpl.
  - split_and!; [lia| |done]. apply Forall_app. split; [done|].
    constructor; [|constructor]. destruct rd; [done..|].
    etrans; [|done]. by apply prefix_app_r.
  - split_and!; [lia|done..].
Qed.

Lemma tap_step_inv s s' : tap_step s s' -> tap_inv s -> tap_inv s'.
Proof.
  intros Hs Hi. inversion Hs; subst.
  - by apply tap_read_inv.
  - unfold tap_inv, pending_calls in *. simpl in *. destruct Hi as (Hp & Hc & Hb).
    split_and!; try done. destruct (buf t); [|done]. by destruct (isNotice t).
  - unfold tap_inv, pending_calls in *. simpl in *. destruct Hi as (Hp & Hc & Hb).
    split_and!; try done. destruct (buf t); [|done]. simpl.
    destruct (isNotice t); [done|]. by rewrite app_nil_r.
  - unfold tap_inv, pending_calls in *. simpl in *. destruct Hi as (Hp & Hc & Hb).
    pose proof (takes_insert ws i WIdle WWrote H1) as Ht. simpl in Ht. split_and!; [|done..]. lia.
  - destruct (isNotice t) eqn:En; [|by apply tap_swap_inv].
    unfold tap_inv, pending_calls in *. simpl in *. rewrite En in *. destruct Hi as (Hp & Hc & Hb).
    pose proof (takes_insert ws i WWrote WIdle H1) as Ht. simpl in Ht. split_and!; [|done..]. lia.
  - by apply tap_take_inv.
  - unfold Notice_Close. destruct (isStart t); [|done]. simpl.
    unfold tap_inv, pending_calls in *. simpl in *. by destruct Hi as (Hp & Hc & Hb).
Qed.

(** The states a new tap reaches, with [k] writing goroutines. *)
Definition tap_start (r : R) (b : option bytes) (fc : bool) (k : nat) : tap_state :=
  mkTap (mkRWN r (Some (default [] b)) false true fc [] false) RIdle (replicate k WIdle) (default [] b).

Lemma tap_start_inv r b fc k : tap_inv (tap_start r b fc k).
Proof.
  unfold tap_inv, pending_calls, tap_start. simpl. split_and!; [|done|by rewrite app_nil_r].
  unfold takes. induction k; simpl; lia.
Qed.

(** The callback runs at most once: in every interleaving of a reading
    goroutine, any number of writing ones and [Close], [fc] is called with at
    most one buffer, and that buffer is a prefix of the initial bytes followed
    by the bytes read through the tap, in order. *)
Theorem notice_called_at_most_once r b fc k s :
  rtc tap_step (tap_start r b fc k) s ->
  (length (fc_calls (tap s)) <= 1)%nat /\
  Forall (fun c => c `prefix_of` read_log s) (fc_calls (tap s)).
Proof.
  intros Hr. assert (tap_inv s) as (Hp & Hc & _).
  { revert Hr. generalize (tap_start_inv r b fc k). generalize (tap_start r b fc k).
    intros s0 Hi Hr. induction Hr; eauto using tap_step_inv. }
  split; [|done]. unfold pending_calls in Hp. destruct (isNotice (tap s)); lia.
Qed.

(** ** Sequential use *)

(** Reads through the tap, then a write. *)
Fixpoint read_many (ns : list nat) (t : ReadWriterNotice) : bytes * ReadWriterNotice :=
  match ns with
  | [] => ([], t)
  | n :: ns' =>
      let '((d, _), t) := Notice_Read n t in
      let '(ds, t) := read_many ns' t in (d ++ ds, t)
  end.

Lemma read_many_buf ns t b :
  isStart t = true -> isNotice t = false -> buf t = Some b ->
  let '(ds, t') := read_many ns t in
  isStart t' = true /\ isNotice t' = false /\ buf t' = Some (b ++ ds) /\
  has_fc t' = has_fc t /\ fc_calls t' = fc_calls t.
Proof.
  revert t b. induction ns as [|n ns IH]; intros t b Hs Hn Hb; simpl; [by rewrite app_nil_r|].
  unfold Notice_Read. rewrite Hs. simpl. destruct (rd_read n (rw t)) as [[d e] r]. rewrite Hn. simpl.
  specialize (IH (append_buf d (set_rw r t)) (b ++ d)). simpl in IH.
  rewrite Hb in IH. simpl in IH. specialize (IH Hs Hn eq_refl).
  destruct (read_many ns (append_buf d (set_rw r t))) as [ds t']. by rewrite <- app_assoc in IH.
Qed.

(** After the first write no method calls [fc] again. *)
Lemma noticed_is_quiet t : isNotice t = true ->
  (forall n, fc_calls (Notice_Read n t).2 = fc_calls t /\ isNotice (Notice_Read n t).2 = true) /\
  (forall p, fc_calls (Notice_Write p t).2 = fc_calls t /\ isNotice (Notice_Write p t).2 = true).
Proof.
  intros Hn. split; intros x.
  - unfold Notice_Read. destruct (isStart t); [|done]. simpl.
    destruct (rd_read x (rw t)) as [[d e] r]. simpl. by rewrite Hn.
  - unfold Notice_Write. destruct (isStart t); [|done]. simpl.
    destruct (wr_write x (rw t)) as [[d e] r]. simpl. by rewrite Hn.
Qed.

(** When the reads finish before the first write, that write hands the
    callback exactly the initial bytes and everything read, and no later read
    or write calls it again. *)
Theorem first_write_reports_the_request r b ns p q n t0 :
  NewReadWriterNotice (Some r) b true = Ok t0 ->
  let '(ds, t1) := read_many ns t0 in
  let t2 := (Notice_Write p t1).2 in
  fc_calls t2 = [default [] b ++ ds] /\
  fc_calls (Notice_Write q (Notice_Read n t2).2).2 = [default [] b ++ ds].
Proof.
  intros [= <-]. pose proof (read_many_buf ns (mkRWN r (Some (default [] b)) false true true [] false)
    (default [] b) eq_refl eq_refl eq_refl) as Hr.
  destruct (read_many ns _) as [ds t1]. destruct Hr as (Hs & Hn & Hb & Hf & Hc). simpl in Hf, Hc.
  assert (fc_calls (Notice_Write p t1).2 = [default [] b ++ ds] /\
          isNotice (Notice_Write p t1).2 = true) as [Hw1 Hw2].
  { unfold Notice_Write. rewrite Hs. simpl. destruct (wr_write p (rw t1)) as [[m e] r']. simpl.
    rewrite Hn, Hf. simpl. unfold take_and_call. simpl. rewrite Hb. simpl. by rewrite Hc. }
  cbv zeta. split; [done|].
  destruct (noticed_is_quiet _ Hw2) as [Hq _]. destruct (Hq n) as [E1 E2].
  destruct (noticed_is_quiet _ E2) as [_ Hq2]. destruct (Hq2 q) as [E3 _]. congruence.
Qed.
End tap.

(** ** The tap is transparent to what is relayed *)
Section transparent.
Context {R : Type} `{StreamReader R} `{Writer R}.

(** A tap over a stream delivers the stream while it is started. *)
#[global] Program Instance notice_stream_reader : StreamReader (ReadWriterNotice (R := R)) := {|
  rd_ok t := rd_ok (rw t);
  rd_stream t := rd_stream (rw t)
|}.
Next Obligation.
  intros n t d e t' Hok. unfold rd_read, notice_reader, Notice_Read.
  destruct (isStart t); simpl; [|intros [= <- <- <-]; split_and!; [done|simpl; lia|done]].
  destruct (rd_read n (rw t)) as [[d1 e1] r] eqn:E. intros [= <- <- <-].
  apply rd_read_spec in E as (? & ? & ?); [|done]. by destruct (isNotice t).
Qed.
End transparent.


(** Witnesses: a client that sends two segments. *)
Definition tapped : ReadWriterNotice (R := Conn) :=
  mkRWN (mkConn [[x16; x03]; [x01]] EOF [] None) (Some [x41]) false true true [] false.

Lemma first_write_reports_the_request_witness :
  fc_calls (Notice_Write [x06] (read_many [2048; 2048]%nat tapped).2).2 = [[x41; x16; x03; x01]].
Proof.
  pose proof (first_write_reports_the_request (mkConn [[x16; x03]; [x01]] EOF [] None) (Some [x41])
    [2048; 2048]%nat [x06] [x07] 1%nat tapped eq_refl) as Hw.
  assert (exists ds t1, read_many [2048; 2048]%nat tapped = (ds, t1) /\ ds = [x16; x03; x01])
    as (ds & t1 & E & ->) by (eexists _, _; split; reflexivity).
  rewrite E in Hw |- *. exact (proj1 Hw).
Defined.

Lemma notice_called_at_most_once_witness :
  exists s, rtc tap_step (tap_start (mkConn [[x16; x03]] EOF [] None) None true 1) s /\
    fc_calls (tap s) = [[]] /\ (length (fc_calls (tap s)) <= 1)%nat.
Proof.
  set (c := mkConn [[x16; x03]] EOF [] None). set (c' := mkConn [[x16; x03]] EOF [[x06]] None).
  assert (rtc tap_step (tap_start c None true 1)
    (mkTap (mkRWN c' None true true true [[]] false) RIdle [WIdle] [])) as Hr.
  { eapply rtc_l; [apply (tap_write _ _ _ _ 0 [x06] 1 None c'); reflexivity|].
    eapply rtc_l; [apply (tap_swap _ _ _ _ 0); reflexivity|]. simpl.
    eapply rtc_l; [apply (tap_take _ _ _ _ 0); reflexivity|]. apply rtc_refl. }
  eexists. split; [exact Hr|]. split; [reflexivity|].
  apply (notice_called_at_most_once _ _ _ _ _ Hr).
Defined.

