(* ===== verification/TTLCache.v ===== *)
(** * The contract of [github.com/jellydator/ttlcache]

    The cache is a third-party package: the dial-failure tracker and the
    authenticators use it through the class [TTLCacheOps], and rely on the
    documented behaviour stated in [TTLCache]. Times are milliseconds of the
    clock the caller passes. The file ends with a reference instance. *)
From stdpp Require Import base gmap strings numbers list.
From S2P Require Import Prelude.

(** [Get], [Set] with an explicit lifetime and [GetOrSet] with the default one. *)
Class TTLCacheOps (V C : Type) := {
  tc_Get : Z -> string -> C -> option V * C;
  tc_Set : Z -> string -> V -> Z -> C -> C;
  tc_GetOrSet : Z -> string -> V -> C -> (V * bool) * C
}.

(** What a hit does to the lifetime: nothing for a cache built with
    [WithDisableTouchOnHit], a new default lifetime otherwise. *)
Record tc_params := mkTP { tp_ttl : Z; tp_touch : bool }.
Definition on_hit {V} (p : tc_params) (now : Z) (k : string) (v : V) (g : gmap string (V * Z))
  : gmap string (V * Z) :=
  if tp_touch p then <[k := (v, now + tp_ttl p)]> g else g.

(** [v] is a legitimate answer for [k] at time [now]: an entry whose lifetime
    is not over must be found, one whose lifetime is over must not, and at the
    very instant both are allowed. *)
Definition answers {V} (now : Z) (k : string) (g : gmap string (V * Z)) (r : option V) : Prop :=
  match g !! k with
  | None => r = None
  | Some (v, e) => (r = Some v /\ now <= e) \/ (r = None /\ e <= now)
  end.

(** [tc_repr c g]: the cache behaves like the table [g] of values and expiry
    times. *)
Class TTLCache (V C : Type) `{TTLCacheOps V C} (p : tc_params) := {
  tc_repr : C -> gmap string (V * Z) -> Prop;
  tc_Get_spec : forall now k c g, tc_repr c g ->
    let '(r, c') := tc_Get now k c in
    answers now k g r /\
    tc_repr c' (match r with Some v => on_hit p now k v g | None => g end);
  tc_Set_spec : forall now k v ttl c g, tc_repr c g ->
    tc_repr (tc_Set now k v ttl c) (<[k := (v, now + ttl)]> g);
  tc_GetOrSet_spec : forall now k v c g, tc_repr c g ->
    let '((v', found), c') := tc_GetOrSet now k v c in
    if found then answers now k g (Some v') /\ tc_repr c' (on_hit p now k v' g)
    else answers now k g None /\ v' = v /\ tc_repr c' (<[k := (v, now + tp_ttl p)]> g)
}.

(** ** A reference instance: a table that is looked up with the clock *)
Section reference.
Context {V : Type} (p : tc_params).

Definition ref_get (now : Z) (k : string) (g : gmap string (V * Z)) : option V * gmap string (V * Z) :=
  match g !! k with
  | Some (v, e) => if now <? e then (Some v, on_hit p now k v g) else (None, g)
  | None => (None, g)
  end.

Definition ref_ops : TTLCacheOps V (gmap string (V * Z)) := {|
  tc_Get := ref_get;
  tc_Set now k v ttl g := <[k := (v, now + ttl)]> g;
  tc_GetOrSet now k v g :=
    match ref_get now k g with
    | (Some v', g') => ((v', true), g')
    | (None, g') => ((v, false), <[k := (v, now + tp_ttl p)]> g')
    end
|}.

Lemma ref_get_spec now k g :
  let '(r, g') := ref_get now k g in
  answers now k g r /\ g' = match r with Some v => on_hit p now k v g | None => g end.
Proof.
  unfold ref_get, answers. destruct (g !! k) as [[v e]|]; [|done].
  destruct (now <? e) eqn:E; to_prop; split; try done; [left|right]; (split; [done|lia]).
Qed.

#[global] Program Instance ref_cache : TTLCache (H := ref_ops) V (gmap string (V * Z)) p :=
  {| tc_repr c g := c = g |}.
Next Obligation.
  intros now k c g <-. pose proof (ref_get_spec now k c) as Hg. simpl.
  by destruct (ref_get now k c) as [r g'].
Qed.
Next Obligation. by intros now k v ttl c g <-. Qed.
Next Obligation.
  intros now k v c g <-. pose proof (ref_get_spec now k c) as Hg. simpl.
  destruct (ref_get now k c) as [[v'|] g']; destruct Hg as [Ha ->]; done.
Qed.
End reference.
