(* ===== verification/Tracker.v ===== *)
(** * The dial-failure tracker ([utils/tracker/dial_fail_tracker.go])

    Repeated failures to reach a target through an exit address put the pair
    on a blacklist for a day. The counters are shared objects updated with
    atomic operations; the tracker keeps pointers to them in a cache, so they
    live on a heap, and what other goroutines do to a counter between two
    atomic operations is an argument of the model. *)
From stdpp Require Import base gmap strings numbers list.
From S2P Require Import Prelude TTLCache.

(** Milliseconds. *)
Definition windowTime : Z := 60000.
Definition threshold : Z := 500.
Definition dialFailCacheTTL : Z := 10000.
Definition blacklistTTL : Z := 86400000.

Abbreviation stats_loc := positive.

Record DialFailStats := mkStats { failCount : Z; firstConnTime : Z }.

(** The options the two caches are built with. *)
Definition dialFail_params : tc_params := mkTP dialFailCacheTTL true.
Definition blacklist_params : tc_params := mkTP blacklistTTL false.

Section tracker.
Context {C1 C2 : Type} `{TTLCacheOps stats_loc C1} `{TTLCacheOps Z C2}.

Record DialFailTracker := mkDT {
  dialFailCache : C1;
  blacklist : C2;
  stats : gmap stats_loc DialFailStats
}.

Definition NewDialFailTracker (empty1 : C1) (empty2 : C2) : DialFailTracker :=
  mkDT empty1 empty2 ∅.

Definition IsBlacklisted (now : Z) (ipAndTarget : string) (dt : DialFailTracker)
  : bool * DialFailTracker :=
  let '(v, b) := tc_Get now ipAndTarget (blacklist dt) in
  (bool_decide (is_Some v), mkDT (dialFailCache dt) b (stats dt)).

(** The loop: [env i] is what others do to the counter before the [i]-th
    atomic operation. The result is the new count when it was incremented. *)
Fixpoint record_loop (attempts i : nat) (env : nat -> DialFailStats -> DialFailStats) (now : Z)
    (s : DialFailStats) : option Z * DialFailStats :=
  match attempts with
  | O => (None, s)
  | S attempts' =>
      let s := env i s in
      let oldFirstConnTime := firstConnTime s in
      let s := env (S i) s in
      if now - oldFirstConnTime >? windowTime then
        if firstConnTime s =? oldFirstConnTime
        then let s := env (S (S i)) (mkStats (failCount s) now) in
             (None, mkStats 1 (firstConnTime s))
        else record_loop attempts' (S (S i)) env now s
      else
        let newCount := i32 (failCount s + 1) in
        (Some newCount, mkStats newCount (firstConnTime s))
  end.

Definition maxAttempts : nat := 10.

(** [found] distinguishes a record that was there; a new one holds the count
    1. A record exceeding the threshold puts the pair on the blacklist. *)
Definition RecordDialFailConnection (env : nat -> DialFailStats -> DialFailStats) (now : Z)
    (ipAndTarget : string) (dt : DialFailTracker) : outcome DialFailTracker :=
  let '(existing, b) := tc_Get now ipAndTarget (blacklist dt) in
  match existing with
  | Some _ => Ret (mkDT (dialFailCache dt) b (stats dt))
  | None =>
      let l := fresh (dom (stats dt)) in
      let heap := <[l := mkStats 1 now]> (stats dt) in
      let '((l', found), c) := tc_GetOrSet now ipAndTarget l (dialFailCache dt) in
      if negb found then Ret (mkDT c b heap)
      else
        match heap !! l' with
        | None => Panic
        | Some s =>
            let '(newCount, s') := record_loop maxAttempts 0 env now s in
            let heap := <[l' := s']> heap in
            match newCount with
            | Some n =>
                if n >? threshold
                then Ret (mkDT c (tc_Set now ipAndTarget now blacklistTTL b) heap)
                else Ret (mkDT c b heap)
            | None => Ret (mkDT c b heap)
            end
        end
  end.
End tracker.
Arguments DialFailTracker : clear implicits.

(** ** Behaviour *)
Section behaviour.
Context {C1 C2 : Type} `{TTLCacheOps stats_loc C1} `{TTLCacheOps Z C2}.
Context `{!TTLCache stats_loc C1 dialFail_params} `{!TTLCache Z C2 blacklist_params}.
Implicit Types (dt : DialFailTracker C1 C2) (k : string).

(** No other goroutine touches the counters. *)
Definition alone : nat -> DialFailStats -> DialFailStats := fun _ s => s.

Fixpoint record_all (times : list Z) k dt : outcome (DialFailTracker C1 C2) :=
  match times with
  | [] => Ret dt
  | now :: times' => dt ← RecordDialFailConnection alone now k dt; record_all times' k dt
  end.

(** No failure of [k] is recorded and it is not blacklisted. *)
Definition unknown k dt : Prop :=
  exists g1 g2, tc_repr (dialFailCache dt) g1 /\ tc_repr (blacklist dt) g2 /\
    g1 !! k = None /\ g2 !! k = None.

(** [n] failures of [k] were counted since [first], the last one at [last]. *)
Definition counted k (n first last : Z) dt : Prop :=
  exists g1 g2 l, tc_repr (dialFailCache dt) g1 /\ tc_repr (blacklist dt) g2 /\
    g1 !! k = Some (l, last + dialFailCacheTTL) /\
    stats dt !! l = Some (mkStats n first) /\ g2 !! k = None.

(** [k] is on the blacklist until [until]. *)
Definition blacklisted k (until : Z) dt : Prop :=
  exists g2 t, tc_repr (blacklist dt) g2 /\ g2 !! k = Some (t, until).

Lemma record_first now k dt :
  unknown k dt -> exists dt', RecordDialFailConnection alone now k dt = Ret dt' /\ counted k 1 now now dt'.
Proof.
  intros (g1 & g2 & H1 & H2 & Hk1 & Hk2). unfold RecordDialFailConnection.
  pose proof (tc_Get_spec now k _ _ H2) as Hb.
  destruct (tc_Get now k (blacklist dt)) as [existing b]. destruct Hb as [Hb Hr2].
  unfold answers in Hb. rewrite Hk2 in Hb. subst existing.
  set (l := fresh _). pose proof (tc_GetOrSet_spec now k l _ _ H1) as Hg.
  destruct (tc_GetOrSet now k l (dialFailCache dt)) as [[l' found] c]. destruct found.
  { unfold answers in Hg. rewrite Hk1 in Hg. by destruct Hg. }
  destruct Hg as (_ & -> & Hr1). eexists. split; [done|].
  exists (<[k := (l, now + dialFailCacheTTL)]> g1), g2, l. simpl.
  by rewrite !lookup_insert_eq.
Qed.

Lemma record_again now k n first last dt :
  counted k n first last dt -> 0 <= n -> n < 2 ^ 31 - 1 ->
  now - last < dialFailCacheTTL -> now - first <= windowTime ->
  exists dt', RecordDialFailConnection alone now k dt = Ret dt' /\
    if n + 1 >? threshold then blacklisted k (now + blacklistTTL) dt'
    else counted k (n + 1) first now dt'.
Proof.
  intros (g1 & g2 & l & H1 & H2 & Hk1 & Hs & Hk2) Hn0 Hn Hgap Hwin.
  unfold RecordDialFailConnection.
  pose proof (tc_Get_spec now k _ _ H2) as Hb.
  destruct (tc_Get now k (blacklist dt)) as [existing b]. destruct Hb as [Hb Hr2].
  unfold answers in Hb. rewrite Hk2 in Hb. subst existing.
  assert (fresh (dom (stats dt)) <> l) as Hfresh.
  { intros <-. apply (is_fresh (dom (stats dt))). by apply elem_of_dom_2 in Hs. }
  set (f := fresh _) in *. pose proof (tc_GetOrSet_spec now k f _ _ H1) as Hg.
  destruct (tc_GetOrSet now k f (dialFailCache dt)) as [[l' found] c].
  unfold answers in Hg. rewrite Hk1 in Hg. destruct found; last first.
  { destruct Hg as ([[? _]|[_ ?]] & _); [done|lia]. }
  destruct Hg as ([[[= ->] _]|[? _]] & Hr1); [|done]. simpl negb. cbv iota.
  rewrite lookup_insert_ne, Hs by done. unfold record_loop, maxAttempts, alone. simpl.
  replace (now - first >? windowTime) with false by (symmetry; rewrite Z.gtb_ltb; apply Z.ltb_ge; lia).
  rewrite i32_small by (unfold in_signed; lia). simpl.
  destruct (n + 1 >? threshold); eexists; (split; [done|]).
  - exists (<[k := (now, now + blacklistTTL)]> g2), now. simpl.
    split; [by apply tc_Set_spec|by rewrite lookup_insert_eq].
  - exists (<[k := (l, now + dialFailCacheTTL)]> g1), g2, l. simpl.
    by rewrite !lookup_insert_eq.
Qed.

(** Failures that follow each other closely, within one counting window. *)
Fixpoint in_window (first last : Z) (times : list Z) : Prop :=
  match times with
  | [] => True
  | now :: times' =>
      now - last < dialFailCacheTTL /\ now - first <= windowTime /\ in_window first now times'
  end.

Lemma last_cons_default (a d : Z) l : List.last (a :: l) d = List.last l a.
Proof.
  revert a d. induction l as [|b l IH]; intros a d; [done|].
  change (List.last (b :: l) d = List.last (b :: l) a). by rewrite !IH.
Qed.

Lemma in_window_snoc first last ts t :
  in_window first last (ts ++ [t]) ->
  in_window first last ts /\ t - List.last ts last < dialFailCacheTTL /\ t - first <= windowTime.
Proof.
  revert last. induction ts as [|u ts IH]; intros last; cbn [in_window app]; [simpl; tauto|].
  intros (? & ? & Hw). destruct (IH u Hw) as (? & ? & ?). rewrite last_cons_default. done.
Qed.

Lemma record_all_snoc ts t k dt dt' :
  record_all ts k dt = Ret dt' -> record_all (ts ++ [t]) k dt = record_all [t] k dt'.
Proof.
  revert dt. induction ts as [|u ts IH]; intros dt; simpl; [by intros [= ->]|].
  destruct (RecordDialFailConnection alone u k dt); simpl; [apply IH|done].
Qed.

Lemma record_many times k n first last dt :
  counted k n first last dt -> 1 <= n -> in_window first last times ->
  n + Z.of_nat (length times) <= threshold ->
  exists dt', record_all times k dt = Ret dt' /\
    counted k (n + Z.of_nat (length times)) first (List.last times last) dt'.
Proof.
  unfold threshold. revert n last dt.
  induction times as [|now times IH]; intros n last dt Hc Hn Hw Hle; cbn [record_all length] in *.
  { exists dt. by rewrite Z.add_0_r. }
  destruct Hw as (Hgap & Hwin & Hw).
  destruct (record_again now k n first last dt Hc ltac:(lia) ltac:(lia) Hgap Hwin) as (dt1 & -> & Hc1).
  rewrite Z.gtb_ltb, (proj2 (Z.ltb_ge _ _)) in Hc1 by (unfold threshold; lia). simpl.
  destruct (IH (n + 1) now dt1 Hc1 ltac:(lia) Hw ltac:(lia)) as (dt2 & -> & Hc2).
  exists dt2. split; [done|].
  replace (n + Z.of_nat (S (length times))) with (n + 1 + Z.of_nat (length times)) by lia.
  rewrite <- (last_cons_default now last) in Hc2. exact Hc2.
Qed.

Lemma not_blacklisted now k dt :
  (exists g2, tc_repr (blacklist dt) g2 /\ g2 !! k = None) -> (IsBlacklisted now k dt).1 = false.
Proof.
  intros (g2 & H2 & Hk). unfold IsBlacklisted. pose proof (tc_Get_spec now k _ _ H2) as Hb.
  destruct (tc_Get now k (blacklist dt)) as [v b]. destruct Hb as [Hb _].
  unfold answers in Hb. rewrite Hk in Hb. by subst v.
Qed.

Lemma blacklisted_until now k until dt :
  blacklisted k until dt ->
  (now < until -> (IsBlacklisted now k dt).1 = true) /\
  (until < now -> (IsBlacklisted now k dt).1 = false) /\
  blacklisted k until (IsBlacklisted now k dt).2.
Proof.
  intros (g2 & t & H2 & Hk). unfold IsBlacklisted. pose proof (tc_Get_spec now k _ _ H2) as Hb.
  destruct (tc_Get now k (blacklist dt)) as [v b]. destruct Hb as [Hb Hr].
  unfold answers in Hb. rewrite Hk in Hb. split_and!.
  - intros Hl. destruct Hb as [[-> _]|[_ ?]]; [done|lia].
  - intros Hl. destruct Hb as [[_ ?]|[-> _]]; [lia|done].
  - exists g2, t. split; [|done]. simpl. by destruct v.
Qed.

(** C37. The threshold: for a pair without a record, up to 500 dial failures
    that fall into one minute with gaps below ten seconds never blacklist it,
    and the 501st does, until exactly a day after that failure; asking does
    not prolong it. *)
Theorem blacklisted_after_threshold k dt first times :
  unknown k dt -> in_window first first times ->
  (Z.of_nat (length times) < threshold ->
   exists dt', record_all (first :: times) k dt = Ret dt' /\
     forall now, (IsBlacklisted now k dt').1 = false) /\
  (Z.of_nat (length times) = threshold ->
   exists dt', record_all (first :: times) k dt = Ret dt' /\
     let until := List.last times first + blacklistTTL in
     forall asked now, let dt'' := (IsBlacklisted asked k dt').2 in
       (now < until -> (IsBlacklisted now k dt'').1 = true) /\
       (until < now -> (IsBlacklisted now k dt'').1 = false)).
Proof.
  intros Hu Hw. cbn [record_all]. destruct (record_first first k dt Hu) as (dt1 & -> & Hc).
  cbn [mbind outcome_bind]. split; intros Hlen.
  - destruct (record_many times k 1 first first dt1 Hc ltac:(lia) Hw) as (dt2 & -> & Hc2);
      [unfold threshold in *; lia|].
    exists dt2. split; [done|]. intros now. apply not_blacklisted.
    destruct Hc2 as (g1 & g2 & l & _ & H2 & _ & _ & Hk). eauto.
  - destruct times as [|t ts _] using rev_ind; [done|].
    rewrite length_app in Hlen. simpl in Hlen.
    apply in_window_snoc in Hw as (Hw1 & Hgap & Hwin).
    destruct (record_many ts k 1 first first dt1 Hc ltac:(lia) Hw1) as (dt2 & E2 & Hc2);
      [unfold threshold in *; lia|].
    destruct (record_again t k _ first _ dt2 Hc2 ltac:(lia) ltac:(unfold threshold in *; lia) Hgap Hwin)
      as (dt3 & E3 & Hc3).
    rewrite Z.gtb_ltb, (proj2 (Z.ltb_lt _ _)) in Hc3 by (unfold threshold in *; lia).
    exists dt3. split.
    + rewrite (record_all_snoc _ _ _ _ _ E2). simpl. by rewrite E3.
    + rewrite last_last. cbv zeta. intros asked now.
      destruct (blacklisted_until asked k _ dt3 Hc3) as (_ & _ & Hb).
      split; apply (blacklisted_until now k _ _ Hb).
Qed.
End behaviour.

(** No failure is lost to contention: when the other goroutines leave the
    start of the window alone or restart it at a recent time, the loop either
    increments the counter or restarts the window with the count 1, whatever
    they do to the count and whenever they act; the ten attempts are never used
    up. *)
Theorem failures_are_counted env now s :
  (forall i s, firstConnTime (env i s) = firstConnTime s \/
               now - firstConnTime (env i s) <= windowTime) ->
  let '(r, s') := record_loop maxAttempts 0 env now s in
  (exists n, r = Some n /\ failCount s' = n) \/ (r = None /\ failCount s' = 1).
Proof.
  intros Henv. unfold maxAttempts.
  assert (forall k i s, (0 < k)%nat -> now - firstConnTime s <= windowTime ->
    let '(r, s') := record_loop k i env now s in
    exists n, r = Some n /\ failCount s' = n) as Hrecent.
  { intros [|a] i s0 Hk Hs; [lia|]. cbn [record_loop].
    destruct (now - firstConnTime (env i s0) >? windowTime) eqn:E; [|eauto].
    rewrite Z.gtb_ltb in E. to_prop. destruct (Henv i s0) as [He|He]; lia. }
  assert (0 < 9)%nat as Hk by lia. revert Hk. generalize 9%nat. intros k Hk. cbn [record_loop].
  destruct (now - firstConnTime (env 0%nat s) >? windowTime) eqn:E; [|eauto].
  destruct (firstConnTime (env 1%nat (env 0%nat s)) =? firstConnTime (env 0%nat s)) eqn:Ecas; [eauto|].
  to_prop. destruct (Henv 1%nat (env 0%nat s)) as [?|Hr]; [done|].
  specialize (Hrecent k 2%nat _ Hk Hr). destruct (record_loop k 2 env now _); eauto.
Qed.

Lemma failures_are_counted_witness :
  let env := fun i s => if bool_decide (i = 1%nat) then mkStats 1 70000 else s in
  let '(r, s') := record_loop maxAttempts 0 env 70001 (mkStats 30 0) in
  (exists n, r = Some n /\ failCount s' = n) \/ (r = None /\ failCount s' = 1).
Proof.
  apply (failures_are_counted
    (fun i s => if bool_decide (i = 1%nat) then mkStats 1 70000 else s) 70001 (mkStats 30 0)).
  intros i s. case_bool_decide; [right; vm_compute; discriminate|by left].
Defined.

(** A tracker over the reference cache, and 501 failures a tenth of a second
    apart. *)
Definition ref_tracker : DialFailTracker (gmap string (stats_loc * Z)) (gmap string (Z * Z)) :=
  NewDialFailTracker ∅ ∅.
Definition burst : list Z := (fun n => Z.of_nat (S n) * 100) <$> seq 0 500.

Fixpoint in_window_b (first last : Z) (times : list Z) : bool :=
  match times with
  | [] => true
  | now :: times' =>
      (now - last <? dialFailCacheTTL) && (now - first <=? windowTime) && in_window_b first now times'
  end.
Lemma in_window_b_ok first last times : in_window_b first last times = true -> in_window first last times.
Proof.
  revert last. induction times as [|now times IH]; intros last; cbn [in_window_b in_window]; [done|].
  intros E. to_prop. auto.
Qed.

#[local] Instance dial_ops : TTLCacheOps stats_loc (gmap string (stats_loc * Z)) :=
  ref_ops dialFail_params.
#[local] Instance black_ops : TTLCacheOps Z (gmap string (Z * Z)) := ref_ops blacklist_params.
#[local] Instance dial_cache : TTLCache stats_loc (gmap string (stats_loc * Z)) dialFail_params :=
  ref_cache dialFail_params.
#[local] Instance black_cache : TTLCache Z (gmap string (Z * Z)) blacklist_params :=
  ref_cache blacklist_params.

Lemma blacklisted_after_threshold_witness :
  exists dt', record_all (0 :: burst) "1.2.3.4-t.org" ref_tracker = Ret dt' /\
    (IsBlacklisted 86449999 "1.2.3.4-t.org" (IsBlacklisted 0 "1.2.3.4-t.org" dt').2).1 = true.
Proof.
  destruct (blacklisted_after_threshold "1.2.3.4-t.org" ref_tracker 0 burst) as [_ Hb].
  - exists ∅, ∅. done.
  - apply in_window_b_ok. vm_compute. reflexivity.
  - destruct (Hb eq_refl) as (dt' & E & Hn). exists dt'. split; [exact E|].
    apply (Hn 0 86449999). vm_compute. reflexivity.
Defined.
