(* ===== verification/Tool.v ===== *)
(** * Helper functions ([utils/tool.go])

    Random exit addresses inside a segment, random names, and the two address
    helpers. Randomness is an argument: the draws of the random source. The
    parser of CIDR texts ([net.ParseCIDR]) is an argument too: the functions
    below only use the address and the prefix length it returns. *)
From Stdlib Require Import Strings.Byte.
From stdpp Require Import base strings numbers list.
From S2P Require Import Prelude GoIO Socks5.

(** ** [math/big] *)

(** [x.SetBytes(b)]: the big-endian value of a byte string. *)
Definition big_of_bytes (b : bytes) : Z := fold_left (fun acc x => acc * 256 + byte_Z x) b 0.

(** [x.Bytes()]: the shortest big-endian form; [fuel] bytes at most. *)
Fixpoint big_bytes (fuel : nat) (z : Z) (acc : bytes) : bytes :=
  match fuel with
  | O => acc
  | S fuel' => if z <=? 0 then acc else big_bytes fuel' (z / 256) (Z_byte z :: acc)
  end.
(** An address and an offset below 2^128 sum to at most 17 bytes. *)
Definition Bytes (z : Z) : bytes := big_bytes 17 z [].

(** ** [RandomIPv6Address] *)

(** [ParseCIDR] returns the address (16 bytes) and the prefix length, [rand_Int
    max] a draw below [max]. *)
Definition RandomIPv6Address (ParseCIDR : string -> result error (bytes * Z))
    (rand_Int : Z -> result error Z) (cidr : string) : result error string :=
  match ParseCIDR (cidr +:+ "/52") with
  | Err err => Err (Errorf ("parsing CIDR failed: " +:+ Error err))
  | Ok (ip, ones) =>
      let max := Z.shiftl 1 (128 - ones) in
      match rand_Int max with
      | Err err => Err (Errorf ("generating random offset failed: " +:+ Error err))
      | Ok randOffset =>
          let ipBigInt := big_of_bytes (default [] (To16 ip)) in
          let ipBigInt := ipBigInt + randOffset in
          Ok (IP_String (Bytes ipBigInt))
      end
  end.

(** ** [ParseIPv6]: [net.ParseIP] is an argument, [None] is nil *)
Definition ParseIPv6 (ParseIP : string -> option bytes) (ip : string) : option bytes :=
  match ParseIP ip with
  | Some parsedIP => match To4 parsedIP with None => Some parsedIP | Some _ => None end
  | None => None
  end.

(** ** [GetIPv4FromLink], over the interface addresses *)
Definition IsLoopback (ip : bytes) : bool :=
  match To4 ip with
  | Some (a :: _) => bool_decide (a = x7f)
  | _ => bool_decide (ip = replicate 15 x00 ++ [x01])
  end.
Fixpoint first_ipv4 (addrs : list bytes) : string :=
  match addrs with
  | [] => EmptyString
  | ip :: addrs' =>
      if negb (IsLoopback ip) && bool_decide (is_Some (To4 ip)) then IP_String ip else first_ipv4 addrs'
  end.
Definition GetIPv4FromLink (InterfaceAddrs : result error (list bytes)) : string :=
  match InterfaceAddrs with Err _ => EmptyString | Ok addrs => first_ipv4 addrs end.

(** ** [RandStringBytesMaskImprSrcSB] *)

Definition letterBytes : string := "abcdefghijklmnopqrstuvwxyzABCDEFGHIJKLMNOPQRSTUVWXYZ".
Definition letterIdxBits : Z := 6.
Definition letterIdxMask : Z := 63.
Definition letterIdxMax : Z := 10.

(** The loop: [i] letters are still missing, [draws] the next results of
    [Int63]; [None] when the draws given are used up. *)
Fixpoint rand_loop (fuel i : nat) (cache remain : Z) (draws : list Z) (sb : string) : option string :=
  match i with
  | O => Some sb
  | S i' =>
      match fuel with
      | O => None
      | S fuel' =>
          let step cache remain draws :=
            let idx := Z.land cache letterIdxMask in
            let cache' := Z.shiftr cache letterIdxBits in
            match String.get (Z.to_nat idx) letterBytes with
            | Some c => rand_loop fuel' i' cache' (remain - 1) draws (sb +:+ String c EmptyString)
            | None => rand_loop fuel' (S i') cache' (remain - 1) draws sb
            end in
          if remain =? 0
          then match draws with
               | [] => None
               | d :: draws' => step d letterIdxMax draws'
               end
          else step cache remain draws
      end
  end.
Definition RandStringBytesMaskImprSrcSB (fuel n : nat) (draws : list Z) : option string :=
  match draws with
  | [] => None
  | d :: draws' => rand_loop fuel n d letterIdxMax draws' EmptyString
  end.

(** ** Properties *)

Definition is_letter (c : Ascii.ascii) : Prop := exists i, String.get i letterBytes = Some c.
Fixpoint all_letters (s : string) : Prop :=
  match s with EmptyString => True | String c s' => is_letter c /\ all_letters s' end.

Lemma all_letters_app s c : all_letters s -> is_letter c -> all_letters (s +:+ String c EmptyString).
Proof. induction s as [|a s IH]; simpl; [done|]. intros [? ?]. auto. Qed.

Lemma length_snoc s c : String.length (s +:+ String c EmptyString) = S (String.length s).
Proof. induction s; simpl; congruence. Qed.

Lemma rand_loop_spec fuel i cache remain draws sb r :
  rand_loop fuel i cache remain draws sb = Some r -> all_letters sb ->
  String.length r = (String.length sb + i)%nat /\ all_letters r.
Proof.
  revert i cache remain draws sb. induction fuel as [|fuel IH]; intros [|i] cache remain draws sb;
    cbn [rand_loop]; try done.
  1,2: intros [= <-] Hs; split; [lia|done].
  intros E Hs. destruct (remain =? 0); [destruct draws as [|d draws]; [done|]|];
    (destruct (String.get _ letterBytes) as [c|] eqn:Ec;
     [apply IH in E; [rewrite length_snoc in E; destruct E; split; [lia|done]
                     |apply all_letters_app; [done|by eexists]]
     |by apply IH in E]).
Qed.

Lemma big_of_bytes_snoc b x : big_of_bytes (b ++ [x]) = big_of_bytes b * 256 + byte_Z x.
Proof. unfold big_of_bytes. by rewrite fold_left_app. Qed.

Lemma big_of_bytes_range b : 0 <= big_of_bytes b < 256 ^ Z.of_nat (length b).
Proof.
  induction b as [|x b IH] using rev_ind; [vm_compute; split; [discriminate|reflexivity]|].
  rewrite big_of_bytes_snoc, length_app. cbn [length].
  rewrite Nat2Z.inj_add, Z.pow_add_r by lia. change (256 ^ Z.of_nat 1) with 256.
  pose proof (byte_Z_range x). nia.
Qed.

(** [Bytes] of a number of [n + 1] digits to the base 256. *)
Lemma big_bytes_spec n fuel z acc :
  (n < fuel)%nat -> 256 ^ Z.of_nat n <= z < 256 ^ Z.of_nat (S n) ->
  exists pre, big_bytes fuel z acc = pre ++ acc /\ big_of_bytes pre = z /\ length pre = S n.
Proof.
  revert fuel z acc. induction n as [|n IH]; intros [|fuel] z acc Hf Hz; try lia; cbn [big_bytes].
  - change (256 ^ Z.of_nat 0) with 1 in Hz. change (256 ^ Z.of_nat 1) with 256 in Hz.
    rewrite (proj2 (Z.leb_gt z 0)) by lia. exists [Z_byte z].
    rewrite (Z.div_small z 256) by lia. split_and!; [by destruct fuel| |done].
    unfold big_of_bytes. simpl. rewrite byte_Z_of_Z. apply Z.mod_small. lia.
  - rewrite !Nat2Z.inj_succ, !Z.pow_succ_r in Hz by lia. rewrite (proj2 (Z.leb_gt z 0)) by nia.
    destruct (IH fuel (z / 256) (Z_byte z :: acc)) as (pre & -> & Hv & Hl); [lia| |].
    { rewrite Nat2Z.inj_succ, Z.pow_succ_r by lia.
      split; [apply Z.div_le_lower_bound; lia|apply Z.div_lt_upper_bound; lia]. }
    exists (pre ++ [Z_byte z]). rewrite <- app_assoc, length_app, big_of_bytes_snoc, byte_Z_of_Z, Hv, Hl.
    split_and!; [done| |simpl; lia]. pose proof (Z.div_mod z 256 ltac:(lia)). lia.
Qed.

(** A random exit address lies in its segment: when the segment is given
    by its base address (the 76 bits after the /52 prefix are zero) and the
    prefix is not below 2^120, every draw yields the text of a 16-byte address
    with the same 52-bit prefix and the drawn offset. *)
Theorem random_address_in_segment ParseCIDR rand_Int cidr ip off :
  ParseCIDR (cidr +:+ "/52") = Ok (ip, 52) -> length ip = 16%nat ->
  big_of_bytes ip mod 2 ^ 76 = 0 -> 2 ^ 120 <= big_of_bytes ip ->
  rand_Int (2 ^ 76) = Ok off -> 0 <= off < 2 ^ 76 ->
  exists b, RandomIPv6Address ParseCIDR rand_Int cidr = Ok (IP_String b) /\
    length b = 16%nat /\ big_of_bytes b / 2 ^ 76 = big_of_bytes ip / 2 ^ 76 /\
    big_of_bytes b mod 2 ^ 76 = off.
Proof.
  intros Hp Hl Hbase Hlow Hr Hoff. unfold RandomIPv6Address. rewrite Hp.
  change (Z.shiftl 1 (128 - 52)) with (2 ^ 76). rewrite Hr.
  assert (To16 ip = Some ip) as ->.
  { unfold To16. by rewrite bool_decide_eq_false_2, bool_decide_eq_true_2 by lia. }
  cbn [default id]. pose proof (big_of_bytes_range ip) as Hrange. rewrite Hl in Hrange.
  change (256 ^ Z.of_nat 16) with (2 ^ 128) in Hrange.
  pose proof (Z.div_mod (big_of_bytes ip) (2 ^ 76) ltac:(lia)) as Hd. rewrite Hbase in Hd.
  destruct (big_bytes_spec 15 17 (big_of_bytes ip + off) []) as (pre & Hb & Hv & Hlen); [lia| |].
  { change (256 ^ Z.of_nat 15) with (2 ^ 120). change (256 ^ Z.of_nat 16) with (2 ^ 128).
    assert (big_of_bytes ip / 2 ^ 76 < 2 ^ 52) by (apply Z.div_lt_upper_bound; lia). lia. }
  exists pre. unfold Bytes, id. rewrite Hb, app_nil_r. split; [done|]. split; [done|]. rewrite Hv.
  split; Z.to_euclidean_division_equations; lia.
Qed.

(** A name of [n] letters: whatever the random draws, the result has
    exactly [n] characters, all from the alphabet. *)
Theorem rand_string_letters fuel n draws s :
  RandStringBytesMaskImprSrcSB fuel n draws = Some s -> String.length s = n /\ all_letters s.
Proof.
  unfold RandStringBytesMaskImprSrcSB. destruct draws as [|d draws]; [done|].
  intros E. by apply rand_loop_spec in E.
Qed.

(** Witnesses and counterexamples. *)
Definition seg_base : bytes := [x24; x08; x87; x1a] ++ replicate 12 x00.
Definition seg_host : bytes := [x24; x08; x87; x1a; x00; x00; x0f; xff] ++ replicate 8 xff.

Lemma random_address_in_segment_witness :
  exists b, RandomIPv6Address (fun _ => Ok (seg_base, 52)) (fun _ => Ok 5) "2408:871a::" = Ok (IP_String b) /\
    IP_String b = "2408:871a::5" /\ length b = 16%nat.
Proof.
  destruct (random_address_in_segment (fun _ => Ok (seg_base, 52)) (fun _ => Ok 5) "2408:871a::" seg_base 5)
    as (b & E & Hl & _).
  1-6: first [reflexivity | vm_compute; discriminate | split; [vm_compute; discriminate|reflexivity]].
  exists b. split; [exact E|]. split; [|exact Hl].
  assert (RandomIPv6Address (fun _ => Ok (seg_base, 52)) (fun _ => Ok 5) "2408:871a::" = Ok "2408:871a::5")
    as E2 by (vm_compute; reflexivity). congruence.
Defined.

Lemma rand_string_letters_witness :
  exists s, RandStringBytesMaskImprSrcSB 10 3 [266305] = Some s /\ String.length s = 3%nat.
Proof.
  eexists. split; [vm_compute; reflexivity|].
  apply (rand_string_letters 10 3 [266305]). vm_compute. reflexivity.
Defined.

(** The offset is added to the address of the CIDR text, not to the base
    of its network: for an address with host bits set, a draw leaves the /52
    segment; and an address whose first byte is zero loses its leading zeros,
    so that the text is no address at all. *)
Theorem random_address_can_leave_segment :
  (exists b, RandomIPv6Address (fun _ => Ok (seg_host, 52)) (fun _ => Ok 1) "s" = Ok (IP_String b) /\
     length b = 16%nat /\ big_of_bytes b / 2 ^ 76 <> big_of_bytes seg_host / 2 ^ 76) /\
  RandomIPv6Address (fun _ => Ok ([x00; x64] ++ replicate 14 x00, 52)) (fun _ => Ok 7) "64::" =
    Ok "?640000000000000000000000000007".
Proof.
  split; [|vm_compute; reflexivity].
  exists ([x24; x08; x87; x1a; x00; x00; x10] ++ replicate 9 x00).
  split; [vm_compute; reflexivity|]. split; [reflexivity|]. vm_compute. discriminate.
Qed.
