(* ===== verification/Auth.v ===== *)
(** * Authentication ([server/auth.go])

    A login is checked against a record that Redis holds for the user, kept in
    a local cache for thirty seconds. Redis changes under the program's feet:
    what it answers is a function of the time of the question. The cache is
    used through the interface of [TTLCache]; the decoders of the records
    ([encoding/json], protobuf) are parameters. *)
From Stdlib Require Import Ascii.
From stdpp Require Import base gmap strings numbers list.
From S2P Require Import Prelude GoIO TTLCache Tool.

(** Milliseconds. *)
Definition AuthTtl : Z := 30000.
Definition DynamicIpv6Prefix : string := "dynamicIpv6Prefix:".
Definition CitySegPrefix : string := "citySegPrefix:".
Definition AllCitySegSetPrefix : string := "allCitySeg".

(** [Ips] is a Go map that may be nil; its values are empty messages, so only
    its keys matter. *)
Record AuthInfo := mkAuth {
  Username : string; Password : string; ProxyUsername : string; ProxyPassword : string;
  S5Addr : string; HttpAddr : string; UpdateUnix : Z; Ips : option (gset string)
}.
(** The keys of [Ips]; a nil map has none. *)
Definition ips_of (authInfo : AuthInfo) : gset string := default ∅ (Ips authInfo).
Record Ipv6AuthInfo := mkAuth6 {
  Username6 : string; Password6 : string; Ip6 : string; Banned : bool
}.

(** Both caches are built with [WithDisableTouchOnHit]. *)
Definition auth_params : tc_params := mkTP AuthTtl false.

Definition auth_key (username : string) : string := username +:+ ":Auth".
Definition shadow_key (ipAddr : string) : string := ipAddr +:+ ":ShadowSocks".

(** ** The cached record of a user *)
Section fetch.
Context {V C : Type} `{TTLCacheOps V C}.
Context (redis_Get : Z -> string -> result error string).
Context (Unmarshal : string -> result error V).

(** The record from the cache, or else from Redis; the flag says that it came
    from Redis ([isTouch]). *)
Definition fetch (now : Z) (storeKey : string) (cache : C) : result error (V * bool) * C :=
  match tc_Get now storeKey cache with
  | (Some authInfo, cache) => (Ok (authInfo, false), cache)
  | (None, cache) =>
      (match redis_Get now storeKey with
       | Err err => Err err
       | Ok str =>
           match Unmarshal str with
           | Err err => Err err
           | Ok authInfo => Ok (authInfo, true)
           end
       end, cache)
  end.

(** [if isTouch { cache.Set(storeKey, authInfo, ttlcache.DefaultTTL) }]. *)
Definition touch (now : Z) (storeKey : string) (authInfo : V) (isTouch : bool) (cache : C) : C :=
  if isTouch then tc_Set now storeKey authInfo AuthTtl cache else cache.

(** *** What a cache may hold *)
Context `{!TTLCache V C auth_params}.

(** Redis held [v] for [k] at time [t]. *)
Definition held (t : Z) (k : string) (v : V) : Prop :=
  exists str, redis_Get t k = Ok str /\ Unmarshal str = Ok v.

(** Every entry was read from Redis [AuthTtl] before its expiry, in the past. *)
Definition cache_ok (now : Z) (cache : C) : Prop :=
  exists g, tc_repr cache g /\
    forall k v e, g !! k = Some (v, e) -> e - AuthTtl <= now /\ held (e - AuthTtl) k v.

Lemma cache_ok_mono now now' cache : cache_ok now cache -> now <= now' -> cache_ok now' cache.
Proof. intros (g & Hr & Hg) Hle. exists g. split; [done|]. intros k v e Hk. destruct (Hg k v e Hk). split; [lia|done]. Qed.

(** A record that is used was held by Redis at most [AuthTtl] ago. *)
Lemma fetch_fresh now k cache v isTouch cache' :
  cache_ok now cache -> fetch now k cache = (Ok (v, isTouch), cache') ->
  cache_ok now cache' /\ (isTouch = true -> held now k v) /\
  exists t, now - AuthTtl <= t <= now /\ held t k v.
Proof.
  intros (g & Hr & Hg). unfold fetch. pose proof (tc_Get_spec now k _ _ Hr) as Hs.
  destruct (tc_Get now k cache) as [[v0|] c']; destruct Hs as [Ha Hr'].
  - intros [= <- <- <-]. unfold answers in Ha. destruct (g !! k) as [[v1 e]|] eqn:Ek; [|done].
    destruct Ha as [[[= <-] Hle]|[? _]]; [|done]. destruct (Hg _ _ _ Ek) as [Hpast Hheld].
    split; [by exists g|]. split; [done|]. exists (e - AuthTtl). split; [lia|done].
  - destruct (redis_Get now k) as [str|] eqn:Er; [|done].
    destruct (Unmarshal str) as [info|] eqn:Eu; [|done]. intros [= <- <- <-].
    assert (held now k info) by by exists str.
    split; [by exists g|]. split; [done|]. exists now. unfold AuthTtl. split; [lia|done].
Qed.

Lemma fetch_error now k cache e cache' :
  cache_ok now cache -> fetch now k cache = (Err e, cache') -> cache_ok now cache'.
Proof.
  intros (g & Hr & Hg). unfold fetch. pose proof (tc_Get_spec now k _ _ Hr) as Hs.
  destruct (tc_Get now k cache) as [[v0|] c']; destruct Hs as [Ha Hr']; [done|].
  intros [= _ <-]. by exists g.
Qed.

Lemma touch_ok now k v isTouch cache :
  cache_ok now cache -> (isTouch = true -> held now k v) -> cache_ok now (touch now k v isTouch cache).
Proof.
  intros (g & Hr & Hg) Hh. unfold touch. destruct isTouch; [|by exists g].
  exists (<[k := (v, now + AuthTtl)]> g). split; [by apply tc_Set_spec|].
  intros k' v' e. rewrite lookup_insert_Some. intros [[<- [= <- <-]]|[_ Hk]]; [|by apply Hg].
  replace (now + AuthTtl - AuthTtl) with now by lia. split; [lia|by apply Hh].
Qed.
End fetch.

(** ** [strconv.Atoi] *)

Fixpoint digits_value (s : string) (acc : Z) : option Z :=
  match s with
  | EmptyString => Some acc
  | String c s' =>
      let d := Z.of_nat (Ascii.nat_of_ascii c) - 48 in
      if (0 <=? d) && (d <=? 9) then digits_value s' (acc * 10 + d) else None
  end.
Definition quote (s : string) : string :=
  String (Ascii.ascii_of_nat 34) s +:+ String (Ascii.ascii_of_nat 34) EmptyString.
Definition Atoi (s : string) : result error Z :=
  let fail why := Err (Errorf ("strconv.Atoi: parsing " +:+ quote s +:+ ": " +:+ why)) in
  let check (z : Z) := if bool_decide (- 2 ^ 63 <= z < 2 ^ 63) then Ok z else fail "value out of range" in
  let digits s (k : Z -> Z) :=
    match s with
    | EmptyString => fail "invalid syntax"
    | _ => match digits_value s 0 with Some z => check (k z) | None => fail "invalid syntax" end
    end in
  match s with
  | String c s' =>
      if bool_decide (c = "-"%char) then digits s' Z.opp
      else if bool_decide (c = "+"%char) then digits s' id
      else digits s id
  | EmptyString => fail "invalid syntax"
  end.

(** ** The authenticators *)
Section auth.
Context {C4 CS C6 : Type}.
Context `{TTLCacheOps AuthInfo C4} `{TTLCacheOps string CS} `{TTLCacheOps Ipv6AuthInfo C6}.
Context (redis_Get : Z -> string -> result error string).
Context (json_Unmarshal : string -> result error AuthInfo).
Context (proto_Unmarshal : string -> result error Ipv6AuthInfo).

Record Ipv4Auth := mkV4 { cache4 : C4; shadowSocksCache : CS }.
Record Ipv6Auth := mkV6 { cache6 : C6 }.

Definition Ipv4_Valid (now : Z) (username password ip peerIp : string) (a : Ipv4Auth)
  : result error string * Ipv4Auth :=
  let storeKey := auth_key username in
  match fetch redis_Get json_Unmarshal now storeKey (cache4 a) with
  | (Err err, c) => (Err err, mkV4 c (shadowSocksCache a))
  | (Ok (authInfo, isTouch), c) =>
      if negb (bool_decide (Username authInfo = username)) || negb (bool_decide (Password authInfo = password))
      then (Err (Errorf "密码错误"), mkV4 c (shadowSocksCache a))
      else if negb (bool_decide (ip ∈ ips_of authInfo))
      then (Err (Errorf "ip地址错误"), mkV4 c (shadowSocksCache a))
      else (Ok ip, mkV4 (touch now storeKey authInfo isTouch c) (shadowSocksCache a))
  end.

(** *** Dynamic IPv6 users

    [gateways] is the configured list of gateways, [redis_SRandMember] a
    random member of a Redis set; [ParseCIDR] and [rand_Int] are the arguments
    of [RandomIPv6Address]. The second result is the [SET] command sent to
    Redis: key, value, seconds. *)
Context (gateways : list string).
Context (redis_SRandMember : Z -> string -> result error string).
Context (ParseCIDR : string -> result error (bytes * Z)) (rand_Int : Z -> result error Z).

Definition validDynamicIpv6 (now : Z) (username peerIp : string)
  : result error string * option (string * string * Z) :=
  if negb (bool_decide (peerIp ∈ gateways))
  then (Err (Errorf ("非法的连接，不是动态ipv6 网关 " +:+ peerIp)), None)
  else match Split username "_"%char with
  | city :: session :: lifeTime :: _ =>
      if bool_decide (session = EmptyString) || bool_decide (lifeTime = EmptyString)
      then (Err (Errorf "动态ipv6 session or lifeTime 为空"), None)
      else
        let assign (seg : string) :=
          match RandomIPv6Address ParseCIDR rand_Int seg with
          | Err err => (Err (Errorf ("动态ipv6 cidr解析失败,err:" +:+ Error err)), None)
          | Ok exitIp =>
              match Atoi lifeTime with
              | Err err => (Err (Errorf ("动态ipv6 lifeTime 格式err:" +:+ Error err)), None)
              | Ok expireTime => (Ok exitIp, Some (DynamicIpv6Prefix +:+ session, exitIp, expireTime))
              end
          end in
        let from_city :=
          if bool_decide (city = EmptyString)
          then match redis_SRandMember now AllCitySegSetPrefix with
               | Err err => (Err (Errorf ("动态ipv6 Rand city seg err,err:" +:+ Error err)), None)
               | Ok seg => assign seg
               end
          else match redis_Get now (CitySegPrefix +:+ city) with
               | Err err => (Err (Errorf ("动态ipv6 city Seg 获取失败 err:" +:+ Error err)), None)
               | Ok seg => assign seg
               end in
        match redis_Get now (DynamicIpv6Prefix +:+ session) with
        | Ok exitIp => if negb (bool_decide (exitIp = EmptyString)) then (Ok exitIp, None) else from_city
        | Err _ => from_city
        end
  | _ => (Err (Errorf "动态ipv6 username 信息不足"), None)
  end.

Definition Ipv6_Valid (now : Z) (username password ip peerIp : string) (a : Ipv6Auth)
  : (result error string * option (string * string * Z)) * Ipv6Auth :=
  if bool_decide (password = "elfproxy_dynamic_ipv6") then (validDynamicIpv6 now username peerIp, a)
  else
    let storeKey := auth_key username in
    match fetch redis_Get proto_Unmarshal now storeKey (cache6 a) with
    | (Err err, c) => ((Err err, None), mkV6 c)
    | (Ok (authInfo, isTouch), c) =>
        if negb (bool_decide (Username6 authInfo = username)) || negb (bool_decide (Password6 authInfo = password))
        then ((Err (Errorf "密码错误"), None), mkV6 c)
        else if bool_decide (Ip6 authInfo = EmptyString)
        then ((Err (Errorf "ip地址不能为空"), None), mkV6 c)
        else if Banned authInfo
        then ((Err (Errorf "账号已被封禁"), None), mkV6 c)
        else ((Ok (Ip6 authInfo), None), mkV6 (touch now storeKey authInfo isTouch c))
    end.

(** *** Shadowsocks passwords *)

(** An empty cached password counts as absent; it is never cached. *)
Definition Ipv4_ValidShadowSocks (now : Z) (ipAddr : string) (a : Ipv4Auth)
  : result error string * Ipv4Auth :=
  let storeKey := shadow_key ipAddr in
  let '(value, c) := tc_Get now storeKey (shadowSocksCache a) in
  let isTouch := bool_decide (value = None) in
  let password := default EmptyString value in
  let r := if bool_decide (password = EmptyString) then redis_Get now storeKey else Ok password in
  match r with
  | Err err => (Err err, mkV4 (cache4 a) c)
  | Ok password =>
      (Ok password,
       mkV4 (cache4 a)
         (if negb (bool_decide (password = EmptyString)) && isTouch
          then tc_Set now storeKey password AuthTtl c else c))
  end.

Definition Ipv6_ValidShadowSocks (ipAddr : string) : result error string := Ok EmptyString.
End auth.

(** ** Soundness over a history of logins *)
Section soundness.
Context {C4 CS C6 : Type}.
Context `{TTLCacheOps AuthInfo C4} `{TTLCacheOps string CS} `{TTLCacheOps Ipv6AuthInfo C6}.
Context `{!TTLCache AuthInfo C4 auth_params} `{!TTLCache string CS auth_params}.
Context `{!TTLCache Ipv6AuthInfo C6 auth_params}.
Context (redis_Get : Z -> string -> result error string).
Context (json_Unmarshal : string -> result error AuthInfo).
Context (proto_Unmarshal : string -> result error Ipv6AuthInfo).
Context (gateways : list string).
Context (redis_SRandMember : Z -> string -> result error string).
Context (ParseCIDR : string -> result error (bytes * Z)) (rand_Int : Z -> result error Z).

(** A login attempt: when, and with which name, password, address of the
    proxy and address of the peer. *)
Record login := mkLogin { at_ : Z; user : string; pass : string; local : string; peer : string }.

Fixpoint logins4 (ls : list login) (a : Ipv4Auth (C4 := C4) (CS := CS))
  : list (result error string) * Ipv4Auth (C4 := C4) (CS := CS) :=
  match ls with
  | [] => ([], a)
  | l :: ls' =>
      let '(r, a) := Ipv4_Valid redis_Get json_Unmarshal (at_ l) (user l) (pass l) (local l) (peer l) a in
      let '(rs, a) := logins4 ls' a in (r :: rs, a)
  end.

Abbreviation valid6 := (Ipv6_Valid redis_Get proto_Unmarshal gateways redis_SRandMember ParseCIDR rand_Int).

Fixpoint logins6 (ls : list login) (a : Ipv6Auth (C6 := C6)) : list (result error string) * Ipv6Auth (C6 := C6) :=
  match ls with
  | [] => ([], a)
  | l :: ls' =>
      let '((r, _), a) := valid6 (at_ l) (user l) (pass l) (local l) (peer l) a in
      let '(rs, a) := logins6 ls' a in (r :: rs, a)
  end.

(** The clock does not go back. *)
Fixpoint ordered (now : Z) (ls : list login) : Prop :=
  match ls with [] => True | l :: ls' => now <= at_ l /\ ordered (at_ l) ls' end.

(** An accepted IPv4 login was legitimate at most thirty seconds ago. *)
Definition justified4 (l : login) (r : result error string) : Prop :=
  match r with
  | Err _ => True
  | Ok exitIp => exitIp = local l /\ exists t info,
      at_ l - AuthTtl <= t <= at_ l /\ held redis_Get json_Unmarshal t (auth_key (user l)) info /\
      Username info = user l /\ Password info = pass l /\ local l ∈ ips_of info
  end.

Lemma Ipv4_Valid_ok l (a : Ipv4Auth (C4 := C4) (CS := CS)) :
  cache_ok redis_Get json_Unmarshal (at_ l) (cache4 a) ->
  let '(r, a') := Ipv4_Valid redis_Get json_Unmarshal (at_ l) (user l) (pass l) (local l) (peer l) a in
  justified4 l r /\ cache_ok redis_Get json_Unmarshal (at_ l) (cache4 a').
Proof.
  intros Hc. unfold Ipv4_Valid. destruct (fetch _ _ _ _ _) as [[[info isTouch]|e] c] eqn:E.
  - destruct (fetch_fresh _ _ _ _ _ _ _ _ Hc E) as (Hc' & Ht & t & Hle & Hh).
    case_bool_decide as Hu; [|done]. case_bool_decide as Hp; [|done]. cbn [negb orb].
    case_bool_decide as Hi; [|done]. cbn [negb]. split; [|by apply touch_ok].
    split; [done|]. exists t, info. done.
  - split; [done|]. by eapply fetch_error.
Qed.

(** C8. No unjustified IPv4 login: over any history of logins from an empty
    cache, however Redis changes meanwhile, a login is accepted only if at
    some moment of the last thirty seconds Redis held a record with this user
    name, this password and the local address among its addresses; the exit
    address is that address. *)
Theorem ipv4_logins_justified ls (a : Ipv4Auth (C4 := C4) (CS := CS)) now :
  tc_repr (cache4 a) ∅ -> ordered now ls -> Forall2 justified4 ls (logins4 ls a).1.
Proof.
  intros He Ho. assert (cache_ok redis_Get json_Unmarshal now (cache4 a)) as Hc by by exists ∅.
  clear He. revert a now Ho Hc. induction ls as [|l ls IH]; intros a now Ho Hc; simpl; [done|].
  destruct Ho as [Hle Ho]. apply (cache_ok_mono _ _ _ (at_ l)) in Hc; [|done].
  pose proof (Ipv4_Valid_ok l a Hc) as Hv. destruct (Ipv4_Valid _ _ _ _ _ _ _ a) as [r a'].
  destruct Hv as [Hj Hc']. specialize (IH a' (at_ l) Ho Hc').
  destruct (logins4 ls a') as [rs a'']. simpl in *. by constructor.
Qed.

(** A legitimate IPv4 login succeeds: when the cache has no entry for the
    user and Redis holds a matching record, the login is accepted and the
    record cached; when the cache holds a matching record that has not
    expired, it is accepted without asking Redis. *)
Theorem ipv4_login_accepted now username password ip peerIp info
    (a : Ipv4Auth (C4 := C4) (CS := CS)) g :
  tc_repr (cache4 a) g ->
  Username info = username -> Password info = password -> ip ∈ ips_of info ->
  (g !! auth_key username = None /\ held redis_Get json_Unmarshal now (auth_key username) info) \/
  (exists e, g !! auth_key username = Some (info, e) /\ now < e) ->
  exists a', Ipv4_Valid redis_Get json_Unmarshal now username password ip peerIp a = (Ok ip, a') /\
    exists g' e, tc_repr (cache4 a') g' /\ g' !! auth_key username = Some (info, e) /\ now < e.
Proof.
  intros Hr Hu Hp Hi Hcase. unfold Ipv4_Valid, fetch.
  pose proof (tc_Get_spec now (auth_key username) _ _ Hr) as Hs.
  destruct (tc_Get now (auth_key username) (cache4 a)) as [r c]. destruct Hs as [Ha Hr'].
  unfold answers in Ha. destruct Hcase as [[Hn (str & Hg & Hd)]|(e & Hk & Hlt)].
  - rewrite Hn in Ha. subst r. rewrite Hg, Hd.
    rewrite !bool_decide_eq_true_2 by done. simpl. eexists. split; [done|].
    exists (<[auth_key username := (info, now + AuthTtl)]> g), (now + AuthTtl). simpl.
    split; [by apply tc_Set_spec|]. rewrite lookup_insert_eq. unfold AuthTtl. split; [done|lia].
  - rewrite Hk in Ha. destruct Ha as [[-> _]|[_ ?]]; [|lia].
    rewrite !bool_decide_eq_true_2 by done. simpl. eexists. split; [done|]. exists g, e. done.
Qed.

(** An accepted IPv6 login: a dynamic user through a gateway, or a user that
    was not banned at most thirty seconds ago. *)
Definition justified6 (l : login) (r : result error string) : Prop :=
  match r with
  | Err _ => True
  | Ok exitIp =>
      (pass l = "elfproxy_dynamic_ipv6" /\ peer l ∈ gateways) \/
      (exists t info, at_ l - AuthTtl <= t <= at_ l /\
         held redis_Get proto_Unmarshal t (auth_key (user l)) info /\
         Username6 info = user l /\ Password6 info = pass l /\ Banned info = false /\
         Ip6 info = exitIp /\ exitIp <> EmptyString)
  end.

Lemma Ipv6_Valid_ok l (a : Ipv6Auth (C6 := C6)) :
  cache_ok redis_Get proto_Unmarshal (at_ l) (cache6 a) ->
  let '((r, _), a') := valid6 (at_ l) (user l) (pass l) (local l) (peer l) a in
  justified6 l r /\ cache_ok redis_Get proto_Unmarshal (at_ l) (cache6 a').
Proof.
  intros Hc. unfold Ipv6_Valid. case_bool_decide as Hdyn.
  - unfold validDynamicIpv6. case_bool_decide as Hg; [|by split].
    cbn [negb]. repeat case_match; simplify_eq; split; try done; left; done.
  - destruct (fetch _ _ _ _ _) as [[[info isTouch]|e] c] eqn:E.
    + destruct (fetch_fresh _ _ _ _ _ _ _ _ Hc E) as (Hc' & Ht & t & Hle & Hh).
      case_bool_decide as Hu; [|done]. case_bool_decide as Hp; [|done]. cbn [negb orb].
      case_bool_decide as Hi; [done|]. destruct (Banned info) eqn:Hb; [done|].
      split; [|by apply touch_ok]. right. exists t, info. done.
    + split; [done|]. by eapply fetch_error.
Qed.

(** C9. No unjustified IPv6 login: over any history of logins, a login is
    accepted only for the dynamic password through one of the configured
    gateways, or if at some moment of the last thirty seconds Redis held a
    record with this name and password, not banned, and the exit address is
    the (non-empty) one of that record. *)
Theorem ipv6_logins_justified ls (a : Ipv6Auth (C6 := C6)) now :
  tc_repr (cache6 a) ∅ -> ordered now ls -> Forall2 justified6 ls (logins6 ls a).1.
Proof.
  intros He Ho. assert (cache_ok redis_Get proto_Unmarshal now (cache6 a)) as Hc by by exists ∅.
  clear He. revert a now Ho Hc. induction ls as [|l ls IH]; intros a now Ho Hc; simpl; [done|].
  destruct Ho as [Hle Ho]. apply (cache_ok_mono _ _ _ (at_ l)) in Hc; [|done].
  pose proof (Ipv6_Valid_ok l a Hc) as Hv.
  destruct (valid6 (at_ l) (user l) (pass l) (local l) (peer l) a) as [[r cmd] a'].
  destruct Hv as [Hj Hc']. specialize (IH a' (at_ l) Ho Hc').
  destruct (logins6 ls a') as [rs a'']. simpl in *. by constructor.
Qed.

(** A dynamic session keeps its address: whenever Redis still holds an
    address for the session, that address is returned and nothing is written;
    a new address is only returned together with the command that stores it
    for the session with the requested lifetime. *)
Theorem dynamic_session_sticky now city session lifeTime more peerIp username :
  Split username "_"%char = city :: session :: lifeTime :: more ->
  peerIp ∈ gateways -> session <> EmptyString -> lifeTime <> EmptyString ->
  let '(r, cmd) := validDynamicIpv6 redis_Get gateways redis_SRandMember ParseCIDR rand_Int now username peerIp in
  (forall ip, redis_Get now (DynamicIpv6Prefix +:+ session) = Ok ip -> ip <> EmptyString ->
     r = Ok ip /\ cmd = None) /\
  (forall ip, r = Ok ip ->
     redis_Get now (DynamicIpv6Prefix +:+ session) = Ok ip \/
     exists secs, Atoi lifeTime = Ok secs /\ cmd = Some (DynamicIpv6Prefix +:+ session, ip, secs)).
Proof.
  intros Hs Hg Hsess Hlife. unfold validDynamicIpv6.
  rewrite (bool_decide_eq_true_2 _ Hg), Hs. cbn [negb].
  rewrite !(bool_decide_eq_false_2 (_ = EmptyString)) by done. cbn [orb].
  destruct (redis_Get now (DynamicIpv6Prefix +:+ session)) as [ip0|e] eqn:Er.
  - case_bool_decide as Hip; cbn [negb].
    + repeat case_match; simplify_eq; (split; [intros ? [= <-] ?; congruence|]); intros ? [= <-]; eauto.
    + split; [by intros ip [= <-] _|]. intros ip [= <-]. by left.
  - repeat case_match; simplify_eq; (split; [done|]); intros ? [= <-]; eauto.
Qed.

(** A Shadowsocks password comes from Redis or from the cache, and an
    empty one is never cached. *)
Theorem shadowsocks_password now ipAddr (a : Ipv4Auth (C4 := C4) (CS := CS)) g :
  tc_repr (shadowSocksCache a) g ->
  (forall k e, g !! k <> Some (EmptyString, e)) ->
  let '(r, a') := Ipv4_ValidShadowSocks redis_Get now ipAddr a in
  (forall p, r = Ok p -> redis_Get now (shadow_key ipAddr) = Ok p \/
     exists e, g !! shadow_key ipAddr = Some (p, e) /\ now <= e) /\
  cache4 a' = cache4 a /\
  exists g', tc_repr (shadowSocksCache a') g' /\ forall k e, g' !! k <> Some (EmptyString, e).
Proof.
  intros Hr Hne. unfold Ipv4_ValidShadowSocks.
  pose proof (tc_Get_spec now (shadow_key ipAddr) _ _ Hr) as Hs.
  destruct (tc_Get now (shadow_key ipAddr) (shadowSocksCache a)) as [v c]. destruct Hs as [Ha Hr'].
  unfold answers in Ha. assert (tc_repr c g) as Hc by by destruct v. clear Hr'.
  destruct v as [pw|]; cbn [default id].
  - destruct (g !! shadow_key ipAddr) as [[v1 e]|] eqn:Ek; [|done].
    destruct Ha as [[[= <-] Hle]|[? _]]; [|done]. unfold id.
    rewrite bool_decide_eq_false_2 by (intros ->; by apply (Hne _ _ Ek)).
    rewrite (bool_decide_eq_false_2 (Some _ = None)) by done. rewrite andb_false_r.
    split; [intros p [= <-]; right; eauto|]. split; [done|]. by exists g.
  - rewrite !(bool_decide_eq_true_2 _) by done.
    destruct (redis_Get now (shadow_key ipAddr)) as [pw|err] eqn:Er; simpl;
      [|split; [done|]; split; [done|]; by exists g].
    split; [intros p [= <-]; by left|]. split; [done|].
    case_bool_decide as Hp; simpl; [by exists g|].
    exists (<[shadow_key ipAddr := (pw, now + AuthTtl)]> g). split; [by apply tc_Set_spec|].
    intros k e. rewrite lookup_insert_Some. intros [[_ [= ? _]]|[_ Hk]]; [done|by apply (Hne k e)].
Qed.
End soundness.

(** ** Witnesses: the reference cache and a Redis with two users *)
#[local] Instance w4_ops : TTLCacheOps AuthInfo (gmap string (AuthInfo * Z)) := ref_ops auth_params.
#[local] Instance ws_ops : TTLCacheOps string (gmap string (string * Z)) := ref_ops auth_params.
#[local] Instance w6_ops : TTLCacheOps Ipv6AuthInfo (gmap string (Ipv6AuthInfo * Z)) := ref_ops auth_params.
#[local] Instance w4_cache : TTLCache AuthInfo (gmap string (AuthInfo * Z)) auth_params := ref_cache auth_params.
#[local] Instance ws_cache : TTLCache string (gmap string (string * Z)) auth_params := ref_cache auth_params.
#[local] Instance w6_cache : TTLCache Ipv6AuthInfo (gmap string (Ipv6AuthInfo * Z)) auth_params :=
  ref_cache auth_params.

Definition bob : AuthInfo := 
  mkAuth "bob" "pw" EmptyString EmptyString EmptyString EmptyString 0 (Some {[ "10.0.0.1" ]}).
Definition eve : Ipv6AuthInfo := mkAuth6 "eve" "pw" "2408::1" false.
(** Bob's record disappears after ten seconds, Eve is banned after ten. *)
Definition sample_redis (t : Z) (k : string) : result error string :=
  if bool_decide (k = "bob:Auth") && (t <=? 10000) then Ok "bob"
  else if bool_decide (k = "eve:Auth") then Ok (if t <=? 10000 then "eve" else "eve banned")
  else if bool_decide (k = "dynamicIpv6Prefix:s1") then Ok "2408::7"
  else if bool_decide (k = "10.0.0.1:ShadowSocks") then Ok "ss"
  else Err (Errorf "redis: nil").
Definition sample_json (s : string) : result error AuthInfo :=
  if bool_decide (s = "bob") then Ok bob else Err (Errorf "invalid character").
Definition sample_proto (s : string) : result error Ipv6AuthInfo :=
  if bool_decide (s = "eve") then Ok eve
  else if bool_decide (s = "eve banned") then Ok (mkAuth6 "eve" "pw" "2408::1" true)
  else Err (Errorf "proto: cannot parse").
Definition no_rand (t : Z) (k : string) : result error string := Err (Errorf "redis: nil").
Definition no_cidr (s : string) : result error (bytes * Z) := Err (Errorf "invalid CIDR address").

Definition bob_history : list login :=
  [mkLogin 9000 "bob" "pw" "10.0.0.1" "9.9.9.9"; mkLogin 20000 "bob" "pw" "10.0.0.1" "9.9.9.9";
   mkLogin 40000 "bob" "pw" "10.0.0.1" "9.9.9.9"].
Definition auth4_0 : Ipv4Auth (C4 := gmap string (AuthInfo * Z)) (CS := gmap string (string * Z)) := mkV4 ∅ ∅.

Lemma ipv4_logins_justified_witness :
  Forall2 (justified4 sample_redis sample_json) bob_history
    (logins4 sample_redis sample_json bob_history auth4_0).1.
Proof. apply (ipv4_logins_justified sample_redis sample_json bob_history auth4_0 0); [done|simpl; lia]. Defined.

(** The second login is served from the cache although the record is gone. *)
Example bob_history_results :
  (logins4 sample_redis sample_json bob_history auth4_0).1 =
  [Ok "10.0.0.1"; Ok "10.0.0.1"; Err (Errorf "redis: nil")].
Proof. vm_compute. reflexivity. Qed.

Lemma ipv4_login_accepted_witness :
  exists a', Ipv4_Valid sample_redis sample_json 5 "bob" "pw" "10.0.0.1" "9.9.9.9" auth4_0 = (Ok "10.0.0.1", a') /\
    exists g' e, tc_repr (cache4 a') g' /\ g' !! auth_key "bob" = Some (bob, e) /\ 5 < e.
Proof.
  apply (ipv4_login_accepted sample_redis sample_json 5 "bob" "pw" "10.0.0.1" "9.9.9.9" bob auth4_0 ∅);
    try reflexivity. left. split; [reflexivity|]. by exists "bob".
Defined.

Definition eve_history : list login :=
  [mkLogin 9000 "eve" "pw" "::" "9.9.9.9"; mkLogin 20000 "eve" "pw" "::" "9.9.9.9";
   mkLogin 40000 "eve" "pw" "::" "9.9.9.9"].
Definition auth6_0 : Ipv6Auth (C6 := gmap string (Ipv6AuthInfo * Z)) := mkV6 ∅.

Lemma ipv6_logins_justified_witness :
  Forall2 (justified6 sample_redis sample_proto []) eve_history
    (logins6 sample_redis sample_proto [] no_rand no_cidr (fun _ => Ok 0) eve_history auth6_0).1.
Proof.
  apply (ipv6_logins_justified sample_redis sample_proto [] no_rand no_cidr (fun _ => Ok 0) eve_history auth6_0 0);
    [done|simpl; lia].
Defined.

(** A banned user is still accepted from the cache, and refused once the
    entry expired. *)
Example eve_history_results :
  (logins6 sample_redis sample_proto [] no_rand no_cidr (fun _ => Ok 0) eve_history auth6_0).1 =
  [Ok "2408::1"; Ok "2408::1"; Err (Errorf "账号已被封禁")].
Proof. vm_compute. reflexivity. Qed.

Lemma dynamic_session_sticky_witness :
  validDynamicIpv6 sample_redis ["9.9.9.9"] no_rand no_cidr (fun _ => Ok 0) 5 "_s1_60" "9.9.9.9" =
    (Ok "2408::7", None).
Proof.
  pose proof (dynamic_session_sticky sample_redis ["9.9.9.9"] no_rand no_cidr (fun _ => Ok 0)
    5 EmptyString "s1" "60" [] "9.9.9.9" "_s1_60" eq_refl ltac:(set_solver) ltac:(done) ltac:(done)) as Hd.
  destruct (validDynamicIpv6 sample_redis _ _ _ _ _ _ _) as [r cmd].
  destruct (proj1 Hd "2408::7" eq_refl ltac:(done)) as [-> ->]. reflexivity.
Defined.

Lemma shadowsocks_password_witness :
  exists a', Ipv4_ValidShadowSocks sample_redis 5 "10.0.0.1" auth4_0 = (Ok "ss", a') /\
    exists g', tc_repr (shadowSocksCache a') g' /\ forall k e, g' !! k <> Some (EmptyString, e).
Proof.
  pose proof (shadowsocks_password sample_redis 5 "10.0.0.1" auth4_0 ∅ eq_refl ltac:(done)) as Hs.
  destruct (Ipv4_ValidShadowSocks sample_redis 5 "10.0.0.1" auth4_0) as [r a'] eqn:E.
  exists a'. destruct Hs as (_ & _ & Hg). split; [|exact Hg].
  apply (f_equal fst) in E. vm_compute in E. by subst r.
Defined.
