(* ===== verification/Manager.v ===== *)
(** * Shared state of the server ([server/manager.go], [server/nacos_config.go], [server/io.go])

    The manager counts the connections of each exit address, keeps one
    cancellable context per user, shared by the user's connections, and the
    configuration that Nacos may replace at any time. The two tables are
    concurrent maps of a third-party package whose values are pointers to
    shared objects: the maps are used through the interface [CMap], the
    objects live on heaps, and the callbacks run inside the map's critical
    section. *)
From stdpp Require Import base gmap strings numbers fin_maps list.
From S2P Require Import Prelude GoIO ConcurrentMap FlowLimit TTLCache Tracker.

Abbreviation loc := positive.

Record NacosConfig := mkConf {
  Blacklist : list string;
  ReadRate : Z;
  ReadBurst : Z;
  OneIpMaxConn : Z;
  AlarmOneIPMaxThreshold : Z;
  WhiteList : list string
}.

(** A user's context: whether [cancel] was called, its token bucket and the
    number of connections that share it. *)
Record connContext := mkCtx { cancelled : bool; a : LimitedReaderAction; c : Z }.

Section manager.
Context {M1 M2 : Type}.
Context `{CMapOps string (option loc) M1} `{CMapOps string (option loc) M2}.

Record manager := mkManager {
  ipConnCountMap : M1;
  ipCounts : gmap loc Z;
  userCtxMap : M2;
  userCtxs : gmap loc connContext;
  nacosConfig : NacosConfig;
  blackMap : option (list string)
}.

Definition set_ipCounts (im : M1) (h : gmap loc Z) (m : manager) : manager :=
  mkManager im h (userCtxMap m) (userCtxs m) (nacosConfig m) (blackMap m).
Definition set_users (um : M2) (h : gmap loc connContext) (m : manager) : manager :=
  mkManager (ipConnCountMap m) (ipCounts m) um h (nacosConfig m) (blackMap m).

(** ** Connections per exit address *)

(** The callback of [Upsert]: the heap and the named results [ok], [ipCount]
    are the variables it changes; a nil or dangling pointer panics. *)
Definition add_count_cb (conf : NacosConfig) (exist : bool) (valueInMap newValue : option loc)
    (s : outcome (gmap loc Z * (bool * Z))) : option loc * outcome (gmap loc Z * (bool * Z)) :=
  match s with
  | Panic => (valueInMap, Panic)
  | Ret (h, _) =>
      if exist then
        match valueInMap with
        | None => (valueInMap, Panic)
        | Some l =>
            match h !! l with
            | None => (valueInMap, Panic)
            | Some n =>
                if negb (OneIpMaxConn conf =? 0) && (n >=? OneIpMaxConn conf)
                then (valueInMap, Ret (h, (false, n)))
                else (valueInMap, Ret (<[l := i64 (n + 1)]> h, (true, i64 (n + 1))))
            end
        end
      else
        let l := fresh (dom h) in
        (Some l, Ret (<[l := 1]> h, (true, 1)))
  end.

Definition AddIpConnCount (ip : string) (m : manager) : outcome ((bool * Z) * manager) :=
  '(_, im, s) ← cm_Upsert _ ip None (add_count_cb (nacosConfig m)) (ipConnCountMap m)
                  (Ret (ipCounts m, (false, 0)));
  '(h, r) ← s;
  Ret (r, set_ipCounts im h m).

Definition reduce_count_cb (key : string) (valueInMap : option loc) (exists_ : bool)
    (s : outcome (gmap loc Z)) : bool * outcome (gmap loc Z) :=
  match s with
  | Panic => (false, Panic)
  | Ret h =>
      if exists_ then
        match valueInMap with
        | None => (false, Panic)
        | Some l =>
            match h !! l with
            | None => (false, Panic)
            | Some n => (i64 (n - 1) =? 0, Ret (<[l := i64 (n - 1)]> h))
            end
        end
      else (false, Ret h)
  end.

Definition ReduceIpConnCount (ip : string) (m : manager) : outcome manager :=
  '(_, im, s) ← cm_RemoveCb _ ip reduce_count_cb (ipConnCountMap m) (Ret (ipCounts m));
  h ← s;
  Ret (set_ipCounts im h m).

(** ** Contexts of users *)

(** [now] is the second in which a new bucket is made. *)
Definition add_user_cb (now : Z) (conf : NacosConfig) (exist : bool) (valueInMap newValue : option loc)
    (s : outcome (gmap loc connContext)) : option loc * outcome (gmap loc connContext) :=
  match s with
  | Panic => (valueInMap, Panic)
  | Ret h =>
      if exist then
        match valueInMap with
        | None => (valueInMap, Panic)
        | Some l =>
            match h !! l with
            | None => (valueInMap, Panic)
            | Some x => (valueInMap, Ret (<[l := mkCtx (cancelled x) (a x) (u64 (c x + 1))]> h))
            end
        end
      else
        let l := fresh (dom h) in
        (Some l, Ret (<[l := mkCtx false (NewLimitedReaderAction now (ReadRate conf) (ReadBurst conf)) 1]> h))
  end.

Definition addUserConnection (now : Z) (k : string) (m : manager) : outcome (option loc * manager) :=
  '(res, um, s) ← cm_Upsert _ k None (add_user_cb now (nacosConfig m)) (userCtxMap m) (Ret (userCtxs m));
  h ← s;
  Ret (res, set_users um h m).

Definition delete_user_cb (ctx : option loc) (key : string) (valueInMap : option loc) (exists_ : bool)
    (s : outcome (gmap loc connContext)) : bool * outcome (gmap loc connContext) :=
  match s with
  | Panic => (false, Panic)
  | Ret h =>
      if exists_ then
        if negb (bool_decide (valueInMap = ctx)) then (false, Ret h)
        else
          match valueInMap with
          | None => (false, Panic)
          | Some l =>
              match h !! l with
              | None => (false, Panic)
              | Some x =>
                  let c' := u64 (c x - 1) in
                  if c' =? 0 then (true, Ret (<[l := mkCtx true (a x) c']> h))
                  else (false, Ret (<[l := mkCtx (cancelled x) (a x) c']> h))
              end
          end
      else (true, Ret h)
  end.

Definition deleteUserConnection (k : string) (ctx : option loc) (m : manager) : outcome manager :=
  '(_, um, s) ← cm_RemoveCb _ k (delete_user_cb ctx) (userCtxMap m) (Ret (userCtxs m));
  h ← s;
  Ret (set_users um h m).

Definition CloseUserConnections (k : string) (m : manager) : outcome (option error * manager) :=
  p ← (cm_Pop k (userCtxMap m) : outcome (option loc * bool * M2));
  let '(v, found, um) := p in
  let absent := Some (Errorf ("CloseUserConnections userCtxMap " +:+ k +:+ " 不存在")) in
  match v with
  | Some l =>
      if (found : bool) then
        match userCtxs m !! l with
        | None => Panic
        | Some x => Ret (None, set_users um (<[l := mkCtx true (a x) (c x)]> (userCtxs m)) m)
        end
      else Ret (absent, set_users um (userCtxs m) m)
  | None => Ret (absent, set_users um (userCtxs m) m)
  end.

(** ** Configuration *)

Definition setNacosConf (conf : NacosConfig) (m : manager) : manager :=
  mkManager (ipConnCountMap m) (ipCounts m) (userCtxMap m) (userCtxs m) conf (blackMap m).
Definition getNacosConf (m : manager) : NacosConfig := nacosConfig m.

(** [v.Val.a.UpdateParameter(...)]. *)
Definition with_rates (conf : NacosConfig) (x : connContext) : connContext :=
  mkCtx (cancelled x) (UpdateParameter (ReadRate conf) (ReadBurst conf) (a x)) (c x).

(** The loop of [updateLimitedReaderAction] over the entries received. *)
Fixpoint update_actions (conf : NacosConfig) (out : list (string * option loc))
    (h : gmap loc connContext) : outcome (gmap loc connContext) :=
  match out with
  | [] => Ret h
  | (_, None) :: _ => Panic
  | (_, Some l) :: out' =>
      match h !! l with
      | None => Panic
      | Some x =>
          update_actions conf out' (<[l := with_rates conf x]> h)
      end
  end.
Definition updateLimitedReaderAction (m : manager) (r : outcome manager) : Prop :=
  exists out, cm_iter (userCtxMap m) out /\
    r = (h ← update_actions (getNacosConf m) out (userCtxs m); Ret (set_users (userCtxMap m) h m)).

(** One message of Nacos or one tick of [runNacosConfServer]: [conf] is what
    the remote store decodes to. *)
Definition nacos_event (conf : result error NacosConfig) (m : manager) (r : outcome manager) : Prop :=
  match conf with
  | Err _ => r = Ret m
  | Ok conf => updateLimitedReaderAction (setNacosConf conf m) r
  end.

Definition default_conf : NacosConfig := mkConf [] 1000000 6000000 10000 0 [].

(** The calls [tryInitNacosConf] makes to the remote store, in order; a panic
    in one of them is recovered, and the function returns false. *)
Record remote := mkRemote {
  AddRemoteProvider : outcome (option error);
  ReadRemoteConfig : outcome (option error);
  WatchRemoteConfigOnChannel : outcome (option error);
  WatchRemoteConfig : outcome (option error);
  Unmarshal : outcome (result error NacosConfig)
}.
Definition tryInitNacosConf (v : remote) (m : manager) : bool * manager :=
  let step (r : outcome (option error)) (k : bool * manager) :=
    match r with Ret None => k | _ => (false, m) end in
  step (AddRemoteProvider v)
    (step (ReadRemoteConfig v)
      (step (WatchRemoteConfigOnChannel v)
        (step (WatchRemoteConfig v)
          match Unmarshal v with
          | Ret (Ok conf) => (true, setNacosConf conf m)
          | _ => (false, m)
          end))).
(** The flag tells whether an alarm is sent. *)
Definition initNacosConf (v : remote) (m : manager) : bool * manager :=
  let '(successInit, m) := tryInitNacosConf v (setNacosConf default_conf m) in
  (negb successInit, m).

(** ** Blacklists *)

Definition SetBlackMap (bm : list string) (m : manager) : manager :=
  mkManager (ipConnCountMap m) (ipCounts m) (userCtxMap m) (userCtxs m) (nacosConfig m) (Some bm).

Fixpoint first_match (d : string) (black : list string) : string * bool :=
  match black with
  | [] => (EmptyString, false)
  | vv :: black' => if Contains d vv then (vv, true) else first_match d black'
  end.
Definition IsInBlacklist (d : string) (m : manager) : string * bool :=
  match blackMap m with
  | None => (EmptyString, false)
  | Some black => first_match d black
  end.

Definition IpAndTargetIsInBlacklist {C1 C2} `{TTLCacheOps stats_loc C1} `{TTLCacheOps Z C2}
    (now : Z) (ipAndTarget : string) (dt : DialFailTracker C1 C2) (m : manager)
  : bool * DialFailTracker C1 C2 :=
  if bool_decide (ipAndTarget ∈ WhiteList (getNacosConf m)) then (false, dt)
  else IsBlacklisted now ipAndTarget dt.
End manager.
Arguments manager : clear implicits.

(** ** Maps of pointers *)
Section pointers.
Context {X : Type}.
Implicit Types (view : gmap string (option loc)) (h : gmap loc X) (abs : gmap string X).

(** The map [view] of pointers into [h] stands for the map [abs] of objects;
    no pointer is nil or dangling and no two keys share one. *)
Definition ptr_repr view h abs : Prop :=
  (forall k, match view !! k with
             | Some (Some l) => exists x, h !! l = Some x /\ abs !! k = Some x
             | Some None => False
             | None => abs !! k = None
             end) /\
  (forall k1 k2 l, view !! k1 = Some (Some l) -> view !! k2 = Some (Some l) -> k1 = k2).

Lemma ptr_lookup view h abs k :
  ptr_repr view h abs ->
  (view !! k = None /\ abs !! k = None) \/
  (exists l x, view !! k = Some (Some l) /\ h !! l = Some x /\ abs !! k = Some x).
Proof.
  intros [Hp _]. specialize (Hp k). destruct (view !! k) as [[l|]|]; [|done|by left].
  destruct Hp as (x & ? & ?). right. eauto.
Qed.

Lemma ptr_update view h abs k l x :
  ptr_repr view h abs -> view !! k = Some (Some l) -> ptr_repr view (<[l := x]> h) (<[k := x]> abs).
Proof.
  intros [Hp Hinj] Hk. split; [|done]. intros k'. specialize (Hp k').
  destruct (decide (k' = k)) as [->|Hne].
  - rewrite Hk in Hp |- *. exists x. by rewrite !lookup_insert_eq.
  - rewrite lookup_insert_ne by done. destruct (view !! k') as [[l'|]|] eqn:Ek'; [|done..].
    destruct Hp as (y & Hy & ?). exists y. rewrite lookup_insert_ne; [done|].
    intros ->. apply Hne. by eapply Hinj.
Qed.

Lemma ptr_insert view h abs k l x :
  ptr_repr view h abs -> h !! l = None ->
  ptr_repr (<[k := Some l]> view) (<[l := x]> h) (<[k := x]> abs).
Proof.
  intros [Hp Hinj] Hl.
  assert (forall k', view !! k' <> Some (Some l)) as Hfresh.
  { intros k' E. specialize (Hp k'). rewrite E in Hp. destruct Hp as (? & ? & _). congruence. }
  split.
  - intros k'. specialize (Hp k'). destruct (decide (k' = k)) as [->|Hne].
    + rewrite !lookup_insert_eq. exists x.
      done.
    + rewrite !(lookup_insert_ne _ k k') by done.
      destruct (view !! k') as [[l'|]|] eqn:Ek'; [|done..].
      destruct Hp as (y & Hy & ?). exists y. rewrite lookup_insert_ne; [done|]. congruence.
  - intros k1 k2 l'. rewrite !lookup_insert_Some.
    intros [[<- [= <-]]|[? H1]] [[<- E2]|[? H2]]; try done; [by apply Hfresh in H2| |by eapply Hinj].
    injection E2 as ->. by apply Hfresh in H1.
Qed.

Lemma ptr_delete view h abs k :
  ptr_repr view h abs -> ptr_repr (delete k view) h (delete k abs).
Proof.
  intros [Hp Hinj]. split.
  - intros k'. specialize (Hp k'). destruct (decide (k' = k)) as [->|Hne].
    + by rewrite !lookup_delete_eq.
    + by rewrite !lookup_delete_ne.
  - intros k1 k2 l. rewrite !lookup_delete_Some. intros [_ ?] [_ ?]. by eapply Hinj.
Qed.

Lemma ptr_frame view h abs l x :
  ptr_repr view h abs -> (forall k, view !! k <> Some (Some l)) -> ptr_repr view (<[l := x]> h) abs.
Proof.
  intros [Hp Hinj] Hl. split; [|done]. intros k'. specialize (Hp k').
  destruct (view !! k') as [[l'|]|] eqn:E; [|done..]. destruct Hp as (y & ? & ?). exists y.
  rewrite lookup_insert_ne; [done|]. intros ->. by apply (Hl k').
Qed.

Lemma ptr_empty h : ptr_repr ∅ h ∅.
Proof. split; [done|]. intros k1 k2 l. by rewrite lookup_empty. Qed.
End pointers.

(** ** Properties of the connection counters *)
Section counters.
Context {M1 M2 : Type}.
Context `{CMapOps string (option loc) M1} `{CMapOps string (option loc) M2}.
Context `{!CMap string (option loc) M1 None}.
Implicit Types (m : manager M1 M2) (cnt : gmap string Z).

(** The counters of [m] are [cnt]. *)
Definition ip_repr m cnt : Prop :=
  cm_ok (ipConnCountMap m) /\ ptr_repr (cm_view (ipConnCountMap m)) (ipCounts m) cnt.

(** Everything but the counters. *)
Definition rest_of m := (userCtxMap m, userCtxs m, nacosConfig m, blackMap m).

Definition spec_add (limit : Z) (ip : string) cnt : (bool * Z) * gmap string Z :=
  match cnt !! ip with
  | Some n => if negb (limit =? 0) && (n >=? limit) then ((false, n), cnt)
              else ((true, n + 1), <[ip := n + 1]> cnt)
  | None => ((true, 1), <[ip := 1]> cnt)
  end.
Definition spec_reduce (ip : string) cnt : gmap string Z :=
  match cnt !! ip with
  | Some n => if n - 1 =? 0 then delete ip cnt else <[ip := n - 1]> cnt
  | None => cnt
  end.

(** No counter is near the end of [int64]. *)
Definition counts_small cnt : Prop := forall ip n, cnt !! ip = Some n -> 0 < n < 2 ^ 63 - 1.

Lemma AddIpConnCount_spec ip m cnt :
  ip_repr m cnt -> counts_small cnt ->
  exists m', AddIpConnCount ip m = Ret ((spec_add (OneIpMaxConn (nacosConfig m)) ip cnt).1, m') /\
    ip_repr m' (spec_add (OneIpMaxConn (nacosConfig m)) ip cnt).2 /\ rest_of m' = rest_of m.
Proof.
  intros [Hok Hp] Hs. unfold AddIpConnCount, spec_add.
  pose proof (cm_Upsert_spec _ ip None (add_count_cb (nacosConfig m)) _
    (Ret (ipCounts m, (false, 0))) Hok) as Hu. cbv zeta in Hu.
  destruct (ptr_lookup _ _ _ ip Hp) as [[Hv Ha]|(l & n & Hv & Hh & Ha)]; rewrite Hv in Hu; rewrite Ha.
  - destruct Hu as (im & -> & Hok' & Hv'). eexists. split; [reflexivity|]. split; [|done].
    split; [done|]. simpl. rewrite Hv'. apply ptr_insert; [done|].
    apply not_elem_of_dom, is_fresh.
  - simpl in Hu. rewrite Hh in Hu. destruct (negb _ && _).
    + destruct Hu as (im & -> & Hok' & Hv'). eexists. split; [reflexivity|]. split; [|done].
      split; [done|]. simpl. rewrite Hv', insert_id by done. done.
    + destruct Hu as (im & -> & Hok' & Hv'). specialize (Hs ip n Ha).
      rewrite i64_small in * by (unfold in_signed; lia).
      eexists. split; [reflexivity|]. split; [|done].
      split; [done|]. simpl. rewrite Hv', insert_id by done. by apply ptr_update.
Qed.

Lemma ReduceIpConnCount_spec ip m cnt :
  ip_repr m cnt -> counts_small cnt ->
  exists m', ReduceIpConnCount ip m = Ret m' /\ ip_repr m' (spec_reduce ip cnt) /\ rest_of m' = rest_of m.
Proof.
  intros [Hok Hp] Hs. unfold ReduceIpConnCount, spec_reduce.
  pose proof (cm_RemoveCb_spec _ ip reduce_count_cb _ (Ret (ipCounts m)) Hok) as Hu. cbv zeta in Hu.
  destruct (ptr_lookup _ _ _ ip Hp) as [[Hv Ha]|(l & n & Hv & Hh & Ha)]; rewrite Hv in Hu; rewrite Ha.
  - destruct Hu as (im & -> & Hok' & Hv'). eexists. split; [reflexivity|]. split; [|done].
    split; [done|]. simpl. by rewrite Hv'.
  - simpl in Hu. rewrite Hh in Hu. specialize (Hs ip n Ha).
    rewrite i64_small in * by (unfold in_signed; lia).
    destruct Hu as (im & -> & Hok' & Hv'). eexists. split; [reflexivity|]. split; [|done].
    split; [done|]. simpl. rewrite Hv'. pose proof (ptr_update _ _ _ _ _ (n - 1) Hp Hv) as Hp'.
    destruct (n - 1 =? 0); [|done].
    apply (ptr_delete _ _ _ ip) in Hp'. by rewrite delete_insert_eq in Hp'.
Qed.

(** *** Histories of connections *)

(** The server with the exit addresses of its open connections: a connection
    that [AddIpConnCount] accepted is closed once, by the deferred
    [ReduceIpConnCount]; the configuration may change in between. *)
Inductive conn_step : manager M1 M2 * list string -> manager M1 M2 * list string -> Prop :=
| conn_accept m live ip n m' :
    AddIpConnCount ip m = Ret ((true, n), m') -> conn_step (m, live) (m', ip :: live)
| conn_refuse m live ip n m' :
    AddIpConnCount ip m = Ret ((false, n), m') -> conn_step (m, live) (m', live)
| conn_close m l1 ip l2 m' :
    ReduceIpConnCount ip m = Ret m' -> conn_step (m, l1 ++ ip :: l2) (m', l1 ++ l2)
| conn_config m live conf : conn_step (m, live) (setNacosConf conf m, live).

Inductive conn_reach (m0 : manager M1 M2) : nat -> manager M1 M2 * list string -> Prop :=
| conn_start : conn_reach m0 0 (m0, [])
| conn_more n s s' : conn_reach m0 n s -> conn_step s s' -> conn_reach m0 (S n) s'.

(** How often [ip] is in use, as the table has it. *)
Definition occ (ip : string) (live : list string) : nat := length (filter (fun x => x = ip) live).
Definition occ_entry (ip : string) (live : list string) : option Z :=
  if bool_decide (occ ip live = 0%nat) then None else Some (Z.of_nat (occ ip live)).
Definition counts_live cnt (live : list string) : Prop := forall ip, cnt !! ip = occ_entry ip live.

Lemma occ_cons ip ip' live :
  occ ip (ip' :: live) = ((if bool_decide (ip' = ip) then 1 else 0) + occ ip live)%nat.
Proof. unfold occ. rewrite filter_cons. case_decide; case_bool_decide; simpl; done. Qed.

Lemma occ_remove ip ip' l1 l2 :
  occ ip (l1 ++ ip' :: l2) = ((if bool_decide (ip' = ip) then 1 else 0) + occ ip (l1 ++ l2))%nat.
Proof.
  unfold occ. rewrite !filter_app, !length_app, filter_cons.
  case_decide; case_bool_decide; simpl; try done; lia.
Qed.

Lemma occ_le ip live : (occ ip live <= length live)%nat.
Proof. apply length_filter. Qed.

Lemma counts_live_small cnt live :
  counts_live cnt live -> Z.of_nat (length live) < 2 ^ 63 - 1 -> counts_small cnt.
Proof.
  intros Hc Hl ip n Hn. rewrite Hc in Hn. unfold occ_entry in Hn.
  pose proof (occ_le ip live). case_bool_decide; simplify_eq. lia.
Qed.

Lemma spec_add_live limit ip cnt live :
  counts_live cnt live ->
  let '((ok, n), cnt') := spec_add limit ip cnt in
  n = Z.of_nat (occ ip (if ok then ip :: live else live)) /\
  counts_live cnt' (if ok then ip :: live else live) /\
  (0 < limit -> if ok then n <= limit else limit <= n).
Proof.
  intros Hc. unfold spec_add. rewrite (Hc ip). unfold occ_entry at 1.
  assert (forall z, z = Z.of_nat (S (occ ip live)) ->
    counts_live (<[ip := z]> cnt) (ip :: live)) as Hadd.
  { intros z -> ip'. unfold occ_entry. rewrite occ_cons. destruct (decide (ip = ip')) as [<-|He].
    - rewrite lookup_insert_eq, (bool_decide_eq_true_2 (ip = ip)) by done. done.
    - rewrite lookup_insert_ne, (bool_decide_eq_false_2 (ip = ip')) by done. apply Hc. }
  case_bool_decide as Hz.
  - rewrite occ_cons, bool_decide_eq_true_2, Hz by done. split; [done|].
    split; [apply Hadd; by rewrite Hz|lia].
  - destruct (negb (limit =? 0) && (_ >=? limit)) eqn:E.
    + split; [done|]. split; [done|]. to_prop. lia.
    + rewrite occ_cons, bool_decide_eq_true_2 by done. split; [lia|].
      split; [apply Hadd; lia|]. intros Hl.
      apply andb_false_iff in E as [E|E].
      * apply negb_false_iff in E. to_prop. lia.
      * to_prop. lia.
Qed.

Lemma spec_reduce_live ip cnt l1 l2 :
  counts_live cnt (l1 ++ ip :: l2) -> counts_live (spec_reduce ip cnt) (l1 ++ l2).
Proof.
  intros Hc ip'. unfold spec_reduce. pose proof (Hc ip) as Hip. unfold occ_entry in Hip.
  rewrite occ_remove, (bool_decide_eq_true_2 (ip = ip)) in Hip by done.
  rewrite bool_decide_eq_false_2 in Hip by lia. rewrite Hip.
  specialize (Hc ip'). unfold occ_entry in *. rewrite occ_remove in Hc.
  destruct (decide (ip = ip')) as [<-|Hne].
  - destruct (Z.of_nat (1 + occ ip (l1 ++ l2)) - 1 =? 0) eqn:E; to_prop.
    + rewrite lookup_delete_eq, bool_decide_eq_true_2 by lia. done.
    + rewrite lookup_insert_eq, bool_decide_eq_false_2 by lia. f_equal. lia.
  - rewrite (bool_decide_eq_false_2 (ip = ip')) in Hc by done. simpl in Hc.
    destruct (_ =? 0); [by rewrite lookup_delete_ne|by rewrite lookup_insert_ne].
Qed.

Definition conn_inv (n : nat) (s : manager M1 M2 * list string) : Prop :=
  (length s.2 <= n)%nat /\ exists cnt, ip_repr s.1 cnt /\ counts_live cnt s.2.

Lemma conn_step_inv n s s' :
  Z.of_nat n < 2 ^ 63 - 1 -> conn_step s s' -> conn_inv n s -> conn_inv (S n) s'.
Proof.
  intros Hn Hs [Hl (cnt & Hr & Hc)]. inversion Hs as [m live ip k m' E|m live ip k m' E|m l1 ip l2 m' E|m live conf];
    subst; simpl in *.
  1,2: destruct (AddIpConnCount_spec ip m cnt Hr) as (m1 & E1 & Hr1 & _);
    [eapply counts_live_small; [exact Hc|lia]|];
    pose proof (spec_add_live (OneIpMaxConn (nacosConfig m)) ip cnt live Hc) as Hsp;
    destruct (spec_add _ ip cnt) as [[ok k'] cnt']; simpl in *; rewrite E1 in E; simplify_eq;
    destruct Hsp as (_ & Hc' & _); (split; [simpl; lia|]); by exists cnt'.
  - destruct (ReduceIpConnCount_spec ip m cnt Hr) as (m1 & E1 & Hr1 & _);
      [eapply counts_live_small; [exact Hc|lia]|].
    rewrite E1 in E. simplify_eq. split; [simpl; rewrite !length_app in *; simpl in *; lia|].
    exists (spec_reduce ip cnt). split; [done|]. by apply spec_reduce_live.
  - split; [simpl; lia|]. by exists cnt.
Qed.

Lemma conn_reach_inv m0 n s :
  ip_repr m0 ∅ -> conn_reach m0 n s -> Z.of_nat n < 2 ^ 63 - 1 -> conn_inv n s.
Proof.
  intros H0' Hr. induction Hr as [|n s s' _ IH Hs]; intros Hn.
  - split; [simpl; lia|]. exists ∅. split; [done|]. intros ip. by rewrite lookup_empty.
  - eapply conn_step_inv; [|done|apply IH]; lia.
Qed.

(** The connection counters are exact: after any history of accepted,
    refused and closed connections and of configuration changes, the counter
    of every exit address is the number of its open connections, with no entry
    for an idle one; a further connection is decided without a panic, is
    accepted only up to the configured maximum, and is refused only when that
    many are open. *)
Theorem ip_counters_exact m0 n m live ip :
  ip_repr m0 ∅ -> conn_reach m0 n (m, live) -> Z.of_nat n < 2 ^ 63 - 1 ->
  (exists cnt, ip_repr m cnt /\ counts_live cnt live) /\
  exists ok k m', AddIpConnCount ip m = Ret ((ok, k), m') /\
    k = Z.of_nat (occ ip (if ok then ip :: live else live)) /\
    (0 < OneIpMaxConn (nacosConfig m) ->
     if ok then k <= OneIpMaxConn (nacosConfig m) else OneIpMaxConn (nacosConfig m) <= k).
Proof.
  intros Hm0 Hr Hn. destruct (conn_reach_inv _ _ _ Hm0 Hr Hn) as [Hl (cnt & Hrep & Hc)]. simpl in *.
  split; [eauto|]. destruct (AddIpConnCount_spec ip m cnt Hrep) as (m1 & E1 & _);
    [eapply counts_live_small; [exact Hc|lia]|].
  pose proof (spec_add_live (OneIpMaxConn (nacosConfig m)) ip cnt live Hc) as Hsp.
  destruct (spec_add _ ip cnt) as [[ok k] cnt']. destruct Hsp as (? & _ & ?). simpl in E1. eauto 10.
Qed.
End counters.

(** ** Properties of the users' contexts *)
Section users.
Context {M1 M2 : Type}.
Context `{CMapOps string (option loc) M1} `{CMapOps string (option loc) M2}.
Context `{!CMap string (option loc) M2 None}.
Implicit Types (m : manager M1 M2) (hs : list (string * loc)).

(** The rates of a configuration are Go [int]s. *)
Definition conf_ok (conf : NacosConfig) : Prop := in_i64 (ReadRate conf) /\ in_i64 (ReadBurst conf).

(** The pointers of the map. *)
Definition current m (k : string) (l : loc) : Prop := cm_view (userCtxMap m) !! k = Some (Some l).

#[global] Instance current_dec m k l : Decision (current m k l) := decide (_ = _).

(** How many connections of [hs] hold the context [l] for the user [k]. *)
Definition holds (k : string) (l : loc) hs : nat := length (filter (fun x => x = (k, l)) hs).

Lemma holds_cons k l x hs :
  holds k l (x :: hs) = ((if bool_decide (x = (k, l)) then 1 else 0) + holds k l hs)%nat.
Proof. unfold holds. rewrite filter_cons. case_decide; case_bool_decide; simpl; done. Qed.

Lemma holds_remove k l x h1 h2 :
  holds k l (h1 ++ x :: h2) = ((if bool_decide (x = (k, l)) then 1 else 0) + holds k l (h1 ++ h2))%nat.
Proof.
  unfold holds. rewrite !filter_app, !length_app, filter_cons.
  case_decide; case_bool_decide; simpl; try done; lia.
Qed.

Lemma holds_zero k l hs : holds k l hs = 0%nat <-> (k, l) ∉ hs.
Proof.
  unfold holds. rewrite length_zero_iff_nil. split.
  - intros E Hin. assert ((k, l) ∈ filter (fun x => x = (k, l)) hs) as Hf
      by (apply list_elem_of_filter; done). rewrite E in Hf. set_solver.
  - intros Hn.
    induction hs as [|x hs IH]; [done|]. rewrite filter_cons. case_decide; [set_solver|].
    apply IH. set_solver.
Qed.

(** The invariant of the contexts: the map's contexts are live, counted by
    their holders and pairwise distinct; a holder's context is the map's, or it
    is cancelled and in no entry any more. *)
Record users_inv m hs : Prop := mkUI {
  ui_ok : cm_ok (userCtxMap m);
  ui_ptr : exists abs, ptr_repr (cm_view (userCtxMap m)) (userCtxs m) abs;
  ui_live : forall k l, current m k l -> exists x, userCtxs m !! l = Some x /\
    cancelled x = false /\ c x = Z.of_nat (holds k l hs) /\ (0 < holds k l hs)%nat;
  ui_held : forall k l, (k, l) ∈ hs -> exists x, userCtxs m !! l = Some x /\
    (current m k l \/ cancelled x = true /\ forall k', ~ current m k' l);
  ui_bucket : forall l x, userCtxs m !! l = Some x -> action_ok (a x);
  ui_conf : conf_ok (nacosConfig m)
}.

Lemma current_inj m hs k1 k2 l : users_inv m hs -> current m k1 l -> current m k2 l -> k1 = k2.
Proof. intros [_ [abs [_ Hinj]] _ _ _ _]. apply Hinj. Qed.

Lemma current_cases m hs k : users_inv m hs ->
  cm_view (userCtxMap m) !! k = None \/ exists l x, current m k l /\ userCtxs m !! l = Some x.
Proof.
  intros [_ [abs Hp] _ _ _ _]. destruct (ptr_lookup _ _ _ k Hp) as [[? _]|(l & x & ? & ? & _)]; eauto.
Qed.

Lemma u64_small z : 0 <= z < 2 ^ 64 -> u64 z = z.
Proof. apply (wrapU_small 64). Qed.

(** A second connection of a user shares the context of the first. *)
Lemma add_existing m hs k l x um :
  users_inv m hs -> current m k l -> userCtxs m !! l = Some x ->
  cm_ok um -> cm_view um = cm_view (userCtxMap m) -> Z.of_nat (length hs) < 2 ^ 64 - 1 ->
  users_inv (set_users um (<[l := mkCtx (cancelled x) (a x) (u64 (c x + 1))]> (userCtxs m)) m) ((k, l) :: hs).
Proof.
  intros Hi Hk Hx Hok Hv Hlen. pose proof Hi as [_ [abs Hp] Hlive Hheld Hb Hc].
  assert (forall k' l', current (set_users um (<[l := mkCtx (cancelled x) (a x) (u64 (c x + 1))]> (userCtxs m)) m) k' l'
    <-> current m k' l') as Hcur by (intros k' l'; unfold current; simpl; by rewrite Hv).
  split; simpl; try done.
  - rewrite Hv. eexists. by eapply ptr_update.
  - intros k' l' Hk'. apply Hcur in Hk'. destruct (decide (l' = l)) as [->|Hne].
    + assert (k' = k) as -> by by eapply current_inj. destruct (Hlive k l Hk) as (x' & Hx' & Hcx & Hcc & Hpos).
      assert (x' = x) as -> by congruence. eexists. rewrite lookup_insert_eq. split; [done|].
      rewrite holds_cons, bool_decide_eq_true_2 by done. simpl. split; [done|]. split; [|lia].
      rewrite Hcc. assert (holds k l hs <= length hs)%nat by apply length_filter.
      rewrite u64_small by lia. lia.
    + destruct (Hlive k' l' Hk') as (x' & Hx' & ?). exists x'. rewrite lookup_insert_ne by done.
      rewrite holds_cons, bool_decide_eq_false_2 by congruence. done.
  - intros k' l' Hin. setoid_rewrite Hcur. apply elem_of_cons in Hin as [[= -> ->]|Hin].
    + eexists. rewrite lookup_insert_eq. split; [done|]. by left.
    + destruct (Hheld k' l' Hin) as (x' & Hx' & Hor). destruct (decide (l' = l)) as [->|Hne].
      * eexists. rewrite lookup_insert_eq. split; [done|]. assert (x' = x) as -> by congruence. done.
      * exists x'. by rewrite lookup_insert_ne.
  - intros l' x'. rewrite lookup_insert_Some. intros [[<- <-]|[_ ?]]; [by apply (Hb l x)|by eapply Hb].
Qed.

(** The first connection of a user gets a new context. *)
Lemma add_fresh m hs k l now um :
  users_inv m hs -> cm_view (userCtxMap m) !! k = None -> userCtxs m !! l = None ->
  cm_ok um -> cm_view um = <[k := Some l]> (cm_view (userCtxMap m)) ->
  users_inv (set_users um (<[l := mkCtx false (NewLimitedReaderAction now (ReadRate (nacosConfig m))
    (ReadBurst (nacosConfig m))) 1]> (userCtxs m)) m) ((k, l) :: hs).
Proof.
  intros Hi Hk Hl Hok Hv. pose proof Hi as [_ [abs Hp] Hlive Hheld Hb Hc].
  assert (forall k' l', l' <> l -> cm_view um !! k' = Some (Some l') <-> current m k' l') as Hcur.
  { intros k' l' Hne. rewrite Hv, lookup_insert_Some. unfold current.
    split; [intros [[_ ?]|[_ ?]]; congruence|]. intros Hc'. right. split; [congruence|done]. }
  assert (forall k', (k', l) ∉ hs) as Hnl.
  { intros k' Hin. destruct (Hheld k' l Hin) as (x & ? & _). congruence. }
  assert (forall k', cm_view um !! k' = Some (Some l) -> k' = k) as Hown.
  { intros k'. rewrite Hv, lookup_insert_Some. intros [[? _]|[_ Hk']]; [done|].
    destruct (Hlive k' l Hk') as (? & ? & _). congruence. }
  split; simpl; try done.
  - rewrite Hv. eexists. by apply ptr_insert.
  - intros k' l' Hk'. unfold current in Hk'. simpl in Hk'. destruct (decide (l' = l)) as [->|Hne].
    + apply Hown in Hk' as ->. eexists. rewrite lookup_insert_eq. split; [done|].
      rewrite holds_cons, bool_decide_eq_true_2 by done.
      rewrite (proj2 (holds_zero k l hs)) by apply Hnl. simpl. split_and!; [done..|lia].
    + apply Hcur in Hk'; [|done]. destruct (Hlive k' l' Hk') as (x & Hx & ?). exists x.
      rewrite lookup_insert_ne, holds_cons, bool_decide_eq_false_2 by congruence. done.
  - intros k' l' Hin. apply elem_of_cons in Hin as [[= -> ->]|Hin].
    + eexists. rewrite lookup_insert_eq. split; [done|]. left. unfold current. simpl.
      by rewrite Hv, lookup_insert_eq.
    + destruct (Hheld k' l' Hin) as (x & Hx & Hor). exists x. assert (l' <> l) as Hne by congruence.
      rewrite lookup_insert_ne by done. split; [done|]. unfold current. simpl.
      destruct Hor as [Hor|[? Hor]]; [left; by apply Hcur|right; split; [done|]].
      intros k2. rewrite Hcur by done. apply Hor.
  - intros l' x. rewrite lookup_insert_Some. intros [[<- <-]|[_ ?]]; [|by eapply Hb].
    destruct Hc. by apply new_action_ok.
Qed.

Lemma addUserConnection_inv now k m hs :
  users_inv m hs -> Z.of_nat (length hs) < 2 ^ 64 - 1 ->
  exists l m', addUserConnection now k m = Ret (Some l, m') /\ users_inv m' ((k, l) :: hs) /\
    current m' k l /\ (forall l', current m k l' -> l = l') /\
    (cm_view (userCtxMap m) !! k = None -> userCtxs m !! l = None).
Proof.
  intros Hi Hlen. unfold addUserConnection.
  pose proof (cm_Upsert_spec _ k None (add_user_cb now (nacosConfig m)) _ (Ret (userCtxs m)) (ui_ok _ _ Hi)) as Hu.
  cbv zeta in Hu. destruct (current_cases m hs k Hi) as [Hk|(l & x & Hk & Hx)].
  - rewrite Hk in Hu. simpl in Hu. destruct Hu as (um & -> & Hok & Hv).
    set (l := fresh _) in *. assert (userCtxs m !! l = None) as Hl by apply not_elem_of_dom, is_fresh.
    exists l. eexists. split; [reflexivity|]. split; [by apply add_fresh|].
    split; [unfold current; simpl; by rewrite Hv, lookup_insert_eq|].
    unfold current. rewrite Hk. done.
  - pose proof Hk as Hk'. unfold current in Hk'. rewrite Hk' in Hu. simpl in Hu. rewrite Hx in Hu.
    destruct Hu as (um & -> & Hok & Hv). rewrite insert_id in Hv by done.
    exists l. eexists. split; [reflexivity|]. split; [by apply add_existing|].
    split; [unfold current; simpl; by rewrite Hv|].
    unfold current. rewrite Hk'. split; [by intros l' [= <-]|done].
Qed.

(** The map is left alone: the entries and the heap that matter are kept. *)
Lemma users_inv_same m hs um :
  users_inv m hs -> cm_ok um -> cm_view um = cm_view (userCtxMap m) ->
  users_inv (set_users um (userCtxs m) m) hs.
Proof.
  intros [_ Hp Hlive Hheld Hb Hc] Hok Hv. split; simpl; try done; [by rewrite Hv|..].
  - intros k l. unfold current. simpl. rewrite Hv. apply Hlive.
  - intros k l Hin. unfold current. simpl. rewrite Hv. by apply Hheld.
Qed.

(** A connection that does not hold the user's current context leaves. *)
Lemma drop_stale m k l h1 h2 :
  users_inv m (h1 ++ (k, l) :: h2) -> ~ current m k l -> users_inv m (h1 ++ h2).
Proof.
  intros [Hok Hp Hlive Hheld Hb Hc] Hn. split; try done.
  - intros k' l' Hk'. destruct (Hlive k' l' Hk') as (x & Hx & ? & Hcx & ?). exists x.
    rewrite holds_remove, bool_decide_eq_false_2 in * by congruence. done.
  - intros k' l' Hin. apply Hheld. set_solver.
Qed.

(** Contexts with other pointers are not affected by a change of one. *)
Lemma held_other m k l h1 h2 k' l' :
  users_inv m (h1 ++ (k, l) :: h2) -> current m k l -> (k', l') ∈ h1 ++ h2 -> l' = l -> k' = k.
Proof.
  intros Hi Hk Hin ->. destruct (ui_held _ _ Hi k' l) as (x & _ & [Hc|[_ Hn]]); [set_solver| |].
  - by eapply current_inj.
  - by destruct (Hn k).
Qed.

Lemma delete_shared m k l x h1 h2 um :
  users_inv m (h1 ++ (k, l) :: h2) -> current m k l -> userCtxs m !! l = Some x ->
  (0 < holds k l (h1 ++ h2))%nat -> Z.of_nat (length (h1 ++ h2)) < 2 ^ 64 - 1 ->
  cm_ok um -> cm_view um = cm_view (userCtxMap m) ->
  users_inv (set_users um (<[l := mkCtx (cancelled x) (a x) (u64 (c x - 1))]> (userCtxs m)) m) (h1 ++ h2).
Proof.
  intros Hi Hk Hx Hpos Hlen Hok Hv. pose proof Hi as [_ [abs Hp] Hlive Hheld Hb Hc].
  assert (holds k l (h1 ++ h2) <= length (h1 ++ h2))%nat as Hle by apply length_filter.
  split; simpl; try done.
  - rewrite Hv. eexists. by eapply ptr_update.
  - intros k' l' Hk'. unfold current in Hk'. simpl in Hk'. rewrite Hv in Hk'.
    destruct (Hlive k' l' Hk') as (x' & Hx' & Hcx & Hcc & Hp'). rewrite holds_remove in Hcc, Hp'.
    destruct (decide (l' = l)) as [->|Hne].
    + assert (k' = k) as -> by by eapply current_inj. assert (x' = x) as -> by congruence.
      rewrite bool_decide_eq_true_2 in Hcc by done.
      eexists. rewrite lookup_insert_eq. split; [done|]. split; [done|]. split; [|done].
      cbn [c]. rewrite Hcc, u64_small by lia. lia.
    + rewrite bool_decide_eq_false_2 in Hcc, Hp' by congruence.
      exists x'. by rewrite lookup_insert_ne.
  - intros k' l' Hin. unfold current. simpl. rewrite Hv. fold (current m k' l').
    destruct (Hheld k' l' ltac:(set_solver)) as (x' & Hx' & Hor).
    destruct (decide (l' = l)) as [->|Hne]; [|exists x'; by rewrite lookup_insert_ne].
    assert (x' = x) as -> by congruence. eexists. rewrite lookup_insert_eq. done.
  - intros l' x'. rewrite lookup_insert_Some. intros [[<- <-]|[_ ?]]; [by apply (Hb l x)|by eapply Hb].
Qed.

(** Removing the user's entry and cancelling its context, with [hs'] the
    holders that remain. *)
Lemma cancel_entry m hs hs' k l x n um :
  users_inv m hs -> current m k l -> userCtxs m !! l = Some x ->
  (forall y, y ∈ hs' -> y ∈ hs) -> (forall k' l', l' <> l -> holds k' l' hs' = holds k' l' hs) ->
  cm_ok um -> cm_view um = delete k (cm_view (userCtxMap m)) ->
  users_inv (set_users um (<[l := mkCtx true (a x) n]> (userCtxs m)) m) hs'.
Proof.
  intros Hi Hk Hx Hsub Hcnt Hok Hv. pose proof Hi as [_ [abs Hp] Hlive Hheld Hb Hc].
  assert (forall k', cm_view um !! k' <> Some (Some l)) as Hgone.
  { intros k'. rewrite Hv, lookup_delete_Some. intros [Hne Hk'].
    apply Hne. symmetry. by eapply current_inj. }
  split; simpl; try done.
  - rewrite Hv. eexists. apply ptr_frame; [by apply ptr_delete|]. intros k'. rewrite <- Hv. apply Hgone.
  - intros k' l' Hk'. unfold current in Hk'. simpl in Hk'.
    assert (l' <> l) as Hne by (intros ->; by apply (Hgone k')).
    rewrite Hv, lookup_delete_Some in Hk'. destruct Hk' as [_ Hk'].
    destruct (Hlive k' l' Hk') as (x' & Hx' & ?). exists x'. rewrite lookup_insert_ne, Hcnt by done. done.
  - intros k' l' Hin. destruct (Hheld k' l' (Hsub _ Hin)) as (x' & Hx' & Hor).
    destruct (decide (l' = l)) as [->|Hne].
    + eexists. rewrite lookup_insert_eq. split; [done|]. right. split; [done|]. intros k2. apply Hgone.
    + exists x'. rewrite lookup_insert_ne by done. split; [done|]. unfold current. simpl. rewrite Hv.
      destruct Hor as [Hor|[? Hor]].
      * left. rewrite lookup_delete_Some. split; [|done]. intros <-. unfold current in *. congruence.
      * right. split; [done|]. intros k2. rewrite lookup_delete_Some. intros [_ ?]. by apply (Hor k2).
  - intros l' x'. rewrite lookup_insert_Some. intros [[<- <-]|[_ ?]]; [by apply (Hb l x)|by eapply Hb].
Qed.

Lemma deleteUserConnection_inv k l m h1 h2 :
  users_inv m (h1 ++ (k, l) :: h2) -> Z.of_nat (length (h1 ++ h2)) < 2 ^ 64 - 1 ->
  exists m', deleteUserConnection k (Some l) m = Ret m' /\ users_inv m' (h1 ++ h2).
Proof.
  intros Hi Hlen. unfold deleteUserConnection.
  pose proof (cm_RemoveCb_spec _ k (delete_user_cb (Some l)) _ (Ret (userCtxs m)) (ui_ok _ _ Hi)) as Hu.
  cbv zeta in Hu. destruct (current_cases _ _ k Hi) as [Hk|(l' & x & Hk & Hx)].
  - rewrite Hk in Hu. simpl in Hu. destruct Hu as (um & -> & Hok & Hv). eexists. split; [reflexivity|].
    apply users_inv_same; [|done|by rewrite Hv, delete_id].
    eapply drop_stale; [done|]. unfold current. by rewrite Hk.
  - pose proof Hk as Hk'. unfold current in Hk'. rewrite Hk' in Hu. simpl in Hu.
    case_bool_decide as Hll; cbn [negb] in Hu; last first.
    { destruct Hu as (um & -> & Hok & Hv). eexists. split; [reflexivity|].
      apply users_inv_same; [|done..]. eapply drop_stale; [done|]. unfold current. congruence. }
    injection Hll as ->. rewrite Hx in Hu.
    destruct (ui_live _ _ Hi k l Hk) as (x' & Hx' & Hcx & Hcc & Hpos).
    assert (x' = x) as -> by congruence. rewrite holds_remove, bool_decide_eq_true_2 in Hcc by done.
    assert (holds k l (h1 ++ h2) <= length (h1 ++ h2))%nat as Hle by apply length_filter.
    destruct (u64 (c x - 1) =? 0) eqn:E0; destruct Hu as (um & -> & Hok & Hv);
      (eexists; split; [reflexivity|]); rewrite u64_small in E0 by lia; to_prop.
    + eapply cancel_entry; [done..| | |done|done].
      * intros y. set_solver.
      * intros k2 l2 Hne. by rewrite holds_remove, bool_decide_eq_false_2 by congruence.
    + apply (delete_shared m k l x h1 h2); try done. lia.
Qed.

Lemma CloseUserConnections_inv k m hs :
  users_inv m hs ->
  exists e m', CloseUserConnections k m = Ret (e, m') /\ users_inv m' hs /\
    (forall l, ~ current m' k l) /\
    (forall l, userCtxs m' !! l = if decide (current m k l)
       then (fun x => mkCtx true (a x) (c x)) <$> (userCtxs m !! l) else userCtxs m !! l) /\
    (e = None <-> exists l, current m k l).
Proof.
  intros Hi. unfold CloseUserConnections.
  destruct (cm_Pop_spec k _ (ui_ok _ _ Hi)) as (um & -> & Hok & Hv). cbn [mbind outcome_bind].
  assert (forall l, cm_view um !! k <> Some (Some l)) as Hgone by (intros l; by rewrite Hv, lookup_delete_eq).
  destruct (current_cases _ _ k Hi) as [Hk|(l & x & Hk & Hx)].
  - rewrite Hk. simpl. eexists _, _. split; [reflexivity|].
    split; [apply users_inv_same; [done..|by rewrite Hv, delete_id]|]. split; [done|]. split.
    + intros l. rewrite decide_False; [done|]. unfold current. by rewrite Hk.
    + split; [done|]. intros [l Hl]. unfold current in Hl. congruence.
  - pose proof Hk as Hk'. unfold current in Hk'. rewrite Hk'. cbn [default id]. unfold id.
    rewrite bool_decide_eq_true_2 by eauto. rewrite Hx. eexists _, _. split; [reflexivity|].
    split; [by eapply cancel_entry|]. split; [done|]. split; [|by split; eauto].
    intros l'. simpl. case_decide as Hd.
    + assert (l' = l) as -> by (unfold current in Hd; congruence). by rewrite lookup_insert_eq, Hx.
    + rewrite lookup_insert_ne; [done|]. intros <-. done.
Qed.

(** *** New rates reach every user *)

Lemma update_actions_spec conf out (h : gmap loc connContext) :
  NoDup out.*2 -> (forall k v, (k, v) ∈ out -> exists l x, v = Some l /\ h !! l = Some x) ->
  exists h', update_actions conf out h = Ret h' /\
    forall l, h' !! l = if decide (Some l ∈ out.*2) then with_rates conf <$> (h !! l) else h !! l.
Proof.
  revert h. induction out as [|[k v] out IH]; intros h Hnd Hv; simpl.
  { exists h. done. }
  apply NoDup_cons in Hnd as [Hni Hnd].
  destruct (Hv k v) as (l & x & -> & Hx); [set_solver|]. rewrite Hx.
  destruct (IH (<[l := with_rates conf x]> h)) as (h' & -> & Hh'); [done| |].
  { intros k' v' Hin. destruct (Hv k' v') as (l' & x' & -> & Hx'); [set_solver|]. exists l'.
    destruct (decide (l' = l)) as [->|Hne].
    - exists (with_rates conf x). by rewrite lookup_insert_eq.
    - exists x'. by rewrite lookup_insert_ne. }
  exists h'. split; [done|]. intros l'. rewrite Hh'. destruct (decide (l' = l)) as [->|Hne].
  - simpl in Hni. rewrite decide_False, decide_True by set_solver.
    by rewrite lookup_insert_eq, Hx.
  - rewrite lookup_insert_ne by done.
    destruct (decide (Some l' ∈ out.*2)) as [Hin|Hin]; [rewrite decide_True|rewrite decide_False]; set_solver.
Qed.

(** The pointers of the map, in any order of iteration. *)
Lemma iter_pointers m hs out :
  users_inv m hs -> out ≡ₚ map_to_list (cm_view (userCtxMap m)) ->
  NoDup out.*2 /\
  (forall k v, (k, v) ∈ out -> exists l x, v = Some l /\ userCtxs m !! l = Some x) /\
  (forall l, Some l ∈ out.*2 <-> exists k, current m k l).
Proof.
  intros Hi Hp. pose proof Hi as [_ [abs Hptr] _ _ _ _].
  assert (forall k v, (k, v) ∈ out <-> cm_view (userCtxMap m) !! k = Some v) as Hin.
  { intros k v. rewrite Hp. apply elem_of_map_to_list. }
  split_and!.
  - apply NoDup_fmap_2_strong; [|rewrite Hp; apply NoDup_map_to_list].
    intros [k v] [k' v'] E1%Hin E2%Hin Hvv. simpl in Hvv. subst v'.
    destruct (ptr_lookup _ _ _ k Hptr) as [[E _]|(l & x & E & _)]; [congruence|].
    assert (k' = k) as ->; [|done]. apply (current_inj m hs k' k l); unfold current; congruence.
  - intros k v Hkv%Hin. destruct (ptr_lookup _ _ _ k Hptr) as [[E _]|(l & x & E & Hx & _)]; [congruence|].
    exists l, x. split; [congruence|done].
  - intros l. rewrite list_elem_of_fmap. split.
    + intros ([k v] & Hv & Hkv%Hin). simpl in Hv. subst v. by exists k.
    + intros [k Hk]. exists (k, Some l). split; [done|]. by apply Hin.
Qed.

(** The update replaces the parameters of the contexts in the map and changes
    nothing else. *)
Lemma update_inv conf m hs r :
  users_inv m hs -> conf_ok conf -> updateLimitedReaderAction (setNacosConf conf m) r ->
  exists m', r = Ret m' /\ users_inv m' hs /\ nacosConfig m' = conf /\
    (forall k l, current m' k l <-> current m k l) /\
    forall l x, userCtxs m !! l = Some x ->
      (forall k, current m k l -> userCtxs m' !! l = Some (with_rates conf x)) /\
      ((forall k, ~ current m k l) -> userCtxs m' !! l = Some x).
Proof.
  intros Hi Hconf (out & Hit & ->). pose proof Hi as [Hok [abs Hp] Hlive Hheld Hb _].
  apply cm_iter_spec in Hit; [|done]. destruct (iter_pointers m hs out Hi Hit) as (Hnd & Hv & Hcur).
  destruct (update_actions_spec conf out (userCtxs m) Hnd Hv) as (h' & E & Hh'). simpl.
  rewrite E. simpl. eexists. split; [reflexivity|].
  assert (forall l x, userCtxs m !! l = Some x ->
      (forall k, current m k l -> h' !! l = Some (with_rates conf x)) /\
      ((forall k, ~ current m k l) -> h' !! l = Some x)) as Heap.
  { intros l x Hx. rewrite Hh', Hx. split.
    - intros k Hk. rewrite decide_True; [done|]. apply Hcur. eauto.
    - intros Hn. rewrite decide_False; [done|]. rewrite Hcur. intros [k Hk]. by apply (Hn k). }
  split; [|done].
  assert (forall l x', h' !! l = Some x' -> exists x, userCtxs m !! l = Some x /\
    (x' = x \/ x' = with_rates conf x)) as Hback.
  { intros l x' Hx'. rewrite Hh' in Hx'. case_decide; [|eauto].
    destruct (userCtxs m !! l) as [x|]; [|done]. simpl in Hx'. simplify_eq. eauto. }
  split; simpl; try done.
  - exists (with_rates conf <$> abs). split; [|apply Hp]. intros k.
    destruct (ptr_lookup _ _ _ k Hp) as [[E1 E2]|(l & x & E1 & Hx & E2)]; rewrite E1.
    + by rewrite lookup_fmap, E2.
    + exists (with_rates conf x). rewrite lookup_fmap, E2. split; [|done]. by apply (Heap l x Hx) with k.
  - intros k l Hk. destruct (Hlive k l Hk) as (x & Hx & ? & ? & ?).
    exists (with_rates conf x). split; [by apply (Heap l x Hx) with k|]. done.
  - intros k l Hin. destruct (Hheld k l Hin) as (x & Hx & [Hk|[Hc Hn]]).
    + exists (with_rates conf x). split; [by apply (Heap l x Hx) with k|]. by left.
    + exists x. split; [by apply (Heap l x Hx)|]. by right.
  - intros l x' Hx'. destruct (Hback l x' Hx') as (x & Hx & [->| ->]); [by eapply Hb|].
    destruct Hconf. apply update_action_ok; [done..|]. by eapply Hb.
Qed.

(** *** Histories *)

(** The server with the contexts its connections hold: a connection takes the
    user's context when it starts and gives it back once when it ends; a user
    may be disconnected and the configuration replaced at any time. *)
Inductive user_step : manager M1 M2 * list (string * loc) -> manager M1 M2 * list (string * loc) -> Prop :=
| user_start m hs now k l m' :
    addUserConnection now k m = Ret (Some l, m') -> user_step (m, hs) (m', (k, l) :: hs)
| user_end m h1 k l h2 m' :
    deleteUserConnection k (Some l) m = Ret m' -> user_step (m, h1 ++ (k, l) :: h2) (m', h1 ++ h2)
| user_kick m hs k e m' :
    CloseUserConnections k m = Ret (e, m') -> user_step (m, hs) (m', hs)
| user_config m hs conf m' :
    conf_ok conf -> nacos_event (Ok conf) m (Ret m') -> user_step (m, hs) (m', hs).

Inductive user_reach (m0 : manager M1 M2) : nat -> manager M1 M2 * list (string * loc) -> Prop :=
| user_0 : user_reach m0 0 (m0, [])
| user_S n s s' : user_reach m0 n s -> user_step s s' -> user_reach m0 (S n) s'.

(** A server that serves nobody. *)
Definition idle m : Prop :=
  cm_ok (userCtxMap m) /\ cm_view (userCtxMap m) = ∅ /\ userCtxs m = ∅ /\ conf_ok (nacosConfig m).

Lemma idle_inv m : idle m -> users_inv m [].
Proof.
  intros (Hok & Hv & Hh & Hc). split; try done.
  - rewrite Hv. exists ∅. apply ptr_empty.
  - intros k l. unfold current. by rewrite Hv, lookup_empty.
  - set_solver.
  - intros l x. by rewrite Hh, lookup_empty.
Qed.

Lemma user_step_inv n s s' :
  Z.of_nat n < 2 ^ 64 - 1 -> user_step s s' -> (length s.2 <= n)%nat -> users_inv s.1 s.2 ->
  (length s'.2 <= S n)%nat /\ users_inv s'.1 s'.2.
Proof.
  intros Hn Hs Hl Hi. inversion Hs as [m hs now k l m' E|m h1 k l h2 m' E|m hs k e m' E|m hs conf m' Hc E];
    subst; simpl in *.
  - destruct (addUserConnection_inv now k m hs Hi ltac:(lia)) as (l1 & m1 & E1 & Hi1 & _).
    rewrite E1 in E. simplify_eq. split; [lia|done].
  - rewrite !length_app in *. simpl in *.
    destruct (deleteUserConnection_inv k l m h1 h2 Hi) as (m1 & E1 & Hi1); [rewrite length_app; lia|].
    rewrite E1 in E. simplify_eq. split; [lia|done].
  - destruct (CloseUserConnections_inv k m hs Hi) as (e1 & m1 & E1 & Hi1 & _).
    rewrite E1 in E. simplify_eq. split; [lia|done].
  - destruct (update_inv conf m hs _ Hi Hc E) as (m1 & [= <-] & Hi1 & _). split; [lia|done].
Qed.

Lemma user_reach_inv m0 n s :
  idle m0 -> user_reach m0 n s -> Z.of_nat n < 2 ^ 64 - 1 ->
  (length s.2 <= n)%nat /\ users_inv s.1 s.2.
Proof.
  intros Hm0 Hr. induction Hr as [|n s s' _ IH Hs]; intros Hn.
  - split; [simpl; lia|by apply idle_inv].
  - destruct IH as [? ?]; [lia|]. by eapply user_step_inv; [|done|..]; [lia|..].
Qed.

(** C23. Contexts and connections stay in step: after any history of
    connections starting and ending, users being disconnected and new
    configurations, a connection's context is cancelled exactly when it is no
    longer its user's current one, every context in the table is live and
    counts its connections exactly, and starting or ending a connection does
    not panic. *)
Theorem user_contexts_in_step m0 n m hs :
  idle m0 -> user_reach m0 n (m, hs) -> Z.of_nat n < 2 ^ 64 - 1 ->
  (forall k l, (k, l) ∈ hs -> exists x, userCtxs m !! l = Some x /\
     (cancelled x = false <-> current m k l)) /\
  (forall k l, current m k l -> exists x, userCtxs m !! l = Some x /\ cancelled x = false /\
     action_ok (a x) /\ c x = Z.of_nat (holds k l hs) /\ (0 < holds k l hs)%nat) /\
  (forall now k, exists l m', addUserConnection now k m = Ret (Some l, m')) /\
  (forall k l, (k, l) ∈ hs -> exists m', deleteUserConnection k (Some l) m = Ret m').
Proof.
  intros Hm0 Hr Hn. destruct (user_reach_inv _ _ _ Hm0 Hr Hn) as [Hl Hi]. simpl in *.
  pose proof Hi as [_ _ Hlive Hheld Hb _]. split_and!.
  - intros k l Hin. destruct (Hheld k l Hin) as (x & Hx & [Hk|[Hc Hno]]); exists x; (split; [done|]).
    + destruct (Hlive k l Hk) as (x' & Hx' & Hc & _). assert (x' = x) as -> by congruence. done.
    + split; [congruence|]. intros Hk. by destruct (Hno k).
  - intros k l Hk. destruct (Hlive k l Hk) as (x & Hx & ? & ? & ?). exists x. eauto 10.
  - intros now k. destruct (addUserConnection_inv now k m hs Hi ltac:(lia)) as (l & m' & E & _). eauto.
  - intros k l Hin. apply list_elem_of_split in Hin as (h1 & h2 & ->).
    destruct (deleteUserConnection_inv k l m h1 h2 Hi) as (m' & E & _); [|eauto].
    rewrite !length_app in *. simpl in *. lia.
Qed.

(** Disconnecting a user cancels the contexts of all its connections and
    of nobody else: [CloseUserConnections k] does not panic, reports an error
    exactly when the user has no current context, cancels the context of every
    connection of [k], leaves the other contexts as they are, and the next
    connection of [k] gets a fresh context that none of the old ones holds. *)
Theorem disconnect_cancels_user m0 n m hs k :
  idle m0 -> user_reach m0 n (m, hs) -> Z.of_nat n < 2 ^ 64 - 1 ->
  exists e m', CloseUserConnections k m = Ret (e, m') /\
    (e = None <-> exists l, current m k l) /\
    (forall l, (k, l) ∈ hs -> exists x, userCtxs m' !! l = Some x /\ cancelled x = true) /\
    (forall l, ~ current m k l -> userCtxs m' !! l = userCtxs m !! l) /\
    (forall now, exists l m'', addUserConnection now k m' = Ret (Some l, m'') /\
       forall k', (k', l) ∉ hs).
Proof.
  intros Hm0 Hr Hn. destruct (user_reach_inv _ _ _ Hm0 Hr Hn) as [Hl Hi]. simpl in *.
  destruct (CloseUserConnections_inv k m hs Hi) as (e & m' & E & Hi' & Hgone & Hheap & He).
  exists e, m'. split; [done|]. split; [done|]. split_and!.
  - intros l Hin. destruct (ui_held _ _ Hi' k l Hin) as (x & Hx & [Hk|[Hc _]]); [|eauto].
    by destruct (Hgone l).
  - intros l Hk. by rewrite Hheap, decide_False.
  - intros now. destruct (addUserConnection_inv now k m' hs Hi' ltac:(lia))
      as (l & m'' & E' & _ & _ & _ & Hnew). exists l, m''. split; [done|]. intros k' Hin.
    destruct (ui_held _ _ Hi' k' l Hin) as (x & Hx & _). rewrite Hnew in Hx; [done|].
    destruct (current_cases _ _ k Hi') as [?|(l' & x' & Hk & _)]; [done|by destruct (Hgone l')].
Qed.

End users.

(** ** Blacklist and configuration *)
Section config.
Context {M1 M2 : Type}.
Context `{CMapOps string (option loc) M1} `{CMapOps string (option loc) M2}.
Implicit Types (m : manager M1 M2).

Definition substring_of (sub s : string) : Prop := exists u v, s = u +:+ sub +:+ v.

Lemma Contains_false s sub : Contains s sub = false <-> ~ substring_of sub s.
Proof. rewrite <- not_true_iff_false, Contains_spec. done. Qed.

(** The blacklist blocks a destination exactly when one of its entries
    occurs in it as a substring, and reports the first such entry; the list is
    replaced as a whole, and before the first one nothing is blocked. *)
Theorem blacklist_exact d bm m v b :
  IsInBlacklist d (SetBlackMap bm m) = (v, b) <->
  (b = true /\ exists l1 l2, bm = l1 ++ v :: l2 /\ substring_of v d /\
     Forall (fun u => ~ substring_of u d) l1) \/
  (b = false /\ v = EmptyString /\ Forall (fun u => ~ substring_of u d) bm).
Proof.
  unfold IsInBlacklist, SetBlackMap. simpl. induction bm as [|u bm IH]; simpl.
  { split; [intros [= <- <-]; right; by split_and!|].
    intros [(_ & [|] & l2 & ? & _)|(-> & -> & _)]; done. }
  destruct (Contains d u) eqn:E.
  - apply Contains_spec in E. split.
    + intros [= <- <-]. left. split; [done|]. exists [], bm. split_and!; [done..|constructor].
    + intros [(-> & [|u' l1] & l2 & [= <- ->] & ? & Hf)|(_ & _ & Hf)]; [done|..].
      * by apply Forall_cons_1 in Hf as [Hn _].
      * by apply Forall_cons_1 in Hf as [Hn _].
  - apply Contains_false in E. rewrite IH. split.
    + intros [(-> & l1 & l2 & -> & ? & ?)|(-> & -> & ?)]; [left|right].
      * split; [done|]. exists (u :: l1), l2. split_and!; [done..|by constructor].
      * split_and!; [done..|by constructor].
    + intros [(-> & [|u' l1] & l2 & [= -> ->] & ? & Hf)|(-> & -> & Hf)]; [done|left|right].
      * apply Forall_cons_1 in Hf as [_ Hf]. eauto 10.
      * by apply Forall_cons_1 in Hf as [_ Hf].
Qed.

(** The server always has a configuration: after [initNacosConf] it is the
    remote one if every step of the exchange succeeded, and the built-in one
    otherwise, in which case, and only then, an alarm is sent; a panic of the
    client library counts as a failure. *)
Theorem init_config_total v m :
  let '(alarm, m') := initNacosConf v m in
  (alarm = false /\ exists conf, nacosConfig m' = conf /\ Unmarshal v = Ret (Ok conf) /\
     AddRemoteProvider v = Ret None /\ ReadRemoteConfig v = Ret None /\
     WatchRemoteConfigOnChannel v = Ret None /\ WatchRemoteConfig v = Ret None) \/
  (alarm = true /\ nacosConfig m' = default_conf /\
   ~ (AddRemoteProvider v = Ret None /\ ReadRemoteConfig v = Ret None /\
      WatchRemoteConfigOnChannel v = Ret None /\ WatchRemoteConfig v = Ret None /\
      exists conf, Unmarshal v = Ret (Ok conf))).
Proof.
  unfold initNacosConf, tryInitNacosConf.
  destruct (AddRemoteProvider v) as [[|]|], (ReadRemoteConfig v) as [[|]|],
    (WatchRemoteConfigOnChannel v) as [[|]|], (WatchRemoteConfig v) as [[|]|],
    (Unmarshal v) as [[conf|]|]; simpl; try (right; split_and!; [done..|]; intros (?&?&?&?&?&?); done).
  left. eauto 10.
Qed.
End config.

(** ** Witnesses, with the sharded map *)
Abbreviation smap := (ConcurrentMap string (option loc)).
#[local] Instance smap_ops : CMapOps string (option loc) smap := sharded_ops None.
#[local] Instance smap_cmap : CMap string (option loc) smap None := sharded_cmap None.

Definition manager0 : manager smap smap :=
  mkManager (New _) ∅ (New _) ∅ (mkConf [] 1000 8000 2 0 []) None.

Lemma manager0_ip : ip_repr manager0 ∅.
Proof.
  destruct (create_ok (K := string) (V := option loc) fnv32) as [Hok Hc]. split; [exact Hok|].
  change (ptr_repr (content (create (K := string) (V := option loc) fnv32)) ∅ (∅ : gmap string Z)).
  rewrite Hc. apply ptr_empty.
Qed.

Lemma manager0_idle : idle manager0.
Proof.
  destruct (create_ok (K := string) (V := option loc) fnv32) as [Hok Hc].
  split_and!; [exact Hok|exact Hc|done|].
  split; unfold in_signed; simpl; lia.
Qed.

Definition one_more (m : manager smap smap) : manager smap smap :=
  match AddIpConnCount "10.0.0.1" m with Ret (_, m') => m' | Panic => m end.

Lemma one_more_spec (m : manager smap smap) cnt :
  ip_repr m cnt -> counts_small cnt ->
  AddIpConnCount "10.0.0.1" m =
    Ret ((spec_add (OneIpMaxConn (nacosConfig m)) "10.0.0.1" cnt).1, one_more m) /\
  ip_repr (one_more m) (spec_add (OneIpMaxConn (nacosConfig m)) "10.0.0.1" cnt).2 /\
  rest_of (one_more m) = rest_of m.
Proof.
  intros Hr Hs. destruct (AddIpConnCount_spec "10.0.0.1" m cnt Hr Hs) as (m' & E & ?).
  unfold one_more. rewrite E. done.
Qed.

Lemma ip_counters_exact_witness :
  exists m', AddIpConnCount "10.0.0.1" (one_more (one_more manager0)) = Ret ((false, 2), m').
Proof.
  assert (counts_small ∅ /\ counts_small {["10.0.0.1" := 1]}) as [Hs0 Hs1].
  { split; intros ip n; [by rewrite lookup_empty|]. rewrite lookup_singleton_Some. intros [_ <-]. lia. }
  destruct (one_more_spec manager0 ∅ manager0_ip Hs0) as (E1 & Hr1 & Hf1).
  destruct (one_more_spec _ _ Hr1 Hs1) as (E2 & _ & Hf2).
  assert (nacosConfig (one_more manager0) = nacosConfig manager0) as Hc1
    by (unfold rest_of in Hf1; congruence).
  assert (nacosConfig (one_more (one_more manager0)) = nacosConfig manager0) as Hc2
    by (unfold rest_of in Hf2; congruence).
  rewrite Hc1 in E2.
  assert (conn_reach manager0 2 (one_more (one_more manager0), ["10.0.0.1"; "10.0.0.1"])) as Hr.
  { eapply conn_more; [eapply conn_more; [apply conn_start|eapply conn_accept; exact E1]|].
    eapply conn_accept. exact E2. }
  destruct (ip_counters_exact manager0 2 _ _ "10.0.0.1" manager0_ip Hr ltac:(lia))
    as (_ & ok & k & m' & E & Hk & Hlim). rewrite Hc2 in Hlim.
  destruct ok; [|change (k = 2) in Hk; subst k; exists m'; exact E].
  exfalso. assert (k <= 2) by (apply Hlim; reflexivity). change (k = 3) in Hk. lia.
Defined.

(** Two connections of one user. *)
Definition bob_again (m : manager smap smap) : manager smap smap :=
  match addUserConnection 7 "bob" m with Ret (_, m') => m' | Panic => m end.
Definition bob_twice : manager smap smap := bob_again (bob_again manager0).

Lemma bob_twice_reached :
  exists l, user_reach manager0 2 (bob_twice, [("bob", l); ("bob", l)]).
Proof.
  destruct (addUserConnection_inv 7 "bob" manager0 [] (idle_inv _ manager0_idle) ltac:(simpl; lia))
    as (l & m1 & E1 & Hi1 & Hcur & _).
  destruct (addUserConnection_inv 7 "bob" m1 [("bob", l)] Hi1 ltac:(simpl; lia))
    as (l2 & m2 & E2 & _ & _ & Hsame & _).
  rewrite (Hsame l Hcur) in E2. exists l. unfold bob_twice, bob_again. rewrite E1, E2.
  eapply user_S; [eapply user_S; [apply user_0|eapply user_start; exact E1]|].
  eapply user_start. exact E2.
Qed.

Lemma user_contexts_in_step_witness :
  exists l x, userCtxs bob_twice !! l = Some x /\ (cancelled x = false <-> current bob_twice "bob" l).
Proof.
  destruct bob_twice_reached as [l Hr]. exists l.
  destruct (user_contexts_in_step manager0 2 bob_twice _ manager0_idle Hr ltac:(lia)) as (Hh & _).
  apply (Hh "bob"). constructor.
Defined.

Lemma disconnect_cancels_user_witness :
  exists l e m', CloseUserConnections "bob" bob_twice = Ret (e, m') /\
    exists x, userCtxs m' !! l = Some x /\ cancelled x = true.
Proof.
  destruct bob_twice_reached as [l Hr]. exists l.
  destruct (disconnect_cancels_user manager0 2 bob_twice _ "bob" manager0_idle Hr ltac:(lia))
    as (e & m' & E & _ & Hc & _). exists e, m'. split; [exact E|]. apply Hc. constructor.
Defined.

