(* ===== verification/Redis.v ===== *)
(** * The contract of Redis and its client

    Redis is a service: the consumers of account events use it through the
    class [RedisOps] and rely on the behaviour stated in [Redis]. Every call
    may fail, and a call that reports an error may still have been executed,
    in whole or in part, when only the answer was lost. The file ends with a
    reference instance whose network fails on demand. *)
From stdpp Require Import base gmap strings numbers list.
From S2P Require Import Prelude GoIO.

(** The commands that change Redis; the keys never expire ([Set] with 0). *)
Inductive cmd :=
| SET (k v : string)
| DEL (k : string)
| SADD (k v : string).

(** [r_exec] runs a pipeline; a single command is a pipeline of one. *)
Class RedisOps (R : Type) := {
  r_Get : string -> R -> result error string * R;
  r_exec : list cmd -> R -> option error * R
}.

(** What a pipeline does to the keys that hold strings. *)
Definition cmd_apply (g : gmap string string) (c : cmd) : gmap string string :=
  match c with
  | SET k v => <[k := v]> g
  | DEL k => delete k g
  | SADD _ _ => g
  end.
Definition pipeline (cmds : list cmd) (g : gmap string string) : gmap string string :=
  fold_left cmd_apply cmds g.

Class Redis (R : Type) `{RedisOps R} := {
  r_view : R -> gmap string string;
  r_Get_spec : forall k r, r_view (r_Get k r).2 = r_view r /\
    forall v, (r_Get k r).1 = Ok v -> r_view r !! k = Some v;
  r_exec_spec : forall cmds r, match r_exec cmds r with
    | (None, r') => r_view r' = pipeline cmds (r_view r)
    | (Some _, r') => exists n, r_view r' = pipeline (take n cmds) (r_view r)
    end
}.

(** The last write of a pipeline to a key, if any. *)
Fixpoint last_write (k : string) (cmds : list cmd) : option (option string) :=
  match cmds with
  | [] => None
  | c :: cmds' =>
      match last_write k cmds' with
      | Some w => Some w
      | None =>
          match c with
          | SET k' v => if bool_decide (k' = k) then Some (Some v) else None
          | DEL k' => if bool_decide (k' = k) then Some None else None
          | SADD _ _ => None
          end
      end
  end.

Lemma pipeline_lookup cmds g k :
  pipeline cmds g !! k = match last_write k cmds with Some w => w | None => g !! k end.
Proof.
  revert g. induction cmds as [|c cmds IH]; intros g; [done|]. simpl. unfold pipeline in *. simpl.
  rewrite IH. destruct (last_write k cmds); [done|].
  destruct c as [k' v|k'|k' v]; simpl; [| |done]; case_bool_decide as E; subst.
  - by rewrite lookup_insert_eq.
  - by rewrite lookup_insert_ne.
  - by rewrite lookup_delete_eq.
  - by rewrite lookup_delete_ne.
Qed.

Lemma last_write_take k cmds n : last_write k cmds = None -> last_write k (take n cmds) = None.
Proof.
  revert n. induction cmds as [|c cmds IH]; intros [|n]; simpl; [done..|].
  destruct (last_write k cmds); [done|]. intros Hc. by rewrite IH.
Qed.

(** A pipeline absorbs what a part of it did before. *)
Lemma pipeline_absorb cmds n g : pipeline cmds (pipeline (take n cmds) g) = pipeline cmds g.
Proof.
  apply map_eq. intros k. rewrite !pipeline_lookup.
  destruct (last_write k cmds) eqn:E; [done|]. by rewrite last_write_take.
Qed.

(** ** A reference instance: a table and the faults still to come *)

(** [Broken n e]: the call reports [e] after [n] commands were executed. *)
Inductive net := Up | Broken (n : nat) (e : error).
Record ref_redis := mkRef { table : gmap string string; faults : list net }.

Definition next_fault (r : ref_redis) : net * list net :=
  match faults r with [] => (Up, []) | f :: fs => (f, fs) end.

#[global] Instance ref_redis_ops : RedisOps ref_redis := {|
  r_Get k r :=
    let '(f, fs) := next_fault r in
    (match f with
     | Up => match table r !! k with Some v => Ok v | None => Err (Errorf "redis: nil") end
     | Broken _ e => Err e
     end, mkRef (table r) fs);
  r_exec cmds r :=
    let '(f, fs) := next_fault r in
    match f with
    | Up => (None, mkRef (pipeline cmds (table r)) fs)
    | Broken n e => (Some e, mkRef (pipeline (take n cmds) (table r)) fs)
    end
|}.

#[global] Program Instance ref_redis_ok : Redis ref_redis := {| r_view := table |}.
Next Obligation.
  intros k r. simpl. destruct (next_fault r) as [[|n e] fs]; simpl; (split; [done|]); [|done].
  intros v. by destruct (table r !! k) as [v'|]; intros [= <-].
Qed.
Next Obligation.
  intros cmds r. simpl. destruct (next_fault r) as [[|n e] fs]; simpl; [done|]. by exists n.
Qed.
