(* ===== verification/Lua.v ===== *)
(** * The Lua scripts for Redis ([server/lua/])

    Two scripts that store an account and the set of its addresses: one
    replaces the set, the other extends it. The commands of Redis are the class
    [RedisCommands]. A script ends at the first command that fails, and what it
    did before stays. Nothing in the program loads or sends them any more. *)
From stdpp Require Import base gmap strings numbers list sets.
From S2P Require Import Prelude GoIO.

Inductive rvalue := RString (v : string) | RSet (ms : gset string).
Inductive command := CSet (k v : string) | CDel (k : string) | CSadd (k : string) (ms : list string).

Class RedisCommands (R : Type) := {
  view : R -> gmap string rvalue;
  rcall : command -> R -> option error * R;
  rcall_set k v r : (rcall (CSet k v) r).1 = None /\ view (rcall (CSet k v) r).2 = <[k := RString v]> (view r);
  rcall_del k r : (rcall (CDel k) r).1 = None /\ view (rcall (CDel k) r).2 = delete k (view r);
  (** a wrong number of arguments, or a key of another type, is an error *)
  rcall_sadd_fails k ms r :
    ms = [] \/ (exists v, view r !! k = Some (RString v)) ->
    is_Some (rcall (CSadd k ms) r).1 /\ view (rcall (CSadd k ms) r).2 = view r;
  rcall_sadd k ms old r :
    ms <> [] -> (view r !! k = None /\ old = ∅ \/ view r !! k = Some (RSet old)) ->
    (rcall (CSadd k ms) r).1 = None /\
    view (rcall (CSadd k ms) r).2 = <[k := RSet (old ∪ list_to_set ms)]> (view r)
}.

Section scripts.
Context {R : Type} `{RedisCommands R}.

(** [redis.call] raises an error; the value of the script is 1. *)
Fixpoint run_script (cs : list command) (r : R) : result error Z * R :=
  match cs with
  | [] => (Ok 1, r)
  | c :: cs' =>
      match rcall c r with
      | (Some e, r') => (Err e, r')
      | (None, r') => run_script cs' r'
      end
  end.

(** [ARGV] is the value and then the members. *)
Definition SetUserDataLuaScript (stringKey setKey stringValue : string) (setMembers : list string) : list command :=
  [CSet stringKey stringValue; CDel setKey; CSadd setKey setMembers].
Definition AddUserDataLuaScript (stringKey setKey stringValue : string) (setMembers : list string) : list command :=
  [CSet stringKey stringValue; CSadd setKey setMembers].

(** [SetUserDataLuaScriptShaCode] and [AddUserDataLuaScriptShaCode]: the answer
    of [SCRIPT LOAD], or a panic. *)
Definition ShaCode (loaded : result error string) : outcome string :=
  match loaded with Ok sha => Ret sha | Err _ => Panic end.

(** What the scripts do: with members and keys of their own, the account is
    stored and its set is exactly the members, or the old set with them;
    without members both fail after the account was stored, and the first has
    then deleted the set. *)
Theorem scripts_exact sk k v ms old r :
  sk <> k -> (view r !! k = None /\ old = ∅ \/ view r !! k = Some (RSet old)) ->
  (ms <> [] ->
     (run_script (SetUserDataLuaScript sk k v ms) r).1 = Ok 1 /\
     view (run_script (SetUserDataLuaScript sk k v ms) r).2 =
       <[k := RSet (list_to_set ms)]> (<[sk := RString v]> (view r)) /\
     (run_script (AddUserDataLuaScript sk k v ms) r).1 = Ok 1 /\
     view (run_script (AddUserDataLuaScript sk k v ms) r).2 =
       <[k := RSet (old ∪ list_to_set ms)]> (<[sk := RString v]> (view r))) /\
  (ms = [] ->
     (exists e, (run_script (SetUserDataLuaScript sk k v ms) r).1 = Err e) /\
     view (run_script (SetUserDataLuaScript sk k v ms) r).2 = delete k (<[sk := RString v]> (view r)) /\
     (exists e, (run_script (AddUserDataLuaScript sk k v ms) r).1 = Err e) /\
     view (run_script (AddUserDataLuaScript sk k v ms) r).2 = <[sk := RString v]> (view r)).
Proof.
  intros Hne Hold. destruct (rcall_set sk v r) as [E1 V1].
  destruct (rcall (CSet sk v) r) as [e1 r1] eqn:C1. simpl in E1, V1. subst e1.
  destruct (rcall_del k r1) as [E2 V2]. destruct (rcall (CDel k) r1) as [e2 r2] eqn:C2. simpl in E2, V2. subst e2.
  assert (view r1 !! k = None /\ old = ∅ \/ view r1 !! k = Some (RSet old)) as Hold1
    by (rewrite V1, lookup_insert_ne by done; done).
  assert (view r2 !! k = None) as Hnone by (rewrite V2; apply lookup_delete_eq).
  cbn [run_script SetUserDataLuaScript AddUserDataLuaScript]. rewrite C1, C2. split.
  - intros Hms. destruct (rcall_sadd k ms ∅ r2 Hms (or_introl (conj Hnone eq_refl))) as [E3 V3].
    destruct (rcall_sadd k ms old r1 Hms Hold1) as [E4 V4].
    destruct (rcall (CSadd k ms) r2) as [e3 r3], (rcall (CSadd k ms) r1) as [e4 r4]. simpl in *. subst e3 e4. simpl.
    split_and!; [done| |done|by rewrite V4, V1].
    rewrite V3, V2, insert_delete_eq, V1, (left_id_L ∅ (∪)). done.
  - intros ->. destruct (rcall_sadd_fails k [] r2 (or_introl eq_refl)) as [[e3 E3] V3].
    destruct (rcall_sadd_fails k [] r1 (or_introl eq_refl)) as [[e4 E4] V4].
    destruct (rcall (CSadd k []) r2) as [x3 r3], (rcall (CSadd k []) r1) as [x4 r4]. simpl in *. subst x3 x4. simpl.
    split_and!; [eauto|by rewrite V3, V2, V1|eauto|by rewrite V4, V1].
Qed.
End scripts.

(** ** A reference instance and a witness *)
Abbreviation table := (gmap string rvalue).
Definition ref_rcall (c : command) (t : table) : option error * table :=
  match c with
  | CSet k v => (None, <[k := RString v]> t)
  | CDel k => (None, delete k t)
  | CSadd k ms =>
      match ms, t !! k with
      | [], _ => (Some (Errorf "ERR wrong number of arguments for 'sadd' command"), t)
      | _, Some (RString _) => (Some (Errorf "WRONGTYPE"), t)
      | _, Some (RSet old) => (None, <[k := RSet (old ∪ list_to_set ms)]> t)
      | _, None => (None, <[k := RSet (∅ ∪ list_to_set ms)]> t)
      end
  end.
#[local] Program Instance ref_commands : RedisCommands table := {| view t := t; rcall := ref_rcall |}.
Next Obligation. done. Qed.
Next Obligation. done. Qed.
Next Obligation.
  intros k [|m ms] t Hor; simpl in *; [by split; [eexists|]|]. destruct Hor as [?|[v Hv]]; [done|].
  rewrite Hv. by split; [eexists|].
Qed.
Next Obligation. intros k [|m ms] old t Hms [[Hk ->]|Hk]; simpl in *; [done..| |]; by rewrite Hk. Qed.

Lemma scripts_exact_witness :
  view (run_script (SetUserDataLuaScript "bob" "bob:ips" "{}" ["10.0.0.1"]) (∅ : table)).2 !! "bob" = Some (RString "{}").
Proof.
  destruct (scripts_exact "bob" "bob:ips" "{}" ["10.0.0.1"] ∅ (∅ : table)) as [Hms _];
    [discriminate|left; split; reflexivity|].
  destruct Hms as (_ & E & _); [discriminate|]. rewrite E. reflexivity.
Defined.
