(* ===== verification/AuthEvents.v ===== *)
(** * Account events ([server/rabbitmq_consume.go])

    Accounts are managed by messages: each event changes the records in Redis
    that the authenticators of [Auth] read, and may cut the connections the
    [Manager] keeps. A handler that returns an error makes the broker deliver
    the event again. Redis is used through the class [Redis]; the codecs and
    the order in which Go ranges over a map are parameters. *)
From Stdlib Require Import Ascii.
From stdpp Require Import base gmap strings numbers fin_maps list.
From S2P Require Import Prelude GoIO ConcurrentMap FlowLimit TTLCache Tool Auth Manager Redis.

Definition AuthEventIpv4SetUserData : Z := 1.
Definition AuthEventIpv4DeleteUserData : Z := 2.
Definition AuthEventIpv4AddUserData : Z := 3.
Definition AuthEventIpv4DisconnectUserData : Z := 4.
Definition AuthEventIpv6SetUserData : Z := 5.
Definition AuthEventIpv6SetUserDataBatch : Z := 6.
Definition AuthEventIpv6DeleteUserData : Z := 7.
Definition AuthEventIpv6DeleteUserDataBatch : Z := 8.
Definition AuthEventIpv6BanUserData : Z := 9.
Definition AuthEventIpv6BanUserDataBatch : Z := 10.
Definition AuthEventAddShadowSocksData : Z := 11.
Definition AuthEventDeleteShadowSocksData : Z := 12.
Definition AuthEventIpv6SEOData : Z := 13.

(** ** Messages ([protobuf/model.pb.go]) *)
Record DisconnectInfo := mkDisc { dUsername : string; dIps : list string }.
Record ShadowSocksData := mkSS { ssIp : string; ssPassword : string }.
Record Ipv6GEOInfo := mkGeo { CitySeg : gmap string string }.
Record Ipv6AuthInfoList := mkList6 { infos : list Ipv6AuthInfo }.

(** The [oneof] of an event. *)
Inductive AuthEvent_Data :=
| AuthEvent_AuthInfo (x : AuthInfo)
| AuthEvent_Ipv6AuthInfo (x : Ipv6AuthInfo)
| AuthEvent_Ipv6AuthInfoList (x : Ipv6AuthInfoList)
| AuthEvent_DisconnectInfo (x : DisconnectInfo)
| AuthEvent_ShadowSocksData (x : ShadowSocksData)
| AuthEvent_Ipv6GeoInfo (x : Ipv6GEOInfo).
Record AuthEvent := mkEvent { Type_ : Z; Data : option AuthEvent_Data }.

Definition GetAuthInfo (e : AuthEvent) : option AuthInfo :=
  match Data e with Some (AuthEvent_AuthInfo x) => Some x | _ => None end.
Definition GetIpv6AuthInfo (e : AuthEvent) : option Ipv6AuthInfo :=
  match Data e with Some (AuthEvent_Ipv6AuthInfo x) => Some x | _ => None end.
Definition GetIpv6AuthInfoList (e : AuthEvent) : option Ipv6AuthInfoList :=
  match Data e with Some (AuthEvent_Ipv6AuthInfoList x) => Some x | _ => None end.
Definition GetDisconnectInfo (e : AuthEvent) : option DisconnectInfo :=
  match Data e with Some (AuthEvent_DisconnectInfo x) => Some x | _ => None end.
Definition GetShadowSocksData (e : AuthEvent) : option ShadowSocksData :=
  match Data e with Some (AuthEvent_ShadowSocksData x) => Some x | _ => None end.
Definition GetIpv6GeoInfo (e : AuthEvent) : option Ipv6GEOInfo :=
  match Data e with Some (AuthEvent_Ipv6GeoInfo x) => Some x | _ => None end.

(** [ipv6AuthInfo.Banned = true] and [saveInfo.UpdateUnix = now]. *)
Definition ban (x : Ipv6AuthInfo) : Ipv6AuthInfo := mkAuth6 (Username6 x) (Password6 x) (Ip6 x) true.
Definition stamp (now : Z) (x : AuthInfo) : AuthInfo :=
  mkAuth (Username x) (Password x) (ProxyUsername x) (ProxyPassword x) (S5Addr x) (HttpAddr x) now (Ips x).
Definition with_ips (ips : option (gset string)) (x : AuthInfo) : AuthInfo :=
  mkAuth (Username x) (Password x) (ProxyUsername x) (ProxyPassword x) (S5Addr x) (HttpAddr x)
    (UpdateUnix x) ips.

(** [for k, v := range src { dst[k] = v }]: a write to a nil map panics. *)
Definition copy_ips (src dst : option (gset string)) : outcome (option (gset string)) :=
  if bool_decide (default ∅ src = ∅) then Ret dst
  else match dst with Some d => Ret (Some (default ∅ src ∪ d)) | None => Panic end.

Section events.
Context {R M1 M2 : Type} `{RedisOps R}.
Context `{CMapOps string (option loc) M1} `{CMapOps string (option loc) M2}.
(** The codecs return what Go's functions return: the bytes and the error. *)
Context (json_Marshal : AuthInfo -> string * option error) (json_Unmarshal : string -> result error AuthInfo).
Context (proto_Marshal : Ipv6AuthInfo -> string * option error).
Context (event_Unmarshal : string -> result error AuthEvent).
(** The order in which the program sees a concurrent map and a Go map. *)
Context (range : M2 -> list (string * option loc)) (go_range : gmap string string -> list (string * string)).

Record world := mkWorld { db : R; mgr : manager M1 M2 }.
Definition set_db (r : R) (w : world) : world := mkWorld r (mgr w).
Definition set_mgr (m : manager M1 M2) (w : world) : world := mkWorld (db w) m.

Abbreviation handler := (world -> outcome (option error * world)).
Definition fail (msg : string) : handler := fun w => Ret (Some (Errorf msg), w).
(** One round trip to Redis; its error is the handler's. *)
Definition exec (cmds : list cmd) : handler := fun w =>
  let '(err, r) := r_exec cmds (db w) in Ret (err, set_db r w).

Definition handlerAuthEventIpv4SetUserData (authInfo : option AuthInfo) : handler := fun w =>
  match authInfo with
  | None => fail "authInfo is nil" w
  | Some authInfo =>
      if bool_decide (Username authInfo = EmptyString) then fail "authInfo.username is nil" w
      else
        let '(data, err) := json_Marshal authInfo in
        match err with
        | Some e => Ret (Some e, w)
        | None => exec [SET (auth_key (Username authInfo)) data] w
        end
  end.

(** The error of [Del] is logged and dropped. *)
Definition handlerAuthEventIpv4DeleteUserData (authInfo : option AuthInfo) : handler := fun w =>
  match authInfo with
  | None => fail "authInfo is nil" w
  | Some authInfo =>
      if bool_decide (Username authInfo = EmptyString) then fail "authInfo.username is nil" w
      else
        let '(_, r) := r_exec [DEL (auth_key (Username authInfo))] (db w) in Ret (None, set_db r w)
  end.

(** [now] is [time.Now().Unix()]. When there is no record the message itself
    is the record, and the loop copies its map onto itself. *)
Definition handlerAuthEventIpv4AddUserData (now : Z) (authInfo : option AuthInfo) : handler := fun w =>
  match authInfo with
  | None => fail "authInfo is nil" w
  | Some authInfo =>
      if bool_decide (Username authInfo = EmptyString) then fail "authInfo.username is nil" w
      else
        let '(str, r) := r_Get (auth_key (Username authInfo)) (db w) in
        let saved :=
          match str with
          | Err _ => Ok authInfo
          | Ok str => json_Unmarshal str
          end in
        match saved with
        | Err err => Ret (Some err, set_db r w)
        | Ok saveInfo =>
            ips ← copy_ips (Ips authInfo) (Ips saveInfo);
            let saveInfo := stamp now (with_ips ips saveInfo) in
            exec [SET (auth_key (Username saveInfo)) (json_Marshal saveInfo).1] (set_db r w)
        end
  end.

(** [v, exist := m.userCtxMap.Pop(key); if exist && v != nil { v.cancel() }]. *)
Definition pop_cancel (key : string) (m : manager M1 M2) : outcome (manager M1 M2) :=
  p ← (cm_Pop key (userCtxMap m) : outcome (option loc * bool * M2));
  let '(v, exists_, um) := p in
  match v with
  | Some l =>
      if (exists_ : bool) then
        match userCtxs m !! l with
        | None => Panic
        | Some x => Ret (set_users um (<[l := mkCtx true (Manager.a x) (Manager.c x)]> (userCtxs m)) m)
        end
      else Ret (set_users um (userCtxs m) m)
  | None => Ret (set_users um (userCtxs m) m)
  end.
(** The user a key belongs to: the part before the first colon. *)
Definition key_user (key : string) : option string := head (Split key ":"%char).
Fixpoint pop_user (username : string) (seen : list (string * option loc)) (m : manager M1 M2)
  : outcome (manager M1 M2) :=
  match seen with
  | [] => Ret m
  | (key, _) :: seen' =>
      if bool_decide (key_user key = Some username)
      then m ← pop_cancel key m; pop_user username seen' m
      else pop_user username seen' m
  end.
Fixpoint close_ips (username : string) (ips : list string) (m : manager M1 M2) : outcome (manager M1 M2) :=
  match ips with
  | [] => Ret m
  | ip :: ips' =>
      p ← CloseUserConnections (username +:+ ":" +:+ ip) m;
      close_ips username ips' p.2
  end.

Definition handlerAuthEventIpv4DisconnectUserData (disconnectInfo : option DisconnectInfo) : handler := fun w =>
  match disconnectInfo with
  | None => fail "disconnectInfo is nil" w
  | Some disconnectInfo =>
      if bool_decide (dUsername disconnectInfo = EmptyString) then fail "disconnectInfo.username is nil" w
      else
        m ← match dIps disconnectInfo with
            | [] => pop_user (dUsername disconnectInfo) (range (userCtxMap (mgr w))) (mgr w)
            | ips => close_ips (dUsername disconnectInfo) ips (mgr w)
            end;
        Ret (None, set_mgr m w)
  end.

Definition handlerAuthEventIpv6SetUserData (ipv6AuthInfo : option Ipv6AuthInfo) : handler := fun w =>
  match ipv6AuthInfo with
  | None => fail "ipv6AuthInfo is nil" w
  | Some ipv6AuthInfo =>
      if bool_decide (Username6 ipv6AuthInfo = EmptyString) then fail "ipv6AuthInfo.username is nil" w
      else
        let '(data, err) := proto_Marshal ipv6AuthInfo in
        match err with
        | Some e => Ret (Some e, w)
        | None => exec [SET (auth_key (Username6 ipv6AuthInfo)) data] w
        end
  end.

(** The commands of a batch, or the first encoding error. *)
Fixpoint set_batch (l : list Ipv6AuthInfo) : result error (list cmd) :=
  match l with
  | [] => Ok []
  | x :: l' =>
      let '(data, err) := proto_Marshal x in
      match err with
      | Some e => Err e
      | None => cmds ← set_batch l'; Ok (SET (auth_key (Username6 x)) data :: cmds)
      end
  end.

(** [pipe.Exec] reports the first error of the batch; the loop over the single
    results only logs. *)
Definition handlerAuthEventIpv6SetUserDataBatch (list6 : option Ipv6AuthInfoList) : handler := fun w =>
  match list6 with
  | None => fail "ipv6AuthInfo is nil" w
  | Some list6 =>
      if bool_decide (infos list6 = []) then fail "ipv6AuthInfoList.Ipv6AuthInfoList is empty" w
      else
        match set_batch (infos list6) with
        | Err e => Ret (Some e, w)
        | Ok cmds => exec cmds w
        end
  end.

Definition handlerAuthEventIpv6DeleteUserData (ipv6AuthInfo : option Ipv6AuthInfo) : handler := fun w =>
  match ipv6AuthInfo with
  | None => fail "ipv6AuthInfo is nil" w
  | Some ipv6AuthInfo =>
      if bool_decide (Username6 ipv6AuthInfo = EmptyString) then fail "ipv6AuthInfo.username is nil" w
      else exec [DEL (auth_key (Username6 ipv6AuthInfo))] w
  end.

Definition handlerAuthEventIpv6DeleteUserDataBatch (list6 : option Ipv6AuthInfoList) : handler := fun w =>
  match list6 with
  | None => fail "ipv6AuthInfo is nil" w
  | Some list6 =>
      if bool_decide (infos list6 = []) then fail "ipv6AuthInfoList.Ipv6AuthInfoList is empty" w
      else exec ((fun x => DEL (auth_key (Username6 x))) <$> infos list6) w
  end.

(** The connections are closed whether or not Redis took the record. *)
Definition handlerAuthEventIpv6BanUserData (ipv6AuthInfo : option Ipv6AuthInfo) : handler := fun w =>
  match ipv6AuthInfo with
  | None => fail "ipv6AuthInfo is nil" w
  | Some ipv6AuthInfo =>
      if bool_decide (Username6 ipv6AuthInfo = EmptyString) then fail "ipv6AuthInfo.username is nil" w
      else
        let data := (proto_Marshal (ban ipv6AuthInfo)).1 in
        '(err, w) ← exec [SET (auth_key (Username6 ipv6AuthInfo)) data] w;
        p ← CloseUserConnections (Username6 ipv6AuthInfo) (mgr w);
        Ret (err, set_mgr p.2 w)
  end.

Fixpoint close_users (l : list Ipv6AuthInfo) (m : manager M1 M2) : outcome (manager M1 M2) :=
  match l with
  | [] => Ret m
  | x :: l' => p ← CloseUserConnections (Username6 x) m; close_users l' p.2
  end.
Definition handlerAuthEventIpv6BanUserDataBatch (list6 : option Ipv6AuthInfoList) : handler := fun w =>
  match list6 with
  | None => fail "ipv6AuthInfo is nil" w
  | Some list6 =>
      if bool_decide (infos list6 = []) then fail "ipv6AuthInfoList.Ipv6AuthInfoList is empty" w
      else
        match set_batch (ban <$> infos list6) with
        | Err e => Ret (Some e, w)
        | Ok cmds =>
            '(err, w) ← exec cmds w;
            match err with
            | Some e => Ret (Some e, w)
            | None => m ← close_users (infos list6) (mgr w); Ret (None, set_mgr m w)
            end
        end
  end.

Definition handlerAuthEventAddShadowSocksData (data : option ShadowSocksData) : handler := fun w =>
  match data with
  | None => fail "data is nil" w
  | Some data =>
      if bool_decide (ssIp data = EmptyString) then fail "data.ip is nil" w
      else exec [SET (shadow_key (ssIp data)) (ssPassword data)] w
  end.

Definition handlerAuthEventDeleteShadowSocksData (data : option ShadowSocksData) : handler := fun w =>
  match data with
  | None => fail "data is nil" w
  | Some data =>
      if bool_decide (ssIp data = EmptyString) then fail "data.ip is nil" w
      else exec [DEL (shadow_key (ssIp data))] w
  end.

Fixpoint seg_cmds (segs : list (string * string)) : list cmd :=
  match segs with
  | [] => []
  | (k, v) :: segs' => SET (CitySegPrefix +:+ k) v :: SADD AllCitySegSetPrefix v :: seg_cmds segs'
  end.
Definition handlerAuthEventIpv6SEOData (data : option Ipv6GEOInfo) : handler := fun w =>
  match data with
  | None => fail "authInfo is nil" w
  | Some data =>
      if bool_decide (CitySeg data = ∅) then fail "Ipv6GEOInfo.CitySeg is empty" w
      else exec (seg_cmds (go_range (CitySeg data))) w
  end.

(** An event of an unknown type is ignored. *)
Definition runRabbitmqAuthEventConsumeAction (now : Z) (body : string) : handler := fun w =>
  match event_Unmarshal body with
  | Err err => Ret (Some err, w)
  | Ok e =>
      let t := Type_ e in
      if t =? AuthEventIpv4SetUserData then handlerAuthEventIpv4SetUserData (GetAuthInfo e) w
      else if t =? AuthEventIpv4DeleteUserData then handlerAuthEventIpv4DeleteUserData (GetAuthInfo e) w
      else if t =? AuthEventIpv4AddUserData then handlerAuthEventIpv4AddUserData now (GetAuthInfo e) w
      else if t =? AuthEventIpv4DisconnectUserData
        then handlerAuthEventIpv4DisconnectUserData (GetDisconnectInfo e) w
      else if t =? AuthEventIpv6SetUserData then handlerAuthEventIpv6SetUserData (GetIpv6AuthInfo e) w
      else if t =? AuthEventIpv6SetUserDataBatch
        then handlerAuthEventIpv6SetUserDataBatch (GetIpv6AuthInfoList e) w
      else if t =? AuthEventIpv6DeleteUserData then handlerAuthEventIpv6DeleteUserData (GetIpv6AuthInfo e) w
      else if t =? AuthEventIpv6DeleteUserDataBatch
        then handlerAuthEventIpv6DeleteUserDataBatch (GetIpv6AuthInfoList e) w
      else if t =? AuthEventIpv6BanUserData then handlerAuthEventIpv6BanUserData (GetIpv6AuthInfo e) w
      else if t =? AuthEventIpv6BanUserDataBatch
        then handlerAuthEventIpv6BanUserDataBatch (GetIpv6AuthInfoList e) w
      else if t =? AuthEventAddShadowSocksData
        then handlerAuthEventAddShadowSocksData (GetShadowSocksData e) w
      else if t =? AuthEventDeleteShadowSocksData
        then handlerAuthEventDeleteShadowSocksData (GetShadowSocksData e) w
      else if t =? AuthEventIpv6SEOData then handlerAuthEventIpv6SEOData (GetIpv6GeoInfo e) w
      else Ret (None, w)
  end.

(** [EventSuccess]: true when the event need not be delivered again. *)
Definition consumeAuthEvent (now : Z) (body : string) (w : world) : outcome (bool * world) :=
  '(err, w) ← runRabbitmqAuthEventConsumeAction now body w;
  Ret (match err with Some _ => false | None => true end, w).
End events.
Arguments world : clear implicits.

(** ** Effects of events on Redis *)
Section store.
Context {R M1 M2 : Type} `{Redis R}.
Context `{CMapOps string (option loc) M1} `{CMapOps string (option loc) M2}.
Context (json_Marshal : AuthInfo -> string * option error) (json_Unmarshal : string -> result error AuthInfo).
Context (proto_Marshal : Ipv6AuthInfo -> string * option error).
Context (event_Unmarshal : string -> result error AuthEvent).
Context (range : M2 -> list (string * option loc)) (go_range : gmap string string -> list (string * string)).
Implicit Types (w : world R M1 M2).

Abbreviation action := (runRabbitmqAuthEventConsumeAction json_Marshal json_Unmarshal proto_Marshal
  event_Unmarshal range go_range).
Abbreviation consume := (consumeAuthEvent json_Marshal json_Unmarshal proto_Marshal
  event_Unmarshal range go_range).
Abbreviation view w := (r_view (db w)).

(** A handler run that returned sent [cmds] to Redis: all of them when it
    reports no error, a part of them otherwise. *)
Definition sends (cmds : list cmd) w (r : outcome (option error * world R M1 M2)) : Prop :=
  match r with
  | Ret (None, w') => view w' = pipeline cmds (view w)
  | Ret (Some _, w') => exists n, view w' = pipeline (take n cmds) (view w)
  | Panic => True
  end.

Lemma exec_sends cmds w : sends cmds w (exec cmds w).
Proof.
  unfold exec. pose proof (r_exec_spec cmds (db w)) as Hr.
  by destruct (r_exec cmds (db w)) as [[e|] r].
Qed.
Lemma exec_mgr cmds w : exists err w', exec cmds w = Ret (err, w') /\ mgr w' = mgr w.
Proof. unfold exec. destruct (r_exec cmds (db w)) as [err r]. eauto. Qed.
Lemma fail_sends msg w cmds : sends cmds w (fail msg w).
Proof. by exists 0%nat. Qed.
Lemma refuse_sends e w cmds : sends cmds w (Ret (Some e, w)).
Proof. by exists 0%nat. Qed.

(** The pipeline of an event: what it wants Redis to hold. *)
Definition event_cmds (e : AuthEvent) : list cmd :=
  let t := Type_ e in
  let set6 l := match set_batch proto_Marshal l with Ok cmds => cmds | Err _ => [] end in
  if t =? AuthEventIpv4SetUserData then
    match GetAuthInfo e with Some x => [SET (auth_key (Username x)) (json_Marshal x).1] | None => [] end
  else if t =? AuthEventIpv6SetUserData then
    match GetIpv6AuthInfo e with Some x => [SET (auth_key (Username6 x)) (proto_Marshal x).1] | None => [] end
  else if t =? AuthEventIpv6SetUserDataBatch then
    match GetIpv6AuthInfoList e with Some l => set6 (infos l) | None => [] end
  else if t =? AuthEventIpv6DeleteUserData then
    match GetIpv6AuthInfo e with Some x => [DEL (auth_key (Username6 x))] | None => [] end
  else if t =? AuthEventIpv6DeleteUserDataBatch then
    match GetIpv6AuthInfoList e with Some l => (fun x => DEL (auth_key (Username6 x))) <$> infos l | None => [] end
  else if t =? AuthEventIpv6BanUserData then
    match GetIpv6AuthInfo e with Some x => [SET (auth_key (Username6 x)) (proto_Marshal (ban x)).1] | None => [] end
  else if t =? AuthEventIpv6BanUserDataBatch then
    match GetIpv6AuthInfoList e with Some l => set6 (ban <$> infos l) | None => [] end
  else if t =? AuthEventAddShadowSocksData then
    match GetShadowSocksData e with Some d => [SET (shadow_key (ssIp d)) (ssPassword d)] | None => [] end
  else if t =? AuthEventDeleteShadowSocksData then
    match GetShadowSocksData e with Some d => [DEL (shadow_key (ssIp d))] | None => [] end
  else if t =? AuthEventIpv6SEOData then
    match GetIpv6GeoInfo e with Some d => seg_cmds (go_range (CitySeg d)) | None => [] end
  else [].

(** Events whose writes do not depend on what Redis holds. *)
Definition pure_event (e : AuthEvent) : Prop :=
  Type_ e <> AuthEventIpv4DeleteUserData /\ Type_ e <> AuthEventIpv4AddUserData.

(** What follows the round trip to Redis does not touch Redis. *)
Lemma then_sends cmds w (f : option error * world R M1 M2 -> outcome (option error * world R M1 M2)) r :
  sends cmds w r ->
  (forall err w', match f (err, w') with
     | Ret (err', w'') => view w'' = view w' /\ (err' = None <-> err = None)
     | Panic => True
     end) ->
  sends cmds w (r ≫= f).
Proof.
  intros Hs Hf. destruct r as [[err w']|]; [|done]. simpl. specialize (Hf err w').
  unfold outcome_bind. destruct (f (err, w')) as [[err' w'']|]; [|done]. destruct Hf as [Hv He].
  destruct err as [e|], err' as [e'|]; simpl in *; rewrite ?Hv; try done; naive_solver.
Qed.

Lemma ban_sends x w :
  sends (match x with Some x => [SET (auth_key (Username6 x)) (proto_Marshal (ban x)).1] | None => [] end) w
    (handlerAuthEventIpv6BanUserData proto_Marshal x w).
Proof.
  unfold handlerAuthEventIpv6BanUserData. destruct x as [x|]; [|apply fail_sends].
  case_bool_decide; [apply fail_sends|]. apply then_sends; [apply exec_sends|].
  intros err w'. simpl. by destruct (CloseUserConnections (Username6 x) (mgr w')) as [[e m]|].
Qed.

Lemma ban_batch_sends l w :
  sends (match l with
         | Some l => match set_batch proto_Marshal (ban <$> infos l) with Ok cmds => cmds | Err _ => [] end
         | None => [] end) w
    (handlerAuthEventIpv6BanUserDataBatch proto_Marshal l w).
Proof.
  unfold handlerAuthEventIpv6BanUserDataBatch. destruct l as [l|]; [|apply fail_sends].
  case_bool_decide; [apply fail_sends|].
  destruct (set_batch proto_Marshal (ban <$> infos l)) as [cmds|e]; [|apply refuse_sends].
  apply then_sends; [apply exec_sends|]. intros [e|] w'; [done|].
  by destruct (close_users (infos l) (mgr w')) as [m|].
Qed.

(** Guards that fail, then one pipeline. *)
Ltac solve_sends :=
  repeat match goal with
  | |- sends _ _ (fail _ _) => apply fail_sends
  | |- sends _ _ (Ret (Some _, _)) => apply refuse_sends
  | |- sends _ _ (exec _ _) => apply exec_sends
  | |- sends _ _ (if bool_decide _ then _ else _) => case_bool_decide
  | |- sends _ _ (match ?x with _ => _ end) => destruct x as [] eqn:?; cbn [fst]
  end.

Lemma disconnect_sends x w :
  sends [] w (handlerAuthEventIpv4DisconnectUserData range x w).
Proof.
  unfold handlerAuthEventIpv4DisconnectUserData. destruct x as [x|]; [|apply fail_sends].
  case_bool_decide; [apply fail_sends|].
  by destruct (match dIps x with [] => _ | _ => _ end) as [m|].
Qed.

(** An event sends its pipeline and nothing else. *)
Lemma event_sends now body e w :
  event_Unmarshal body = Ok e -> pure_event e -> sends (event_cmds e) w (action now body w).
Proof.
  intros He [Hn2 Hn3]. unfold runRabbitmqAuthEventConsumeAction, event_cmds. rewrite He.
  apply Z.eqb_neq in Hn2, Hn3. rewrite Hn2, Hn3. cbv zeta.
  repeat match goal with
  | |- context [if Type_ e =? ?n then _ else _] =>
      let E := fresh "Et" in destruct (Type_ e =? n) eqn:E; [apply Z.eqb_eq in E; rewrite ?E; simpl|]
  end; try apply ban_sends; try apply ban_batch_sends; try apply disconnect_sends; try done.
  - unfold handlerAuthEventIpv4SetUserData. solve_sends.
  - unfold handlerAuthEventIpv6SetUserData. solve_sends.
  - unfold handlerAuthEventIpv6SetUserDataBatch. solve_sends.
  - unfold handlerAuthEventIpv6DeleteUserData. solve_sends.
  - unfold handlerAuthEventIpv6DeleteUserDataBatch. solve_sends.
  - unfold handlerAuthEventAddShadowSocksData. solve_sends.
  - unfold handlerAuthEventDeleteShadowSocksData. solve_sends.
  - unfold handlerAuthEventIpv6SEOData. solve_sends.
Qed.

(** The broker delivers an event until [EventSuccess] answers true. *)
Inductive delivered (body : string) : world R M1 M2 -> world R M1 M2 -> Prop :=
| deliver_last now w w' : consume now body w = Ret (true, w') -> delivered body w w'
| deliver_again now w w1 w' :
    consume now body w = Ret (false, w1) -> delivered body w1 w' -> delivered body w w'.

Lemma consume_action now body w ok w' :
  consume now body w = Ret (ok, w') ->
  exists err, action now body w = Ret (err, w') /\ (ok = true <-> err = None).
Proof.
  unfold consumeAuthEvent. destruct (action now body w) as [[err w1]|]; [|done].
  simpl. intros [= <- <-]. exists err. split; [done|]. by destruct err.
Qed.


(** The deletion of an IPv4 account is never repeated: the event counts as
    handled whatever Redis answers, so that when the command failed the record
    is as the failed command left it. *)
Theorem ipv4_deletion_never_retried now body e x w :
  event_Unmarshal body = Ok e -> Type_ e = AuthEventIpv4DeleteUserData ->
  GetAuthInfo e = Some x -> Username x <> EmptyString ->
  let '(err, r) := r_exec [DEL (auth_key (Username x))] (db w) in
  consume now body w = Ret (true, set_db r w) /\
  (err = None -> r_view r = delete (auth_key (Username x)) (view w)).
Proof.
  intros He Ht Hx Hu. unfold consumeAuthEvent, runRabbitmqAuthEventConsumeAction.
  rewrite He, Ht. simpl. unfold handlerAuthEventIpv4DeleteUserData. rewrite Hx, bool_decide_eq_false_2 by done.
  pose proof (r_exec_spec [DEL (auth_key (Username x))] (db w)) as Hr.
  by destruct (r_exec [DEL (auth_key (Username x))] (db w)) as [[err|] r].
Qed.

(** *** Extending an IPv4 account *)

(** The extension of an IPv4 account, on every branch: a record that does
    not decode is an error and nothing is written; a record without addresses
    panics when the event brings some; otherwise the record with the addresses
    of both is written under its own name. When the read fails for any reason,
    the event itself becomes the record. *)
Theorem ipv4_extension_exact now body e x w :
  event_Unmarshal body = Ok e -> Type_ e = AuthEventIpv4AddUserData ->
  GetAuthInfo e = Some x -> Username x <> EmptyString ->
  let '(str, r) := r_Get (auth_key (Username x)) (db w) in
  match str with
  | Err _ => action now body w =
      exec [SET (auth_key (Username x)) (json_Marshal (stamp now x)).1] (set_db r w)
  | Ok s =>
      match json_Unmarshal s with
      | Err err => action now body w = Ret (Some err, set_db r w)
      | Ok old =>
          if bool_decide (ips_of x <> ∅ /\ Ips old = None) then action now body w = Panic
          else exists new, action now body w =
            exec [SET (auth_key (Username old)) (json_Marshal new).1] (set_db r w) /\
            Username new = Username old /\ Password new = Password old /\
            ips_of new = ips_of x ∪ ips_of old
      end
  end.
Proof.
  intros He Ht Hx Hu. unfold runRabbitmqAuthEventConsumeAction. rewrite He, Ht. simpl.
  unfold handlerAuthEventIpv4AddUserData. rewrite Hx, bool_decide_eq_false_2 by done.
  destruct (r_Get (auth_key (Username x)) (db w)) as [[s|err] r].
  - destruct (json_Unmarshal s) as [old|]; [|done]. unfold copy_ips.
    change (default ∅ (Ips x)) with (ips_of x).
    case_bool_decide as Hc; [destruct Hc as [Hi ->]; by rewrite bool_decide_eq_false_2|].
    case_bool_decide as Hi.
    + eexists. split; [reflexivity|]. split_and!; try done. rewrite Hi, union_empty_l_L. done.
    + destruct (Ips old) as [d|] eqn:Ed; [|tauto]. eexists. split; [reflexivity|].
      split_and!; try done. unfold ips_of. simpl. by rewrite Ed.
  - unfold copy_ips. case_bool_decide as Hi.
    + by destruct x.
    + destruct (Ips x) as [d|] eqn:Ed; [|done]. simpl. rewrite union_idemp_L, <- Ed. by destruct x.
Qed.
End store.

(** ** Effects of events on connections *)
Section connections.
Context {R M1 M2 : Type} `{Redis R}.
Context `{CMapOps string (option loc) M1} `{CMapOps string (option loc) M2}.
Context `{!CMap string (option loc) M2 None}.
Context (json_Marshal : AuthInfo -> string * option error) (json_Unmarshal : string -> result error AuthInfo).
Context (proto_Marshal : Ipv6AuthInfo -> string * option error).
Context (event_Unmarshal : string -> result error AuthEvent).
Context (range : M2 -> list (string * option loc)) (go_range : gmap string string -> list (string * string)).
(** The program sees what the map's iteration may deliver. *)
Context (range_ok : forall um, cm_ok um -> cm_iter um (range um)).
Implicit Types (m : manager M1 M2) (w : world R M1 M2) (hs : list (string * loc)).

Abbreviation action := (runRabbitmqAuthEventConsumeAction json_Marshal json_Unmarshal proto_Marshal
  event_Unmarshal range go_range).

(** The connections of some keys are cut: their entries are gone, their
    contexts cancelled, and nothing else changed. *)
Record cut (keys : string -> Prop) m m' hs : Prop := mkCut {
  cut_inv : users_inv m' hs;
  cut_current : forall k l, current m' k l <-> current m k l /\ ~ keys k;
  cut_kept : forall l, (forall k, keys k -> ~ current m k l) -> userCtxs m' !! l = userCtxs m !! l
}.

Lemma cut_none m hs (keys : string -> Prop) :
  users_inv m hs -> (forall k l, keys k -> ~ current m k l) -> cut keys m m hs.
Proof.
  intros Hi Hk. split; [done| |done]. intros k l. split; [|tauto]. intros Hc. split; [done|].
  intros Hkeys. by destruct (Hk k l Hkeys).
Qed.

Lemma cut_trans (P Q : string -> Prop) m m1 m2 hs :
  cut P m m1 hs -> cut Q m1 m2 hs -> cut (fun k => P k \/ Q k) m m2 hs.
Proof.
  intros [_ Hc1 Hk1] [Hi Hc2 Hk2]. split; [done| |].
  - intros k l. rewrite Hc2, Hc1. tauto.
  - intros l Hl. rewrite Hk2, Hk1; [done|naive_solver|].
    intros k HQ. rewrite Hc1. intros [Hc _]. by apply (Hl k); [right|].
Qed.

Lemma cut_equiv (P Q : string -> Prop) m m' hs :
  (forall k, P k <-> Q k) -> cut P m m' hs -> cut Q m m' hs.
Proof.
  intros E [Hi Hc Hk]. split; [done| |].
  - intros k l. by rewrite Hc, E.
  - intros l Hl. apply Hk. intros k HP. apply Hl. by apply E.
Qed.

(** Every connection of a cut key has a cancelled context. *)
Lemma cut_cancelled keys m m' hs k l :
  cut keys m m' hs -> keys k -> (k, l) ∈ hs -> exists x, userCtxs m' !! l = Some x /\ cancelled x = true.
Proof.
  intros [Hi Hc _] Hk Hin. destruct (ui_held _ _ Hi k l Hin) as (x & Hx & [Hcur|[Hx' _]]); [|eauto].
  apply Hc in Hcur. tauto.
Qed.

Lemma CloseUserConnections_view k m e m' :
  cm_ok (userCtxMap m) -> CloseUserConnections k m = Ret (e, m') ->
  cm_view (userCtxMap m') = delete k (cm_view (userCtxMap m)).
Proof.
  intros Hok. unfold CloseUserConnections. destruct (cm_Pop_spec k _ Hok) as (um & -> & _ & Hv).
  cbn [mbind outcome_bind]. destruct (default None _) as [l|]; [|by intros [= _ <-]].
  case_bool_decide; [|by intros [= _ <-]]. destruct (userCtxs m !! l); [|done]. by intros [= _ <-].
Qed.

Lemma close_cut k m hs :
  users_inv m hs -> exists e m', CloseUserConnections k m = Ret (e, m') /\ cut (eq k) m m' hs.
Proof.
  intros Hi. destruct (CloseUserConnections_inv k m hs Hi) as (e & m' & E & Hi' & _ & Hheap & _).
  exists e, m'. split; [done|]. split; [done| |].
  - intros k' l. unfold current. rewrite (CloseUserConnections_view k m e m' (ui_ok _ _ Hi) E).
    rewrite lookup_delete_Some. tauto.
  - intros l Hl. rewrite Hheap, decide_False; [done|]. by apply Hl.
Qed.

Lemma pop_cancel_close k m : pop_cancel k m = (p ← CloseUserConnections k m; Ret p.2).
Proof.
  unfold pop_cancel, CloseUserConnections. destruct (cm_Pop k (userCtxMap m)) as [[[v f] um]|]; [|done].
  cbn [mbind outcome_bind]. destruct v as [l|]; [|done]. destruct f; [|done]. by destruct (userCtxs m !! l).
Qed.

Lemma pop_cancel_cut k m hs :
  users_inv m hs -> exists m', pop_cancel k m = Ret m' /\ cut (eq k) m m' hs.
Proof.
  intros Hi. destruct (close_cut k m hs Hi) as (e & m' & E & Hc). exists m'.
  rewrite pop_cancel_close, E. done.
Qed.

Lemma pop_user_cut u seen m hs :
  users_inv m hs -> exists m', pop_user u seen m = Ret m' /\
    cut (fun k => key_user k = Some u /\ k ∈ seen.*1) m m' hs.
Proof.
  revert m. induction seen as [|[key v] seen IH]; intros m Hi; simpl.
  { exists m. split; [done|]. apply cut_none; [done|]. intros k l [_ Hin]. set_solver. }
  case_bool_decide as Hk.
  - destruct (pop_cancel_cut key m hs Hi) as (m1 & -> & Hc1). simpl.
    destruct (IH m1 (cut_inv _ _ _ _ Hc1)) as (m' & -> & Hc). exists m'. split; [done|].
    eapply cut_equiv; [|exact (cut_trans _ _ _ _ _ _ Hc1 Hc)]. intros k. simpl. set_solver.
  - destruct (IH m Hi) as (m' & -> & Hc). exists m'. split; [done|].
    eapply cut_equiv; [|exact Hc]. intros k. simpl. rewrite elem_of_cons. naive_solver.
Qed.

Lemma close_ips_cut u ips m hs :
  users_inv m hs -> exists m', close_ips u ips m = Ret m' /\
    cut (fun k => exists ip, ip ∈ ips /\ k = u +:+ ":" +:+ ip) m m' hs.
Proof.
  revert m. induction ips as [|ip ips IH]; intros m Hi; cbn [close_ips].
  { exists m. split; [done|]. apply cut_none; [done|]. intros k l (ip & Hin & _). set_solver. }
  destruct (close_cut (u +:+ ":" +:+ ip) m hs Hi) as (e & m1 & -> & Hc1). cbn [mbind outcome_bind snd].
  destruct (IH m1 (cut_inv _ _ _ _ Hc1)) as (m' & -> & Hc). exists m'. split; [done|].
  eapply cut_equiv; [|exact (cut_trans _ _ _ _ _ _ Hc1 Hc)]. intros k. cbn beta. set_solver.
Qed.

Lemma close_users_cut (l : list Ipv6AuthInfo) m hs :
  users_inv m hs -> exists m', close_users l m = Ret m' /\ cut (fun k => k ∈ Username6 <$> l) m m' hs.
Proof.
  revert m. induction l as [|x l IH]; intros m Hi; cbn [close_users].
  { exists m. split; [done|]. apply cut_none; [done|]. set_solver. }
  destruct (close_cut (Username6 x) m hs Hi) as (e & m1 & -> & Hc1). cbn [mbind outcome_bind snd].
  destruct (IH m1 (cut_inv _ _ _ _ Hc1)) as (m' & -> & Hc). exists m'. split; [done|].
  eapply cut_equiv; [|exact (cut_trans _ _ _ _ _ _ Hc1 Hc)]. intros k. cbn beta. set_solver.
Qed.

(** The keys whose connections an event is about. *)
Definition event_keys (e : AuthEvent) (k : string) : Prop :=
  let t := Type_ e in
  (t = AuthEventIpv4DisconnectUserData /\ exists d, GetDisconnectInfo e = Some d /\
     ((dIps d = [] /\ key_user k = Some (dUsername d)) \/
      exists ip, ip ∈ dIps d /\ k = dUsername d +:+ ":" +:+ ip)) \/
  (t = AuthEventIpv6BanUserData /\ exists x, GetIpv6AuthInfo e = Some x /\ k = Username6 x) \/
  (t = AuthEventIpv6BanUserDataBatch /\ exists l, GetIpv6AuthInfoList e = Some l /\ k ∈ Username6 <$> infos l).

Lemma range_keys m hs k l : users_inv m hs -> current m k l -> k ∈ (range (userCtxMap m)).*1.
Proof.
  intros Hi Hk. apply list_elem_of_fmap. exists (k, Some l). split; [done|].
  rewrite (cm_iter_spec _ _ (ui_ok _ _ Hi) (range_ok _ (ui_ok _ _ Hi))).
  by apply elem_of_map_to_list.
Qed.

(** A cut only concerns the keys in use. *)
Lemma cut_used (P Q : string -> Prop) m m' hs :
  (forall k l, current m k l -> (P k <-> Q k)) -> cut P m m' hs -> cut Q m m' hs.
Proof.
  intros E [Hi Hc Hk]. split; [done| |].
  - intros k l. rewrite Hc. split; intros [Hcur Hn]; (split; [done|]); by rewrite (E k l Hcur) in *.
  - intros l Hl. apply Hk. intros k HP Hcur. apply (Hl k); [|done]. by apply (E k l).
Qed.

(** A run that returned left the contexts in order, and if it reports no error
    it cut the given keys. *)
Definition cuts (keys : string -> Prop) w hs (r : outcome (option error * world R M1 M2)) : Prop :=
  exists err w', r = Ret (err, w') /\ users_inv (mgr w') hs /\ (err = None -> cut keys (mgr w) (mgr w') hs).

Lemma fail_cuts keys msg w hs : users_inv (mgr w) hs -> cuts keys w hs (fail msg w).
Proof. intros Hi. by eexists _, _. Qed.
Lemma refuse_cuts keys e w hs : users_inv (mgr w) hs -> cuts keys w hs (Ret (Some e, w)).
Proof. intros Hi. by eexists _, _. Qed.
Lemma exec_cuts keys cmds w hs :
  users_inv (mgr w) hs -> (forall k, ~ keys k) -> cuts keys w hs (exec cmds w).
Proof.
  intros Hi Hk. destruct (exec_mgr cmds w) as (err & w' & -> & Hm). exists err, w'. rewrite Hm.
  split_and!; [done..|]. intros _. apply cut_none; [done|]. intros k l Hkeys. by destruct (Hk k).
Qed.

Lemma disconnect_cuts e w hs :
  users_inv (mgr w) hs -> Type_ e = AuthEventIpv4DisconnectUserData ->
  cuts (event_keys e) w hs (handlerAuthEventIpv4DisconnectUserData range (GetDisconnectInfo e) w).
Proof.
  intros Hi Ht. unfold handlerAuthEventIpv4DisconnectUserData, event_keys. rewrite Ht.
  destruct (GetDisconnectInfo e) as [d|]; [|by apply fail_cuts].
  case_bool_decide; [by apply fail_cuts|]. destruct (dIps d) as [|ip ips] eqn:Ed.
  - destruct (pop_user_cut (dUsername d) (range (userCtxMap (mgr w))) (mgr w) hs Hi) as (m' & -> & Hc).
    eexists _, _. split; [reflexivity|]. split; [by apply (cut_inv _ _ _ _ Hc)|]. intros _.
    eapply cut_used; [|exact Hc]. intros k l Hcur. pose proof (range_keys _ _ _ _ Hi Hcur).
    split; [intros [? _]; left; split; [done|]; exists d; rewrite Ed; naive_solver|].
    intros [(_ & d' & [= <-] & [[_ ?]|(ip & Hin & _)])|[[? _]|[? _]]]; [done| |done|done].
    rewrite Ed in Hin. set_solver.
  - destruct (close_ips_cut (dUsername d) (ip :: ips) (mgr w) hs Hi) as (m' & -> & Hc).
    eexists _, _. split; [reflexivity|]. split; [by apply (cut_inv _ _ _ _ Hc)|]. intros _.
    eapply cut_equiv; [|exact Hc]. intros k. rewrite <- Ed.
    split; [intros ?; left; split; [done|]; exists d; naive_solver|].
    intros [(_ & d' & [= <-] & [[E _]|?])|[[? _]|[? _]]]; [congruence|done..].
Qed.

Lemma ban_cuts e w hs :
  users_inv (mgr w) hs -> Type_ e = AuthEventIpv6BanUserData ->
  cuts (event_keys e) w hs (handlerAuthEventIpv6BanUserData proto_Marshal (GetIpv6AuthInfo e) w).
Proof.
  intros Hi Ht. unfold handlerAuthEventIpv6BanUserData, event_keys. rewrite Ht.
  destruct (GetIpv6AuthInfo e) as [x|]; [|by apply fail_cuts]. case_bool_decide; [by apply fail_cuts|].
  destruct (exec_mgr [SET (auth_key (Username6 x)) (proto_Marshal (ban x)).1] w) as (err & w' & -> & Hm).
  cbn [mbind outcome_bind]. destruct (close_cut (Username6 x) (mgr w') hs) as (e' & m' & -> & Hc);
    [by rewrite Hm|]. eexists _, _. split; [reflexivity|]. split; [by apply (cut_inv _ _ _ _ Hc)|].
  intros _. rewrite Hm in Hc. eapply cut_equiv; [|exact Hc]. intros k. split.
  - intros <-. right. left. eauto.
  - intros [[? _]|[(_ & x' & [= <-] & ->)|[? _]]]; done.
Qed.

Lemma ban_batch_cuts e w hs :
  users_inv (mgr w) hs -> Type_ e = AuthEventIpv6BanUserDataBatch ->
  cuts (event_keys e) w hs (handlerAuthEventIpv6BanUserDataBatch proto_Marshal (GetIpv6AuthInfoList e) w).
Proof.
  intros Hi Ht. unfold handlerAuthEventIpv6BanUserDataBatch, event_keys. rewrite Ht.
  destruct (GetIpv6AuthInfoList e) as [l|]; [|by apply fail_cuts]. case_bool_decide; [by apply fail_cuts|].
  destruct (set_batch proto_Marshal (ban <$> infos l)) as [cmds|err]; [|by apply refuse_cuts].
  destruct (exec_mgr cmds w) as (err & w' & -> & Hm). cbn [mbind outcome_bind].
  destruct err as [err|]; [eexists _, _; split; [reflexivity|]; by rewrite Hm|].
  destruct (close_users_cut (infos l) (mgr w') hs) as (m' & -> & Hc); [by rewrite Hm|].
  eexists _, _. split; [reflexivity|]. split; [by apply (cut_inv _ _ _ _ Hc)|].
  intros _. rewrite Hm in Hc. eapply cut_equiv; [|exact Hc]. intros k. split.
  - intros ?. right. right. eauto.
  - intros [[? _]|[[? _]|(_ & l' & [= <-] & ?)]]; done.
Qed.

Ltac solve_cuts :=
  repeat match goal with
  | |- cuts _ _ _ (fail _ _) => by apply fail_cuts
  | |- cuts _ _ _ (Ret (Some _, _)) => by apply refuse_cuts
  | |- cuts _ _ _ (exec _ _) => by apply exec_cuts
  | |- cuts _ _ _ (if bool_decide _ then _ else _) => case_bool_decide
  | |- cuts _ _ _ (match ?x with _ => _ end) => destruct x as [] eqn:?
  end.

Lemma event_cuts now body e w hs :
  users_inv (mgr w) hs -> event_Unmarshal body = Ok e -> Type_ e <> AuthEventIpv4AddUserData ->
  cuts (event_keys e) w hs (action now body w).
Proof.
  intros Hi He Hn3. unfold runRabbitmqAuthEventConsumeAction. rewrite He.
  apply Z.eqb_neq in Hn3. rewrite Hn3. cbv zeta.
  repeat match goal with
  | |- context [if Type_ e =? ?n then _ else _] =>
      destruct (Type_ e =? n) eqn:Et; [|apply Z.eqb_neq in Et; let Hne := fresh "Hne" in rename Et into Hne]
  end; try apply Z.eqb_eq in Et.
  all: try by apply disconnect_cuts. all: try by apply ban_cuts. all: try by apply ban_batch_cuts.
  all: assert (forall k, ~ event_keys e k) as Hno by
    (intros k; unfold event_keys; cbv zeta; intros [[Hk _]|[[Hk _]|[Hk _]]];
     first [congruence|rewrite Et in Hk; discriminate Hk]).
  all: unfold handlerAuthEventIpv4SetUserData, handlerAuthEventIpv4DeleteUserData,
    handlerAuthEventIpv6SetUserData, handlerAuthEventIpv6SetUserDataBatch,
    handlerAuthEventIpv6DeleteUserData, handlerAuthEventIpv6DeleteUserDataBatch,
    handlerAuthEventAddShadowSocksData, handlerAuthEventDeleteShadowSocksData,
    handlerAuthEventIpv6SEOData; solve_cuts.
  all: eexists _, _; split; [reflexivity|]; split; [done|]; intros _; apply cut_none; [done|];
    intros k l Hk; by destruct (Hno k).
Qed.


Lemma Contains_colon u ip : Contains (u +:+ ":" +:+ ip) ":" = true.
Proof.
  destruct (Contains _ _) eqn:E; [done|]. apply Contains_false in E. destruct E. by exists u, ip.
Qed.

(** A disconnection by address reaches nobody: connections are registered
    under the plain user name (by the HTTP and the SOCKS5 handler) while the
    event looks for the name, a colon and the address. When no name of a
    connected user has a colon, the event is handled without an error and
    leaves every context as it is. *)
Theorem address_disconnect_reaches_nobody m0 n now body e d w hs :
  idle m0 -> user_reach m0 n (mgr w, hs) -> Z.of_nat n < 2 ^ 64 - 1 ->
  event_Unmarshal body = Ok e -> Type_ e = AuthEventIpv4DisconnectUserData ->
  GetDisconnectInfo e = Some d -> dUsername d <> EmptyString -> dIps d <> [] ->
  (forall k l, (k, l) ∈ hs -> Contains k ":" = false) ->
  exists w', action now body w = Ret (None, w') /\
    (forall l, userCtxs (mgr w') !! l = userCtxs (mgr w) !! l) /\
    (forall k l, current (mgr w') k l <-> current (mgr w) k l).
Proof.
  intros Hm0 Hr Hn He Ht Hd Hu Hips Hhs. destruct (user_reach_inv _ _ _ Hm0 Hr Hn) as [_ Hi]. simpl in Hi.
  unfold runRabbitmqAuthEventConsumeAction. rewrite He, Ht. simpl.
  unfold handlerAuthEventIpv4DisconnectUserData. rewrite Hd, bool_decide_eq_false_2 by done.
  destruct (dIps d) as [|ip ips]; [done|].
  destruct (close_ips_cut (dUsername d) (ip :: ips) (mgr w) hs Hi) as (m' & E & [_ Hc Hk]).
  exists (set_mgr m' w). rewrite E. split; [done|]. simpl.
  assert (forall k l, current (mgr w) k l -> forall ip', k <> dUsername d +:+ ":" +:+ ip') as Hno.
  { intros k l Hcur ip' ->. destruct (ui_live _ _ Hi _ _ Hcur) as (x & _ & _ & _ & Hpos).
    destruct (decide ((dUsername d +:+ ":" +:+ ip', l) ∈ hs)) as [Hin|Hin].
    - specialize (Hhs _ _ Hin). by rewrite Contains_colon in Hhs.
    - apply holds_zero in Hin. lia. }
  split.
  - intros l. apply Hk. intros k (ip' & _ & ->) Hcur. by apply (Hno _ _ Hcur ip').
  - intros k l. rewrite Hc. split; [tauto|]. intros Hcur. split; [done|].
    intros (ip' & _ & ->). by apply (Hno _ _ Hcur ip').
Qed.
End connections.

(** ** Effects of events on logins *)
Section logins.
Context {R M1 M2 C4 CS C6 : Type} `{Redis R}.
Context `{CMapOps string (option loc) M1} `{CMapOps string (option loc) M2}.
Context `{TTLCacheOps AuthInfo C4} `{TTLCacheOps string CS} `{TTLCacheOps Ipv6AuthInfo C6}.
Context `{!TTLCache AuthInfo C4 auth_params} `{!TTLCache Ipv6AuthInfo C6 auth_params}.
Context (json_Marshal : AuthInfo -> string * option error) (json_Unmarshal : string -> result error AuthInfo).
Context (proto_Marshal : Ipv6AuthInfo -> string * option error).
Context (proto_Unmarshal : string -> result error Ipv6AuthInfo).
Context (event_Unmarshal : string -> result error AuthEvent).
Context (range : M2 -> list (string * option loc)) (go_range : gmap string string -> list (string * string)).
Context (gateways : list string) (redis_SRandMember : Z -> string -> result error string).
Context (ParseCIDR : string -> result error (bytes * Z)) (rand_Int : Z -> result error Z).

(** Decoding what was encoded gives the account back; JSON does so for
    records it can represent (strings in UTF-8). *)
Definition same_account (x y : AuthInfo) : Prop :=
  Username x = Username y /\ Password x = Password y /\ ips_of x = ips_of y.
Context (representable : AuthInfo -> Prop).
Context (json_round_trip : forall x s, representable x -> json_Marshal x = (s, None) ->
  exists y, json_Unmarshal s = Ok y /\ same_account x y).
Context (proto_round_trip : forall x s, proto_Marshal x = (s, None) -> proto_Unmarshal s = Ok x).
Implicit Types (w : world R M1 M2).

Abbreviation action := (runRabbitmqAuthEventConsumeAction json_Marshal json_Unmarshal proto_Marshal
  event_Unmarshal range go_range).
(** The authenticators ask this Redis. *)
Definition ask w : Z -> string -> result error string := fun _ k => (r_Get k (db w)).1.
(** Redis answers. *)
Definition answering w : Prop := forall k v, r_view (db w) !! k = Some v -> ask w 0 k = Ok v.

Lemma set_held x w w' :
  Username x <> EmptyString -> representable x -> answering w' ->
  handlerAuthEventIpv4SetUserData json_Marshal (Some x) w = Ret (None, w') ->
  exists y, held (ask w') json_Unmarshal 0 (auth_key (Username x)) y /\ same_account x y.
Proof.
  intros Hu Hx Ha. unfold handlerAuthEventIpv4SetUserData. rewrite bool_decide_eq_false_2 by done.
  destruct (json_Marshal x) as [data [err|]] eqn:Ej; [done|]. intros E.
  pose proof (exec_sends [SET (auth_key (Username x)) data] w) as Hs. rewrite E in Hs. simpl in Hs.
  destruct (json_round_trip x data Hx Ej) as (y & Hy & Hsame). exists y. split; [|done].
  exists data. split; [|done]. apply Ha. rewrite Hs. apply lookup_insert_eq.
Qed.

(** C18. An account that was set can log in: after the event is handled without
    an error, a login with its name and password through any of its addresses
    is accepted, if the authenticator has no cached record of the user and
    Redis answers. *)
Theorem account_set_can_log_in now body e x w w' t ip peerIp (a : Ipv4Auth (C4 := C4) (CS := CS)) g :
  event_Unmarshal body = Ok e -> Type_ e = AuthEventIpv4SetUserData -> GetAuthInfo e = Some x ->
  Username x <> EmptyString -> representable x -> action now body w = Ret (None, w') ->
  answering w' -> tc_repr (cache4 a) g -> g !! auth_key (Username x) = None -> ip ∈ ips_of x ->
  exists a', Ipv4_Valid (ask w') json_Unmarshal t (Username x) (Password x) ip peerIp a = (Ok ip, a').
Proof.
  intros He Ht Hx Hu Hrep E Ha Hr Hg Hip. unfold runRabbitmqAuthEventConsumeAction in E.
  rewrite He, Ht in E. simpl in E. rewrite Hx in E.
  destruct (set_held x w w' Hu Hrep Ha E) as (y & (str & Hask & Hdec) & Hn & Hp & Hi).
  unfold Ipv4_Valid, fetch. pose proof (tc_Get_spec t (auth_key (Username x)) _ _ Hr) as Hs.
  destruct (tc_Get t (auth_key (Username x)) (cache4 a)) as [r c]. destruct Hs as [Hans _].
  unfold answers in Hans. rewrite Hg in Hans. subst r.
  change (ask w' t) with (ask w' 0). rewrite Hask, Hdec.
  rewrite !bool_decide_eq_true_2 by (try done; by rewrite <- Hi). simpl. eauto.
Qed.

(** C19. A banned account is locked out: after a ban is handled without an error
    no later login of this user is accepted, with any password but the one
    reserved for gateways, unless the authenticator still has a cached record
    that has not expired. Redis need not even answer. *)
Theorem banned_account_is_refused now body e x w w' t pwd ip peerIp (a : Ipv6Auth (C6 := C6)) g :
  event_Unmarshal body = Ok e -> Type_ e = AuthEventIpv6BanUserData -> GetIpv6AuthInfo e = Some x ->
  (proto_Marshal (ban x)).2 = None -> action now body w = Ret (None, w') ->
  tc_repr (cache6 a) g -> (forall v ex, g !! auth_key (Username6 x) = Some (v, ex) -> ex < t) ->
  pwd <> "elfproxy_dynamic_ipv6" ->
  exists err a', Ipv6_Valid (ask w') proto_Unmarshal gateways redis_SRandMember ParseCIDR rand_Int
    t (Username6 x) pwd ip peerIp a = ((Err err, None), a').
Proof.
  intros He Ht Hx Hm E Hr Hg Hpwd. unfold runRabbitmqAuthEventConsumeAction in E.
  rewrite He, Ht in E. simpl in E. rewrite Hx in E.
  pose proof (ban_sends proto_Marshal (Some x) w) as Hs. rewrite E in Hs. simpl in Hs.
  destruct (proto_Marshal (ban x)) as [data err] eqn:Em. simpl in Hm. subst err.
  unfold Ipv6_Valid. rewrite bool_decide_eq_false_2 by done. unfold fetch.
  pose proof (tc_Get_spec t (auth_key (Username6 x)) _ _ Hr) as Hc.
  destruct (tc_Get t (auth_key (Username6 x)) (cache6 a)) as [r c]. destruct Hc as [Hans _].
  unfold answers in Hans. assert (r = None) as ->.
  { destruct (g !! auth_key (Username6 x)) as [[v ex]|] eqn:Ek; [|done].
    specialize (Hg v ex eq_refl). destruct Hans as [[_ ?]|[? _]]; [lia|done]. }
  destruct (ask w' t (auth_key (Username6 x))) as [str|err] eqn:Ea; [|eauto].
  destruct (r_Get_spec (auth_key (Username6 x)) (db w')) as [_ Hget]. specialize (Hget str Ea).
  rewrite Hs in Hget. unfold pipeline in Hget. simpl in Hget. rewrite lookup_insert_eq in Hget.
  injection Hget as <-. rewrite (proto_round_trip _ _ Em). simpl.
  case_bool_decide; simpl; [|eauto]. case_bool_decide; simpl; [|eauto]. case_bool_decide; simpl; eauto.
Qed.
End logins.

(** ** Witnesses: the sharded map, a Redis whose network may break, toy codecs *)
#[local] Existing Instances smap_ops smap_cmap.
#[local] Existing Instances w4_ops ws_ops w6_ops w4_cache w6_cache.
#[local] Instance ipv6_info_eq_dec : EqDecision Ipv6AuthInfo.
Proof. solve_decision. Defined.

Lemma smap_range_ok (um : smap) : cm_ok um -> cm_iter um (shard_order um).
Proof. exact (shard_order_iter um). Qed.

Definition toy_json (x : AuthInfo) : string * option error := (Username x, None).
Definition toy_proto (x : Ipv6AuthInfo) : string * option error :=
  if bool_decide (x = eve) then ("eve", None)
  else if bool_decide (x = ban eve) then ("eve banned", None)
  else (EmptyString, Some (Errorf "string field contains invalid UTF-8")).
Lemma toy_proto_round_trip x s : toy_proto x = (s, None) -> sample_proto s = Ok x.
Proof. unfold toy_proto. repeat case_bool_decide; intros [= <-]; by subst x. Qed.
Lemma toy_json_round_trip x s :
  x = bob -> toy_json x = (s, None) -> exists y, sample_json s = Ok y /\ same_account x y.
Proof. intros -> [= <-]. by exists bob. Qed.

Definition toy_event (body : string) : result error AuthEvent :=
  if bool_decide (body = "set") then Ok (mkEvent 1 (Some (AuthEvent_AuthInfo bob)))
  else if bool_decide (body = "delete") then Ok (mkEvent 2 (Some (AuthEvent_AuthInfo bob)))
  else if bool_decide (body = "add") then Ok (mkEvent 3 (Some (AuthEvent_AuthInfo bob)))
  else if bool_decide (body = "kick") then Ok (mkEvent 4 (Some (AuthEvent_DisconnectInfo (mkDisc "bob" []))))
  else if bool_decide (body = "kick ip")
    then Ok (mkEvent 4 (Some (AuthEvent_DisconnectInfo (mkDisc "bob" ["10.0.0.1"]))))
  else if bool_decide (body = "ban") then Ok (mkEvent 9 (Some (AuthEvent_Ipv6AuthInfo eve)))
  else Err (Errorf "proto: cannot parse").

Abbreviation toy_consume := (consumeAuthEvent toy_json sample_json toy_proto toy_event shard_order map_to_list).
Abbreviation toy_action :=
  (runRabbitmqAuthEventConsumeAction toy_json sample_json toy_proto toy_event shard_order map_to_list).
Abbreviation toy_world := (world ref_redis smap smap).

(** The network breaks after the first command was executed. *)
Definition flaky : toy_world := mkWorld (mkRef ∅ [Broken 1 (NetError "i/o timeout" true)]) manager0.
Definition broken : toy_world := mkWorld (mkRef {["bob:Auth" := "bob"]} [Broken 0 (NetError "i/o timeout" true)]) manager0.
Definition calm (tab : gmap string string) (m : manager smap smap) : toy_world := mkWorld (mkRef tab []) m.


(** The record survives a deletion that counts as handled. *)
Lemma ipv4_deletion_never_retried_witness :
  exists w', toy_consume 5 "delete" broken = Ret (true, w') /\ r_view (db w') !! "bob:Auth" = Some "bob".
Proof.
  destruct (ipv4_deletion_never_retried toy_json sample_json toy_proto toy_event shard_order map_to_list
    5 "delete" (mkEvent 2 (Some (AuthEvent_AuthInfo bob))) bob broken
    eq_refl eq_refl eq_refl ltac:(discriminate)) as [E _].
  eexists. split; [exact E|reflexivity].
Defined.

(** The read fails, the write does not: the stored record is replaced. *)
Lemma ipv4_extension_exact_witness :
  toy_action 5 "add" broken =
    exec [SET "bob:Auth" (toy_json (stamp 5 bob)).1] (calm {["bob:Auth" := "bob"]} manager0).
Proof.
  exact (ipv4_extension_exact toy_json sample_json toy_proto toy_event shard_order map_to_list
    5 "add" (mkEvent 3 (Some (AuthEvent_AuthInfo bob))) bob broken
    eq_refl eq_refl eq_refl ltac:(discriminate)).
Defined.


Lemma address_disconnect_reaches_nobody_witness :
  exists w', toy_action 5 "kick ip" (calm ∅ bob_twice) = Ret (None, w') /\
    forall l, userCtxs (mgr w') !! l = userCtxs bob_twice !! l.
Proof.
  destruct bob_twice_reached as [l Hr].
  destruct (address_disconnect_reaches_nobody toy_json sample_json toy_proto toy_event shard_order map_to_list
    smap_range_ok manager0 2 5 "kick ip" (mkEvent 4 (Some (AuthEvent_DisconnectInfo (mkDisc "bob" ["10.0.0.1"]))))
    (mkDisc "bob" ["10.0.0.1"]) (calm ∅ bob_twice) _ manager0_idle Hr ltac:(lia) eq_refl eq_refl eq_refl
    ltac:(discriminate) ltac:(discriminate)) as (w' & E & Hh & _).
  - intros k l' Hin. repeat (apply elem_of_cons in Hin as [[= -> _]|Hin]; [reflexivity|]).
    by apply not_elem_of_nil in Hin.
  - exists w'. split; [exact E|exact Hh].
Defined.

Lemma account_set_can_log_in_witness :
  exists w' a', toy_action 5 "set" (calm ∅ manager0) = Ret (None, w') /\
    Ipv4_Valid (ask w') sample_json 7 "bob" "pw" "10.0.0.1" "9.9.9.9" auth4_0 = (Ok "10.0.0.1", a').
Proof.
  eexists. destruct (account_set_can_log_in (R := ref_redis) (M1 := smap) (M2 := smap)
    toy_json sample_json toy_proto toy_event shard_order map_to_list
    (fun x => x = bob) toy_json_round_trip 5 "set" (mkEvent 1 (Some (AuthEvent_AuthInfo bob))) bob
    (calm ∅ manager0) (calm {["bob:Auth" := "bob"]} manager0) 7 "10.0.0.1" "9.9.9.9" auth4_0 ∅)
    as [a' E]; [reflexivity..|discriminate|reflexivity|reflexivity| |reflexivity|reflexivity| |].
  - intros k v Hv. unfold ask. simpl in *. by rewrite Hv.
  - unfold ips_of. simpl. by apply elem_of_singleton.
  - exists a'. split; [reflexivity|exact E].
Defined.

Lemma banned_account_is_refused_witness :
  exists w' err a', toy_action 5 "ban" (calm ∅ manager0) = Ret (None, w') /\
    Ipv6_Valid (ask w') sample_proto [] no_rand no_cidr (fun _ => Ok 0) 7 "eve" "pw" "::" "9.9.9.9" auth6_0
      = ((Err err, None), a').
Proof.
  destruct (CloseUserConnections_inv "eve" manager0 [] (idle_inv _ manager0_idle)) as (e & m' & E & _).
  assert (toy_action 5 "ban" (calm ∅ manager0) =
    Ret (None, set_mgr m' (calm {["eve:Auth" := "eve banned"]} manager0))) as Ea.
  { trans (p ← CloseUserConnections "eve" manager0;
      Ret (None : option error, set_mgr p.2 (calm {["eve:Auth" := "eve banned"]} manager0)));
      [reflexivity|by rewrite E]. }
  destruct (banned_account_is_refused (R := ref_redis) (M1 := smap) (M2 := smap)
    toy_json sample_json toy_proto sample_proto toy_event shard_order map_to_list [] no_rand no_cidr
    (fun _ => Ok 0) toy_proto_round_trip 5 "ban" (mkEvent 9 (Some (AuthEvent_Ipv6AuthInfo eve))) eve
    (calm ∅ manager0) _ 7 "pw" "::" "9.9.9.9" auth6_0 ∅ eq_refl eq_refl eq_refl eq_refl Ea)
    as (err & a' & Ev); [reflexivity|done|discriminate|].
  eexists _, err, a'. split; [exact Ea|exact Ev].
Defined.
