(* ===== verification/QueueConsumers.v ===== *)
(** * Queue consumers ([server/rabbitmq_*_consume.go])

    One consumer per kind of message, from before the unified account events of
    [AuthEvents], and the registration of the two consumers that run today
    ([runRabbitmqConsume]). All of them share a shape: a channel, a declared
    queue, a loop over deliveries until the context is done or the channel
    closes. The broker's answers to the calls and the events the loop sees are
    arguments; the calls a consumer makes are its result, beside the state of
    Redis and of the manager. *)
From stdpp Require Import base gmap strings numbers list.
From S2P Require Import Prelude GoIO ConcurrentMap FlowLimit TTLCache Tool Auth Manager Redis AuthEvents.
From S2P Require Import RabbitPool RabbitConsume.

(** A call to the broker after [conn.Channel()]; the flags that are the same
    everywhere (durable, not exclusive, ...) are left out. *)
Inductive bcall :=
| BDeclare (qName : string) (args : table)
| BBind (qName key exchange : string)
| BConsume (qName : string) (autoAck : bool)
| BAck
| BNack (requeue : bool)
| BClose.

(** What the calls of the set-up answer. *)
Record answers := mkAnswers {
  a_channel : option error;
  a_declare : option error;
  a_bind : option error;
  a_consume : option error
}.

(** What the [select] of the loop can receive: a delivery, the zero value of a
    closed [msgs], the end of the context, the end of the channel. *)
Inductive qevent := QMessage (body : string) | QDrained | QDone | QClosed.

Definition queue_name (prefix LocalIp ProcessName : string) : string :=
  prefix +:+ "_" +:+ LocalIp +:+ "_" +:+ ProcessName.

Record BlacklistBroadcastMsg := mkBlacklist { Ts : Z; Blacklist : list string }.

Section consumers.
Context {R M1 M2 : Type} `{RedisOps R}.
Context `{CMapOps string (option loc) M1} `{CMapOps string (option loc) M2}.
Context (proto_Marshal : AuthInfo -> string * option error) (proto_Unmarshal : string -> result error AuthInfo).
Context (proto_Unmarshal6 : string -> result error Ipv6AuthInfo).
Context (disc_Unmarshal : string -> result error DisconnectInfo).
Context (black_Unmarshal : string -> result error BlacklistBroadcastMsg).
Context (range : M2 -> list (string * option loc)).
Context (LocalIp ProcessName BlacklistExchange : string).

Abbreviation wld := (world R M1 M2).
(** The action for a delivery: the calls it makes, and the new state. *)
Abbreviation qaction := (string -> wld -> outcome (list bcall * wld)).

(** ** The loop and the set-up *)

(** The Boolean is whether the consumer has returned; otherwise it waits. *)
Fixpoint consume_loop (action : qaction) (evs : list qevent) (w : wld)
  : outcome (list bcall * bool * wld) :=
  match evs with
  | [] => Ret ([], false, w)
  | QMessage body :: evs' =>
      '(cs, w) ← action body w;
      '(cs', b, w) ← consume_loop action evs' w;
      Ret (cs ++ cs', b, w)
  | QDrained :: evs' => consume_loop action evs' w
  | QDone :: _ | QClosed :: _ => Ret ([], true, w)
  end.

(** From [conn.Channel()] on; [bind] is the exchange of a [QueueBind]. *)
Definition queue_consume (a : answers) (qName : string) (args : table) (bind : option string)
  (autoAck : bool) (action : qaction) (evs : list qevent) (w : wld) : outcome (list bcall * bool * wld) :=
  match a_channel a with
  | Some _ => Ret ([], true, w)
  | None =>
      match a_declare a with
      | Some _ => Ret ([BDeclare qName args; BClose], true, w)
      | None =>
          let bound := match bind with Some ex => [BBind qName EmptyString ex] | None => [] end in
          match (match bind with Some _ => a_bind a | None => None end) with
          | Some _ => Ret (BDeclare qName args :: bound ++ [BClose], true, w)
          | None =>
              match a_consume a with
              | Some _ => Ret (BDeclare qName args :: bound ++ [BConsume qName autoAck; BClose], true, w)
              | None =>
                  '(cs, b, w) ← consume_loop action evs w;
                  Ret (BDeclare qName args :: bound ++ BConsume qName autoAck :: cs ++
                         (if (b : bool) then [BClose] else []), b, w)
              end
          end
      end
  end.

(** ** Setting accounts *)
Definition runRabbitmqSetUserDataQueueConsumeAction : qaction := fun body w =>
  match proto_Unmarshal body with
  | Err _ => Ret ([BNack false], w)
  | Ok info =>
      let '(err, r) := r_exec [SET (auth_key (Username info)) body] (db w) in
      Ret (match err with Some _ => [BNack false] | None => [BAck] end, set_db r w)
  end.
Definition runRabbitmqSetUserDataQueueConsume (a : answers) :=
  queue_consume a (queue_name "SetUserData" LocalIp ProcessName) ∅ None false
    runRabbitmqSetUserDataQueueConsumeAction.

Definition runRabbitmqSetUserIpv6DataQueueConsumeAction : qaction := fun body w =>
  match proto_Unmarshal6 body with
  | Err _ => Ret ([BNack false], w)
  | Ok info =>
      let '(err, r) := r_exec [SET (auth_key (Username6 info)) body] (db w) in
      Ret (match err with Some _ => [BNack false] | None => [BAck] end, set_db r w)
  end.
Definition runRabbitmqSetUserIpv6DataQueueConsume (a : answers) :=
  queue_consume a (queue_name "SetUserIpv6Data" LocalIp ProcessName) ∅ None false
    runRabbitmqSetUserIpv6DataQueueConsumeAction.

(** ** Deleting accounts; the error of [Del] is dropped *)
Definition runRabbitmqDeleteUserDataQueueConsumeAction : qaction := fun body w =>
  match proto_Unmarshal body with
  | Err _ => Ret ([], w)
  | Ok info =>
      let '(_, r) := r_exec [DEL (auth_key (Username info))] (db w) in Ret ([], set_db r w)
  end.
Definition runRabbitmqDeleteUserDataQueueConsume (a : answers) :=
  queue_consume a (queue_name "DeleteUserData" LocalIp ProcessName) ∅ None true
    runRabbitmqDeleteUserDataQueueConsumeAction.

Definition runRabbitmqDeleteUserIpv6DataQueueConsumeAction : qaction := fun body w =>
  match proto_Unmarshal6 body with
  | Err _ => Ret ([], w)
  | Ok info =>
      let '(_, r) := r_exec [DEL (auth_key (Username6 info))] (db w) in Ret ([], set_db r w)
  end.
Definition runRabbitmqDeleteUserIpv6DataQueueConsume (a : answers) :=
  queue_consume a (queue_name "DeleteUserIpv6Data" LocalIp ProcessName) ∅ None true
    runRabbitmqDeleteUserIpv6DataQueueConsumeAction.

(** ** Extending an account; [now] is [time.Now().Unix()] *)
Definition runRabbitmqAddUserDataQueueConsumeAction (now : Z) : qaction := fun body w =>
  match proto_Unmarshal body with
  | Err _ => Ret ([BNack false], w)
  | Ok info =>
      let '(str, r) := r_Get (auth_key (Username info)) (db w) in
      match (match str with Err _ => Ok info | Ok str => proto_Unmarshal str end) with
      | Err _ => Ret ([BNack false], set_db r w)
      | Ok authInfo =>
          ips ← copy_ips (Ips info) (Ips authInfo);
          let authInfo := stamp now (with_ips ips authInfo) in
          let '(err, r) := r_exec [SET (auth_key (Username authInfo)) (proto_Marshal authInfo).1] r in
          Ret (match err with Some _ => [BNack false] | None => [BAck] end, set_db r w)
      end
  end.
Definition runRabbitmqAddUserDataQueueConsume (now : Z) (a : answers) :=
  queue_consume a (queue_name "AddUserData" LocalIp ProcessName) ∅ None false
    (runRabbitmqAddUserDataQueueConsumeAction now).

(** ** Cutting connections *)
Definition runRabbitmqDisconnectQueueConsumeAction : qaction := fun body w =>
  match disc_Unmarshal body with
  | Err _ => Ret ([], w)
  | Ok disConnInfo =>
      if bool_decide (dUsername disConnInfo = EmptyString) then Ret ([], w)
      else
        m ← match dIps disConnInfo with
            | [] => pop_user (dUsername disConnInfo) (range (userCtxMap (mgr w))) (mgr w)
            | ips => close_ips (dUsername disConnInfo) ips (mgr w)
            end;
        Ret ([], set_mgr m w)
  end.
Definition runRabbitmqDisconnectQueueConsume (a : answers) :=
  queue_consume a (queue_name "Disconnect" LocalIp ProcessName) {["x-message-ttl" := AInt (60 * 1000)]}
    None true runRabbitmqDisconnectQueueConsumeAction.

(** ** The blacklist *)
Definition runRabbitmqBlacklistConsumeAction : qaction := fun body w =>
  match black_Unmarshal body with
  | Err _ => Ret ([], w)
  | Ok blacklistMsg => Ret ([], set_mgr (SetBlackMap (Blacklist blacklistMsg) (mgr w)) w)
  end.
Definition runRabbitmqBlacklistConsume (a : answers) :=
  queue_consume a (queue_name "new_blackListMsg" LocalIp ProcessName) ∅ (Some BlacklistExchange) true
    runRabbitmqBlacklistConsumeAction.
End consumers.

(** ** The consumers that are registered *)
Definition consumeBlacklist (LocalIp ProcessName BlacklistExchange : string) : ConsumeReceive :=
  mkReceive BlacklistExchange EXCHANGE_TYPE_FANOUT EmptyString
    (queue_name "blackListMsg" LocalIp ProcessName) true true false 3 true.
Definition consumeAuthEvents (LocalIp ProcessName : string) : ConsumeReceive :=
  mkReceive EmptyString EXCHANGE_TYPE_DIRECT EmptyString
    (queue_name "authEventMsg" LocalIp ProcessName) true true true 3 true.

(** [RegisterConsumeReceive]: a nil consumer is ignored. *)
Definition RegisterConsumeReceive (r : option ConsumeReceive) (rs : list ConsumeReceive) : list ConsumeReceive :=
  match r with Some r => rs ++ [r] | None => rs end.
(** The consumers [runRabbitmqConsume] leaves in the pool before [RunConsume]. *)
Definition runRabbitmqConsume (LocalIp ProcessName BlacklistExchange : string) (rs : list ConsumeReceive)
  : list ConsumeReceive :=
  RegisterConsumeReceive (Some (consumeAuthEvents LocalIp ProcessName))
    (RegisterConsumeReceive (Some (consumeBlacklist LocalIp ProcessName BlacklistExchange)) rs).

(** ** What the loop does *)

(** The deliveries a consumer gets to, and whether it then returns. *)
Fixpoint delivered_bodies (evs : list qevent) : list string :=
  match evs with
  | QMessage body :: evs' => body :: delivered_bodies evs'
  | QDrained :: evs' => delivered_bodies evs'
  | _ => []
  end.
Fixpoint stops (evs : list qevent) : bool :=
  match evs with
  | [] => false
  | QMessage _ :: evs' | QDrained :: evs' => stops evs'
  | _ => true
  end.

(** A set-up that succeeds. *)
Definition no_error : answers := mkAnswers None None None None.

Section stores.
Context {R M1 M2 : Type} `{Redis R}.
Context `{CMapOps string (option loc) M1} `{CMapOps string (option loc) M2}.
Implicit Types (w : world R M1 M2) (evs : list qevent).
Abbreviation qaction := (string -> world R M1 M2 -> outcome (list bcall * world R M1 M2)).
Abbreviation view w := (r_view (db w)).

Fixpoint run_messages (action : qaction) (bodies : list string) w : outcome (list bcall * world R M1 M2) :=
  match bodies with
  | [] => Ret ([], w)
  | body :: bodies' =>
      '(cs, w) ← action body w;
      '(cs', w) ← run_messages action bodies' w;
      Ret (cs ++ cs', w)
  end.

Lemma consume_loop_messages action evs w :
  consume_loop action evs w =
    ('(cs, w) ← run_messages action (delivered_bodies evs) w; Ret (cs, stops evs, w)).
Proof.
  revert w. induction evs as [|[body| | |] evs IH]; intros w; simpl; try done.
  destruct (action body w) as [[cs w1]|]; [|done]. simpl. rewrite IH.
  by destruct (run_messages action (delivered_bodies evs) w1) as [[cs' w2]|].
Qed.

Definition answer_of (err : option error) : list bcall :=
  match err with None => [BAck] | Some _ => [BNack false] end.

(** An action that stores the body under the user it is about. *)
Definition store_action (user : string -> option string) : qaction := fun body w =>
  match user body with
  | None => Ret ([BNack false], w)
  | Some u => let '(err, r) := r_exec [SET (auth_key u) body] (db w) in Ret (answer_of err, set_db r w)
  end.

Definition user_of {A : Type} (decode : string -> result error A) (name : A -> string) (body : string)
  : option string := match decode body with Ok x => Some (name x) | Err _ => None end.

(** What the record of a user is after the messages [bodies] were answered
    with [ans]: the body of the last message about the user when it was
    acknowledged, and the record of before when no message is about the user. *)
Definition keeps_last (user : string -> option string) (bodies : list string) (ans : list bcall) w w' : Prop :=
  mgr w' = mgr w /\ length ans = length bodies /\
  Forall (fun c => c = BAck \/ c = BNack false) ans /\
  (forall i body u, bodies !! i = Some body -> user body = Some u -> ans !! i = Some BAck ->
     (forall j body', (i < j)%nat -> bodies !! j = Some body' -> user body' <> Some u) ->
     view w' !! auth_key u = Some body) /\
  (forall u, Forall (fun body => user body <> Some u) bodies ->
     view w' !! auth_key u = view w !! auth_key u).

Lemma list_ascii_app (s t : string) :
  String.list_ascii_of_string (s +:+ t) = String.list_ascii_of_string s ++ String.list_ascii_of_string t.
Proof. induction s as [|c s IH]; [done|]. simpl. by f_equal. Qed.
Lemma auth_key_inj u v : auth_key u = auth_key v -> u = v.
Proof.
  unfold auth_key. intros E. apply (f_equal String.list_ascii_of_string) in E.
  rewrite !list_ascii_app in E. apply app_inv_tail in E.
  by rewrite <- (String.string_of_list_ascii_of_string u), E, String.string_of_list_ascii_of_string.
Qed.

Lemma store_action_one user body w :
  exists c w', store_action user body w = Ret ([c], w') /\ mgr w' = mgr w /\ (c = BAck \/ c = BNack false) /\
    (forall u, user body = Some u -> c = BAck -> view w' !! auth_key u = Some body) /\
    (forall u, user body <> Some u -> view w' !! auth_key u = view w !! auth_key u).
Proof.
  unfold store_action. destruct (user body) as [v|]; [|by eexists _, _; split_and!; [done|done|right|..]].
  pose proof (r_exec_spec [SET (auth_key v) body] (db w)) as Hr.
  destruct (r_exec [SET (auth_key v) body] (db w)) as [err r].
  exists (match err with None => BAck | Some _ => BNack false end), (set_db r w). split_and!.
  - by destruct err.
  - done.
  - destruct err; [by right|by left].
  - intros u [= <-] Hc. destruct err; [done|]. simpl. rewrite Hr. apply lookup_insert_eq.
  - intros u Hne. assert (auth_key v <> auth_key u) as Hk by (intros ->%auth_key_inj; done).
    destruct err as [e|]; simpl; [destruct Hr as [[|n] ->]; simpl; [done|rewrite take_nil; simpl]|rewrite Hr];
      unfold pipeline; simpl; by rewrite lookup_insert_ne.
Qed.

Lemma store_messages user bodies w :
  exists ans w', run_messages (store_action user) bodies w = Ret (ans, w') /\ keeps_last user bodies ans w w'.
Proof.
  revert w. induction bodies as [|body bodies IH]; intros w.
  { exists [], w. by split_and!. }
  destruct (store_action_one user body w) as (c & w1 & E & Hm & Hc & Hack & Hother).
  destruct (IH w1) as (ans & w2 & E2 & Hm2 & Hl & Hf & Hlast & Hrest).
  exists (c :: ans), w2. simpl. rewrite E. simpl. rewrite E2. split; [done|]. split_and!; [congruence|simpl; lia|by constructor|..].
  - intros [|i] b u; simpl.
    + intros [= <-] Hu [= ->] Hno. rewrite Hrest; [by apply Hack|].
      apply Forall_lookup. intros j b' Hj. apply (Hno (S j)); [lia|done].
    + intros Hb Hu Ha Hno. apply (Hlast i b u Hb Hu Ha). intros j b' Hj Hb'. apply (Hno (S j)); [lia|done].
  - intros u [Hu Hus]%Forall_cons_1. by rewrite Hrest, Hother.
Qed.

Lemma run_messages_ext (f g : qaction) bodies w :
  (forall body w, f body w = g body w) -> run_messages f bodies w = run_messages g bodies w.
Proof.
  intros Hfg. revert w. induction bodies as [|body bodies IH]; intros w; simpl; [done|].
  rewrite Hfg. destruct (g body w) as [[cs w1]|]; [|done]. simpl. by rewrite IH.
Qed.

Lemma set_queue_run action q autoAck evs w ans w' :
  run_messages action (delivered_bodies evs) w = Ret (ans, w') ->
  queue_consume no_error q ∅ None autoAck action evs w =
    Ret (BDeclare q ∅ :: BConsume q autoAck :: ans ++ (if stops evs then [BClose] else []), stops evs, w').
Proof. intros E. unfold queue_consume. simpl. by rewrite consume_loop_messages, E. Qed.
End stores.



(** ** A delivery to a registered consumer *)
Section registered.
Context {R M1 M2 : Type} `{RedisOps R}.
Context `{CMapOps string (option loc) M1} `{CMapOps string (option loc) M2}.
Context (json_Marshal : AuthInfo -> string * option error) (json_Unmarshal : string -> result error AuthInfo).
Context (proto_Marshal : Ipv6AuthInfo -> string * option error).
Context (event_Unmarshal : string -> result error AuthEvent).
Context (black_Unmarshal : string -> result error BlacklistBroadcastMsg).
Context (range : M2 -> list (string * option loc)) (go_range : gmap string string -> list (string * string)).
Context (LocalIp ProcessName BlacklistExchange : string).

(** [consumeTask] with [EventSuccess] of the account events. *)
Definition deliver_auth_event (now : Z) (d : Delivery) (w : world R M1 M2)
  : outcome (list action * world R M1 M2) :=
  '(isOk, w) ← consumeAuthEvent json_Marshal json_Unmarshal proto_Marshal event_Unmarshal range go_range
     now (str_of_bytes (dBody d)) w;
  acts ← on_delivery (consumeAuthEvents LocalIp ProcessName) isOk d;
  Ret (acts, w).
(** [consumeTask] with [EventSuccess] of the blacklist, which answers true. *)
Definition deliver_blacklist (d : Delivery) (w : world R M1 M2) : outcome (list action * world R M1 M2) :=
  '(_, w) ← runRabbitmqBlacklistConsumeAction black_Unmarshal (str_of_bytes (dBody d)) w;
  acts ← on_delivery (consumeBlacklist LocalIp ProcessName BlacklistExchange) true d;
  Ret (acts, w).
End registered.


(** *** Witnesses *)
#[local] Existing Instances smap_ops smap_cmap.


