(* ===== verification/Text.v ===== *)
(** * Text handling of the proxy handlers ([server/common.go] and the standard library)

    The search for a domain name, and the functions of [net], [encoding/base64]
    and [strings] the handlers call. *)
From Stdlib Require Import Ascii.
From stdpp Require Import base strings list numbers.
From S2P Require Import Prelude GoIO.

(** ** [regexpDomain] *)

Definition between (lo hi : nat) (c : Ascii.ascii) : bool :=
  (lo <=? nat_of_ascii c)%nat && (nat_of_ascii c <=? hi)%nat.
(** [[a-zA-Z]] and [[a-zA-Z0-9.-]]. *)
Definition is_letter (c : Ascii.ascii) : bool := between 97 122 c || between 65 90 c.
Definition is_label (c : Ascii.ascii) : bool :=
  is_letter c || between 48 57 c || bool_decide (c = "."%char) || bool_decide (c = "-"%char).

Fixpoint all (f : Ascii.ascii -> bool) (s : string) : bool :=
  match s with EmptyString => true | String c s' => f c && all f s' end.

(** The length of the longest prefix of letters. *)
Fixpoint letters (s : string) : nat :=
  match s with
  | String c s' => if is_letter c then S (letters s') else 0
  | EmptyString => 0
  end.

(** The length of the match of [[a-zA-Z0-9.-]*\.[a-zA-Z]{2,}] at the front of
    [s]: the star takes as much as it can and gives back what it must. *)
Fixpoint match_tail (s : string) : option nat :=
  match s with
  | EmptyString => None
  | String c s' =>
      if is_label c then
        match match_tail s' with
        | Some n => Some (S n)
        | None =>
            if bool_decide (c = "."%char) && (2 <=? letters s')%nat then Some (S (letters s')) else None
        end
      else None
  end.
Definition match_here (s : string) : option nat :=
  match s with
  | String c s' => if is_label c then S <$> match_tail s' else None
  | EmptyString => None
  end.

Fixpoint first_n (n : nat) (s : string) : string :=
  match n, s with
  | S n', String c s' => String c (first_n n' s')
  | _, _ => EmptyString
  end.

(** The first match, or the empty string. *)
Fixpoint regexpDomain (text : string) : string :=
  match match_here text with
  | Some n => first_n n text
  | None => match text with EmptyString => EmptyString | String _ t => regexpDomain t end
  end.

(** What the pattern describes. *)
Definition is_domain (d : string) : Prop :=
  exists u v, d = u +:+ "." +:+ v /\ u <> EmptyString /\ all is_label u = true /\
    all is_letter v = true /\ (2 <= String.length v)%nat.
Definition part_of (d s : string) : Prop := exists p q, s = p +:+ d +:+ q.

Lemma first_n_split n s : exists q, s = first_n n s +:+ q.
Proof.
  revert s. induction n as [|n IH]; intros s; simpl; [by exists s|].
  destruct s as [|c s]; [by exists EmptyString|]. destruct (IH s) as [q Hq]. exists q.
  change (String c s = String c (first_n n s +:+ q)). congruence.
Qed.

Lemma letters_prefix s : all is_letter (first_n (letters s) s) = true /\
  String.length (first_n (letters s) s) = letters s.
Proof.
  induction s as [|c s [IH1 IH2]]; simpl; [done|]. destruct (is_letter c) eqn:E; simpl; [|done].
  by rewrite E, IH1, IH2.
Qed.

Lemma letters_max v s : all is_letter v = true -> (String.length v <= letters (v +:+ s))%nat.
Proof.
  induction v as [|c v IH]; simpl; [lia|]. intros [Hc Hv]%andb_true_iff. rewrite Hc.
  specialize (IH Hv). simpl in IH. unfold app in *. lia.
Qed.

(** What [match_tail] finds is a possibly empty label, a dot and letters. *)
Lemma match_tail_sound s n : match_tail s = Some n ->
  exists u v, first_n n s = u +:+ "." +:+ v /\ all is_label u = true /\ all is_letter v = true /\
    (2 <= String.length v)%nat.
Proof.
  revert n. induction s as [|c s IH]; intros n; cbn [match_tail]; [done|].
  destruct (is_label c) eqn:Ec; [|done]. destruct (match_tail s) as [m|] eqn:Em.
  - intros [= <-]. destruct (IH m eq_refl) as (u & v & Hp & Hu & Hv & Hl).
    exists (String c u), v. split; [exact (f_equal (String c) Hp)|]. simpl. by rewrite Ec, Hu.
  - case_bool_decide as Hd; [|done]. cbn [andb]. destruct (2 <=? letters s)%nat eqn:El; [|done].
    intros [= <-]. subst c. destruct (letters_prefix s) as [Ha Hb]. apply Nat.leb_le in El.
    exists EmptyString, (first_n (letters s) s). simpl. split_and!; [done..|]. by rewrite Hb.
Qed.

Lemma match_tail_complete u v q :
  all is_label u = true -> all is_letter v = true -> (2 <= String.length v)%nat ->
  match_tail (u +:+ "." +:+ v +:+ q) <> None.
Proof.
  intros Hu Hv Hl. induction u as [|c u IH].
  - change (match_tail (String "."%char (v +:+ q)) <> None). cbn [match_tail].
    destruct (match_tail _); [done|]. rewrite bool_decide_eq_true_2 by done. cbn [andb].
    pose proof (letters_max v q Hv) as Hm. rewrite (proj2 (Nat.leb_le _ _)); [done|].
    etrans; [exact Hl|exact Hm].
  - simpl in Hu. apply andb_true_iff in Hu as [Hc Hu]. specialize (IH Hu).
    change (match_tail (String c (u +:+ "." +:+ v +:+ q)) <> None). cbn [match_tail]. rewrite Hc.
    by destruct (match_tail _).
Qed.

Lemma match_here_sound s n : match_here s = Some n -> is_domain (first_n n s).
Proof.
  destruct s as [|c s]; simpl; [done|]. destruct (is_label c) eqn:Ec; [|done].
  destruct (match_tail s) as [m|] eqn:Em; [|done]. intros [= <-].
  destruct (match_tail_sound s m Em) as (u & v & Hp & Hu & Hv & Hl).
  exists (String c u), v. split; [exact (f_equal (String c) Hp)|]. simpl. by rewrite Ec, Hu.
Qed.
Lemma str_app_assoc (a b c : string) : (a +:+ b) +:+ c = a +:+ (b +:+ c).
Proof. induction a as [|x a IH]; [done|]. change (String x ((a +:+ b) +:+ c) = String x (a +:+ (b +:+ c))). congruence. Qed.

Lemma match_here_complete d q : is_domain d -> match_here (d +:+ q) <> None.
Proof.
  intros (u & v & -> & Hne & Hu & Hv & Hl). rewrite !str_app_assoc.
  destruct u as [|c u]; [done|]. simpl in Hu. apply andb_true_iff in Hu as [Hc Hu].
  pose proof (match_tail_complete u v q Hu Hv Hl) as Hm.
  change (match_here (String c (u +:+ "." +:+ v +:+ q)) <> None). unfold match_here. rewrite Hc.
  by destruct (match_tail _).
Qed.

(** The search finds a domain name when there is one: the result is empty
    exactly when no part of the text has the form of a domain name, and
    otherwise it is a part of the text that has this form. *)
Theorem regexpDomain_exact text :
  (regexpDomain text = EmptyString /\ forall d, part_of d text -> ~ is_domain d) \/
  (part_of (regexpDomain text) text /\ is_domain (regexpDomain text)).
Proof.
  assert (forall s, match_here s = None -> forall d q, s = d +:+ q -> ~ is_domain d) as Hno.
  { intros s E d q -> Hd. by apply (match_here_complete d q Hd). }
  induction text as [|c text IH].
  - left. split; [done|]. intros d (p & q & E). destruct p, d; try done.
    intros (u & v & ? & ? & _). by destruct u.
  - cbn [regexpDomain]. destruct (match_here (String c text)) as [n|] eqn:Em.
    + right. split; [|by apply match_here_sound]. destruct (first_n_split n (String c text)) as [q Hq].
      by exists EmptyString, q.
    + destruct IH as [[E IH]|[Hp Hd]].
      * left. split; [done|]. intros d (p & q & Eq) Hd. destruct p as [|x p].
        -- by apply (Hno _ Em d q).
        -- injection Eq as -> Eq. by apply (IH d); [exists p, q|].
      * right. split; [|done]. destruct Hp as (p & q & Eq). exists (String c p), q.
        change (String c text = String c (p +:+ regexpDomain text +:+ q)). congruence.
Qed.

(** ** [strings.Replace(s, old, "", 1)] *)

Fixpoint drop_str (n : nat) (s : string) : string :=
  match n, s with
  | S n', String _ s' => drop_str n' s'
  | _, _ => s
  end.
Fixpoint RemoveFirst (s old : string) : string :=
  if HasPrefix s old then drop_str (String.length old) s
  else match s with EmptyString => EmptyString | String c s' => String c (RemoveFirst s' old) end.

(** ** [net.SplitHostPort] *)

Fixpoint IndexByte (s : string) (c : Ascii.ascii) : option nat :=
  match s with
  | EmptyString => None
  | String x s' => if bool_decide (x = c) then Some 0%nat else S <$> IndexByte s' c
  end.
Fixpoint LastIndexByte (s : string) (c : Ascii.ascii) : option nat :=
  match s with
  | EmptyString => None
  | String x s' =>
      match LastIndexByte s' c with
      | Some n => Some (S n)
      | None => if bool_decide (x = c) then Some 0%nat else None
      end
  end.

Definition SplitHostPort (hostport : string) : result error (string * string) :=
  let addr_err why := Err (Errorf ("address " +:+ hostport +:+ ": " +:+ why)) in
  match LastIndexByte hostport ":"%char with
  | None => addr_err "missing port in address"
  | Some i =>
      let finish (host : string) (j k : nat) :=
        match IndexByte (drop_str j hostport) "["%char, IndexByte (drop_str k hostport) "]"%char with
        | Some _, _ => addr_err "unexpected '[' in address"
        | None, Some _ => addr_err "unexpected ']' in address"
        | None, None => Ok (host, drop_str (S i) hostport)
        end in
      if bool_decide (first_n 1 hostport = "[") then
        match IndexByte hostport "]"%char with
        | None => addr_err "missing ']' in address"
        | Some e =>
            if bool_decide (S e = String.length hostport) then addr_err "missing port in address"
            else if bool_decide (S e = i) then finish (drop_str 1 (first_n e hostport)) 1%nat (S e)
            else if bool_decide (first_n 1 (drop_str (S e) hostport) = ":")
            then addr_err "too many colons in address" else addr_err "missing port in address"
        end
      else
        let host := first_n i hostport in
        match IndexByte host ":"%char with
        | Some _ => addr_err "too many colons in address"
        | None => finish host 0%nat 0%nat
        end
  end.

(** ** [base64.StdEncoding.DecodeString] *)

Definition base64_value (c : Ascii.ascii) : option Z :=
  let n := Z.of_nat (nat_of_ascii c) in
  if between 65 90 c then Some (n - 65)
  else if between 97 122 c then Some (n - 71)
  else if between 48 57 c then Some (n + 4)
  else if bool_decide (c = "+"%char) then Some 62
  else if bool_decide (c = "/"%char) then Some 63
  else None.
Definition char_of (z : Z) : Ascii.ascii := ascii_of_nat (Z.to_nat (u8 z)).

(** Carriage returns and line feeds are skipped. *)
Fixpoint skip_newlines (s : string) : list Ascii.ascii :=
  match s with
  | EmptyString => []
  | String c s' =>
      if (nat_of_ascii c =? 10)%nat || (nat_of_ascii c =? 13)%nat then skip_newlines s' else c :: skip_newlines s'
  end.

(** Groups of four characters; the last one may be padded. *)
Fixpoint decode_groups (l : list Ascii.ascii) : option string :=
  match l with
  | [] => Some EmptyString
  | c1 :: c2 :: c3 :: c4 :: l' =>
      match base64_value c1, base64_value c2 with
      | Some a, Some b =>
          let x := char_of (Z.lor (Z.shiftl a 2) (Z.shiftr b 4)) in
          match base64_value c3 with
          | Some c =>
              let y := char_of (Z.lor (Z.shiftl b 4) (Z.shiftr c 2)) in
              match base64_value c4 with
              | Some d =>
                  let z := char_of (Z.lor (Z.shiftl c 6) d) in
                  (fun s => String x (String y (String z s))) <$> decode_groups l'
              | None =>
                  if bool_decide (c4 = "="%char /\ l' = []) then Some (String x (String y EmptyString)) else None
              end
          | None =>
              if bool_decide (c3 = "="%char /\ c4 = "="%char /\ l' = []) then Some (String x EmptyString) else None
          end
      | _, _ => None
      end
  | _ => None
  end.
Definition DecodeString (s : string) : result error string :=
  match decode_groups (skip_newlines s) with
  | Some d => Ok d
  | None => Err (Errorf "illegal base64 data")
  end.

(** Examples from RFC 7617 and the documentation of [net]. *)
Example decode_rfc7617 : DecodeString "QWxhZGRpbjpvcGVuIHNlc2FtZQ==" = Ok "Aladdin:open sesame".
Proof. reflexivity. Qed.
Example split_host_port_ipv6 : SplitHostPort "[::1]:443" = Ok ("::1", "443").
Proof. reflexivity. Qed.
Example split_host_no_port : exists e, SplitHostPort "example.com" = Err e.
Proof. by eexists. Qed.
Example domain_in_address : regexpDomain "www.example.com:443" = "www.example.com".
Proof. reflexivity. Qed.
Example no_domain_in_address : regexpDomain "93.184.216.34:443" = EmptyString.
Proof. reflexivity. Qed.
