(* ===== verification/Program.v ===== *)
(** * Programs of one goroutine

    A connection handler is a tree: its nodes are the calls it makes, its
    branches the answers it may get. Everything that is shared or outside (the
    peer, Redis, the manager's tables, other goroutines) only shows in the
    answers, so a statement about every branch holds whatever the rest of the
    system does. [defer] runs on a return and on a panic. *)
From stdpp Require Import base strings list numbers.
From S2P Require Import Prelude GoIO Socks5 Manager.

(** The events of the handlers' [select] loop. *)
Inductive event :=
| Tick                       (** [<-ticker.C] *)
| CopyEnded (err : option error) (** [err, _ := <-errCh] *)
| ServerDone                 (** [<-ctx.Done()] *)
| UserDone.                  (** [<-connCtx.ctx.Done()] *)

(** A parsed HTTP request, as far as the handlers look at it. *)
Record Request := mkRequest {
  Method : string; Host : string; ProxyAuthorization : string; rest_of_request : string
}.

(** [protobuf.BlackListAccessLog] and [protobuf.AccessRecordsToInfluxDB]. *)
Record BlackListAccessLog := mkBlackLog { Site : string; AccountType : Z; Account : string; ExitIp : string }.
Record AccessRecordsToInfluxDB := mkAccess { UserName : string; Domain : string; Ip : string; ProxyType : string }.

Module Call.
Inductive op : Type :=
| ConnRead                                        (** the first [conn.Read] *)
| ConnWrite (b : bytes)
| HttpReadRequest (b : bytes)                     (** [http.ReadRequest] *)
| HttpWriteRequest (r : Request)                  (** [req.Write] to a buffer *)
| SocksCredentials | SocksDest                    (** [GetUserPassword], [ReadDestAddr] *)
| SocksReply (resp : byte) (addr : option AddrSpec)
| Valid (user pwd ip peer : string)               (** [m.auth.Valid] *)
| ValidShadowSocks (ip : string)
| PickCipher (cipher pwd : string) | ShadowDest          (** [core.PickCipher], [socks.ReadAddr] *)
| DiscardConn
| IpAndTargetIsInBlacklist (s : string)
| IsInBlacklist (domain : string)
| AddIpConnCount (ip : string) | ReduceIpConnCount (ip : string)
| GetNacosConf
| GetOrSetFreeCache (key : string) (ttl : Z) | SendAlarm (msg : string)
| NetDial (address : string) (local : option bytes)
| RecordDialFailConnection (s : string)
| TargetWrite (b : bytes) | TargetClose
| AddUserConnection (key : string) | DeleteUserConnection (key : string) (l : loc)
| StartSniffing | StartCopying (l : loc)        (** the goroutines of the relay *)
| Select
| LoadDomain                                      (** [domainPointer.Load()] *)
| StopRelay      (** [close(done)], both [Close]s and [wg.Wait()] *)
| CloseErrCh | CloseByteChan
| PushBlackLog (l : BlackListAccessLog) | PushAccessLog (l : AccessRecordsToInfluxDB).

Definition ans (o : op) : Type :=
  match o with
  | ConnRead => result error bytes
  | ConnWrite _ | TargetWrite _ | SocksReply _ _ | StartSniffing => option error
  | HttpReadRequest _ => result error Request
  | HttpWriteRequest _ => result error bytes
  | SocksCredentials => result error (string * string)
  | SocksDest => result error AddrSpec
  | Valid _ _ _ _ | ValidShadowSocks _ | ShadowDest => result error string
  | PickCipher _ _ => result error ()
  | IpAndTargetIsInBlacklist _ => bool
  | IsInBlacklist _ => string * bool
  | AddIpConnCount _ => outcome (bool * Z)
  | ReduceIpConnCount _ => outcome ()
  | GetNacosConf => NacosConfig
  | GetOrSetFreeCache _ _ => option bytes
  | NetDial _ _ => result error AddrSpec
  | AddUserConnection _ => outcome loc
  | DeleteUserConnection _ _ => outcome ()
  | Select => event
  | LoadDomain => string
  | PushBlackLog _ => option error
  | DiscardConn | SendAlarm _ | RecordDialFailConnection _ | TargetClose | StartCopying _
  | StopRelay | CloseErrCh | CloseByteChan | PushAccessLog _ => ()
  end.
End Call.
Abbreviation op := Call.op.
Abbreviation ans := Call.ans.

(** Every call has an answer. *)
Definition some_ans (o : op) : ans o :=
  match o return ans o with
  | Call.ConnRead | Call.HttpReadRequest _ | Call.HttpWriteRequest _ | Call.SocksCredentials | Call.SocksDest
  | Call.Valid _ _ _ _ | Call.ValidShadowSocks _ | Call.ShadowDest | Call.PickCipher _ _ | Call.NetDial _ _ => Err EOF
  | Call.ConnWrite _ | Call.TargetWrite _ | Call.SocksReply _ _ | Call.StartSniffing | Call.PushBlackLog _
  | Call.GetOrSetFreeCache _ _ => None
  | Call.IpAndTargetIsInBlacklist _ => false
  | Call.IsInBlacklist _ => (EmptyString, false)
  | Call.AddIpConnCount _ | Call.ReduceIpConnCount _ | Call.AddUserConnection _ | Call.DeleteUserConnection _ _ => Panic
  | Call.GetNacosConf => mkConf [] 0 0 0 0 []
  | Call.Select => ServerDone
  | Call.LoadDomain => EmptyString
  | _ => ()
  end.

(** [Running] is a handler that is still in its loop when the fuel ends. *)
Inductive prog (A : Type) : Type :=
| Done (r : outcome A)
| Running
| Vis (o : op) (k : ans o -> prog A).
Arguments Done {A} r.
Arguments Running {A}.
Arguments Vis {A} o k.

Fixpoint prog_bind {A B} (p : prog A) (f : A -> prog B) : prog B :=
  match p with
  | Done (Ret a) => f a
  | Done Panic => Done Panic
  | Running => Running
  | Vis o k => Vis o (fun x => prog_bind (k x) f)
  end.
#[global] Instance prog_mret : MRet prog := fun A a => Done (Ret a).
#[global] Instance prog_mbind : MBind prog := fun A B f p => prog_bind p f.

Definition call (o : op) : prog (ans o) := Vis o (fun x => Done (Ret x)).
(** [defer d; body]. *)
Fixpoint defer {A} (d : prog ()) (body : prog A) : prog A :=
  match body with
  | Done r => prog_bind d (fun _ => Done r)
  | Running => Running
  | Vis o k => Vis o (fun x => defer d (k x))
  end.

(** [defer func() { recover() }(); body]. *)
Fixpoint recovering (body : prog ()) : prog () :=
  match body with
  | Done _ => Done (Ret ())
  | Running => Running
  | Vis o k => Vis o (fun x => recovering (k x))
  end.

(** ** Protocols

    A protocol is an automaton over calls and answers; [None] is a violation.
    [wp p Q q]: on every branch of [p], from the state [q], the calls follow
    the protocol, [Q] holds where [p] ends and [stuck] where the fuel ends. *)
Section protocol.
Context {S : Type} (step : S -> forall o : op, ans o -> option S) (stuck : S -> Prop).

Fixpoint wp {A} (p : prog A) (Q : outcome A -> S -> Prop) (q : S) : Prop :=
  match p with
  | Done r => Q r q
  | Running => stuck q
  | Vis o k => forall x, match step q o x with Some q' => wp (k x) Q q' | None => False end
  end.

Lemma prog_wp_mono {A} (p : prog A) (Q Q' : outcome A -> S -> Prop) q :
  wp p Q q -> (forall r q', Q r q' -> Q' r q') -> wp p Q' q.
Proof.
  revert q. induction p as [r| |o k IH]; intros q; simpl; [eauto|done|].
  intros Hp Hq x. specialize (Hp x). destruct (step q o x); [by apply IH|done].
Qed.

Lemma prog_wp_bind {A B} (p : prog A) (f : A -> prog B) Q q :
  wp p (fun r q' => match r with Ret a => wp (f a) Q q' | Panic => Q Panic q' end) q -> wp (p ≫= f) Q q.
Proof.
  unfold mbind, prog_mbind. revert q. induction p as [[a|]| |o k IH]; intros q; simpl; [done..|].
  intros Hp x. specialize (Hp x). destruct (step q o x); [by apply IH|done].
Qed.

Lemma prog_wp_defer {A} (d : prog ()) (body : prog A) Q q :
  wp body (fun r q' => wp d (fun rd q'' => match rd with Ret _ => Q r q'' | Panic => Q Panic q'' end) q') q ->
  wp (defer d body) Q q.
Proof.
  revert q. induction body as [r| |o k IH]; intros q; simpl; [|done|].
  - intros Hd. apply (prog_wp_bind d (fun _ => Done r)). eapply prog_wp_mono; [exact Hd|]. by intros [[]|] q'.
  - intros Hp x. specialize (Hp x). destruct (step q o x); [by apply IH|done].
Qed.

Lemma prog_wp_recovering (body : prog ()) Q q :
  wp body (fun _ q' => Q (Ret ()) q') q -> wp (recovering body) Q q.
Proof.
  revert q. induction body as [r| |o k IH]; intros q; simpl; [done|done|].
  intros Hp x. specialize (Hp x). destruct (step q o x); [by apply IH|done].
Qed.
End protocol.
