(* ===== verification/Proxy.v ===== *)
(** * The connection handlers ([server/tcp_conn_handler.go], [http_proxy_handler.go],
    [socks_proxy_handler.go], [shadowsocks_handler.go])

    Each handler authenticates the client, checks the limits and the
    blacklists, dials the target from the exit address and relays until one
    side ends, the user is disconnected or the server stops; whatever it
    acquired it gives back in deferred calls. The handlers are programs in the
    sense of [Program]; the parsing of addresses ([net.ParseIP]) is a
    parameter. *)
From Stdlib Require Import Ascii.
From stdpp Require Import base strings list numbers gmap.
From S2P Require Import Prelude GoIO ConcurrentMap FlowLimit Socks5 Manager Text Program.

Definition CONNECT_MAX_IP : string := "connect_max_ip:".
Definition CipherType : string := "AES-128-GCM".
Definition crlf : string := String (ascii_of_nat 13) (String (ascii_of_nat 10) EmptyString).
Definition proxy_auth_required : bytes :=
  bytes_of_str ("HTTP/1.1 407 Proxy Authorization Required" +:+ crlf +:+
    "Proxy-Authenticate: Basic realm=" +:+ String (ascii_of_nat 34)
      ("Secure Proxys" +:+ String (ascii_of_nat 34) (crlf +:+ crlf))).
Definition service_unavailable : bytes := bytes_of_str ("HTTP/1.1 503 Service Unavailable" +:+ crlf +:+ crlf).
Definition connection_established : bytes :=
  bytes_of_str ("HTTP/1.1 200 Connection Established" +:+ crlf +:+ crlf).

Section handlers.
Context (ParseIP : string -> option bytes).
(** [m.mode]: "ipv4" or "ipv6". *)
Context (mode : string).

(** Write and return, whatever the write reports. *)
Definition answer_and_return (b : bytes) : prog () := _ ← call (Call.ConnWrite b); mret ().
Definition reply_and_return (resp : byte) : prog () := _ ← call (Call.SocksReply resp None); mret ().

(** [server/func.go]: a local address is set only when it is not empty. *)
Definition DialContext (address : string) (localIP : option bytes) : prog (result error AddrSpec) :=
  call (Call.NetDial address
    (match localIP with Some ip => if bool_decide (ip = []) then None else Some ip | None => None end)).

(** [server/rabbitmq_product.go]: the parameters [Account] and [ExitIp] are not
    used. *)
Definition SendBlackListAccessLogMessageData
    (proxyUserName proxyServerIpStr black : string) (AccountType : Z) (Account ExitIp : string)
  : prog (option error) :=
  call (Call.PushBlackLog (mkBlackLog black AccountType proxyUserName proxyServerIpStr)).
Definition ReportAccessLogToInfluxDB (user domain ip : string) : prog () :=
  call (Call.PushAccessLog (mkAccess user domain ip mode)).

(** The deferred function of a relay: stop the goroutines, then report the
    domain, or the part of the target before the first colon. *)
Definition stop_and_report (user target exitIpStr : string) : prog () :=
  _ ← call Call.StopRelay;
  domain ← call Call.LoadDomain;
  if negb (bool_decide (domain = EmptyString)) then ReportAccessLogToInfluxDB user domain exitIpStr
  else match Split target ":"%char with
       | host :: _ => ReportAccessLogToInfluxDB user host exitIpStr
       | [] => ReportAccessLogToInfluxDB user target exitIpStr
       end.

(** The [select] loop: every tick checks the domain again. *)
Fixpoint relay_loop (fuel : nat) (on_black : string -> prog (option error)) : prog () :=
  match fuel with
  | O => Running
  | S fuel' =>
      ev ← call Call.Select;
      match ev with
      | Tick =>
          domain ← call Call.LoadDomain;
          if negb (bool_decide (domain = EmptyString)) then
            '(black, in_) ← call (Call.IsInBlacklist domain);
            if (in_ : bool) then _ ← on_black black; mret () else relay_loop fuel' on_black
          else relay_loop fuel' on_black
      | CopyEnded _ | ServerDone | UserDone => mret ()
      end
  end.

(** From [addUserConnection] to the end of a handler. [sniff] says whether the
    domain is still to be found out. *)
Definition relay (fuel : nat) (key user target exitIpStr : string) (sniff : bool)
    (on_black : string -> prog (option error)) : prog () :=
  connCtx ← Vis (Call.AddUserConnection key) (fun r => Done r);
  defer (Vis (Call.DeleteUserConnection key connCtx) (fun r => Done r))
    (defer (call Call.CloseByteChan)
      (defer (call Call.CloseErrCh)
        (defer (stop_and_report user target exitIpStr)
          (let copying := _ ← call (Call.StartCopying connCtx); relay_loop fuel on_black in
           if sniff then
             err ← call Call.StartSniffing;
             match err with Some _ => mret () | None => copying end
           else copying)))).

(** *** HTTP *)

(** The address to dial: the port defaults to 443 or 80. *)
Definition http_address (req : Request) : string :=
  let port := match SplitHostPort (Host req) with Ok (_, port) => port | Err _ => EmptyString end in
  if bool_decide (Method req = "CONNECT") then
    if bool_decide (port = EmptyString) then Host req +:+ ":" +:+ "443" else Host req
  else
    if bool_decide (port = EmptyString) then Host req +:+ ":" +:+ "80" else Host req.

(** The part of [httpTcpConn] after the target is dialled; the flag says
    whether the relay follows. *)
Definition http_start (req : Request) : prog bool :=
  if bool_decide (Method req = "CONNECT") then
    err ← call (Call.ConnWrite connection_established);
    match err with Some _ => mret false | None => mret true end
  else
    buf ← call (Call.HttpWriteRequest (mkRequest (Method req) (Host req) EmptyString (rest_of_request req)));
    match buf with
    | Err _ => mret false
    | Ok buf =>
        err ← call (Call.TargetWrite buf);
        match err with Some _ => mret false | None => mret true end
    end.

(** The user's name is the key of its context. *)
Definition http_relay (fuel : nat) (req : Request) (user pwd exitIpStr : string) : prog () :=
  relay fuel user user (http_address req) exitIpStr
    (bool_decide (regexpDomain (http_address req) = EmptyString) && bool_decide (Method req = "CONNECT"))
    (fun black => SendBlackListAccessLogMessageData user pwd black 1 user exitIpStr).

Definition http_dial (fuel : nat) (req : Request) (user pwd exitIpStr ipAndTarget : string) : prog () :=
  let address := http_address req in
  let domain := regexpDomain address in
  let on_black black := SendBlackListAccessLogMessageData user pwd black 1 user exitIpStr in
  let dial :=
    target ← DialContext address (ParseIP exitIpStr);
    match target with
    | Err err =>
        _ ← (if is_timeout err then call (Call.RecordDialFailConnection ipAndTarget) else mret ());
        answer_and_return service_unavailable
    | Ok _ =>
        defer (call Call.TargetClose)
          (go ← http_start req;
           if (go : bool) then http_relay fuel req user pwd exitIpStr else mret ())
    end in
  if negb (bool_decide (domain = EmptyString)) then
    '(black, in_) ← call (Call.IsInBlacklist domain);
    if (in_ : bool) then _ ← on_black black; answer_and_return service_unavailable else dial
  else dial.

(** [local] and [peer] are the addresses of the client's connection. *)
Definition httpTcpConn (fuel : nat) (local peer : string) (req : Request) : prog () :=
  match DecodeString (RemoveFirst (ProxyAuthorization req) "Basic ") with
  | Err _ => answer_and_return proxy_auth_required
  | Ok authData =>
      match Split authData ":"%char with
      | [proxyUserName; proxyPassword] =>
          r ← call (Call.Valid proxyUserName proxyPassword local peer);
          match r with
          | Err _ => answer_and_return proxy_auth_required
          | Ok exitIpStr =>
              let ipAndTarget := exitIpStr +:+ "-" +:+ Host req in
              in_ ← call (Call.IpAndTargetIsInBlacklist ipAndTarget);
              if (in_ : bool) then answer_and_return service_unavailable
              else
                '(ok, ipCount) ← Vis (Call.AddIpConnCount exitIpStr) (fun r => Done r);
                if (ok : bool) then
                  defer (Vis (Call.ReduceIpConnCount exitIpStr) (fun r => Done r))
                    (http_dial fuel req proxyUserName proxyPassword exitIpStr ipAndTarget)
                else answer_and_return service_unavailable
          end
      | _ => answer_and_return proxy_auth_required
      end
  end.

(** *** SOCKS5 *)

Definition dial_reply (err : error) : byte :=
  if Contains (Error err) "refused" then ConnectionRefused
  else if Contains (Error err) "network is unreachable" then NetworkUnreachable
  else HostUnreachable.

Definition is_ipv4 (exitIp : option bytes) : bool :=
  match exitIp with Some ip => match To4 ip with Some _ => true | None => false end | None => false end.

Definition socks_relay (fuel : nat) (user pwd exitIpStr : string) (destAddr : AddrSpec) : prog () :=
  relay fuel user user (Address destAddr) exitIpStr
    (bool_decide (regexpDomain (Address destAddr) = EmptyString))
    (fun black => SendBlackListAccessLogMessageData user pwd black 1 user exitIpStr).

(** After the destination is known. *)
Definition socks_dial (fuel : nat) (user pwd exitIpStr : string) (destAddr : AddrSpec) : prog () :=
  let ipAndTarget := exitIpStr +:+ "-" +:+ AddrSpec_String destAddr in
  let domain := regexpDomain (Address destAddr) in
  let on_black black := SendBlackListAccessLogMessageData user pwd black 1 user exitIpStr in
  let dial :=
    target ← DialContext (Address destAddr) (ParseIP exitIpStr);
    match target with
    | Err err =>
        _ ← (if is_timeout err then call (Call.RecordDialFailConnection ipAndTarget) else mret ());
        reply_and_return (dial_reply err)
    | Ok local =>
        defer (call Call.TargetClose)
          (let bind := if is_ipv4 (ParseIP exitIpStr) then mkAddr EmptyString (IP local) (Port local)
                       else mkAddr EmptyString (default [] (ParseIP "0.0.0.0")) 0 in
           err ← call (Call.SocksReply SuccessReply (Some bind));
           match err with
           | Some _ => mret ()
           | None => socks_relay fuel user pwd exitIpStr destAddr
           end)
    end in
  in_ ← call (Call.IpAndTargetIsInBlacklist ipAndTarget);
  if (in_ : bool) then reply_and_return NetworkUnreachable
  else if negb (bool_decide (domain = EmptyString)) then
    '(black, in_) ← call (Call.IsInBlacklist domain);
    if (in_ : bool) then _ ← on_black black; reply_and_return HostUnreachable else dial
  else dial.

Definition socksTcpConn (fuel : nat) (local peer : string) : prog () :=
  cred ← call Call.SocksCredentials;
  match cred with
  | Err _ => answer_and_return [UserAuthVersion; AuthFailure]
  | Ok (user, pwd) =>
      r ← call (Call.Valid user pwd local peer);
      match r with
      | Err _ => answer_and_return [UserAuthVersion; AuthFailure]
      | Ok exitIpStr =>
          '(ok, ipCount) ← Vis (Call.AddIpConnCount exitIpStr) (fun r => Done r);
          if (ok : bool) then
            defer (Vis (Call.ReduceIpConnCount exitIpStr) (fun r => Done r))
              (err ← call (Call.ConnWrite [UserAuthVersion; AuthSuccess]);
               match err with
               | Some _ => mret ()
               | None =>
                   dest ← call Call.SocksDest;
                   match dest with
                   | Err err =>
                       if bool_decide (err = UnrecognizedAddrType) then reply_and_return AddrTypeNotSupported
                       else mret ()
                   | Ok destAddr => socks_dial fuel user pwd exitIpStr destAddr
                   end
               end)
          else reply_and_return ConnectionRefused
      end
  end.

(** *** Shadowsocks *)

(** The alarm for an address at its limit, at most once per [ttl] seconds. *)
Definition limit_alarm (ip : string) : prog () :=
  conf ← call Call.GetNacosConf;
  let ttl := if negb (AlarmOneIPMaxThreshold conf =? 0) then AlarmOneIPMaxThreshold conf else 300 in
  exist ← call (Call.GetOrSetFreeCache (CONNECT_MAX_IP +:+ ip) ttl);
  match exist with
  | None => call (Call.SendAlarm ("shadowSocks用户，使用ip:" +:+ ip +:+ ",达到连接数上限，上限值为" +:+
              Itoa (AlarmOneIPMaxThreshold conf)))
  | Some _ => mret ()
  end.

(** All users of one address share a context. *)
Definition shadow_relay (fuel : nat) (ip tgt : string) : prog () :=
  relay fuel ("shadowSocks" +:+ ":" +:+ ip) "shadowSocks" tgt ip
    (bool_decide (regexpDomain tgt = EmptyString))
    (fun black => SendBlackListAccessLogMessageData ip ip black 1 EmptyString ip).

Definition shadow_dial (fuel : nat) (ip tgt ipAndTarget : string) : prog () :=
  let domain := regexpDomain tgt in
  let on_black black := SendBlackListAccessLogMessageData ip ip black 1 EmptyString ip in
  let dial :=
    target ← DialContext tgt (ParseIP ip ≫= To4);
    match target with
    | Err err =>
        if is_timeout err then call (Call.RecordDialFailConnection ipAndTarget) else mret ()
    | Ok _ =>
        defer (call Call.TargetClose)
          (shadow_relay fuel ip tgt)
    end in
  if negb (bool_decide (domain = EmptyString)) then
    '(black, in_) ← call (Call.IsInBlacklist domain);
    if (in_ : bool) then _ ← on_black black; mret () else dial
  else dial.

(** [localAddr] is [conn.LocalAddr().String()]. *)
Definition runShadowSocks (fuel : nat) (localAddr : string) : prog () :=
  let ip := match SplitHostPort localAddr with Ok (ip, _) => ip | Err _ => EmptyString end in
  r ← call (Call.ValidShadowSocks ip);
  match r with
  | Err _ => call Call.DiscardConn
  | Ok password =>
      c ← call (Call.PickCipher CipherType password);
      match c with
      | Err _ => call Call.DiscardConn
      | Ok _ =>
          tgt ← call Call.ShadowDest;
          match tgt with
          | Err _ => call Call.DiscardConn
          | Ok tgt =>
              let ipAndTarget := ip +:+ "-" +:+ tgt in
              in_ ← call (Call.IpAndTargetIsInBlacklist ipAndTarget);
              if (in_ : bool) then mret ()
              else
                '(ok, ipCount) ← Vis (Call.AddIpConnCount ip) (fun r => Done r);
                if (ok : bool) then
                  defer (Vis (Call.ReduceIpConnCount ip) (fun r => Done r)) (shadow_dial fuel ip tgt ipAndTarget)
                else limit_alarm ip
          end
      end
  end.

(** *** Dispatch *)

(** A first read of at most eight bytes is taken for SOCKS5. *)
Definition handlerTcpConn (fuel : nat) (local peer : string) : prog () :=
  recovering
    (b ← call Call.ConnRead;
     match b with
     | Err _ => mret ()
     | Ok b =>
         if (length b <=? 8)%nat then socksTcpConn fuel local peer
         else
           req ← call (Call.HttpReadRequest b);
           match req with
           | Err _ => mret ()
           | Ok req => httpTcpConn fuel local peer req
           end
     end).
Definition handleShadowSocks (fuel : nat) (localAddr : string) : prog () :=
  recovering (runShadowSocks fuel localAddr).
End handlers.

(** ** The protocol of a handler *)

(** What a handler has obtained and holds: the exit address it is
    authenticated for, the exit and target that passed the dial-failure list,
    the last domain that passed the blacklist, whether a list blocked it, the
    address it is counted under, whether the target is open, its user context
    and whether the relay's goroutines have been stopped. *)
Record mon := mkMon {
  auth : option string; pair : option string; cleared : option string; blocked : bool;
  counted : option string; target : bool; ctx : option (string * loc); stopped : bool
}.
Definition start : mon := mkMon None None None false None false None false.
Definition guard (b : bool) (q : mon) : option mon := if b then Some q else None.

Section protocol.
Context (ParseIP : string -> option bytes).

(** The local address for an exit address: none, or one that stands for it. *)
Definition local_of (ip : option bytes) : option bytes :=
  match ip with Some ip => if bool_decide (ip = []) then None else Some ip | None => None end.
Definition from_exit (e : string) (local : option bytes) : bool :=
  bool_decide (local = local_of (ParseIP e)) || bool_decide (local = local_of (ParseIP e ≫= To4)).

(** May the address be dialled? *)
Definition may_dial (q : mon) (address : string) (local : option bytes) : bool :=
  match auth q, pair q with
  | Some e, Some s =>
      bool_decide (counted q = Some e) && HasPrefix s (e +:+ "-") && from_exit e local &&
      (bool_decide (regexpDomain address = EmptyString) || bool_decide (cleared q = Some (regexpDomain address))) &&
      negb (blocked q) && negb (target q)
  | _, _ => false
  end.

Definition protocol (q : mon) (o : op) : ans o -> option mon :=
  let '(mkMon au pa cl bl co ta cx st) := q in
  match o return ans o -> option mon with
  | Call.Valid _ _ _ _ => fun r =>
      guard (bool_decide (au = None)) (mkMon (match r with Ok e => Some e | Err _ => None end) pa cl bl co ta cx st)
  | Call.ValidShadowSocks ip => fun r =>
      guard (bool_decide (au = None)) (mkMon (match r with Ok _ => Some ip | Err _ => None end) pa cl bl co ta cx st)
  | Call.IpAndTargetIsInBlacklist s => fun b =>
      guard true (if (b : bool) then mkMon au pa cl true co ta cx st else mkMon au (Some s) cl bl co ta cx st)
  | Call.IsInBlacklist d => fun r =>
      guard true (if (r : string * bool).2 then mkMon au pa cl true co ta cx st else mkMon au pa (Some d) bl co ta cx st)
  | Call.AddIpConnCount ip => fun r =>
      guard (bool_decide (au = Some ip) && bool_decide (co = None) && negb bl)
        (match r with Ret (true, _) => mkMon au pa cl bl (Some ip) ta cx st | _ => q end)
  | Call.ReduceIpConnCount ip => fun _ =>
      guard (bool_decide (co = Some ip) && negb ta && bool_decide (cx = None)) (mkMon au pa cl bl None ta cx st)
  | Call.NetDial address local => fun r =>
      guard (may_dial q address local) (match r with Ok _ => mkMon au pa cl bl co true cx st | Err _ => q end)
  | Call.RecordDialFailConnection s => fun _ => guard (bool_decide (pa = Some s)) q
  | Call.HttpWriteRequest r => fun _ => guard (bool_decide (ProxyAuthorization r = EmptyString)) q
  | Call.TargetWrite _ => fun _ => guard ta q
  | Call.TargetClose => fun _ => guard (ta && bool_decide (cx = None)) (mkMon au pa cl bl co false cx st)
  | Call.AddUserConnection k => fun r =>
      guard (ta && bool_decide (cx = None))
        (match r with Ret l => mkMon au pa cl bl co ta (Some (k, l)) false | Panic => q end)
  | Call.StartSniffing => fun _ => guard (bool_decide (is_Some cx) && negb st) q
  | Call.StartCopying l => fun _ => guard (bool_decide (snd <$> cx = Some l) && negb st) q
  | Call.StopRelay => fun _ => guard (bool_decide (is_Some cx) && negb st) (mkMon au pa cl bl co ta cx true)
  | Call.CloseErrCh | Call.CloseByteChan | Call.PushAccessLog _ => fun _ => guard st q
  | Call.DeleteUserConnection k l => fun _ =>
      guard (bool_decide (cx = Some (k, l)) && st) (mkMon au pa cl bl co ta None st)
  | Call.PushBlackLog _ => fun _ => guard bl q
  | _ => fun _ => Some q
  end.

(** Nothing is held. *)
Definition quiet (q : mon) : Prop := counted q = None /\ target q = false /\ ctx q = None.

(** The same things are held. *)
Definition same_held (q q' : mon) : Prop :=
  counted q' = counted q /\ target q' = target q /\ ctx q' = ctx q /\ stopped q' = stopped q.

Abbreviation follows := (wp protocol (fun _ => True)).

Section relay.
Context (mode : string) (on_black : string -> prog (option error)).
Context (on_black_ok : forall b q, blocked q = true -> follows (on_black b) (fun _ q' => q' = q) q).

Lemma relay_loop_ok fuel q : follows (relay_loop fuel on_black) (fun _ q' => same_held q q') q.
Proof.
  revert q. induction fuel as [|fuel IH]; intros q; [done|]. destruct q as [au pa cl bl co ta cx st].
  simpl. intros ev. destruct ev; try done. intros d. case_bool_decide; simpl; [apply IH|].
  intros [black [|]]; simpl.
  - apply prog_wp_bind. eapply prog_wp_mono; [by apply on_black_ok|]. intros [e|] q' ->; done.
  - eapply prog_wp_mono; [apply IH|]. done.
Qed.

Lemma stop_and_report_ok user tgt exitIp q :
  is_Some (ctx q) -> stopped q = false ->
  follows (stop_and_report mode user tgt exitIp)
    (fun _ q' => counted q' = counted q /\ target q' = target q /\ ctx q' = ctx q /\ stopped q' = true) q.
Proof.
  destruct q as [au pa cl bl co ta cx st]. simpl. intros Hc -> _. rewrite bool_decide_eq_true_2 by done.
  simpl. intros d. case_bool_decide; simpl; [|done]. by destruct (Split tgt ":"%char).
Qed.

(** A relay gives back the context it took and leaves the rest as it was. *)
Lemma relay_ok fuel key user tgt exitIp sniff q :
  target q = true -> ctx q = None ->
  follows (relay mode fuel key user tgt exitIp sniff on_black)
    (fun _ q' => counted q' = counted q /\ target q' = true /\ ctx q' = None) q.
Proof.
  destruct q as [au pa cl bl co ta cx st]. simpl. intros -> ->. intros [l|]; simpl; [|done].
  apply prog_wp_defer, prog_wp_defer, prog_wp_defer, prog_wp_defer.
  assert (forall q, ctx q = Some (key, l) -> stopped q = false -> counted q = co -> target q = true ->
    follows (_ ← call (Call.StartCopying l); relay_loop fuel on_black)
      (fun _ q' => ctx q' = Some (key, l) /\ stopped q' = false /\ counted q' = co /\ target q' = true) q) as Hcopy.
  { intros [] Hc Hs Hco Ht. simpl in *. subst. intros _. rewrite bool_decide_eq_true_2 by done. simpl.
    eapply prog_wp_mono; [apply relay_loop_ok|]. intros r q' (? & ? & ? & ?). done. }
  eapply prog_wp_mono with (Q := fun _ q' => ctx q' = Some (key, l) /\ stopped q' = false /\ counted q' = co /\ target q' = true).
  - destruct sniff; [|by apply Hcopy]. simpl. intros [e|]; [done|].
    by apply (Hcopy (mkMon au pa cl bl co true (Some (key, l)) false)).
  - intros r q' (Hc & Hs & Hco & Ht). eapply prog_wp_mono; [apply stop_and_report_ok; [by rewrite Hc|done]|].
    intros rd [au' pa' cl' bl' co' ta' cx' st'] (H1 & H2 & H3 & H4). simpl in *. subst.
    destruct rd as [[]|]; simpl; intros _ _; rewrite Hc, bool_decide_eq_true_2 by done; simpl; by intros [[]|].
Qed.
End relay.

Context (mode : string).

Lemma black_log_ok user ip2 ty acc ex b q :
  blocked q = true ->
  follows (SendBlackListAccessLogMessageData user ip2 b ty acc ex) (fun _ q' => q' = q) q.
Proof. destruct q. simpl. by intros ->. Qed.

Lemma HasPrefix_app (a b : string) : HasPrefix (a +:+ b) a = true.
Proof.
  induction a as [|c a IH]; [by destruct b|].
  change (bool_decide (c = c) && HasPrefix (a +:+ b) a = true). by rewrite bool_decide_eq_true_2, IH.
Qed.
Lemma HasPrefix_pair (e s : string) : HasPrefix (e +:+ "-" +:+ s) (e +:+ "-") = true.
Proof. rewrite <- (str_app_assoc e "-" s). apply HasPrefix_app. Qed.

Lemma from_exit_16 e : from_exit e (local_of (ParseIP e)) = true.
Proof. unfold from_exit. by rewrite bool_decide_eq_true_2. Qed.
Lemma from_exit_4 e : from_exit e (local_of (ParseIP e ≫= To4)) = true.
Proof. apply orb_true_iff. right. by apply bool_decide_eq_true_2. Qed.

(** A handler that is about to dial: authenticated, counted, the pair checked. *)
Definition ready (e ipt : string) (q : mon) : Prop :=
  auth q = Some e /\ pair q = Some ipt /\ counted q = Some e /\ blocked q = false /\ target q = false /\
  ctx q = None /\ HasPrefix ipt (e +:+ "-") = true.
(** Nothing but the count is held. *)
Definition only_counted (e : string) (q : mon) : Prop :=
  counted q = Some e /\ target q = false /\ ctx q = None.

(** The check of the domain, then the dial, then what follows. *)
Lemma dial_ok e ipt address ip (black : string -> prog ()) (k : result error AddrSpec -> prog ()) q :
  ready e ipt q -> from_exit e (local_of ip) = true ->
  (forall b q, blocked q = true -> only_counted e q -> follows (black b) (fun _ q' => only_counted e q') q) ->
  (forall err q, only_counted e q -> pair q = Some ipt -> follows (k (Err err)) (fun _ q' => only_counted e q') q) ->
  (forall a q, counted q = Some e -> target q = true -> ctx q = None ->
     follows (k (Ok a)) (fun _ q' => only_counted e q') q) ->
  follows
    (if negb (bool_decide (regexpDomain address = EmptyString)) then
       '(b, in_) ← call (Call.IsInBlacklist (regexpDomain address));
       if (in_ : bool) then black b else (t ← DialContext address ip; k t)
     else t ← DialContext address ip; k t) (fun _ q' => only_counted e q') q.
Proof.
  intros (Ha & Hp & Hc & Hb & Ht & Hx & Hpre) Hfrom Hblack Herr Hok.
  assert (forall q, ready e ipt q ->
    (regexpDomain address = EmptyString \/ cleared q = Some (regexpDomain address)) ->
    follows (t ← DialContext address ip; k t) (fun _ q' => only_counted e q') q) as Hdial.
  { intros [au pa cl bl co ta cx st] (Ha' & Hp' & Hc' & Hb' & Ht' & Hx' & _) Hcl. simpl in *. subst.
    intros r. assert (may_dial (mkMon (Some e) (Some ipt) cl false (Some e) false None st) address (local_of ip) = true)
      as Hm.
    { unfold may_dial. simpl. rewrite bool_decide_eq_true_2, Hpre, Hfrom by done. simpl.
      destruct Hcl as [Hcl|Hcl]; rewrite (bool_decide_eq_true_2 _ Hcl); [done|]. by rewrite orb_true_r. }
    unfold local_of in Hm. rewrite Hm. simpl. destruct r as [a|err]; [by apply Hok|by apply Herr]. }
  case_bool_decide as Hd; simpl; [by apply Hdial; [|left]|].
  destruct q as [au pa cl bl co ta cx st]. simpl in Ha, Hp, Hc, Hb, Ht, Hx. subst. intros [b [|]].
  - by apply (Hblack b (mkMon (Some e) (Some ipt) cl true (Some e) false None st)).
  - by apply (Hdial (mkMon (Some e) (Some ipt) (Some (regexpDomain address)) false (Some e) false None st)); [|right].
Qed.

Lemma answer_ok b (Q : mon -> Prop) q : Q q -> follows (answer_and_return b) (fun _ q' => Q q') q.
Proof. destruct q. simpl. auto. Qed.
Lemma reply_ok b (Q : mon -> Prop) q : Q q -> follows (reply_and_return b) (fun _ q' => Q q') q.
Proof. destruct q. simpl. auto. Qed.
Lemma record_ok ipt err (k : prog ()) (Q : mon -> Prop) q :
  pair q = Some ipt -> follows k (fun _ q' => Q q') q ->
  follows (_ ← (if is_timeout err then call (Call.RecordDialFailConnection ipt) else mret ()); k)
    (fun _ q' => Q q') q.
Proof.
  destruct q. simpl. intros ->. destruct (is_timeout err); [|done]. simpl.
  by rewrite bool_decide_eq_true_2.
Qed.

(** The target is closed last. *)
Lemma close_ok e (body : prog ()) q :
  follows body (fun _ q' => counted q' = Some e /\ target q' = true /\ ctx q' = None) q ->
  follows (defer (call Call.TargetClose) body) (fun _ q' => only_counted e q') q.
Proof.
  intros Hb. apply prog_wp_defer. eapply prog_wp_mono; [exact Hb|].
  intros r [] (Hc & Ht & Hx). simpl in *. subst. simpl. by intros _.
Qed.

Lemma http_start_ok req q :
  target q = true -> follows (http_start req) (fun _ q' => q' = q) q.
Proof.
  destruct q. simpl. intros ->. unfold http_start. case_bool_decide; simpl.
  - by intros [e|].
  - intros [b|e]; simpl; [|done]. by intros [e|].
Qed.

Lemma http_dial_ok fuel req user pwd e ipt q :
  ready e ipt q ->
  follows (http_dial ParseIP mode fuel req user pwd e ipt) (fun _ q' => only_counted e q') q.
Proof.
  intros Hr. unfold http_dial. apply (dial_ok e ipt); [done|apply from_exit_16|..].
  - intros b q' Hb Hq. apply prog_wp_bind. eapply prog_wp_mono; [by apply black_log_ok|].
    intros [x|] q'' ->; [by apply answer_ok|done].
  - intros err q' Hq Hp. apply record_ok; [done|]. by apply answer_ok.
  - intros a q' Hc Ht Hx. apply close_ok. apply prog_wp_bind. eapply prog_wp_mono; [by apply http_start_ok|].
    intros [go|] q'' ->; [|done]. destruct go; [|done].
    eapply prog_wp_mono; [apply relay_ok; [|done..]|]; [intros; by apply black_log_ok|].
    intros r q'' (Hc' & ? & ?). by rewrite Hc', Hc.
Qed.

Lemma socks_dial_ok fuel user pwd e dest q :
  auth q = Some e -> counted q = Some e -> blocked q = false -> target q = false -> ctx q = None ->
  follows (socks_dial ParseIP mode fuel user pwd e dest) (fun _ q' => only_counted e q') q.
Proof.
  destruct q. cbn [auth counted blocked target ctx]. intros -> -> -> -> ->. unfold socks_dial. apply prog_wp_bind.
  intros [|]; cbn [protocol guard wp]; [by apply reply_ok|]. apply (dial_ok e (e +:+ "-" +:+ AddrSpec_String dest)).
  - repeat split. apply HasPrefix_pair.
  - apply from_exit_16.
  - intros b q' Hb Hq. apply prog_wp_bind. eapply prog_wp_mono; [by apply black_log_ok|].
    intros [x|] q'' ->; [by apply reply_ok|done].
  - intros err q' Hq Hp. apply record_ok; [done|]. by apply reply_ok.
  - intros a q' Hc Ht Hx. apply close_ok. destruct q'. simpl in *. subst. intros [e'|]; [done|].
    eapply prog_wp_mono; [apply relay_ok; [|done..]|]; [intros; by apply black_log_ok|]. done.
Qed.

Lemma shadow_dial_ok fuel e tgt ipt q :
  ready e ipt q ->
  follows (shadow_dial ParseIP mode fuel e tgt ipt) (fun _ q' => only_counted e q') q.
Proof.
  intros Hr. unfold shadow_dial. apply (dial_ok e ipt); [done|apply from_exit_4|..].
  - intros b q' Hb Hq. apply prog_wp_bind. eapply prog_wp_mono; [by apply black_log_ok|]. by intros [x|] q'' ->.
  - intros err q' Hq Hp. destruct q'. simpl in *. subst. destruct (is_timeout err); [|done]. simpl.
    by rewrite bool_decide_eq_true_2.
  - intros a q' Hc Ht Hx. apply close_ok.
    eapply prog_wp_mono; [apply relay_ok; [|done..]|]; [intros; by apply black_log_ok|].
    intros r q'' (Hc' & ? & ?). by rewrite Hc', Hc.
Qed.

(** The count is given back last. *)
Lemma reduce_ok e (body : prog ()) q :
  follows body (fun _ q' => only_counted e q') q ->
  follows (defer (Vis (Call.ReduceIpConnCount e) (fun r => Done r)) body) (fun _ q' => quiet q') q.
Proof.
  intros Hb. apply prog_wp_defer. eapply prog_wp_mono; [exact Hb|].
  intros r [] (Hc & Ht & Hx). simpl in *. subst. rewrite bool_decide_eq_true_2 by done. simpl.
  intros [[]|]; done.
Qed.

(** One call at the front of a program. *)
Ltac call_step := apply prog_wp_bind; cbn [wp call protocol guard start].

(** A count is asked for and, when granted, given back. *)
Lemma count_ok e (body no : prog ()) q :
  auth q = Some e -> counted q = None -> blocked q = false -> quiet q ->
  (forall q', auth q' = Some e -> pair q' = pair q -> counted q' = Some e -> blocked q' = false ->
     target q' = false -> ctx q' = None -> follows body (fun _ q' => only_counted e q') q') ->
  follows no (fun _ q' => quiet q') q ->
  follows ('(ok, ipCount) ← Vis (Call.AddIpConnCount e) (fun r => Done r);
           if (ok : bool) then defer (Vis (Call.ReduceIpConnCount e) (fun r => Done r)) body else no)
    (fun _ q' => quiet q') q.
Proof.
  destruct q as [au pa cl bl co ta cx st]. cbn [auth counted blocked pair]. intros -> -> -> Hq Hbody Hno.
  destruct Hq as (_ & Ht & Hx). cbn [target ctx] in Ht, Hx. subst. call_step.
  intros [[[|] n]|]; rewrite bool_decide_eq_true_2 by done; cbn [wp andb negb]; [|done|done].
  by apply reduce_ok, (Hbody (mkMon (Some e) pa cl false (Some e) false None st)).
Qed.

Lemma httpTcpConn_ok fuel local peer req :
  follows (httpTcpConn ParseIP mode fuel local peer req) (fun _ q' => quiet q') start.
Proof.
  unfold httpTcpConn. destruct (DecodeString _) as [authData|]; [|by apply answer_ok].
  destruct (Split authData ":"%char) as [|u [|p [|]]]; try by apply answer_ok.
  call_step. intros [e|]; cbn [wp]; [|by apply answer_ok]. call_step.
  intros [|]; cbn [wp]; [by apply answer_ok|]. apply count_ok; [done..| |by apply answer_ok].
  intros. apply http_dial_ok. split_and!; try done. apply HasPrefix_pair.
Qed.

Lemma socksTcpConn_ok fuel local peer :
  follows (socksTcpConn ParseIP mode fuel local peer) (fun _ q' => quiet q') start.
Proof.
  call_step. intros [[user pwd]|]; cbn [wp]; [|by apply answer_ok]. call_step.
  intros [e|]; cbn [wp]; [|by apply answer_ok]. apply count_ok; [done..| |by apply reply_ok].
  intros [au pa cl bl co ta cx st] Ha _ Hc Hb Ht Hx. simpl in Ha, Hc, Hb, Ht, Hx. subst. call_step.
  intros [err|]; cbn [wp]; [done|]. call_step. intros [dest|err]; [by apply socks_dial_ok|].
  case_bool_decide; cbn [wp]; [by apply reply_ok|done].
Qed.

Lemma runShadowSocks_ok fuel addr :
  follows (runShadowSocks ParseIP mode fuel addr) (fun _ q' => quiet q') start.
Proof.
  unfold runShadowSocks. set (ip := match SplitHostPort addr with Ok _ => _ | Err _ => _ end).
  call_step. intros [pwd|]; cbn [wp]; [|done]. call_step. intros [c|]; cbn [wp]; [|done].
  call_step. intros [tgt|]; cbn [wp]; [|done]. call_step. intros [|]; cbn [wp]; [done|].
  apply count_ok; [done..| |].
  - intros. apply shadow_dial_ok. split_and!; try done. apply HasPrefix_pair.
  - intros conf [exist_|]; done.
Qed.

Lemma handlers_follow fuel local peer localAddr :
  follows (handlerTcpConn ParseIP mode fuel local peer) (fun r q => r = Ret () /\ quiet q) start /\
  follows (handleShadowSocks ParseIP mode fuel localAddr) (fun r q => r = Ret () /\ quiet q) start.
Proof.
  split; apply prog_wp_recovering.
  - simpl. intros [b|]; simpl; [|done]. destruct (length b <=? 8)%nat.
    + eapply prog_wp_mono; [apply socksTcpConn_ok|done].
    + simpl. intros [req|]; [|done]. eapply prog_wp_mono; [apply httpTcpConn_ok|done].
  - eapply prog_wp_mono; [apply runShadowSocks_ok|done].
Qed.

End protocol.

(** ** Termination *)

(** The number of ticks a handler has seen. *)
Definition ticks (n : nat) (o : op) : ans o -> option nat :=
  match o return ans o -> option nat with
  | Call.Select => fun ev => Some (match ev with Tick => S n | _ => n end)
  | _ => fun _ => Some n
  end.

Section termination.
Context (ParseIP : string -> option bytes) (mode : string) (fuel : nat).
(** Still running only after [fuel] ticks. *)
Abbreviation lasts := (wp ticks (fun n => (fuel <= n)%nat)).
Definition patient {A} (p : prog A) : Prop := forall n, lasts p (fun _ _ => True) n.

Lemma patient_done {A} (r : outcome A) : patient (Done r).
Proof. done. Qed.
Lemma patient_vis {A} (o : op) (k : ans o -> prog A) : (forall x, patient (k x)) -> patient (Vis o k).
Proof. intros Hk n x. destruct o; apply Hk. Qed.
Lemma patient_bind {A B} (p : prog A) (f : A -> prog B) :
  patient p -> (forall a, patient (f a)) -> patient (p ≫= f).
Proof.
  intros Hp Hf n. apply prog_wp_bind. eapply prog_wp_mono; [apply Hp|]. intros [a|] n' _; [apply Hf|done].
Qed.
Lemma patient_defer {A} (d : prog ()) (body : prog A) : patient d -> patient body -> patient (defer d body).
Proof.
  intros Hd Hb n. apply prog_wp_defer. eapply prog_wp_mono; [apply Hb|]. intros r n' _.
  eapply prog_wp_mono; [apply Hd|]. by intros [|] ? _.
Qed.
Lemma patient_recovering (body : prog ()) : patient body -> patient (recovering body).
Proof. intros Hb n. apply prog_wp_recovering. eapply prog_wp_mono; [apply Hb|done]. Qed.
Lemma patient_call (o : op) : patient (call o).
Proof. by apply patient_vis. Qed.

(** Every turn of the loop but the last sees a tick. *)
Lemma patient_loop on_black : (forall b, patient (on_black b)) -> patient (relay_loop fuel on_black).
Proof.
  intros Hb. assert (forall f n, (fuel <= n + f)%nat -> lasts (relay_loop f on_black) (fun _ _ => True) n) as Hl.
  { induction f as [|f IH]; intros n Hn; [simpl; lia|]. apply prog_wp_bind. intros [| | |]; try done. simpl.
    intros d. case_bool_decide; [apply IH; lia|]. simpl. intros [b [|]]; [|apply IH; lia].
    apply (patient_bind (on_black b)); [apply Hb|done]. }
  intros n. apply Hl. lia.
Qed.

#[local] Hint Resolve patient_done patient_call : hera.
#[local] Hint Unfold answer_and_return reply_and_return DialContext SendBlackListAccessLogMessageData
  ReportAccessLogToInfluxDB http_relay socks_relay shadow_relay mret prog_mret : hera.

(** Decompose a program into its calls. *)
Ltac patience :=
  repeat (intros; autounfold with hera;
    first [ solve [eauto with hera] | apply patient_loop | apply patient_bind | apply patient_defer | apply patient_vis | apply patient_recovering
          | match goal with |- patient (match ?x with _ => _ end) => destruct x end
          | progress cbv zeta ]).

Lemma patient_report user tgt exitIp : patient (stop_and_report mode user tgt exitIp).
Proof. unfold stop_and_report. patience. Qed.
Lemma patient_relay key user tgt exitIp sniff on_black :
  (forall b, patient (on_black b)) -> patient (relay mode fuel key user tgt exitIp sniff on_black).
Proof. intros Hb. pose proof (patient_report user tgt exitIp). unfold relay. patience. Qed.
Lemma patient_http_start req : patient (http_start req).
Proof. unfold http_start. patience. Qed.
#[local] Hint Resolve patient_http_start : hera.
(** The same with relays. *)
Ltac patience_relay := repeat (patience; try apply patient_relay).

Lemma patient_http local peer req : patient (httpTcpConn ParseIP mode fuel local peer req).
Proof. unfold httpTcpConn, http_dial. patience_relay. Qed.
Lemma patient_socks local peer : patient (socksTcpConn ParseIP mode fuel local peer).
Proof. unfold socksTcpConn, socks_dial. patience_relay. Qed.
Lemma patient_shadow addr : patient (runShadowSocks ParseIP mode fuel addr).
Proof. unfold runShadowSocks, shadow_dial, limit_alarm. patience_relay. Qed.

End termination.

(** ** What the blacklist log carries *)

(** Every log of a blocked access names this site's user, and has this text
    where the exit address belongs. *)
Definition logs_with (user text : string) (q : ()) (o : op) : ans o -> option () :=
  match o return ans o -> option () with
  | Call.PushBlackLog l => fun _ =>
      if bool_decide (Account l = user) && bool_decide (ExitIp l = text) then Some () else None
  | _ => fun _ => Some ()
  end.

Section blacklist_log.
Context (ParseIP : string -> option bytes) (mode : string) (fuel : nat) (user text : string).
Abbreviation every := (wp (logs_with user text) (fun _ => True)).
Definition logs {A} (p : prog A) : Prop := every p (fun _ _ => True) ().

Lemma logs_vis {A} (o : op) (k : ans o -> prog A) :
  (forall x, logs_with user text () o x = Some ()) -> (forall x, logs (k x)) -> logs (Vis o k).
Proof. intros Ho Hk x. rewrite Ho. apply Hk. Qed.
Lemma logs_bind {A B} (p : prog A) (f : A -> prog B) : logs p -> (forall a, logs (f a)) -> logs (p ≫= f).
Proof. intros Hp Hf. apply prog_wp_bind. eapply prog_wp_mono; [apply Hp|]. intros [a|] [] _; [apply Hf|done]. Qed.
Lemma logs_defer {A} (d : prog ()) (body : prog A) : logs d -> logs body -> logs (defer d body).
Proof.
  intros Hd Hb. apply prog_wp_defer. eapply prog_wp_mono; [apply Hb|]. intros r [] _. eapply prog_wp_mono; [apply Hd|].
  by intros [|] ? _.
Qed.
Lemma logs_loop n on_black : (forall b, logs (on_black b)) -> logs (relay_loop n on_black).
Proof.
  intros Hb. induction n as [|n IH]; [done|]. apply logs_bind; [by apply logs_vis|]. intros [| | |]; try done.
  apply logs_bind; [by apply logs_vis|]. intros d. case_bool_decide; [apply IH|].
  apply logs_bind; [by apply logs_vis|]. intros [b [|]]; [|apply IH]. apply logs_bind; [apply Hb|done].
Qed.

Ltac logging :=
  repeat (intros; autounfold with hera;
    first [ done | apply logs_loop | apply logs_bind | apply logs_defer
          | apply logs_vis; [solve [done | simpl; rewrite !bool_decide_eq_true_2 by done; done]|]
          | match goal with |- logs (match ?x with _ => _ end) => destruct x end
          | progress cbv zeta ]).
#[local] Hint Unfold answer_and_return reply_and_return DialContext SendBlackListAccessLogMessageData
  ReportAccessLogToInfluxDB http_relay socks_relay relay stop_and_report call mret prog_mret : hera.

(** The blacklist log has the client's password in the field of the exit
    address: the HTTP handler passes the password where the address is
    expected, and the same holds for the SOCKS5 handler once it has read the
    credentials. *)
Theorem blacklist_log_has_password local peer req authData exitIpStr destAddr :
  DecodeString (RemoveFirst (ProxyAuthorization req) "Basic ") = Ok authData ->
  Split authData ":"%char = [user; text] ->
  logs (httpTcpConn ParseIP mode fuel local peer req) /\
  logs (socks_dial ParseIP mode fuel user text exitIpStr destAddr).
Proof.
  intros Hd Hs. split.
  - unfold httpTcpConn. rewrite Hd, Hs. unfold http_dial, http_start, relay, stop_and_report. logging.
  - unfold socks_dial, relay, stop_and_report. logging.
Qed.
End blacklist_log.

Definition sample_request : Request :=
  mkRequest "CONNECT" "bad.example.com:443" "Basic Ym9iOnB3" EmptyString.
Definition no_ip (s : string) : option bytes := None.

(** A blocked request: the log it leaves. *)
Lemma blacklist_log_has_password_witness :
  logs "bob" "pw" (httpTcpConn no_ip "ipv4" 1 "10.0.0.1" "9.9.9.9" sample_request) /\
  exists k, httpTcpConn no_ip "ipv4" 1 "10.0.0.1" "9.9.9.9" sample_request =
    Vis (Call.Valid "bob" "pw" "10.0.0.1" "9.9.9.9") k.
Proof.
  split; [|eexists; reflexivity].
  apply (blacklist_log_has_password no_ip "ipv4" 1 "bob" "pw" "10.0.0.1" "9.9.9.9" sample_request
    "bob:pw" "10.0.0.1" (mkAddr "bad.example.com" [] 443)); reflexivity.
Defined.
