(* ===== verification/FreeCache.v ===== *)
(** * The cache of sent alarms ([utils/free_cache.go])

    [github.com/coocood/freecache] is a third-party package: the program uses
    it through the class [FreeCacheOps] and relies on the documented behaviour
    stated in [FreeCache]. The Shadowsocks handler asks it whether an alarm for
    an address was sent lately ([server/shadowsocks_handler.go]); the theorem
    says that no alarm is held back for another reason. *)
From stdpp Require Import base gmap strings numbers pretty list.
From S2P Require Import Prelude GoIO Socks5 Manager Text Program Proxy.

#[global] Instance byte_eq_dec : EqDecision Byte.byte := Byte.byte_eq_dec.
#[global] Instance byte_countable : Countable Byte.byte := inj_countable' byte_Z Z_byte Z_byte_of_byte.

(** Times are seconds of the clock of the cache. *)
Class FreeCacheOps (C : Type) := {
  fc_Get : Z -> bytes -> C -> result error bytes * C;
  fc_Set : Z -> bytes -> bytes -> Z -> C -> option error * C;
  fc_GetOrSet : Z -> bytes -> bytes -> Z -> C -> (option bytes * option error) * C
}.

(** When an entry stored now is over; a lifetime of zero or less is for ever. *)
Definition expiry (now expireSeconds : Z) : option Z :=
  if 0 <? expireSeconds then Some (now + expireSeconds) else None.
Definition live (now : Z) (e : option Z) : Prop := match e with Some t => now < t | None => True end.

(** [fc_repr c g]: what the cache holds is in the table [g]. It may hold less,
    because it gives up old entries when it is full. *)
Class FreeCache (C : Type) `{FreeCacheOps C} := {
  fc_repr : C -> gmap bytes (bytes * option Z) -> Prop;
  fc_Get_spec now k c g : fc_repr c g ->
    fc_repr (fc_Get now k c).2 g /\
    forall v, (fc_Get now k c).1 = Ok v -> exists e, g !! k = Some (v, e) /\ live now e;
  fc_Set_spec now k v ttl c g : fc_repr c g ->
    fc_repr (fc_Set now k v ttl c).2
      (match (fc_Set now k v ttl c).1 with None => <[k := (v, expiry now ttl)]> g | Some _ => g end);
  (** an entry that is there is returned; otherwise the new one is stored, with
      [nil] as the answer, or cannot be stored, with an error *)
  fc_GetOrSet_spec now k v ttl c g : fc_repr c g ->
    match (fc_GetOrSet now k v ttl c).1 with
    | (Some v', _) => (exists e, g !! k = Some (v', e) /\ live now e) /\ fc_repr (fc_GetOrSet now k v ttl c).2 g
    | (None, None) => fc_repr (fc_GetOrSet now k v ttl c).2 (<[k := (v, expiry now ttl)]> g)
    | (None, Some _) => fc_repr (fc_GetOrSet now k v ttl c).2 g
    end
}.

Section free_cache.
Context {C : Type} `{FreeCache C}.

Definition GetOrSetFreeCache (now : Z) (key : string) (value : bytes) (expireSeconds : Z) (cache : C)
  : (option bytes * option error) * C := fc_GetOrSet now (bytes_of_str key) value expireSeconds cache.
Definition GetFreeCache (now : Z) (key : string) (cache : C) : (option bytes * option error) * C :=
  match fc_Get now (bytes_of_str key) cache with
  | (Err err, cache) => ((None, Some err), cache)
  | (Ok value, cache) => ((Some value, None), cache)
  end.
Definition SetFreeCache (now : Z) (key : string) (value : bytes) (expireSeconds : Z) (cache : C)
  : option error * C := fc_Set now (bytes_of_str key) value expireSeconds cache.

(** ** The alarm of the Shadowsocks handler on this cache *)

(** One run of the handler's code for an address at its limit: the alarms it
    sends and the cache afterwards. *)
Fixpoint run_alarm (now : Z) (conf : NacosConfig) (p : prog ()) (cache : C) : list string * C :=
  match p with
  | Vis o k =>
      match o return (ans o -> C -> list string * C) -> list string * C with
      | Call.GetNacosConf => fun run => run conf cache
      | Call.GetOrSetFreeCache key ttl => fun run =>
          let '((found, _), cache) := GetOrSetFreeCache now key [Byte.x01] ttl cache in run found cache
      | Call.SendAlarm msg => fun run => let '(sent, cache) := run () cache in (msg :: sent, cache)
      | _ => fun _ => ([], cache)
      end (fun x cache => run_alarm now conf (k x) cache)
  | _ => ([], cache)
  end.

(** The time and the address of every connection that met the limit, with the
    configuration it saw. *)
Record limit_hit := mkHit { h_now : Z; h_ip : string; h_conf : NacosConfig }.
Definition hit_ttl (h : limit_hit) : Z :=
  if negb (AlarmOneIPMaxThreshold (h_conf h) =? 0) then AlarmOneIPMaxThreshold (h_conf h) else 300.

(** The hits in order, each with whether it sent its alarm. *)
Fixpoint run_hits (hs : list limit_hit) (cache : C) : list (limit_hit * list string) :=
  match hs with
  | [] => []
  | h :: hs' =>
      let '(sent, cache) := run_alarm (h_now h) (h_conf h) (limit_alarm (h_ip h)) cache in
      (h, sent) :: run_hits hs' cache
  end.

(** The text of the alarm: it gives the lifetime of the entry, not the limit
    that was met. *)
Definition alarm_text (h : limit_hit) : string :=
  "shadowSocks用户，使用ip:" +:+ h_ip h +:+ ",达到连接数上限，上限值为" +:+ Itoa (AlarmOneIPMaxThreshold (h_conf h)).

Definition alarm_key (ip : string) : bytes := bytes_of_str (CONNECT_MAX_IP +:+ ip).

Lemma alarm_key_inj ip ip' : alarm_key ip = alarm_key ip' -> ip = ip'.
Proof.
  intros E. apply (f_equal str_of_bytes) in E. unfold alarm_key in E. rewrite !str_bytes_str in E.
  by apply (inj (String.append CONNECT_MAX_IP)) in E.
Qed.

(** One hit sends its alarm, unless the cache has the entry. *)
Lemma run_alarm_exact h (c : C) :
  let '((found, _), c') := GetOrSetFreeCache (h_now h) (CONNECT_MAX_IP +:+ h_ip h) [Byte.x01] (hit_ttl h) c in
  run_alarm (h_now h) (h_conf h) (limit_alarm (h_ip h)) c =
    (match found with None => [alarm_text h] | Some _ => [] end, c').
Proof.
  unfold limit_alarm, mbind, prog_mbind, call. simpl. unfold hit_ttl.
  destruct (GetOrSetFreeCache _ _ _ _ c) as [[[v|] err] c']; reflexivity.
Qed.

(** The entries of the table stand for alarms that were sent. *)
Definition alarms_of (pre : list (limit_hit * list string)) (g : gmap bytes (bytes * option Z)) : Prop :=
  forall ip v e, g !! alarm_key ip = Some (v, e) -> exists h, (h, [alarm_text h]) ∈ pre /\ h_ip h = ip /\
    e = expiry (h_now h) (hit_ttl h).

Lemma alarms_of_app pre x g : alarms_of pre g -> alarms_of (pre ++ x) g.
Proof.
  intros Hg ip v e He. destruct (Hg _ _ _ He) as (h & ? & ?). exists h. split; [apply elem_of_app; by left|done].
Qed.

Lemma run_hits_alarms hs pre (c : C) g :
  fc_repr c g -> alarms_of pre g ->
  forall i h sent, run_hits hs c !! i = Some (h, sent) ->
    sent = [alarm_text h] \/ sent = [] /\ exists h', (h', [alarm_text h']) ∈ pre ++ take i (run_hits hs c) /\
      h_ip h' = h_ip h /\ live (h_now h) (expiry (h_now h') (hit_ttl h')).
Proof.
  revert pre c g. induction hs as [|h0 hs IH]; intros pre c g Hc Hg i h sent; [done|]. cbn [run_hits].
  pose proof (run_alarm_exact h0 c) as E.
  pose proof (fc_GetOrSet_spec (h_now h0) (alarm_key (h_ip h0)) [Byte.x01] (hit_ttl h0) c g Hc) as Hs.
  unfold GetOrSetFreeCache in E. fold (alarm_key (h_ip h0)) in E.
  destruct (fc_GetOrSet _ _ _ _ c) as [[found err] c']. rewrite E. simpl in Hs. destruct i as [|i]; simpl.
  - intros [= <- <-]. destruct found as [v|]; [right|by left]. destruct Hs as [(e & He & Hl) _]. split; [done|].
    destruct (Hg _ _ _ He) as (h' & Hin & Hip & ->). exists h'. by rewrite app_nil_r.
  - intros Hi. assert (exists g', fc_repr c' g' /\
      alarms_of (pre ++ [(h0, match found with None => [alarm_text h0] | Some _ => [] end)]) g') as (g' & Hc' & Hg').
    { destruct found as [v|]; [|destruct err as [err|]].
      - exists g. split; [apply Hs|by apply alarms_of_app].
      - exists g. split; [done|by apply alarms_of_app].
      - eexists. split; [exact Hs|]. intros ip v' e' [[Ek [= <- <-]]|[_ He]]%lookup_insert_Some.
        + apply alarm_key_inj in Ek as <-. exists h0. split; [apply elem_of_app; right; left|done].
        + by apply (alarms_of_app pre [(h0, [alarm_text h0])] g Hg) in He. }
    destruct (IH _ _ _ Hc' Hg' _ _ _ Hi) as [?|[? (h' & Hin & ?)]]; [by left|].
    right. split; [done|]. exists h'. by rewrite <- app_assoc in Hin.
Qed.

(** No alarm is lost: every connection that meets the limit of its address
    sends the alarm, or an alarm for the same address was sent before and its
    pause (the configured number of seconds, three hundred by default, for ever
    if the number is negative) is not over; whatever the cache gives up. *)
Theorem alarms_not_lost hs (c : C) i h sent :
  fc_repr c ∅ -> run_hits hs c !! i = Some (h, sent) ->
  sent = [alarm_text h] \/ sent = [] /\ exists j h', (j < i)%nat /\ run_hits hs c !! j = Some (h', [alarm_text h']) /\
    h_ip h' = h_ip h /\ live (h_now h) (expiry (h_now h') (hit_ttl h')).
Proof.
  intros Hc Hi. assert (alarms_of [] ∅) as Hg by (intros ip v e; by rewrite lookup_empty).
  destruct (run_hits_alarms hs [] c ∅ Hc Hg i h sent Hi) as [?|[? (h' & Hin & ?)]]; [by left|].
  right. split; [done|]. apply list_elem_of_lookup_1 in Hin as [j [Hj Hlt]%lookup_take_Some]. by exists j, h'.
Qed.
End free_cache.

(** ** A reference instance *)
Definition ref_find (now : Z) (k : bytes) (g : gmap bytes (bytes * option Z)) : option bytes :=
  match g !! k with
  | Some (v, e) => if match e with Some t => now <? t | None => true end then Some v else None
  | None => None
  end.
#[local] Instance ref_free_ops : FreeCacheOps (gmap bytes (bytes * option Z)) := {|
  fc_Get now k g := (match ref_find now k g with Some v => Ok v | None => Err (Errorf "Entry not found") end, g);
  fc_Set now k v ttl g := (None, <[k := (v, expiry now ttl)]> g);
  fc_GetOrSet now k v ttl g :=
    match ref_find now k g with Some v' => ((Some v', None), g) | None => ((None, None), <[k := (v, expiry now ttl)]> g) end
|}.

Lemma ref_find_spec now k g v : ref_find now k g = Some v -> exists e, g !! k = Some (v, e) /\ live now e.
Proof.
  unfold ref_find. destruct (g !! k) as [[v' [t|]]|]; [|intros [= <-]; by exists None|done].
  destruct (Z.ltb_spec now t); [|done]. intros [= <-]. by exists (Some t).
Qed.
#[local] Program Instance ref_free : FreeCache (gmap bytes (bytes * option Z)) := {| fc_repr c g := c = g |}.
Next Obligation.
  intros now k c g ->. simpl. split; [done|]. intros v Hv. apply ref_find_spec.
  destruct (ref_find now k g); [by injection Hv as <-|done].
Qed.
Next Obligation. by intros now k v ttl c g ->. Qed.
Next Obligation.
  intros now k v ttl c g ->. simpl. destruct (ref_find now k g) as [v'|] eqn:E; simpl; [|done].
  split; [by apply ref_find_spec|done].
Qed.

Lemma alarms_not_lost_witness :
  let hs := [mkHit 0 "10.0.0.1" (mkConf [] 0 0 0 60 []); mkHit 59 "10.0.0.1" (mkConf [] 0 0 0 60 []);
             mkHit 60 "10.0.0.1" (mkConf [] 0 0 0 60 [])] in
  snd <$> run_hits hs (∅ : gmap bytes (bytes * option Z)) =
    [[alarm_text (mkHit 0 "10.0.0.1" (mkConf [] 0 0 0 60 []))]; []; [alarm_text (mkHit 60 "10.0.0.1" (mkConf [] 0 0 0 60 []))]] /\
  exists j h', (j < 1)%nat /\ live 59 (expiry (h_now h') (hit_ttl h')).
Proof.
  intros hs. split; [vm_compute; reflexivity|].
  destruct (alarms_not_lost hs (∅ : gmap bytes (bytes * option Z)) 1 (mkHit 59 "10.0.0.1" (mkConf [] 0 0 0 60 [])) [])
    as [Hf|[_ (j & h' & Hj & _ & _ & Hl)]]; [reflexivity|vm_compute; reflexivity|discriminate|]. by exists j, h'.
Defined.
