(* ===== verification/Connectors.v ===== *)
(** * Client-side connectors ([proto/http], [proto/socks])

    Tunnels through another proxy: [ParseURL] takes the credentials and the
    address from a URL, [GetConn] opens the tunnel. [net/url.Parse], the
    serialised request, the parser of the response, the network and
    [golang.org/x/net/proxy] are parameters. The credentials are composed with
    the HTTP handler of [Proxy], which reads them on the other side. *)
From Stdlib Require Import Ascii.
From stdpp Require Import base strings list numbers.
From S2P Require Import Prelude GoIO Text Program Proxy.

(** ** [net/url.URL], [net.JoinHostPort] and [base64.StdEncoding.EncodeToString] *)
Record Userinfo := mkUserinfo { uUsername : string; uPassword : option string }.
Record URL := mkURL { uUser : option Userinfo; uScheme : string; uHost : string; uFragment : string }.

Definition is_digit (c : Ascii.ascii) : bool := between 48 57 c.
(** The host and the port of [uHost]; a port has digits only, brackets are
    removed. *)
Definition splitHostPort (hostPort : string) : string * string :=
  let '(host, port) :=
    match LastIndexByte hostPort ":"%char with
    | Some i =>
        if all is_digit (drop_str (S i) hostPort) then (first_n i hostPort, drop_str (S i) hostPort)
        else (hostPort, EmptyString)
    | None => (hostPort, EmptyString)
    end in
  (if HasPrefix host "[" && HasSuffix host "]"
   then drop_str 1 (first_n (String.length host - 1) host) else host, port).
Definition Hostname (u : URL) : string := (splitHostPort (uHost u)).1.
Definition Port (u : URL) : string := (splitHostPort (uHost u)).2.
Definition JoinHostPort (host port : string) : string :=
  if Contains host ":" then "[" +:+ host +:+ "]:" +:+ port else host +:+ ":" +:+ port.

Definition base64_char (n : Z) : Ascii.ascii :=
  if n <? 26 then char_of (n + 65)
  else if n <? 52 then char_of (n + 71)
  else if n <? 62 then char_of (n - 4)
  else if n =? 62 then "+"%char else "/"%char.
Definition val (c : Ascii.ascii) : Z := Z.of_nat (nat_of_ascii c).
(** The [i]-th group of six bits of a 24-bit value. *)
Definition sextet (v i : Z) : Ascii.ascii := base64_char (Z.land (Z.shiftr v (18 - 6 * i)) 63).
Definition group (a b c : Z) : Z := Z.lor (Z.lor (Z.shiftl a 16) (Z.shiftl b 8)) c.

Fixpoint EncodeToString (s : string) : string :=
  match s with
  | EmptyString => EmptyString
  | String a EmptyString =>
      let v := group (val a) 0 0 in String (sextet v 0) (String (sextet v 1) "==")
  | String a (String b EmptyString) =>
      let v := group (val a) (val b) 0 in
      String (sextet v 0) (String (sextet v 1) (String (sextet v 2) "="))
  | String a (String b (String c s')) =>
      let v := group (val a) (val b) (val c) in
      String (sextet v 0) (String (sextet v 1) (String (sextet v 2) (String (sextet v 3) (EncodeToString s'))))
  end.

(** ** [ParseURL] *)
Section connectors.
Context (url_Parse : string -> result error URL).

Definition HttpParseURL (s : string) : result error (string * string * string * string) :=
  match url_Parse s with
  | Err e => Err e
  | Ok u =>
      let auth :=
        match uUser u with
        | None => Ok EmptyString
        | Some ui =>
            match uPassword ui with
            | None => Err (Errorf "HTTP代理URL错误: 缺少密码")
            | Some password => Ok ("Basic " +:+ EncodeToString (uUsername ui +:+ ":" +:+ password))
            end
        end in
      match auth with
      | Err e => Err e
      | Ok auth =>
          if bool_decide (uScheme u = "http") then
            let host := Hostname u in
            let port := if bool_decide (Port u = EmptyString) then "80" else Port u in
            let domain := if bool_decide (uFragment u = EmptyString) then host else uFragment u in
            Ok (auth, JoinHostPort host port, domain, "http")
          else Err (Errorf ("不支持的协议类型: " +:+ uScheme u))
      end
  end.

Definition SocksParseURL (s : string) : result error (option (string * string) * string) :=
  match url_Parse s with
  | Err e => Err e
  | Ok u =>
      match uUser u with
      | None => Ok (None, uHost u)
      | Some ui =>
          match uPassword ui with
          | None => Err (Errorf "socks url error: no password")
          | Some password => Ok (Some (uUsername ui, password), uHost u)
          end
      end
  end.

(** ** [GetConn] *)

(** [Dial]; [http.NewRequest]; the bytes of the request for a host and a
    [Proxy-Authorization]; the parser of a response, which asks for more
    ([None]), fails, or answers the status and the bytes it took; the space the
    [bufio.Reader] has left after what it has received. *)
Context (Dial : string -> result error Conn) (NewRequest : option error)
  (request : string -> string -> bytes).
Context (parse_response : bytes -> option (result error (Z * nat))) (room : bytes -> nat).

(** [http.ReadResponse] on the [bufio.Reader]: the status and what is buffered
    behind the response. *)
Fixpoint ReadResponse (fuel : nat) (got : bytes) (c : Conn) : result error (Z * bytes) * Conn :=
  match parse_response got with
  | Some (Err e) => (Err e, c)
  | Some (Ok (status, n)) => (Ok (status, drop n got), c)
  | None =>
      match fuel with
      | O => (Err (Errorf "out of fuel"), c)
      | S fuel' =>
          match conn_Read (room got) c with
          | ((_, Some e), c) => (Err e, c)
          | ((d, None), c) => ReadResponse fuel' (got ++ d) c
          end
      end
  end.

(** The connection or the error, and whether the connection was closed. *)
Definition http_GetConn (fuel : nat) (s targetAddr : string) : result error Conn * bool :=
  match HttpParseURL s with
  | Err e => (Err (Errorf ("解析代理URL失败: " +:+ Error e)), false)
  | Ok (auth, server, _, _) =>
      match Dial server with
      | Err e => (Err (Errorf ("连接代理服务器失败: " +:+ Error e)), false)
      | Ok conn =>
          match NewRequest with
          | Some e => (Err (Errorf ("创建CONNECT请求失败: " +:+ Error e)), true)
          | None =>
              match conn_Write (request targetAddr auth) conn with
              | ((_, Some e), _) => (Err (Errorf ("发送CONNECT请求失败: " +:+ Error e)), true)
              | ((_, None), conn) =>
                  match ReadResponse fuel [] conn with
                  | (Err e, _) => (Err (Errorf ("读取代理响应失败: " +:+ Error e)), true)
                  | (Ok (status, buffered), conn) =>
                      if negb (status =? 200)
                      then (Err (Errorf ("代理服务器返回错误状态码: " +:+ Itoa status)), true)
                      else if bool_decide (0 < length buffered)%nat then
                        match ReadAtLeast (length buffered) conn with
                        | (Err e, _) => (Err (Errorf ("读取缓冲数据失败: " +:+ Error e)), true)
                        | (Ok _, conn) => (Ok conn, false)
                        end
                      else (Ok conn, false)
                  end
              end
          end
      end
  end.

(** The dialer of [golang.org/x/net/proxy], made for an address and credentials. *)
Context {Dialer : Type} (proxy_SOCKS5 : string -> option (string * string) -> result error Dialer)
  (dialer_Dial : Dialer -> string -> result error Conn).

Definition socks_GetConn (s targetAddr : string) : result error Conn :=
  match SocksParseURL s with
  | Err e => Err (Errorf ("解析SOCKS5代理URL失败: " +:+ Error e))
  | Ok (auth, server) =>
      match proxy_SOCKS5 server auth with
      | Err e => Err (Errorf ("创建SOCKS5拨号器失败: " +:+ Error e))
      | Ok dialer =>
          match dialer_Dial dialer targetAddr with
          | Err e => Err (Errorf ("通过SOCKS5代理连接目标失败: " +:+ Error e))
          | Ok conn => Ok conn
          end
      end
  end.
End connectors.

Example encode_rfc7617 : EncodeToString "Aladdin:open sesame" = "QWxhZGRpbjpvcGVuIHNlc2FtZQ==".
Proof. reflexivity. Qed.

(** ** Base64 round trip *)
Lemma val_range c : 0 <= val c < 256.
Proof. unfold val. pose proof (Ascii.nat_ascii_bounded c). lia. Qed.
Lemma char_of_val c z : u8 z = val c -> char_of z = c.
Proof.
  intros E. unfold char_of. rewrite E. unfold val. rewrite Nat2Z.id. apply Ascii.ascii_nat_embedding.
Qed.

Lemma base64_value_char n : 0 <= n < 64 -> base64_value (base64_char n) = Some n.
Proof.
  intros Hn.
  assert (forallb (fun k => bool_decide (base64_value (base64_char (Z.of_nat k)) = Some (Z.of_nat k)))
    (seq 0 64) = true) as Hall by (vm_compute; reflexivity).
  rewrite forallb_forall in Hall. specialize (Hall (Z.to_nat n)).
  rewrite in_seq, bool_decide_eq_true, Z2Nat.id in Hall by lia. apply Hall. lia.
Qed.
Lemma base64_char_plain n : 0 <= n < 64 ->
  (nat_of_ascii (base64_char n) =? 10)%nat || (nat_of_ascii (base64_char n) =? 13)%nat = false.
Proof.
  intros Hn.
  assert (forallb (fun k => negb ((nat_of_ascii (base64_char (Z.of_nat k)) =? 10)%nat ||
    (nat_of_ascii (base64_char (Z.of_nat k)) =? 13)%nat)) (seq 0 64) = true) as Hall
    by (vm_compute; reflexivity).
  rewrite forallb_forall in Hall. specialize (Hall (Z.to_nat n)).
  rewrite in_seq, negb_true_iff, Z2Nat.id in Hall by lia. apply Hall. lia.
Qed.

Lemma group_sum a b c : 0 <= b < 256 -> 0 <= c < 256 -> group a b c = a * 65536 + b * 256 + c.
Proof.
  intros Hb Hc. unfold group. rewrite (lor_shiftl a (Z.shiftl b 8) 16) by
    (rewrite ?Z.shiftl_mul_pow2 by lia; lia).
  rewrite Z.shiftl_mul_pow2 by lia. change (2 ^ 16) with 65536. change (2 ^ 8) with 256.
  replace (a * 65536 + b * 256) with (Z.shiftl (a * 256 + b) 8) by (rewrite Z.shiftl_mul_pow2 by lia; lia).
  rewrite lor_shiftl by lia. rewrite ?Z.shiftl_mul_pow2 by lia. lia.
Qed.

(** The six bits behind each character. *)
Definition bits6 (v i : Z) : Z := v / 2 ^ (18 - 6 * i) mod 64.
Lemma sextet_bits v i : 0 <= i <= 3 -> sextet v i = base64_char (bits6 v i).
Proof.
  intros Hi. unfold sextet, bits6. rewrite Z.shiftr_div_pow2 by lia.
  change 63 with (Z.ones 6). by rewrite Z.land_ones by lia.
Qed.
Lemma sextet_value v i : 0 <= i <= 3 -> base64_value (sextet v i) = Some (bits6 v i).
Proof. intros Hi. rewrite sextet_bits by done. apply base64_value_char. by apply Z.mod_pos_bound. Qed.
Lemma sextet_plain v i : 0 <= i <= 3 ->
  (nat_of_ascii (sextet v i) =? 10)%nat || (nat_of_ascii (sextet v i) =? 13)%nat = false.
Proof. intros Hi. rewrite sextet_bits by done. apply base64_char_plain. by apply Z.mod_pos_bound. Qed.

(** Equations on the bytes of a group, by arithmetic. *)
Ltac byte_arith :=
  repeat match goal with |- context [2 ^ ?n] =>
    let r := eval vm_compute in (2 ^ n) in change (2 ^ n) with r end;
  unfold wrapU; Z.to_euclidean_division_equations; lia.

Section triple.
Context (a b c : Ascii.ascii).
Let v := group (val a) (val b) (val c).

Lemma group_val : v = val a * 65536 + val b * 256 + val c /\
  0 <= val a < 256 /\ 0 <= val b < 256 /\ 0 <= val c < 256.
Proof. split_and!; try apply val_range. apply group_sum; apply val_range. Qed.

Lemma first_byte : char_of (Z.lor (Z.shiftl (bits6 v 0) 2) (Z.shiftr (bits6 v 1) 4)) = a.
Proof.
  apply char_of_val. destruct group_val as (-> & Ha & Hb & Hc). unfold bits6, wrapU.
  rewrite Z.shiftr_div_pow2, lor_shiftl by (byte_arith || lia). byte_arith.
Qed.
Lemma second_byte : char_of (Z.lor (Z.shiftl (bits6 v 1) 4) (Z.shiftr (bits6 v 2) 2)) = b.
Proof.
  apply char_of_val. destruct group_val as (-> & Ha & Hb & Hc). unfold bits6, wrapU.
  rewrite Z.shiftr_div_pow2, lor_shiftl by (byte_arith || lia). byte_arith.
Qed.
Lemma third_byte : char_of (Z.lor (Z.shiftl (bits6 v 2) 6) (bits6 v 3)) = c.
Proof.
  apply char_of_val. destruct group_val as (-> & Ha & Hb & Hc). unfold bits6, wrapU.
  rewrite lor_shiftl by (byte_arith || lia). byte_arith.
Qed.
End triple.

(** Strings by groups of three. *)
Lemma string_ind3 (P : string -> Prop) :
  P EmptyString -> (forall a, P (String a EmptyString)) -> (forall a b, P (String a (String b EmptyString))) ->
  (forall a b c s, P s -> P (String a (String b (String c s)))) -> forall s, P s.
Proof.
  intros H0 H1 H2 H3. fix IH 1. intros [|a [|b [|c s]]]; [done|done|done|]. apply H3, IH.
Qed.

Lemma pad_plain :
  (nat_of_ascii "=" =? 10)%nat || (nat_of_ascii "=" =? 13)%nat = false /\ base64_value "=" = None.
Proof. split; reflexivity. Qed.

Lemma DecodeString_EncodeToString s : DecodeString (EncodeToString s) = Ok s.
Proof.
  unfold DecodeString. enough (decode_groups (skip_newlines (EncodeToString s)) = Some s) as ->; [done|].
  destruct pad_plain as [Hplain Hpad]. pose proof (eq_refl : val zero = 0) as Hz.
  induction s as [|a|a b|a b c s IH] using string_ind3; [done|..]; cbn [EncodeToString skip_newlines];
    rewrite !sextet_plain by lia; rewrite ?Hplain; cbn [decode_groups];
    rewrite !sextet_value by lia; rewrite ?Hpad.
  - rewrite bool_decide_eq_true_2 by done. pose proof (first_byte a zero zero) as E.
    rewrite Hz in E. by rewrite E.
  - rewrite bool_decide_eq_true_2 by done. pose proof (first_byte a b zero) as E.
    pose proof (second_byte a b zero) as E2. rewrite Hz in E, E2. by rewrite E, E2.
  - by rewrite first_byte, second_byte, third_byte, IH.
Qed.

(** ** Credentials *)
Lemma RemoveFirst_basic x : RemoveFirst ("Basic " +:+ x) "Basic " = x.
Proof. destruct x; reflexivity. Qed.
Lemma Split_many s sep : Contains s (String sep EmptyString) = true -> (2 <= length (Split s sep))%nat.
Proof.
  induction s as [|c s IH]; [done|]. simpl. intros [Hc|Hs]%orb_true_iff.
  - rewrite HasPrefix_nil, andb_true_r in Hc. apply bool_decide_eq_true in Hc as ->. rewrite bool_decide_eq_true_2 by done.
    simpl. pose proof (Split_nonempty s c). destruct (Split s c); [done|]. simpl. lia.
  - specialize (IH Hs). case_bool_decide; simpl; [lia|]. destruct (Split s sep); simpl in *; lia.
Qed.

(** C35. Credentials survive the way through two proxies: what [ParseURL] of the
    HTTP connector puts into [Proxy-Authorization] for the user and the password
    of a URL, the HTTP handler decodes to the same user and password and hands
    to the authenticator, provided neither contains a colon; with a colon in
    either the handler answers 407 without asking the authenticator. *)
Theorem http_credentials_round_trip url_Parse s u user pw auth addr domain scheme ParseIP mode fuel local peer req :
  url_Parse s = Ok u -> uUser u = Some (mkUserinfo user (Some pw)) ->
  HttpParseURL url_Parse s = Ok (auth, addr, domain, scheme) -> ProxyAuthorization req = auth ->
  (Contains user ":" = false -> Contains pw ":" = false ->
   exists k, httpTcpConn ParseIP mode fuel local peer req = Vis (Call.Valid user pw local peer) k) /\
  (Contains user ":" = true \/ Contains pw ":" = true ->
   httpTcpConn ParseIP mode fuel local peer req = answer_and_return proxy_auth_required).
Proof.
  intros Hu Hui Hp Hreq. unfold HttpParseURL in Hp. rewrite Hu, Hui in Hp. simpl in Hp.
  case_bool_decide; [|done]. injection Hp as <- _ _ _.
  assert (DecodeString (RemoveFirst (ProxyAuthorization req) "Basic ") = Ok (user +:+ ":" +:+ pw)) as Hd.
  { rewrite Hreq, RemoveFirst_basic. apply DecodeString_EncodeToString. }
  unfold httpTcpConn. rewrite Hd. change (user +:+ ":" +:+ pw) with (user +:+ String ":" pw).
  rewrite Split_app. split.
  - intros H1 H2. rewrite (Split_one _ _ H1), (Split_one _ _ H2). simpl. by eexists.
  - intros Hcolon. assert (3 <= length (Split user ":" ++ Split pw ":"))%nat as Hl.
    { rewrite length_app. pose proof (Split_nonempty user ":"). pose proof (Split_nonempty pw ":").
      destruct Hcolon as [Hc%Split_many|Hc%Split_many];
        destruct (Split user ":"), (Split pw ":"); simpl in *; try done; lia. }
    by destruct (Split user ":" ++ Split pw ":") as [|x [|y [|z l]]]; simpl in Hl; try lia.
Qed.

(** ** The tunnel *)
Section tunnel.
Context (url_Parse : string -> result error URL) (Dial : string -> result error Conn) (NewRequest : option error)
  (request : string -> string -> bytes).
Context (parse_response : bytes -> option (result error (Z * nat))) (room : bytes -> nat).
(** A parser takes at most what it is given. *)
Context (parse_takes : forall got status n, parse_response got = Some (Ok (status, n)) -> (n <= length got)%nat).

Lemma ReadResponse_stream fuel got c status buffered c' :
  ReadResponse parse_response room fuel got c = (Ok (status, buffered), c') ->
  exists more n, conn_stream c = more ++ conn_stream c' /\
    parse_response (got ++ more) = Some (Ok (status, n)) /\ buffered = drop n (got ++ more) /\
    conn_frame c c'.
Proof.
  revert got c. induction fuel as [|fuel IH]; intros got c; simpl;
    destruct (parse_response got) as [[[st n]|e]|] eqn:Ep; try done;
    try (intros [= <- <- <-]; exists [], n; rewrite app_nil_r; by split_and!).
  destruct (conn_Read (room got) c) as [[d [e|]] c1] eqn:Er; [done|].
  intros E. destruct (IH _ _ E) as (more & n & Hs & Hp & Hb & Hf).
  destruct (conn_Read_stream _ _ _ _ _ Er) as [_ Hs1]. exists (d ++ more), n.
  rewrite app_assoc. split_and!; [|done|done|]; [by rewrite Hs1, Hs, app_assoc|].
  eapply conn_frame_trans; [by eapply conn_Read_frame|done].
Qed.

(** The HTTP connector damages a tunnel that starts early: when [GetConn]
    succeeds and the proxy's answer and the first [k] bytes of the tunnel
    arrived together, these [k] bytes stay in the buffered reader and the next
    [k] are read and thrown away, so the connection it returns lacks the first
    [2k] bytes; it is right only when nothing came with the answer. *)
Theorem tunnel_loses_early_bytes fuel s targetAddr auth server domain scheme conn conn' b :
  HttpParseURL url_Parse s = Ok (auth, server, domain, scheme) -> Dial server = Ok conn ->
  http_GetConn url_Parse Dial NewRequest request parse_response room fuel s targetAddr = (Ok conn', b) ->
  exists m n, (n <= m <= length (conn_stream conn))%nat /\
    parse_response (take m (conn_stream conn)) = Some (Ok (200, n)) /\
    conn_stream conn' = drop (2 * (m - n)) (drop n (conn_stream conn)) /\
    concat (conn_out conn') = concat (conn_out conn) ++ request targetAddr auth.
Proof.
  intros Hu Hd. unfold http_GetConn. rewrite Hu, Hd. destruct NewRequest; [done|].
  destruct (conn_Write _ conn) as [[nw [e|]] c1] eqn:Ew; [done|].
  assert (conn_stream c1 = conn_stream conn /\
    concat (conn_out c1) = concat (conn_out conn) ++ request targetAddr auth) as [Hs1 Ho1].
  { unfold conn_Write in Ew. destruct (conn_out_err conn); simplify_eq/=. split; [done|].
    by rewrite concat_app; simpl; rewrite app_nil_r. }
  destruct (ReadResponse _ _ fuel [] c1) as [[[status buffered]|e] c2] eqn:Er; [|done].
  destruct (negb (status =? 200)) eqn:Est; [done|]. apply negb_false_iff, Z.eqb_eq in Est as ->.
  destruct (ReadResponse_stream _ _ _ _ _ _ Er) as (more & n & Hs & Hp & Hb & Hf). simpl in Hp, Hb.
  assert (take (length more) (conn_stream conn) = more /\
    drop (length more) (conn_stream conn) = conn_stream c2) as [Ht Hdr].
  { rewrite <- Hs1, Hs. by rewrite take_app_length, drop_app_length. }
  pose proof (parse_takes _ _ _ Hp) as Hn. subst buffered. rewrite length_drop.
  intros Hret. exists (length more), n. split.
  { split; [done|]. rewrite <- Hs1, Hs, length_app. lia. }
  rewrite Ht. split; [done|]. rewrite drop_drop. case_bool_decide as Hk.
  - destruct (ReadAtLeast _ c2) as [[d|e] c3] eqn:Ea; [|done]. injection Hret as <- <-.
    pose proof (ReadAtLeast_spec (length more - n) c2) as Hr. rewrite Ea in Hr.
    case_bool_decide; destruct Hr as (c4 & Hr); [|by destruct Hr as (? & ? & _)].
    destruct Hr as ([= _ <-] & Hs4 & Ho4 & _). rewrite Hs4, <- Hdr, drop_drop. split; [f_equal; lia|].
    by rewrite Ho4, (proj1 Hf).
  - injection Hret as <- <-. replace (n + 2 * (length more - n))%nat with (length more) by lia.
    split; [done|]. by rewrite (proj1 Hf).
Qed.
End tunnel.

(** *** Witnesses *)
Definition demo_url : URL :=
  mkURL (Some (mkUserinfo "bob" (Some "pw"))) "http" "10.0.0.1:8080" EmptyString.
Definition demo_request : Request :=
  mkRequest "CONNECT" "example.com:443" "Basic Ym9iOnB3" EmptyString.

Lemma http_credentials_round_trip_witness :
  exists k, httpTcpConn (fun _ => None) "ipv4" 1 "10.0.0.1" "9.9.9.9" demo_request =
    Vis (Call.Valid "bob" "pw" "10.0.0.1" "9.9.9.9") k.
Proof.
  apply (http_credentials_round_trip (fun _ => Ok demo_url) "http://bob:pw@10.0.0.1:8080" demo_url "bob" "pw"
    "Basic Ym9iOnB3" "10.0.0.1:8080" "10.0.0.1" "http" (fun _ => None) "ipv4" 1 "10.0.0.1" "9.9.9.9" demo_request);
    reflexivity.
Defined.

(** The answer is the two bytes [OK]; two bytes of the tunnel come with it. *)
Definition demo_parse (got : bytes) : option (result error (Z * nat)) :=
  if bool_decide (2 <= length got)%nat then Some (Ok (200, 2%nat)) else None.
Definition demo_tunnel : Conn :=
  mkConn [bytes_of_str "OKab"; bytes_of_str "cdef"] EOF [] None.

Lemma tunnel_loses_early_bytes_witness :
  exists conn', http_GetConn (fun _ => Ok demo_url) (fun _ => Ok demo_tunnel) None
      (fun host _ => bytes_of_str host) demo_parse (fun _ => 4096%nat) 3 "http://bob:pw@10.0.0.1:8080" "t"
    = (Ok conn', false) /\ conn_stream conn' = bytes_of_str "ef" /\
    exists m n, demo_parse (take m (conn_stream demo_tunnel)) = Some (Ok (200, n)) /\
      conn_stream conn' = drop (2 * (m - n)) (drop n (conn_stream demo_tunnel)).
Proof.
  eexists. split; [reflexivity|split; [reflexivity|]].
  match goal with |- context [conn_stream ?c = drop _ _] =>
    destruct (tunnel_loses_early_bytes (fun _ => Ok demo_url) (fun _ => Ok demo_tunnel) None
      (fun host _ => bytes_of_str host) demo_parse (fun _ => 4096%nat)) with
      (fuel := 3%nat) (s := "http://bob:pw@10.0.0.1:8080") (targetAddr := "t")
      (auth := "Basic Ym9iOnB3") (server := "10.0.0.1:8080") (domain := "10.0.0.1") (scheme := "http")
      (conn := demo_tunnel) (conn' := c) (b := false) as (m & n & _ & Hp & Hs & _)
  end; [|reflexivity..|].
  - intros got status n. unfold demo_parse. case_bool_decide; [|done]. by intros [= <- <-].
  - exists m, n. split; [exact Hp|exact Hs].
Defined.
