(* ===== verification/Alarm.v ===== *)
(** * Alarms ([utils/alarm.go])

    An alarm is an HTTP request to a chat robot, signed with a secret:
    [makeSignature] and [SendAlarmToDingTalk]. HMAC-SHA256, the JSON encoder
    and the HTTP client are parameters. *)
From Stdlib Require Import Ascii.
From stdpp Require Import base strings numbers pretty list.
From S2P Require Import Prelude GoIO Config Text Connectors.

(** ** [url.QueryEscape] and [url.QueryUnescape] *)
Definition unreserved (c : ascii) : bool :=
  is_letter c || between 48 57 c ||
  bool_decide (c = "-"%char \/ c = "_"%char \/ c = "."%char \/ c = "~"%char).
Definition hex_digit (n : nat) : ascii :=
  match String.get n "0123456789ABCDEF" with Some c => c | None => "0"%char end.
Definition escape_char (c : ascii) : string :=
  if unreserved c then String c EmptyString
  else if bool_decide (c = " "%char) then "+"
  else String "%" (String (hex_digit (nat_of_ascii c / 16)) (String (hex_digit (nat_of_ascii c mod 16)) EmptyString)).
Fixpoint QueryEscape (s : string) : string :=
  match s with EmptyString => EmptyString | String c s' => escape_char c +:+ QueryEscape s' end.

Definition unhex (c : ascii) : option nat :=
  if between 48 57 c then Some (nat_of_ascii c - 48)%nat
  else if between 97 102 c then Some (nat_of_ascii c - 87)%nat
  else if between 65 70 c then Some (nat_of_ascii c - 55)%nat
  else None.
Fixpoint QueryUnescape (s : string) : option string :=
  match s with
  | EmptyString => Some EmptyString
  | String c s' =>
      if bool_decide (c = "%"%char) then
        match s' with
        | String h (String l s'') =>
            h ← unhex h; l ← unhex l; String (ascii_of_nat (16 * h + l)) <$> QueryUnescape s''
        | _ => None
        end
      else String (if bool_decide (c = "+"%char) then " "%char else c) <$> QueryUnescape s'
  end.

Lemma unescape_char c s : QueryUnescape (escape_char c +:+ s) = String c <$> QueryUnescape s.
Proof. by destruct c as [[] [] [] [] [] [] [] []]. Qed.

Lemma unescape_escape s : QueryUnescape (QueryEscape s) = Some s.
Proof. induction s as [|c s IH]; [done|]. simpl. by rewrite unescape_char, IH. Qed.

(** Nothing that separates the parameters of a query is left. *)
Lemma escape_char_plain c s : Contains (escape_char c +:+ s) "&" = Contains s "&".
Proof. by destruct c as [[] [] [] [] [] [] [] []]. Qed.
Lemma escape_plain s : Contains (QueryEscape s) "&" = false.
Proof. induction s as [|c s IH]; [done|]. simpl. by rewrite escape_char_plain. Qed.

(** ** The alarm *)
Definition newline : string := String (ascii_of_nat 10) EmptyString.

Record DingTalkMessage := mkMessage {
  AtMobiles : list string; AtUserIds : list string; IsAtAll : bool; Content : string; MsgType : string
}.
Record http_request := mkHttpRequest {
  method : string; rawUrl : string; contentType : string; body : string
}.

Section alarm.
Context (HMAC : string -> string -> string).
Context (json_Marshal : DingTalkMessage -> result error string).
Context (NewRequest : string -> string -> string -> result error http_request).

Definition makeSignature (now : Z) (conf : option confData) : outcome (string * string) :=
  let timestamp := Itoa now in
  c ← deref_conf conf;
  let stringToSign := timestamp +:+ newline +:+ DingtalkAlarmSecret c in
  let signData := HMAC (DingtalkAlarmSecret c) stringToSign in
  let sign := EncodeToString signData in
  let sign := QueryEscape sign in
  Ret (timestamp, sign).

Definition alarm_query (token ts sign : string) : string :=
  "access_token=" +:+ token +:+ "&timestamp=" +:+ ts +:+ "&sign=" +:+ sign.
Definition alarm_url (token ts sign : string) : string :=
  "https://oapi.dingtalk.com/robot/send?" +:+ alarm_query token ts sign.

(** The request that is sent, if any: errors are only printed, and so is the
    answer of the client. *)
Definition SendAlarmToDingTalk (now : Z) (conf : option confData) (content : string)
  : outcome (option http_request) :=
  '(ts, sign) ← makeSignature now conf;
  c ← deref_conf conf;
  let message := mkMessage [] [] true content "text" in
  match json_Marshal message with
  | Err _ => Ret None
  | Ok jsonValue =>
      match NewRequest "POST" (alarm_url (DingtalkAlarmToken c) ts sign) jsonValue with
      | Err _ => Ret None
      | Ok req => Ret (Some (mkHttpRequest (method req) (rawUrl req) "application/json" (body req)))
      end
  end.

Lemma Contains_app (a b : string) (c : ascii) :
  Contains (a +:+ b) (String c EmptyString) = Contains a (String c EmptyString) || Contains b (String c EmptyString).
Proof.
  induction a as [|x a IH]; [done|]. simpl. rewrite IH, !HasPrefix_nil. by rewrite orb_assoc.
Qed.

(** A decimal number has digits and perhaps a sign. *)
Lemma pretty_N_lacks sep x s :
  between 48 57 sep = false -> Contains s (String sep EmptyString) = false ->
  Contains (pretty_N_go x s) (String sep EmptyString) = false.
Proof.
  intros Hsep. revert s. induction (N.lt_wf_0 x) as [x _ IH]; intros s Hs.
  destruct (decide (x = 0)%N) as [->|Hx]; [by rewrite pretty_N_go_0|].
  rewrite pretty_N_go_step by lia. apply IH; [apply N.div_lt; lia|].
  rewrite Contains_unfold, Hs. simpl. rewrite orb_false_r, HasPrefix_nil, andb_true_r.
  apply bool_decide_eq_false. unfold pretty_N_char. repeat case_match; congruence || (intros ->; discriminate Hsep).
Qed.
Lemma Itoa_lacks sep (n : Z) :
  between 48 57 sep = false -> sep <> "-"%char -> Contains (Itoa n) (String sep EmptyString) = false.
Proof.
  intros Hsep Hm. assert (forall p : positive, Contains (pretty p) (String sep EmptyString) = false) as Hp.
  { intros p. unfold pretty, pretty_positive, pretty, pretty_N. rewrite decide_False by done. by apply pretty_N_lacks. }
  unfold Itoa, pretty, pretty_Z. destruct n as [|p|p]; [|done|].
  - unfold Contains. simpl. rewrite !orb_false_r, andb_true_r. apply bool_decide_eq_false. intros E. by rewrite E in Hsep.
  - change (Contains (String "-" (pretty p)) (String sep EmptyString) = false).
    rewrite Contains_unfold, Hp. simpl. rewrite orb_false_r, HasPrefix_nil, andb_true_r. apply bool_decide_eq_false. congruence.
Qed.
Lemma Itoa_plain (n : Z) : Contains (Itoa n) "&" = false.
Proof. by apply Itoa_lacks. Qed.

Lemma alarm_query_split token ts sign :
  Contains token "&" = false -> Contains ts "&" = false -> Contains sign "&" = false ->
  Split (alarm_query token ts sign) "&"%char = ["access_token=" +:+ token; "timestamp=" +:+ ts; "sign=" +:+ sign].
Proof.
  intros Ht Hts Hs. unfold alarm_query.
  change ("&timestamp=" +:+ ts +:+ "&sign=" +:+ sign)
    with (String "&" ("timestamp=" +:+ (ts +:+ String "&" ("sign=" +:+ sign)))).
  rewrite <- !(str_app_assoc "access_token="), <- (str_app_assoc "timestamp=").
  rewrite !Split_app, !Split_one; [done|..]; rewrite Contains_app; by rewrite ?Ht, ?Hts, ?Hs.
Qed.

(** An alarm reaches the robot as it was signed: whatever bytes the HMAC
    gives, the request is a POST whose query splits into exactly the token, the
    time and the signature; undoing the escapes and the base64 of the signature
    gives the HMAC of the time, a line feed and the secret under the secret;
    the body is the message for everyone. *)
Theorem alarm_is_signed now c content json req :
  Contains (DingtalkAlarmToken c) "&" = false ->
  json_Marshal (mkMessage [] [] true content "text") = Ok json ->
  (forall m u b, NewRequest m u b = Ok (mkHttpRequest m u EmptyString b)) ->
  SendAlarmToDingTalk now (Some c) content = Ret (Some req) ->
  method req = "POST" /\ body req = json /\ contentType req = "application/json" /\
  exists sign, rawUrl req = "https://oapi.dingtalk.com/robot/send?" +:+ alarm_query (DingtalkAlarmToken c) (Itoa now) sign /\
    Split (alarm_query (DingtalkAlarmToken c) (Itoa now) sign) "&"%char =
      ["access_token=" +:+ DingtalkAlarmToken c; "timestamp=" +:+ Itoa now; "sign=" +:+ sign] /\
    exists b64, QueryUnescape sign = Some b64 /\
      DecodeString b64 = Ok (HMAC (DingtalkAlarmSecret c) (Itoa now +:+ newline +:+ DingtalkAlarmSecret c)).
Proof.
  intros Ht Hj Hn. unfold SendAlarmToDingTalk, makeSignature. simpl. rewrite Hj, Hn. intros [= <-]. simpl.
  split_and!; [done..|]. eexists. split; [done|]. split.
  - apply alarm_query_split; [done|apply Itoa_plain|apply escape_plain].
  - eexists. split; [apply unescape_escape|]. apply DecodeString_EncodeToString.
Qed.
End alarm.

(** ** Witness *)
Lemma alarm_is_signed_witness :
  exists req sign, SendAlarmToDingTalk (fun k m => k +:+ m) (fun m => Ok (Content m))
      (fun m u b => Ok (mkHttpRequest m u EmptyString b)) 1700000000000 (Some without_timeouts) "down" = Ret (Some req) /\
    method req = "POST" /\ QueryUnescape sign = Some (EncodeToString (Itoa 1700000000000 +:+ newline)).
Proof.
  eexists. exists (QueryEscape (EncodeToString (Itoa 1700000000000 +:+ newline))). split; [reflexivity|].
  destruct (alarm_is_signed (fun k m => k +:+ m) (fun m => Ok (Content m))
    (fun m u b => Ok (mkHttpRequest m u EmptyString b)) 1700000000000 without_timeouts "down" "down"
    (mkHttpRequest "POST" (alarm_url EmptyString (Itoa 1700000000000)
      (QueryEscape (EncodeToString (Itoa 1700000000000 +:+ newline)))) "application/json" "down"))
    as (Hm & _); [reflexivity..|].
  split; [exact Hm|apply unescape_escape].
Defined.
