(* ===== verification/Metrics.v ===== *)
(** * The metrics page ([http.go])

    The handler of [/metrics] writes twenty-one counters of the Go runtime as
    text: it builds the text with [fmt.Sprint] and writes it with
    [fmt.Fprintf], which takes it for a format. The counters are parameters.
    How the goroutine of the page ends the process is in [Logging]. *)
From Stdlib Require Import Ascii.
From stdpp Require Import base strings numbers pretty list.
From S2P Require Import Prelude GoIO Text Connectors Alarm.

(** The fields of [runtime.MemStats] the page shows. *)
Record MemStats := mkMemStats {
  Alloc : Z;
  TotalAlloc : Z;
  Sys : Z;
  Mallocs : Z;
  Frees : Z;
  HeapAlloc : Z;
  HeapSys : Z;
  HeapIdle : Z;
  HeapInuse : Z;
  HeapReleased : Z;
  HeapObjects : Z;
  StackInuse : Z;
  StackSys : Z;
  MSpanInuse : Z;
  MSpanSys : Z;
  MCacheInuse : Z;
  MCacheSys : Z;
  BuckHashSys : Z;
  GCSys : Z;
  OtherSys : Z
}.

(** [fmt.Sprint]: a space between operands when neither is a string. *)
Inductive operand := OStr (s : string) | OInt (z : Z).
Definition show_operand (x : operand) : string := match x with OStr s => s | OInt z => Itoa z end.
Fixpoint Sprint (xs : list operand) : string :=
  match xs with
  | [] => EmptyString
  | x :: xs' =>
      show_operand x +:+
      (match x, xs' with OInt _, OInt _ :: _ => " " | _, _ => EmptyString end) +:+ Sprint xs'
  end.

(** [fmt.Fprintf(w, format)] without operands copies a format without verbs;
    what it makes of a verb is left out. *)
Fixpoint Fprintf (format : string) : option string :=
  match format with
  | EmptyString => Some EmptyString
  | String c format' => if bool_decide (c = "%"%char) then None else String c <$> Fprintf format'
  end.

(** The text of the page. *)
Definition metrics (NumGoroutine : Z) (memStats : MemStats) : string :=
  Sprint [OStr "NumGoroutine:"; OInt NumGoroutine; OStr (" 当前协程数" +:+ newline)] +:+
  Sprint [OStr "memStats.Alloc:"; OInt (Alloc memStats); OStr ("  目前由 Go 程序分配的字节数，不包括由垃圾回收器管理的内存。" +:+ newline)] +:+
  Sprint [OStr "memStats.TotalAlloc:"; OInt (TotalAlloc memStats); OStr (" 自程序启动以来分配的总字节数，包括已经释放的内存。" +:+ newline)] +:+
  Sprint [OStr "memStats.Sys:"; OInt (Sys memStats); OStr (" 总共从操作系统获得的内存字节数，包括已经被释放回系统的内存" +:+ newline)] +:+
  Sprint [OStr "memStats.Mallocs:"; OInt (Mallocs memStats); OStr (" 总共进行的内存分配次数。" +:+ newline)] +:+
  Sprint [OStr "memStats.Frees:"; OInt (Frees memStats); OStr (" 总共进行的内存释放次数。" +:+ newline)] +:+
  Sprint [OStr "memStats.HeapAlloc:"; OInt (HeapAlloc memStats); OStr (" 目前在堆上分配的字节数。" +:+ newline)] +:+
  Sprint [OStr "memStats.HeapSys:"; OInt (HeapSys memStats); OStr (" 总共从操作系统获得的堆内存字节数。" +:+ newline)] +:+
  Sprint [OStr "memStats.HeapIdle:"; OInt (HeapIdle memStats); OStr (" 目前未被使用，但已从系统保留的堆内存字节数。" +:+ newline)] +:+
  Sprint [OStr "memStats.HeapInuse:"; OInt (HeapInuse memStats); OStr (" 目前在堆上使用的内存字节数。" +:+ newline)] +:+
  Sprint [OStr "memStats.HeapReleased:"; OInt (HeapReleased memStats); OStr (" 已经返回给操作系统的堆内存字节数。" +:+ newline)] +:+
  Sprint [OStr "memStats.HeapObjects:"; OInt (HeapObjects memStats); OStr (" 目前在堆上的对象数。" +:+ newline)] +:+
  Sprint [OStr "memStats.StackInuse:"; OInt (StackInuse memStats); OStr (" 目前在栈上使用的内存字节数。" +:+ newline)] +:+
  Sprint [OStr "memStats.StackSys:"; OInt (StackSys memStats); OStr (" 为栈操作从操作系统获得的内存字节数。" +:+ newline)] +:+
  Sprint [OStr "memStats.MSpanInuse:"; OInt (MSpanInuse memStats); OStr (" 目前在 MSpan 结构体上使用的内存字节数。" +:+ newline)] +:+
  Sprint [OStr "memStats.MSpanSys:"; OInt (MSpanSys memStats); OStr (" 为 MSpan 结构体从操作系统获得的内存字节数。" +:+ newline)] +:+
  Sprint [OStr "memStats.MCacheInuse:"; OInt (MCacheInuse memStats); OStr (" 目前在 MCache 结构体上使用的内存字节数。" +:+ newline)] +:+
  Sprint [OStr "memStats.MCacheSys:"; OInt (MCacheSys memStats); OStr (" 	为 MCache 结构体从操作系统获得的内存字节数。" +:+ newline)] +:+
  Sprint [OStr "memStats.BuckHashSys:"; OInt (BuckHashSys memStats); OStr (" 为桶哈希表从操作系统获得的内存字节数。" +:+ newline)] +:+
  Sprint [OStr "memStats.GCSys:"; OInt (GCSys memStats); OStr (" 为垃圾回收器从操作系统获得的内存字节数。" +:+ newline)] +:+
  Sprint [OStr "memStats.OtherSys:"; OInt (OtherSys memStats); OStr (" 为其他内存管理用途从操作系统获得的内存字节数。" +:+ newline)].
Definition serve_metrics (NumGoroutine : Z) (memStats : MemStats) : option string :=
  Fprintf (metrics NumGoroutine memStats).

(** What the log tells every half hour about the port of the page. *)
Definition port_messages (port : Z) : list string :=
  [Sprint [OStr "端口:"; OInt port];
   Sprint [OStr "metrics: "; OStr ("http://127.0.0.1:" +:+ Itoa port +:+ "/metrics")];
   Sprint [OStr "pprof: "; OStr ("http://127.0.0.1:" +:+ Itoa port +:+ "/debug/pprof")]].

(** ** What the page shows *)

(** A row: the name of a counter, its value, its description. *)
Record row := mkRow { r_name : string; r_value : Z; r_text : string }.
Definition rows (n : Z) (m : MemStats) : list row :=
  [mkRow "NumGoroutine" n " 当前协程数";
   mkRow "memStats.Alloc" (Alloc m) "  目前由 Go 程序分配的字节数，不包括由垃圾回收器管理的内存。";
   mkRow "memStats.TotalAlloc" (TotalAlloc m) " 自程序启动以来分配的总字节数，包括已经释放的内存。";
   mkRow "memStats.Sys" (Sys m) " 总共从操作系统获得的内存字节数，包括已经被释放回系统的内存";
   mkRow "memStats.Mallocs" (Mallocs m) " 总共进行的内存分配次数。";
   mkRow "memStats.Frees" (Frees m) " 总共进行的内存释放次数。";
   mkRow "memStats.HeapAlloc" (HeapAlloc m) " 目前在堆上分配的字节数。";
   mkRow "memStats.HeapSys" (HeapSys m) " 总共从操作系统获得的堆内存字节数。";
   mkRow "memStats.HeapIdle" (HeapIdle m) " 目前未被使用，但已从系统保留的堆内存字节数。";
   mkRow "memStats.HeapInuse" (HeapInuse m) " 目前在堆上使用的内存字节数。";
   mkRow "memStats.HeapReleased" (HeapReleased m) " 已经返回给操作系统的堆内存字节数。";
   mkRow "memStats.HeapObjects" (HeapObjects m) " 目前在堆上的对象数。";
   mkRow "memStats.StackInuse" (StackInuse m) " 目前在栈上使用的内存字节数。";
   mkRow "memStats.StackSys" (StackSys m) " 为栈操作从操作系统获得的内存字节数。";
   mkRow "memStats.MSpanInuse" (MSpanInuse m) " 目前在 MSpan 结构体上使用的内存字节数。";
   mkRow "memStats.MSpanSys" (MSpanSys m) " 为 MSpan 结构体从操作系统获得的内存字节数。";
   mkRow "memStats.MCacheInuse" (MCacheInuse m) " 目前在 MCache 结构体上使用的内存字节数。";
   mkRow "memStats.MCacheSys" (MCacheSys m) " 	为 MCache 结构体从操作系统获得的内存字节数。";
   mkRow "memStats.BuckHashSys" (BuckHashSys m) " 为桶哈希表从操作系统获得的内存字节数。";
   mkRow "memStats.GCSys" (GCSys m) " 为垃圾回收器从操作系统获得的内存字节数。";
   mkRow "memStats.OtherSys" (OtherSys m) " 为其他内存管理用途从操作系统获得的内存字节数。"].
Definition show_row (r : row) : string := r_name r +:+ ":" +:+ Itoa (r_value r) +:+ r_text r.

(** A row without a character that is neither a digit nor a sign. *)
Definition row_lacks (c : ascii) (r : row) : Prop :=
  Contains (r_name r +:+ ":") (String c EmptyString) = false /\ Contains (r_text r) (String c EmptyString) = false.

Lemma rows_plain n m : Forall (fun r => row_lacks "%" r /\ row_lacks (ascii_of_nat 10) r) (rows n m).
Proof. repeat constructor; vm_compute; reflexivity. Qed.

Lemma show_row_lacks c r :
  between 48 57 c = false -> c <> "-"%char -> row_lacks c r -> Contains (show_row r) (String c EmptyString) = false.
Proof.
  intros Hd Hm [H1 H2]. unfold show_row. rewrite Contains_app in H1. apply orb_false_iff in H1 as [H0 H1].
  by rewrite !Contains_app, H0, H1, H2, Itoa_lacks.
Qed.

Lemma str_app_nil_r (s : string) : s +:+ EmptyString = s.
Proof. induction s as [|c s IH]; [done|]. exact (f_equal (String c) IH). Qed.

(** One call of [Sprint] with what follows. *)
Lemma Sprint_row name (v : Z) text rest :
  Sprint [OStr (name +:+ ":"); OInt v; OStr (text +:+ newline)] +:+ rest =
  show_row (mkRow name v text) +:+ newline +:+ rest.
Proof. unfold show_row. simpl. rewrite !str_app_nil_r. by rewrite !str_app_assoc. Qed.

(** The text is the rows, each on a line of its own. *)
Definition lines (rs : list row) : string := foldr (fun r s => show_row r +:+ newline +:+ s) EmptyString rs.
Lemma metrics_lines n m : metrics n m = lines (rows n m).
Proof.
  unfold lines, rows. cbn [foldr]. rewrite <- !Sprint_row, str_app_nil_r. reflexivity.
Qed.

Lemma Fprintf_plain s : Contains s "%" = false -> Fprintf s = Some s.
Proof.
  induction s as [|c s IH]; [done|]. simpl. rewrite HasPrefix_nil, andb_true_r. intros [Hc Hs]%orb_false_iff.
  apply bool_decide_eq_false in Hc. rewrite bool_decide_eq_false_2 by congruence. by rewrite IH.
Qed.

(** The page is exact: it has one line for each counter, with its name, its
    value in decimal digits and its description, and [Fprintf] changes nothing
    of the text although it takes it for a format. *)
Theorem metrics_exact n m :
  exists page, serve_metrics n m = Some page /\
    Split page (ascii_of_nat 10) = (show_row <$> rows n m) ++ [EmptyString] /\
    forall i r, rows n m !! i = Some r ->
      Split page (ascii_of_nat 10) !! i = Some (r_name r +:+ ":" +:+ Itoa (r_value r) +:+ r_text r).
Proof.
  exists (metrics n m). assert (Split (metrics n m) (ascii_of_nat 10) = (show_row <$> rows n m) ++ [EmptyString]) as Hs.
  { rewrite metrics_lines. pose proof (rows_plain n m) as Hp. induction Hp as [|r rs [_ Hr] _ IH]; [done|].
    cbn [lines foldr]. change (newline +:+ ?s) with (String (ascii_of_nat 10) s).
    rewrite Split_app, Split_one by (by apply show_row_lacks). unfold lines in IH. by rewrite IH. }
  split_and!; [|done|].
  - clear Hs. apply Fprintf_plain. rewrite metrics_lines. pose proof (rows_plain n m) as Hp. induction Hp as [|r rs [Hr _] _ IH]; [done|].
    cbn [lines foldr]. unfold lines in IH. rewrite !Contains_app, IH. rewrite (show_row_lacks _ r); [reflexivity|reflexivity|discriminate|done].
  - intros i r Hi. rewrite Hs. apply lookup_app_l_Some. by rewrite list_lookup_fmap, Hi.
Qed.
