(* ===== verification/Server.v ===== *)
(** * The whole server: handlers that share the manager

    Connections are accepted at any time; each runs its handler, and the calls
    of the handlers interleave in any order. The manager answers the calls
    that concern its tables, with the operations of [Manager]; everything else
    is answered by the outside, in any way. Meanwhile users are disconnected
    and configurations replaced. *)
From stdpp Require Import base gmap strings numbers fin_maps list.
From S2P Require Import Prelude GoIO ConcurrentMap FlowLimit Socks5 Manager Text Program Proxy.

Section server.
Context {M1 M2 : Type}.
Context `{CMapOps string (option loc) M1} `{CMapOps string (option loc) M2}.
Context `{!CMap string (option loc) M1 None} `{!CMap string (option loc) M2 None}.
Context (ParseIP : string -> option bytes) (mode : string).
Implicit Types (m : manager M1 M2).

(** How the manager answers a call; a nil context makes the caller panic. *)
Definition answers m (o : op) : ans o -> manager M1 M2 -> Prop :=
  match o return ans o -> manager M1 M2 -> Prop with
  | Call.AddIpConnCount ip => fun x m' =>
      match AddIpConnCount ip m with Ret (r, m1) => x = Ret r /\ m' = m1 | Panic => x = Panic /\ m' = m end
  | Call.ReduceIpConnCount ip => fun x m' =>
      match ReduceIpConnCount ip m with Ret m1 => x = Ret () /\ m' = m1 | Panic => x = Panic /\ m' = m end
  | Call.AddUserConnection k => fun x m' => exists now,
      match addUserConnection now k m with
      | Ret (Some l, m1) => x = Ret l /\ m' = m1
      | Ret (None, m1) => x = Panic /\ m' = m1
      | Panic => x = Panic /\ m' = m
      end
  | Call.DeleteUserConnection k l => fun x m' =>
      match deleteUserConnection k (Some l) m with Ret m1 => x = Ret () /\ m' = m1 | Panic => x = Panic /\ m' = m end
  | _ => fun _ m' => m' = m
  end.

(** The handlers a connection may get. *)
Definition is_handler (p : prog ()) : Prop :=
  (exists fuel local peer, p = handlerTcpConn ParseIP mode fuel local peer) \/
  (exists fuel addr, p = handleShadowSocks ParseIP mode fuel addr).

(** What a handler holds after a call, by the calls it made. *)
Definition observe (q : mon) (o : op) (x : ans o) : mon := default q (protocol ParseIP q o x).

(** The manager and the handlers with what they hold. *)
Abbreviation server := (manager M1 M2 * list (prog () * mon))%type.

Inductive sys_step : server -> server -> Prop :=
| sys_accept m ps p : is_handler p -> sys_step (m, ps) (m, (p, start) :: ps)
| sys_call m ps1 o k q ps2 x m' :
    answers m o x m' ->
    sys_step (m, ps1 ++ (Vis o k, q) :: ps2) (m', ps1 ++ (k x, observe q o x) :: ps2)
| sys_kick m ps k e m' : CloseUserConnections k m = Ret (e, m') -> sys_step (m, ps) (m', ps)
| sys_config m ps conf m' :
    conf_ok conf -> nacos_event (Ok conf) m (Ret m') -> sys_step (m, ps) (m', ps).

Inductive sys_reach m0 : nat -> server -> Prop :=
| sys_0 : sys_reach m0 0 (m0, [])
| sys_S n s s' : sys_reach m0 n s -> sys_step s s' -> sys_reach m0 (S n) s'.

(** The addresses the handlers are counted under, and their contexts. *)
Definition counts_held (ps : list (prog () * mon)) : list string := omap (fun pq => counted pq.2) ps.
Definition contexts_held (ps : list (prog () * mon)) : list (string * loc) := omap (fun pq => ctx pq.2) ps.

(** ** Frames: each operation touches its own table *)

Lemma addUser_frame now k m r m' : addUserConnection now k m = Ret (r, m') -> exists um h, m' = set_users um h m.
Proof.
  unfold addUserConnection. destruct (cm_Upsert _ _ _ _ _ _) as [[[res um] [h|]]|]; [|done..].
  intros [= _ <-]. eauto.
Qed.
Lemma deleteUser_frame k c m m' : deleteUserConnection k c m = Ret m' -> exists um h, m' = set_users um h m.
Proof.
  unfold deleteUserConnection. destruct (cm_RemoveCb _ _ _ _ _) as [[[res um] [h|]]|]; [|done..].
  intros [= <-]. eauto.
Qed.
Lemma close_frame k m e m' : CloseUserConnections k m = Ret (e, m') -> exists um h, m' = set_users um h m.
Proof.
  unfold CloseUserConnections. destruct (cm_Pop _ _) as [[[v f] um]|]; [|done]. simpl.
  destruct v as [l|], f; try (intros [= _ <-]; eauto; fail). destruct (userCtxs m !! l); [|done].
  intros [= _ <-]. eauto.
Qed.
Lemma config_frame conf m m' :
  nacos_event (Ok conf) m (Ret m') -> exists um h, m' = set_users um h (setNacosConf conf m).
Proof.
  intros (out & _ & E). destruct (update_actions _ _ _) as [h|]; [|done]. injection E as ->. eauto.
Qed.
Lemma addIp_frame ip m r m' : AddIpConnCount ip m = Ret (r, m') -> exists im h, m' = set_ipCounts im h m.
Proof.
  unfold AddIpConnCount. destruct (cm_Upsert _ _ _ _ _ _) as [[[res im] [[h x]|]]|]; [|done..].
  intros [= _ <-]. eauto.
Qed.
Lemma reduceIp_frame ip m m' : ReduceIpConnCount ip m = Ret m' -> exists im h, m' = set_ipCounts im h m.
Proof.
  unfold ReduceIpConnCount. destruct (cm_RemoveCb _ _ _ _ _) as [[[res im] [h|]]|]; [|done..].
  intros [= <-]. eauto.
Qed.

Lemma ip_repr_users um h m cnt : ip_repr m cnt -> ip_repr (set_users um h m) cnt.
Proof. done. Qed.
Lemma ip_repr_conf conf m cnt : ip_repr m cnt -> ip_repr (setNacosConf conf m) cnt.
Proof. done. Qed.
Lemma users_inv_counts im h m hs : users_inv m hs -> users_inv (set_ipCounts im h m) hs.
Proof. intros []. by split. Qed.

(** ** The order in which things are held does not matter *)
#[global] Instance occ_proper ip : Proper (Permutation ==> eq) (occ ip).
Proof. intros l1 l2 Hp. by apply Permutation_length, filter_Permutation. Qed.
#[global] Instance counts_live_proper cnt : Proper (Permutation ==> iff) (counts_live cnt).
Proof.
  assert (forall l1 l2, l1 ≡ₚ l2 -> counts_live cnt l1 -> counts_live cnt l2) as Hp.
  { intros l1 l2 Hp Hc ip. rewrite Hc. unfold occ_entry. by rewrite (occ_proper ip l1 l2 Hp). }
  intros l1 l2 E. by split; apply Hp.
Qed.
#[global] Instance users_inv_proper m : Proper (Permutation ==> iff) (users_inv m).
Proof.
  assert (forall h1 h2, h1 ≡ₚ h2 -> users_inv m h1 -> users_inv m h2) as Hp.
  { intros h1 h2 Hp [Hok Hptr Hlive Hheld Hb Hc]. split; try done.
    - intros k l Hk. destruct (Hlive k l Hk) as (x & ? & ? & Hcx & Hpos). exists x.
      assert (holds k l h1 = holds k l h2) as <- by by apply Permutation_length, filter_Permutation. done.
    - intros k l Hin. apply Hheld. by rewrite Hp. }
  intros h1 h2 E. by split; apply Hp.
Qed.

(** ** The invariant *)
Abbreviation follows := (wp (protocol ParseIP) (fun _ => True)).

Record sys_inv (n : nat) (s : server) : Prop := mkSI {
  si_len : (length s.2 <= n)%nat;
  si_follows : Forall (fun pq => follows pq.1 (fun r q => r = Ret () /\ quiet q) pq.2) s.2;
  si_counts : exists cnt, ip_repr s.1 cnt /\ counts_live cnt (counts_held s.2);
  si_users : users_inv s.1 (contexts_held s.2)
}.

(** The four calls that change what a handler holds. *)
Lemma protocol_held q o x q' :
  protocol ParseIP q o x = Some q' ->
  match o return ans o -> Prop with
  | Call.AddIpConnCount ip => fun x => ctx q' = ctx q /\ counted q = None /\
      counted q' = match x with Ret (true, _) => Some ip | _ => None end
  | Call.ReduceIpConnCount ip => fun _ => ctx q' = ctx q /\ counted q = Some ip /\ counted q' = None
  | Call.AddUserConnection k => fun x => counted q' = counted q /\ ctx q = None /\
      ctx q' = match x with Ret l => Some (k, l) | Panic => None end
  | Call.DeleteUserConnection k l => fun _ => counted q' = counted q /\ ctx q = Some (k, l) /\ ctx q' = None
  | _ => fun _ => counted q' = counted q /\ ctx q' = ctx q
  end x.
Proof.
  destruct q as [au pa cl bl co ta cx st]. destruct o; simpl; unfold guard; intros E;
    repeat case_match; simplify_eq/=; to_prop; subst; done.
Qed.

Lemma omap_short {A B} (f : A -> option B) (l : list A) : (length (omap f l) <= length l)%nat.
Proof. induction l as [|a l IH]; csimpl; [done|]. destruct (f a); csimpl; lia. Qed.

Lemma held_split {A} (f : mon -> option A) (ps1 ps2 : list (prog () * mon)) p q :
  omap (fun pq => f pq.2) (ps1 ++ (p, q) :: ps2) ≡ₚ
  match f q with
  | Some a => a :: omap (fun pq => f pq.2) (ps1 ++ ps2)
  | None => omap (fun pq => f pq.2) (ps1 ++ ps2)
  end.
Proof. rewrite !omap_app. simpl. destruct (f q); [|done]. by rewrite Permutation_middle. Qed.

Lemma held_same {A} (f : mon -> option A) (ps1 ps2 : list (prog () * mon)) p q p' q' :
  f q' = f q ->
  omap (fun pq => f pq.2) (ps1 ++ (p, q) :: ps2) ≡ₚ omap (fun pq => f pq.2) (ps1 ++ (p', q') :: ps2).
Proof. intros E. by rewrite !held_split, E. Qed.

(** The counters, in terms of the addresses in use. *)
Lemma addIp_live ip m cnt live :
  ip_repr m cnt -> counts_live cnt live -> counts_small cnt ->
  exists ok k m' cnt', AddIpConnCount ip m = Ret ((ok, k), m') /\ ip_repr m' cnt' /\
    counts_live cnt' (if (ok : bool) then ip :: live else live).
Proof.
  intros Hr Hc Hs. destruct (AddIpConnCount_spec ip m cnt Hr Hs) as (m1 & E & Hr1 & _).
  pose proof (spec_add_live (OneIpMaxConn (nacosConfig m)) ip cnt live Hc) as Hsp.
  destruct (spec_add _ ip cnt) as [[ok k] cnt']. destruct Hsp as (_ & Hc' & _).
  exists ok, k, m1, cnt'. done.
Qed.
Lemma reduceIp_live ip m cnt live :
  ip_repr m cnt -> counts_live cnt (ip :: live) -> counts_small cnt ->
  exists m' cnt', ReduceIpConnCount ip m = Ret m' /\ ip_repr m' cnt' /\ counts_live cnt' live.
Proof.
  intros Hr Hc Hs. destruct (ReduceIpConnCount_spec ip m cnt Hr Hs) as (m1 & E & Hr1 & _).
  exists m1, (spec_reduce ip cnt). split_and!; [done..|]. by apply (spec_reduce_live ip cnt []).
Qed.

(** The manager's part of a call: from [q] to [q'] the handler's holdings and
    the tables change together, and the call does not panic. *)
Lemma call_inv n m ps1 o k q ps2 x m' q' p' :
  Z.of_nat n < 2 ^ 63 - 1 -> (length (ps1 ++ (Vis o k, q) :: ps2) <= n)%nat ->
  (exists cnt, ip_repr m cnt /\ counts_live cnt (counts_held (ps1 ++ (Vis o k, q) :: ps2))) ->
  users_inv m (contexts_held (ps1 ++ (Vis o k, q) :: ps2)) ->
  answers m o x m' -> protocol ParseIP q o x = Some q' ->
  (exists cnt, ip_repr m' cnt /\ counts_live cnt (counts_held (ps1 ++ (p', q') :: ps2))) /\
  users_inv m' (contexts_held (ps1 ++ (p', q') :: ps2)).
Proof.
  intros Hn Hlen (cnt & Hr & Hc) Hu Ha Hq. apply protocol_held in Hq.
  assert (Z.of_nat (length (counts_held (ps1 ++ (Vis o k, q) :: ps2))) < 2 ^ 63 - 1) as Hl1.
  { pose proof (omap_short (fun pq : prog () * mon => counted pq.2) (ps1 ++ (Vis o k, q) :: ps2)).
    unfold counts_held. lia. }
  assert (Z.of_nat (length (contexts_held (ps1 ++ (Vis o k, q) :: ps2))) < 2 ^ 64 - 1) as Hl2.
  { pose proof (omap_short (fun pq : prog () * mon => ctx pq.2) (ps1 ++ (Vis o k, q) :: ps2)).
    unfold contexts_held. lia. }
  pose proof (counts_live_small _ _ Hc Hl1) as Hs.
  unfold counts_held, contexts_held in *. rewrite (held_split counted) in Hc. rewrite (held_split ctx) in Hu.
  setoid_rewrite (held_split counted). rewrite (held_split ctx).
  destruct o; simpl in Ha, Hq;
    try (subst m'; destruct Hq as [-> ->]; by split; [exists cnt|]).
  - destruct Hq as (-> & E2 & ->). rewrite E2 in Hc.
    destruct (addIp_live ip m cnt _ Hr Hc Hs) as (ok & n' & m1 & cnt' & E & Hr' & Hc').
    rewrite E in Ha. destruct Ha as [-> ->]. destruct (addIp_frame _ _ _ _ E) as (im & h & ->).
    split; [exists cnt'; by destruct ok|]. by apply users_inv_counts.
  - destruct Hq as (-> & E2 & ->). rewrite E2 in Hc.
    destruct (reduceIp_live ip m cnt _ Hr Hc Hs) as (m1 & cnt' & E & Hr' & Hc').
    rewrite E in Ha. destruct Ha as [-> ->]. destruct (reduceIp_frame _ _ _ E) as (im & h & ->).
    split; [by exists cnt'|]. by apply users_inv_counts.
  - destruct Hq as (-> & E2 & ->). rewrite E2 in Hu. destruct Ha as [now Ha].
    destruct (addUserConnection_inv now key m _ Hu) as (l & m1 & E & Hu' & _).
    { pose proof (omap_short (fun pq : prog () * mon => ctx pq.2) (ps1 ++ ps2)).
      rewrite !length_app in *. simpl in *. lia. }
    rewrite E in Ha. destruct Ha as [-> ->]. destruct (addUser_frame _ _ _ _ _ E) as (um & h & ->).
    split; [by exists cnt|done].
  - destruct Hq as (-> & E2 & ->). rewrite E2 in Hu.
    destruct (deleteUserConnection_inv key l m [] _ Hu) as (m1 & E & Hu').
    { pose proof (omap_short (fun pq : prog () * mon => ctx pq.2) (ps1 ++ ps2)).
      rewrite !length_app in *. simpl in *. lia. }
    rewrite E in Ha. destruct Ha as [-> ->]. destruct (deleteUser_frame _ _ _ _ E) as (um & h & ->).
    split; [by exists cnt|done].
Qed.

Lemma handler_follows p : is_handler p -> follows p (fun r q => r = Ret () /\ quiet q) start.
Proof.
  pose proof handlers_follow as Hk.
  intros [(fuel & local & peer & ->)|(fuel & addr & ->)]; [apply (proj1 (Hk ParseIP mode fuel local peer EmptyString))|].
  apply (proj2 (Hk ParseIP mode fuel EmptyString EmptyString addr)).
Qed.

Lemma sys_step_inv n s s' :
  Z.of_nat n < 2 ^ 63 - 1 -> sys_step s s' -> sys_inv n s -> sys_inv (S n) s'.
Proof.
  intros Hn Hs [Hlen Hf Hc Hu].
  inversion Hs as [m ps p Hp|m ps1 o k q ps2 x m' Ha|m ps k e m' E|m ps conf m' Hconf E]; subst; simpl in *.
  - split; simpl; [lia| |done|done]. constructor; [by apply handler_follows|done].
  - apply Forall_app in Hf as [Hf1 Hf2]. apply Forall_cons in Hf2 as [Hp Hf2]. simpl in Hp. specialize (Hp x).
    unfold observe. destruct (protocol ParseIP q o x) as [q'|] eqn:Eq; [|done]. simpl in *.
    destruct (call_inv n m ps1 o k q ps2 x m' q' (k x) Hn Hlen Hc Hu Ha Eq) as [Hc' Hu'].
    split; [simpl; rewrite length_app in *; simpl in *; lia| |done|done].
    apply Forall_app. split; [done|]. by constructor.
  - destruct (CloseUserConnections_inv k m _ Hu) as (e1 & m1 & E1 & Hu' & _).
    rewrite E1 in E. simplify_eq. destruct (close_frame _ _ _ _ E1) as (um & h & ->).
    split; [simpl; lia|done..].
  - destruct (update_inv conf m _ _ Hu Hconf E) as (m1 & [= <-] & Hu' & _).
    destruct (config_frame _ _ _ E) as (um & h & ->). split; [simpl; lia|done..].
Qed.

Lemma sys_reach_inv m0 n s :
  ip_repr m0 ∅ -> idle m0 -> sys_reach m0 n s -> Z.of_nat n < 2 ^ 63 - 1 -> sys_inv n s.
Proof.
  intros Hip Hid Hr. induction Hr as [|n s s' _ IH Hs]; intros Hn.
  - split; simpl; [done|by constructor| |by apply idle_inv].
    exists ∅. split; [done|]. intros ip. by rewrite lookup_empty.
  - eapply sys_step_inv; [|done|apply IH]; lia.
Qed.

(** No call to the manager's tables panics. *)
Lemma no_panic n m ps o k q x m' :
  sys_inv n (m, ps) -> Z.of_nat n < 2 ^ 63 - 1 -> (Vis o k, q) ∈ ps -> answers m o x m' ->
  match o return ans o -> Prop with
  | Call.AddIpConnCount _ | Call.ReduceIpConnCount _ | Call.AddUserConnection _
  | Call.DeleteUserConnection _ _ => fun x => x <> Panic
  | _ => fun _ => True
  end x.
Proof.
  intros [Hlen Hf (cnt & Hr & Hc) Hu] Hn Hin Ha. simpl in *.
  pose proof (proj1 (Forall_forall _ _) Hf _ Hin) as Hp. simpl in Hp. specialize (Hp x).
  destruct (protocol ParseIP q o x) as [q'|] eqn:Eq; [|done]. apply protocol_held in Eq.
  pose proof (omap_short (fun pq : prog () * mon => counted pq.2) ps) as Hl1.
  pose proof (omap_short (fun pq : prog () * mon => ctx pq.2) ps) as Hl2.
  assert (counts_small cnt) as Hs by (eapply counts_live_small; [exact Hc|]; unfold counts_held; lia).
  destruct o; try done; simpl in Ha, Eq.
  - destruct (AddIpConnCount_spec ip m cnt Hr Hs) as (m1 & E & _). rewrite E in Ha. by destruct Ha as [-> _].
  - destruct (ReduceIpConnCount_spec ip m cnt Hr Hs) as (m1 & E & _). rewrite E in Ha. by destruct Ha as [-> _].
  - destruct Ha as [now Ha]. destruct (addUserConnection_inv now key m _ Hu) as (l & m1 & E & _);
      [unfold contexts_held; lia|]. rewrite E in Ha. by destruct Ha as [-> _].
  - apply list_elem_of_split in Hin as (ps1 & ps2 & ->). unfold contexts_held in Hu.
    rewrite held_split in Hu. destruct Eq as (_ & E2 & _). rewrite E2 in Hu.
    destruct (deleteUserConnection_inv key l m [] _ Hu) as (m1 & E & _).
    { pose proof (omap_short (fun pq : prog () * mon => ctx pq.2) (ps1 ++ ps2)).
      rewrite !length_app in *. simpl in *. lia. }
    rewrite E in Ha. by destruct Ha as [-> _].
Qed.

Lemma quiet_holds_nothing (ps : list (prog () * mon)) :
  Forall (fun pq => quiet pq.2) ps -> counts_held ps = [] /\ contexts_held ps = [].
Proof.
  unfold counts_held, contexts_held.
  induction 1 as [|[p q] ps (Hc & _ & Hx) _ [IH1 IH2]]; [done|]. csimpl. simpl in Hc, Hx. by rewrite Hc, Hx.
Qed.

Lemma ptr_repr_empty {X} (view : gmap string (option loc)) (h : gmap loc X) abs :
  ptr_repr view h abs -> (forall k, abs !! k = None) -> view = ∅.
Proof.
  intros [Hp _] Ha. apply map_eq. intros k. specialize (Hp k). rewrite lookup_empty.
  destruct (view !! k) as [[l|]|]; [|done..]. destruct Hp as (x & _ & Hx). by rewrite Ha in Hx.
Qed.

(** When every handler has ended, nothing is held. *)
Lemma drained n m ps :
  sys_inv n (m, ps) -> Forall (fun pq => exists r, pq.1 = Done r) ps ->
  cm_view (ipConnCountMap m) = ∅ /\ cm_view (userCtxMap m) = ∅.
Proof.
  intros [Hlen Hf Hc Hu] Hdone. simpl in *. assert (Forall (fun pq => quiet pq.2) ps) as Hq.
  { clear -Hf Hdone. induction Hdone as [|[p q] ps [r E] _ IH]; [constructor|].
    apply Forall_cons in Hf as [Hp Hf]. simpl in *. subst p. destruct Hp as [_ Hp].
    constructor; [done|by apply IH]. }
  apply quiet_holds_nothing in Hq as [E1 E2]. rewrite E1 in Hc. rewrite E2 in Hu. split.
  - destruct Hc as (cnt & [_ Hp] & Hcnt). eapply ptr_repr_empty; [exact Hp|]. apply Hcnt.
  - apply map_eq. intros k. rewrite lookup_empty.
    destruct (current_cases _ _ k Hu) as [?|(l & x & Hk & _)]; [done|].
    destruct (ui_live _ _ Hu k l Hk) as (y & _ & _ & _ & Hpos). unfold holds in Hpos. simpl in Hpos. lia.
Qed.

(** C1. The server never leaks and never over-counts: however the handlers of
    any number of connections interleave, whatever fails, and whenever users
    are disconnected or the configuration changes, the counter of every exit
    address is the number of handlers counted under it, every user context
    counts the handlers that hold it, no operation on the tables panics, and
    when every handler has ended both tables are empty. *)
Theorem server_never_leaks m0 n m ps :
  ip_repr m0 ∅ -> idle m0 -> sys_reach m0 n (m, ps) -> Z.of_nat n < 2 ^ 63 - 1 ->
  (exists cnt, ip_repr m cnt /\ forall ip, cnt !! ip = occ_entry ip (counts_held ps)) /\
  (forall k l, current m k l -> exists x, userCtxs m !! l = Some x /\ cancelled x = false /\
     c x = Z.of_nat (holds k l (contexts_held ps))) /\
  (forall o k q x m', (Vis o k, q) ∈ ps -> answers m o x m' ->
     match o return ans o -> Prop with
     | Call.AddIpConnCount _ | Call.ReduceIpConnCount _ | Call.AddUserConnection _
     | Call.DeleteUserConnection _ _ => fun x => x <> Panic
     | _ => fun _ => True
     end x) /\
  (Forall (fun pq => exists r, pq.1 = Done r) ps ->
     cm_view (ipConnCountMap m) = ∅ /\ cm_view (userCtxMap m) = ∅).
Proof.
  intros Hip Hid Hr Hn. pose proof (sys_reach_inv _ _ _ Hip Hid Hr Hn) as Hv.
  pose proof Hv as [Hlen Hf Hc Hu]. simpl in *. split_and!.
  - exact Hc.
  - intros k l Hk. destruct (ui_live _ _ Hu k l Hk) as (x & ? & ? & ? & _). eauto.
  - intros o k q x m'. by apply (no_panic n m ps); [apply (sys_reach_inv m0)|].
  - intros Hdone. by apply (drained n m ps).
Qed.
End server.

(** ** Witness: a client that has logged in *)
#[local] Existing Instances smap_ops smap_cmap.
Definition no_parse (s : string) : option bytes := None.

Lemma server_never_leaks_witness :
  exists m ps cnt, sys_reach no_parse "ipv4" manager0 5 (m, ps) /\ ip_repr m cnt /\ cnt !! "10.0.0.1" = Some 1.
Proof.
  destruct (AddIpConnCount_spec "10.0.0.1" manager0 ∅ manager0_ip) as (m1 & E & _ & _).
  { intros ip n. by rewrite lookup_empty. }
  assert (exists ps, sys_reach no_parse "ipv4" manager0 5 (m1, ps) /\ counts_held ps = ["10.0.0.1"]) as (ps & Hr & Hc).
  { eexists. split.
    - eapply sys_S; [eapply sys_S; [eapply sys_S; [eapply sys_S; [eapply sys_S; [apply sys_0|]|]|]|]|].
      + apply sys_accept. left. exists 3%nat, "10.0.0.1", "9.9.9.9". reflexivity.
      + eapply (sys_call _ _ manager0 [] Call.ConnRead _ _ [] (Ok [Byte.x05])). reflexivity.
      + eapply (sys_call _ _ manager0 [] Call.SocksCredentials _ _ [] (Ok ("bob", "pw"))). reflexivity.
      + eapply (sys_call _ _ manager0 [] (Call.Valid "bob" "pw" "10.0.0.1" "9.9.9.9") _ _ [] (Ok "10.0.0.1")).
        reflexivity.
      + eapply (sys_call _ _ manager0 [] (Call.AddIpConnCount "10.0.0.1") _ _ [] (Ret (true, 1)) m1).
        unfold answers. rewrite E. split; reflexivity.
    - reflexivity. }
  destruct (server_never_leaks no_parse "ipv4" manager0 5 m1 ps manager0_ip manager0_idle Hr ltac:(lia))
    as ((cnt & Hrep & Hcnt) & _).
  exists m1, ps, cnt. split; [exact Hr|]. split; [exact Hrep|]. by rewrite Hcnt, Hc.
Defined.
