(* ===== verification/Front.v ===== *)
(** * The listening server: accept loops joined with their handlers

    [Accept] has the loops with the goroutines of each connection but no
    handlers, [Server] has the handlers with the manager but no connections.
    Here every connection of a loop runs a handler of the server: a handler
    starts when its connection is accepted, and [done] is closed when it has
    returned. Which loops there are, and what [Stop] does to them, is the
    matter of [Lifecycle] ([server/tcp_server.go], [server/manager.go]). *)
From stdpp Require Import base gmap strings numbers fin_maps list relations.
From S2P Require Import Prelude GoIO ConcurrentMap Socks5 Manager Text Program Proxy Server.
From S2P Require Import Accept.

(** ** The listeners *)

(** What a loop starts for a connection: [handlerTcpConn] or
    [handleShadowSocks]. *)
Inductive port := PTcp | PShadowSocks.

Section listeners.
Context {L : Type} (Listen : string -> result error L).

(** [initIpv4TcpListener] and [initIpv6TcpListener]: [log.Panic] panics. *)
Fixpoint open_all (addrs : list string) (m : gmap string L) : outcome (gmap string L) :=
  match addrs with
  | [] => Ret m
  | v :: addrs' =>
      match Listen v with
      | Err _ => Panic
      | Ok listener => open_all addrs' (<[v := listener]> m)
      end
  end.
Definition initTcpListener (addrs : list string) : outcome (gmap string L) := open_all addrs ∅.
Definition initShadowSocksListener (addr : string) : outcome L :=
  match Listen addr with Err _ => Panic | Ok listener => Ret listener end.

(** The server listens on every configured address, or does not start. *)
Lemma open_all_exact addrs m m' :
  open_all addrs m = Ret m' ->
  dom m' = list_to_set addrs ∪ dom m /\
  forall v l, m' !! v = Some l -> (v ∈ addrs /\ Listen v = Ok l) \/ m !! v = Some l.
Proof.
  revert m. induction addrs as [|v addrs IH]; intros m; simpl; [intros [= <-]; split; [set_solver|auto]|].
  destruct (Listen v) as [l|e] eqn:E; [|done]. intros Hm. destruct (IH _ Hm) as [Hd Hl]. split; [set_solver|].
  intros v' l' Hv. destruct (Hl v' l' Hv) as [[Hin HL]|Hi]; [left; set_solver|].
  apply lookup_insert_Some in Hi as [[<- <-]|[_ Hi]]; [left|by right]. split; [set_solver|done].
Qed.
End listeners.

Section front.
Context {M1 M2 : Type}.
Context `{CMapOps string (option loc) M1} `{CMapOps string (option loc) M2}.
Context `{!CMap string (option loc) M1 None} `{!CMap string (option loc) M2 None}.
Context (ParseIP : string -> option bytes) (mode : string).

Abbreviation handlers := (list (prog () * mon)).
Abbreviation sys_step := (sys_step (M1 := M1) (M2 := M2) ParseIP mode).

Record front := mkFront {
  loops : list listener;
  mgr : manager M1 M2;
  ps : handlers;
  (** the loop and the connection of each handler *)
  who : list (nat * nat)
}.

Definition handler_of (k : port) (p : prog ()) : Prop :=
  match k with
  | PTcp => exists fuel local peer, p = handlerTcpConn ParseIP mode fuel local peer
  | PShadowSocks => exists fuel addr, p = handleShadowSocks ParseIP mode fuel addr
  end.

Definition set_loop (i : nat) (l : listener) (s : front) : front :=
  mkFront (<[i := l]> (loops s)) (mgr s) (ps s) (who s).
Definition no_run (l : listener) : listener :=
  mkListener false (cancelled l) (listening l) (ap l) (conns l).
Definition no_listen (l : listener) : listener :=
  mkListener (isRun l) (cancelled l) false (ap l) (conns l).
Definition cancel (l : listener) : listener :=
  mkListener (isRun l) true (listening l) (ap l) (conns l).
Definition set_handled (j : nat) (c : conn) (l : listener) : listener :=
  set_conn j (mkConn (kp c) true (opened c)) l.

(** New loops, which have accepted nothing yet. *)
Definition spawn (new : list listener) (s : front) : front :=
  mkFront (loops s ++ new) (mgr s) (ps s) (who s).

(** The accept loops with the goroutines of their connections. *)
Inductive move_step : front -> front -> Prop :=
| w_loop s i l l' :
    loops s !! i = Some l -> own_step l l' -> handled <$> conns l' = handled <$> conns l ->
    move_step s (set_loop i l' s)
(** a handler has returned: [close(done)] *)
| w_return s h r q i j l c :
    ps s !! h = Some (Done r, q) -> who s !! h = Some (i, j) -> loops s !! i = Some l ->
    conns l !! j = Some c -> handled c = false -> move_step s (set_loop i (set_handled j c l) s).

(** The handler [h] calls [o], which answers [x]. *)
Inductive call_step (h : nat) (o : op) (x : ans o) : front -> front -> Prop :=
| c_call s k q m' :
    ps s !! h = Some (Vis o k, q) -> answers (mgr s) o x m' ->
    call_step h o x s (mkFront (loops s) m' (<[h := (k x, observe ParseIP q o x)]> (ps s)) (who s)).

(** The goroutines of the server. *)
Inductive work_step : front -> front -> Prop :=
| w_move s s' : move_step s s' -> work_step s s'
| w_call s h o x s' : call_step h o x s s' -> work_step s s'.

(** What comes from outside; [ks] has the port of each loop. *)
Inductive env_step (ks : list port) : front -> front -> Prop :=
(** a client connects, or [Accept] fails although the listener is open *)
| f_connect s i k l p :
    loops s !! i = Some l -> ks !! i = Some k -> ap l = AAccept -> listening l = true -> handler_of k p ->
    env_step ks s (mkFront
      (<[i := mkListener (isRun l) (cancelled l) true AHead (conns l ++ [mkConn KSelect false true])]> (loops s))
      (mgr s) ((p, Proxy.start) :: ps s) ((i, length (conns l)) :: who s))
| f_fault s i l :
    loops s !! i = Some l -> ap l = AAccept -> listening l = true -> env_step ks s (set_loop i (set_ap AHead l) s)
(** users are disconnected, the configuration is replaced *)
| f_kick s k e m' :
    CloseUserConnections k (mgr s) = Ret (e, m') -> env_step ks s (mkFront (loops s) m' (ps s) (who s))
| f_config s conf m' :
    conf_ok conf -> nacos_event (Ok conf) (mgr s) (Ret m') -> env_step ks s (mkFront (loops s) m' (ps s) (who s)).

(** ** The invariant *)
Definition ended (pq : prog () * mon) : Prop := exists r, pq.1 = Done r.

Record front_inv (s : front) : Prop := mkFrontInv {
  fi_accept : Forall accept_inv (loops s);
  fi_sys : sys_inv ParseIP (length (ps s)) (mgr s, ps s);
  fi_len : length (who s) = length (ps s);
  fi_nodup : NoDup (who s);
  fi_who : forall h i j, who s !! h = Some (i, j) -> exists l c pq,
    loops s !! i = Some l /\ conns l !! j = Some c /\ ps s !! h = Some pq /\ (handled c = true -> ended pq);
  fi_all : forall i l j c, loops s !! i = Some l -> conns l !! j = Some c -> (i, j) ∈ who s
}.

(** The index of [sys_inv] bounds the handlers. *)
Lemma sys_inv_len n s : sys_inv (M1 := M1) (M2 := M2) ParseIP n s -> sys_inv ParseIP (length s.2) s.
Proof. intros [Hl Hf Hc Hu]. by split. Qed.

(** A change of the loops that keeps the connections and who has returned. *)
Lemma loops_inv s ls' :
  Forall accept_inv ls' -> length ls' = length (loops s) ->
  (forall i l l', loops s !! i = Some l -> ls' !! i = Some l' -> handled <$> conns l' = handled <$> conns l) ->
  front_inv s -> front_inv (mkFront ls' (mgr s) (ps s) (who s)).
Proof.
  intros Ha Hlen Hh [_ Hsys Hl Hnd Hwho Hall]. split; simpl; [done|done|done|done|..].
  - intros h i j Hw. destruct (Hwho h i j Hw) as (l & c & pq & Hi & Hj & Hp & Hd).
    destruct (lookup_lt_is_Some_2 ls' i) as [l' Hi'].
    { rewrite Hlen. by eapply lookup_lt_Some. }
    pose proof (f_equal (.!! j) (Hh i l l' Hi Hi')) as E. rewrite !list_lookup_fmap, Hj in E.
    destruct (conns l' !! j) as [c'|] eqn:Hj'; [|done]. injection E as E.
    exists l', c', pq. split_and!; [done..|]. intros Hc. apply Hd. congruence.
  - intros i l' j c' Hi' Hj'. destruct (lookup_lt_is_Some_2 (loops s) i) as [l Hi].
    { rewrite <- Hlen. by eapply lookup_lt_Some. }
    pose proof (f_equal (.!! j) (Hh i l l' Hi Hi')) as E. rewrite !list_lookup_fmap, Hj' in E.
    destruct (conns l !! j) as [c|] eqn:Hj; [|done]. by eapply Hall.
Qed.

Lemma set_loop_inv s i l l' :
  loops s !! i = Some l -> accept_inv l' -> handled <$> conns l' = handled <$> conns l ->
  front_inv s -> front_inv (set_loop i l' s).
Proof.
  intros Hi Ha Hh Hv. apply loops_inv; [..|done].
  - apply Forall_insert; [apply Hv|done].
  - by rewrite length_insert.
  - intros i' l1 l2 H1 H2. apply list_lookup_insert_Some in H2 as [(-> & -> & _)|[_ H2]]; congruence.
Qed.

(** Switches of the loops: they touch neither the connections nor the place
    in the code. *)
Lemma switch_inv s ls' :
  Forall2 (fun l l' => conns l' = conns l /\ ap l' = ap l) (loops s) ls' ->
  front_inv s -> front_inv (mkFront ls' (mgr s) (ps s) (who s)).
Proof.
  intros Hf Hv. apply loops_inv; [..|done].
  - apply Forall_lookup_2. intros i l' Hi'. destruct (Forall2_lookup_r _ _ _ _ _ Hf Hi') as (l & Hi & E1 & E2).
    destruct (Forall_lookup_1 _ _ _ _ (fi_accept _ Hv) Hi) as [Hc Hr].
    split; unfold done_all in *; by rewrite ?E1, ?E2.
  - symmetry. by eapply Forall2_length.
  - intros i l l' Hi Hi'. destruct (Forall2_lookup_lr _ _ _ _ _ _ Hf Hi Hi') as [-> _]. done.
Qed.

Lemma spawn_inv new s :
  Forall (fun l => conns l = [] /\ ap l <> ARet) new -> front_inv s -> front_inv (spawn new s).
Proof.
  intros Hn [Ha Hsys Hl Hnd Hwho Hall]. split; simpl; [|done|done|done|..].
  - apply Forall_app. split; [done|]. eapply Forall_impl; [exact Hn|]. intros l [E Hp].
    split; [by rewrite E; constructor|done].
  - intros h i j Hw. destruct (Hwho h i j Hw) as (l & c & pq & Hi & Hj & Hp & Hd).
    exists l, c, pq. split_and!; [by apply lookup_app_l_Some|done..].
  - intros i l j c [Hi|[_ Hi]]%lookup_app_Some Hj; [by eapply Hall|].
    destruct (Forall_lookup_1 _ _ _ _ Hn Hi) as [E _]. by rewrite E in Hj.
Qed.

(** A handler that has ended stays as it is. *)
Lemma serve_keeps_ended m ps m' ps' h pq :
  sys_step (m, ps) (m', ps') -> length ps' = length ps -> ps !! h = Some pq ->
  exists pq', ps' !! h = Some pq' /\ (ended pq -> ended pq').
Proof.
  intros Hs Hl Hh. inversion Hs as [? ? p Hp|? ps1 o k q ps2 x ? Ha|? ? k e ? E|? ? conf ? Hc E]; subst.
  - simpl in Hl. lia.
  - destruct (decide (h = length ps1)) as [->|Hne].
    + rewrite list_lookup_middle in Hh by done. injection Hh as <-. rewrite list_lookup_middle by done.
      eexists. split; [done|]. by intros [r E].
    + exists pq. split; [|done]. rewrite <- Hh, !lookup_app, !lookup_cons.
      destruct (ps1 !! h) eqn:E; [done|]. apply lookup_ge_None in E.
      by destruct (h - length ps1)%nat eqn:E'; [lia|].
  - eauto.
  - eauto.
Qed.

Lemma serve_inv s m' ps' :
  sys_step (mgr s, ps s) (m', ps') -> length ps' = length (ps s) -> Z.of_nat (length (ps s)) < 2 ^ 63 - 1 ->
  front_inv s -> front_inv (mkFront (loops s) m' ps' (who s)).
Proof.
  intros Hs Hlen Hn [Ha Hsys Hl Hnd Hwho Hall].
  split; simpl; [done| |congruence|done| |done].
  - eapply (sys_inv_len _ (m', ps')), sys_step_inv; done.
  - intros h i j Hw. destruct (Hwho h i j Hw) as (l & c & pq & Hi & Hj & Hp & Hd).
    destruct (serve_keeps_ended _ _ _ _ h pq Hs Hlen Hp) as (pq' & Hp' & Hk). eauto 10.
Qed.

Lemma connect_inv s i k l p :
  Z.of_nat (length (ps s)) < 2 ^ 63 - 1 -> loops s !! i = Some l -> handler_of k p -> front_inv s ->
  front_inv (mkFront
    (<[i := mkListener (isRun l) (cancelled l) true AHead (conns l ++ [mkConn KSelect false true])]> (loops s))
    (mgr s) ((p, Proxy.start) :: ps s) ((i, length (conns l)) :: who s)).
Proof.
  intros Hn Hi Hk [Ha Hsys Hl Hnd Hwho Hall].
  pose proof (lookup_lt_Some _ _ _ Hi) as Hlt. pose proof (Forall_lookup_1 _ _ _ _ Ha Hi) as [Hcs _].
  split; simpl.
  - apply Forall_insert; [done|]. split; simpl; [|done]. apply Forall_app_2; [done|].
    constructor; [|constructor]. split; simpl; [tauto|done].
  - eapply (sys_step_inv ParseIP mode); [done|apply sys_accept|done]. by destruct k; [left|right].
  - lia.
  - constructor; [|done]. intros [h Hh]%list_elem_of_lookup_1.
    destruct (Hwho _ _ _ Hh) as (l' & c & pq & Hi' & Hj & _). rewrite Hi in Hi'. injection Hi' as <-.
    apply lookup_lt_Some in Hj. lia.
  - intros [|h] i' j; simpl.
    + intros [= <- <-]. rewrite list_lookup_insert_eq by done.
      eexists _, (mkConn KSelect false true), _. split_and!; [done| |done|done]. simpl. by rewrite list_lookup_middle.
    + intros Hw. destruct (Hwho _ _ _ Hw) as (l' & c & pq & Hi' & Hj & Hp & Hd).
      destruct (decide (i' = i)) as [->|Hne].
      * rewrite Hi in Hi'. injection Hi' as <-. rewrite list_lookup_insert_eq by done.
        eexists _, c, pq. split_and!; [done| |done|done]. simpl. by apply lookup_app_l_Some.
      * rewrite list_lookup_insert_ne by done. eauto 10.
  - intros i' l' j c Hi' Hj. apply list_lookup_insert_Some in Hi' as [(<- & <- & _)|[_ Hi']]; simpl in Hj.
    + apply lookup_app_Some in Hj as [Hj|[Hge Hj]]; [right; by eapply Hall|].
      destruct (j - length (conns l))%nat eqn:E; [|done].
      replace j with (length (conns l)) by lia. left.
    + right. by eapply Hall.
Qed.

Lemma return_inv s h r q i j l c :
  ps s !! h = Some (Done r, q) -> who s !! h = Some (i, j) -> loops s !! i = Some l ->
  conns l !! j = Some c -> handled c = false -> front_inv s -> front_inv (set_loop i (set_handled j c l) s).
Proof.
  intros Hh Hw Hi Hj Hc [Ha Hsys Hl Hnd Hwho Hall].
  pose proof (lookup_lt_Some _ _ _ Hi) as Hlt. pose proof (lookup_lt_Some _ _ _ Hj) as Hlt'.
  split; simpl; [|done|done|done|..].
  - apply Forall_insert; [done|]. eapply own_step_inv; [by apply o_handler|]. by eapply Forall_lookup_1.
  - intros h' i' j' Hw'. destruct (Hwho _ _ _ Hw') as (l' & c' & pq & Hi' & Hj' & Hp & Hd).
    destruct (decide (i' = i)) as [->|]; [|rewrite list_lookup_insert_ne by done; eauto 10].
    rewrite Hi in Hi'. injection Hi' as <-. rewrite list_lookup_insert_eq by done.
    destruct (decide (j' = j)) as [->|].
    + assert (h' = h) as -> by by eapply NoDup_lookup. eexists _, (mkConn (kp c) true (opened c)), pq. split_and!; [done| |done|].
      * simpl. by rewrite list_lookup_insert_eq.
      * intros _. rewrite Hh in Hp. injection Hp as <-. by exists r.
    + eexists _, c', pq. split_and!; [done| |done|done]. simpl. by rewrite list_lookup_insert_ne.
  - intros i' l' j' c' Hi' Hj'. apply list_lookup_insert_Some in Hi' as [(<- & <- & _)|[_ Hi']]; [|by eapply Hall].
    simpl in Hj'. apply list_lookup_insert_Some in Hj' as [(<- & _)|[_ Hj']]; by eapply Hall.
Qed.

Lemma accept_inv_of s i l : front_inv s -> loops s !! i = Some l -> accept_inv l.
Proof. intros Hv Hi. eapply Forall_lookup_1; [apply Hv|done]. Qed.

Lemma move_step_frame s s' :
  move_step s s' -> ps s' = ps s /\ who s' = who s /\ length (loops s') = length (loops s).
Proof. intros Hs. by destruct Hs; simpl; rewrite length_insert. Qed.

Lemma move_step_inv s s' : move_step s s' -> front_inv s -> front_inv s'.
Proof.
  intros Hs Hv. destruct Hs as [s i l l' Hi Ho Hh|s h r q i j l c Hh Hw Hi Hj Hc].
  - eapply set_loop_inv; [done| |done|done]. eapply own_step_inv; [done|]. by eapply accept_inv_of.
  - by eapply return_inv.
Qed.

Lemma call_step_frame h o x s s' :
  call_step h o x s s' -> loops s' = loops s /\ who s' = who s /\ length (ps s') = length (ps s).
Proof. intros Hs. by destruct Hs; simpl; rewrite length_insert. Qed.

Lemma call_step_inv h o x s s' :
  call_step h o x s s' -> Z.of_nat (length (ps s)) < 2 ^ 63 - 1 -> front_inv s -> front_inv s'.
Proof.
  intros Hs Hn Hv. destruct Hs as [s k q m' Hh Ha]. apply serve_inv; [|by rewrite length_insert|done..].
  rewrite insert_take_drop by by eapply lookup_lt_Some. rewrite <- (take_drop_middle _ _ _ Hh) at 1. by apply sys_call.
Qed.

Lemma work_step_len s s' : work_step s s' -> length (ps s') = length (ps s).
Proof.
  intros [s0 s1 Hs|s0 h o x s1 Hs]; [by destruct (move_step_frame _ _ Hs) as [-> _]|by apply call_step_frame in Hs as (_ & _ & ?)].
Qed.

Lemma work_step_inv s s' :
  work_step s s' -> Z.of_nat (length (ps s)) < 2 ^ 63 - 1 -> front_inv s -> front_inv s'.
Proof. intros [s0 s1 Hs|s0 h o x s1 Hs] Hn Hv; [by eapply move_step_inv|by eapply call_step_inv]. Qed.

Lemma env_step_inv ks s s' :
  env_step ks s s' -> Z.of_nat (length (ps s')) < 2 ^ 63 - 1 -> front_inv s -> front_inv s'.
Proof.
  intros Hs Hn Hv. destruct Hs as [s i k l p Hi _ _ _ Hk|s i l Hi Hp _|s k e m' E|s conf m' Hc E].
  - eapply connect_inv; [|done..]. simpl in Hn. lia.
  - destruct (accept_inv_of _ _ _ Hv Hi). eapply set_loop_inv; [done| |done|done]. by split.
  - apply serve_inv; [by eapply sys_kick|done..].
  - apply serve_inv; [by eapply sys_config|done..].
Qed.

Lemma front_inv_start m0 : ip_repr m0 ∅ -> idle m0 -> front_inv (mkFront [] m0 [] []).
Proof.
  intros Hip Hid. split; simpl; [done|by apply (sys_reach_inv ParseIP mode m0); [..|constructor|]|done|constructor|done..].
Qed.

(** ** What the steps keep *)

(** Outside of [Stop], the switches of a loop stay, and a loop that has
    returned does not come back. *)
Definition keeps (l l' : listener) : Prop :=
  isRun l' = isRun l /\ cancelled l' = cancelled l /\ listening l' = listening l /\ (ap l = ARet -> ap l' = ARet).

#[local] Instance keeps_refl : Reflexive keeps.
Proof. by intros l. Qed.

Lemma keeps_insert ls i l l' : ls !! i = Some l -> keeps l l' -> Forall2 keeps ls (<[i := l']> ls).
Proof.
  intros Hi Hk. apply Forall2_same_length_lookup_2; [by rewrite length_insert|]. intros j a b Ha Hb.
  apply list_lookup_insert_Some in Hb as [(-> & -> & _)|[_ Hb]]; by simplify_eq.
Qed.

Lemma own_step_keeps l l' : own_step l l' -> keeps l l'.
Proof. destruct 1; unfold keeps; simpl; split_and!; try done; congruence. Qed.

Lemma move_step_keeps s s' : move_step s s' -> Forall2 keeps (loops s) (loops s').
Proof.
  intros [s0 i l l' Hi Ho _|s0 h r q i j l c _ _ Hi Hj Hc]; (eapply keeps_insert; [done|]);
    [by apply own_step_keeps|by apply own_step_keeps, o_handler].
Qed.

Lemma env_step_keeps ks s s' : env_step ks s s' -> Forall2 keeps (loops s) (loops s').
Proof.
  intros [s0 i k l p Hi _ Hp Hl _|s0 i l Hi Hp Hl|s0 k e m' _|s0 conf m' _ _]; simpl; [..|reflexivity|reflexivity];
    (eapply keeps_insert; [done|]); unfold keeps; simpl; split_and!; done || congruence.
Qed.

(** The handler of the connection [ij] is in the call [o]. *)
Definition at_call (s : front) (ij : nat * nat) (o : op) : Prop :=
  exists h k q, who s !! h = Some ij /\ ps s !! h = Some (Vis o k, q).

Lemma at_call_env ks s s' ij o : env_step ks s s' -> at_call s ij o -> at_call s' ij o.
Proof. intros Hs (h & k & q & Hw & Hp). destruct Hs; [exists (S h), k, q|exists h, k, q..]; done. Qed.

Lemma at_call_move s s' ij o : move_step s s' -> at_call s ij o -> at_call s' ij o.
Proof. intros [E1 [E2 _]]%move_step_frame. unfold at_call. by rewrite E1, E2. Qed.

Lemma at_call_other h o' x s s' ij ij' o :
  front_inv s -> call_step h o' x s s' -> who s !! h = Some ij' -> ij' <> ij -> at_call s ij o -> at_call s' ij o.
Proof.
  intros Hv Hs Hw Hne (h' & k & q & Hw' & Hp). destruct Hs as [s k' q' m' Hh Ha]. exists h', k, q. simpl.
  split; [done|]. rewrite list_lookup_insert_ne; [done|]. intros ->. congruence.
Qed.

(** The loop of a handler that has not ended has not returned. *)
Lemma live_handler s h i j pq :
  front_inv s -> who s !! h = Some (i, j) -> ps s !! h = Some pq -> ~ ended pq ->
  exists l c, loops s !! i = Some l /\ conns l !! j = Some c /\ handled c = false /\ kp c <> KDone /\ ap l <> ARet.
Proof.
  intros Hv Hw Hp Hn. destruct (fi_who _ Hv _ _ _ Hw) as (l & c & pq' & Hi & Hj & Hp' & Hd). exists l, c.
  rewrite Hp in Hp'. injection Hp' as <-. destruct (accept_inv_of _ _ _ Hv Hi) as [Hok Hret].
  assert (handled c = false) as Hc by (destruct (handled c); [by destruct Hn; apply Hd|done]).
  assert (kp c <> KDone) as Hk.
  { intros E. rewrite (co_done _ (Forall_lookup_1 _ _ _ _ Hok Hj) E) in Hc. done. }
  split_and!; [done..|]. intros E. by apply Hk, (done_all_lookup l j c), Hj; apply Hret.
Qed.

(** ** What a returned loop leaves *)
Lemma ended_holds_nothing s h pq :
  front_inv s -> ps s !! h = Some pq -> ended pq -> counted pq.2 = None /\ ctx pq.2 = None.
Proof.
  intros Hv Hp [r E]. pose proof (Forall_lookup_1 _ _ _ _ (si_follows _ _ _ (fi_sys _ Hv)) Hp) as Hf.
  destruct pq as [p q]. simpl in *. subst p. by destruct Hf as [_ (? & _ & ?)].
Qed.

(** A returned loop has closed its connections, and their handlers have ended. *)
Lemma returned_loop s i l :
  front_inv s -> loops s !! i = Some l -> ap l = ARet ->
  Forall (fun c => handled c = true /\ opened c = false) (conns l) /\
  forall h j pq, who s !! h = Some (i, j) -> ps s !! h = Some pq -> ended pq.
Proof.
  intros Hv Hi Hp. destruct (accept_inv_of _ _ _ Hv Hi) as [Hok Hr]. split.
  - apply Forall_lookup_2. intros j c Hj. destruct (Forall_lookup_1 _ _ _ _ Hok Hj) as [Ho Hd].
    pose proof (done_all_lookup l j c (Hr Hp) Hj) as Hk.
    split; [auto|]. destruct (opened c); [|done]. destruct (proj1 Ho eq_refl); congruence.
  - intros h j pq Hw Hpq. destruct (fi_who _ Hv _ _ _ Hw) as (l' & c & pq' & Hi' & Hj & Hp' & Hd). simplify_eq.
    apply Hd, (co_done c); [by eapply Forall_lookup_1|]. eapply done_all_lookup; [by apply Hr|done].
Qed.

Lemma returned_all s :
  front_inv s -> Forall (fun l => ap l = ARet) (loops s) ->
  Forall (fun l => Forall (fun c => handled c = true /\ opened c = false) (conns l)) (loops s) /\ Forall ended (ps s).
Proof.
  intros Hv Hret. split; apply Forall_lookup_2.
  - intros i l Hi. eapply returned_loop; [done..|]. by eapply (Forall_lookup_1 _ _ _ _ Hret).
  - intros h pq Hp. destruct (lookup_lt_is_Some_2 (who s) h) as [[i j] Hw].
    { rewrite (fi_len _ Hv). by eapply lookup_lt_Some. }
    destruct (fi_who _ Hv _ _ _ Hw) as (l & _ & _ & Hi & _).
    eapply (returned_loop s i l); [done..|by eapply (Forall_lookup_1 _ _ _ _ Hret)|done|done].
Qed.

(** ** Stopping *)
Definition loops_work (s : front) : nat := sum_list_with work (loops s).

Definition halting (s : front) : Prop := Forall halted (loops s).

Lemma set_loop_halting s i l l' :
  halting s -> loops s !! i = Some l -> halted l' -> (work l' < work l)%nat ->
  halting (set_loop i l' s) /\ (loops_work (set_loop i l' s) < loops_work s)%nat.
Proof.
  intros Hw Hi Hs Hlt. split; [by apply Forall_insert|].
  pose proof (sum_list_insert work (loops s) i l l' Hi). unfold loops_work. simpl. lia.
Qed.

(** One step of a handler. *)
Definition prog_next (b a : prog () * mon) : Prop :=
  match a.1 with Vis o k => exists x, b.1 = k x | _ => False end.

Lemma prog_next_wf : well_founded prog_next.
Proof.
  intros [p q]. revert q. induction p as [r| |o k IH]; intros q; constructor; intros [p' q'] Hn; [done..|].
  destruct Hn as [x E]. simpl in E. subst p'. apply IH.
Qed.

Lemma move_step_down s s' :
  halting s -> move_step s s' -> halting s' /\ (loops_work s' < loops_work s)%nat.
Proof.
  intros Hw Hs. destruct Hs as [s i l l' Hi Ho _|s h r q i j l c Hh Hw' Hi Hj Hc].
  - destruct (own_step_halted l l') as [Hs Hlt]; [by eapply Forall_lookup_1|done|]. by eapply set_loop_halting.
  - destruct (own_step_halted l (set_handled j c l)) as [Hs Hlt]; [by eapply Forall_lookup_1|by apply o_handler|].
    by eapply set_loop_halting.
Qed.

Lemma call_step_down h o x s s' :
  call_step h o x s s' -> loops s' = loops s /\
  exists l1 a b l2, ps s = l1 ++ a :: l2 /\ ps s' = l1 ++ b :: l2 /\ prog_next b a.
Proof.
  intros [s0 k q m' Hh Ha]. split; [done|]. exists (take h (ps s0)), (Vis o k, q), (k x, observe ParseIP q o x), (drop (S h) (ps s0)).
  simpl. split_and!; [by rewrite take_drop_middle|apply insert_take_drop; by eapply lookup_lt_Some|by exists x].
Qed.

(** The goroutines take finitely many steps once no loop accepts any more. *)
Lemma work_step_Acc s : halting s -> Acc (fun b a => work_step a b) s.
Proof.
  intros Hw. remember (ps s) as l eqn:El.
  assert (Forall (Acc prog_next) l) as Hl by (apply Forall_forall; intros; apply prog_next_wf).
  apply list_step_Acc in Hl. revert s Hw El. induction Hl as [l _ IHl]. intros s.
  remember (loops_work s) as w eqn:Ew. revert s Ew. induction (lt_wf w) as [w _ IHw]. intros s -> Hw ->.
  constructor. intros s' Hs. destruct Hs as [s s1 Hs|s h o x s1 Hs].
  - destruct (move_step_down s s1 Hw Hs) as [Hw' Hlt]. destruct (move_step_frame _ _ Hs) as [E _]. by eapply IHw.
  - destruct (call_step_down _ _ _ _ _ Hs) as [E Hn]. eapply IHl; [exact Hn| |done]. unfold halting. by rewrite E.
Qed.

(** Every call can be answered. *)
Lemma answers_total m (o : op) : exists x m', answers (M1 := M1) (M2 := M2) m o x m'.
Proof.
  destruct o; try (by exists (some_ans _), m).
  - destruct (AddIpConnCount ip m) as [[r m1]|] eqn:E; [exists (Ret r), m1|exists Panic, m]; simpl; by rewrite E.
  - destruct (ReduceIpConnCount ip m) as [m1|] eqn:E; [exists (Ret ()), m1|exists Panic, m]; simpl; by rewrite E.
  - destruct (addUserConnection 0 key m) as [[[l|] m1]|] eqn:E;
      [exists (Ret l), m1|exists Panic, m1|exists Panic, m]; exists 0; by rewrite E.
  - destruct (deleteUserConnection key (Some l) m) as [m1|] eqn:E; [exists (Ret ()), m1|exists Panic, m];
      simpl; by rewrite E.
Qed.

(** A step of a loop is one of its own, or the return of a handler. *)
Lemma own_step_cases l l' :
  own_step l l' ->
  handled <$> conns l' = handled <$> conns l \/ exists j c, conns l !! j = Some c /\ handled c = false.
Proof.
  assert (forall i c c', conns l !! i = Some c -> handled c' = handled c ->
    handled <$> conns (set_conn i c' l) = handled <$> conns l) as Hk.
  { intros i c c' Hi E. simpl. rewrite list_fmap_insert, E. apply list_insert_id. by rewrite list_lookup_fmap, Hi. }
  destruct 1; eauto.
Qed.

Lemma waiting_progress s i j l c :
  front_inv s -> loops s !! i = Some l -> conns l !! j = Some c -> handled c = false ->
  (exists s', move_step s s') \/ (exists o, at_call s (i, j) o) \/ exists q, (Running, q) ∈ ps s.
Proof.
  intros Hv Hi Hj Hc. destruct (list_elem_of_lookup_1 _ _ (fi_all _ Hv _ _ _ _ Hi Hj)) as [h Hw].
  destruct (fi_who _ Hv _ _ _ Hw) as (_ & _ & [p q] & _ & _ & Hp & _). destruct p as [r| |o k].
  - left. eexists. by eapply w_return.
  - right. right. exists q. by eapply list_elem_of_lookup_2.
  - right. left. by exists o, h, k, q.
Qed.

(** A stopped loop that has not returned can go on, or one of its handlers is
    in a call or still relays. *)
Lemma stopped_loop_progress s i l :
  front_inv s -> loops s !! i = Some l -> stopped l -> ap l <> ARet ->
  (exists s', move_step s s') \/ (exists ij o, at_call s ij o) \/ exists q, (Running, q) ∈ ps s.
Proof.
  intros Hv Hi Hst Hp. destruct (stopped_progress l) as [l' Ho]; [done..|].
  destruct (own_step_cases _ _ Ho) as [Hh|(j & c & Hj & Hc)]; [left; eexists; by eapply w_loop|].
  destruct (waiting_progress s i j l c Hv Hi Hj Hc) as [?|[[o ?]|?]]; eauto.
Qed.
End front.
