(* ===== verification/Lifecycle.v ===== *)
(** * The whole server ([server/manager.go], [server/tcp_server.go], [main.go])

    [StartIpv4] and [StartIpv6] hand the accept functions, the configuration
    client and the RabbitMQ consumer to the task manager, whose workers run
    them; [tcpAccept] starts an accept loop for every listener. The handlers of
    the connections give log messages to the send queue. [Stop] clears [isRun],
    closes the listeners, stops the task manager and then closes the send
    queue. Here the transition systems of [TaskConsumer], [Front], [SendQueue]
    and [RabbitReconnect] are composed: an accept loop belongs to a worker, a
    worker returns only when its function does, and a log call of a handler is
    a push to the queue. *)
From stdpp Require Import base gmap strings numbers fin_maps relations list.
From S2P Require Import Prelude GoIO ConcurrentMap Socks5 Manager Text Program Proxy Server.
From S2P Require Import RabbitReconnect TaskConsumer SendQueue Accept Front.

(** The functions the server gives to [AddTask]. *)
Inductive task := TTcpAccept | TShadowSocks | TNacos | TConsume.

Definition AcceptAmount : nat := 2.

(** The calls of [AddTask] in [StartIpv4] and [StartIpv6], in order. *)
Definition StartIpv4 (openShadowSocks : bool) : list (nat * task) :=
  (AcceptAmount, TTcpAccept) ::
  (if openShadowSocks then [(1%nat, TShadowSocks)] else []) ++ [(1%nat, TNacos); (1%nat, TConsume)].
Definition StartIpv6 : list (nat * task) :=
  [(AcceptAmount, TTcpAccept); (1%nat, TNacos); (1%nat, TConsume)].

(** [Stop]: not called; after [isRun.Store(false)], in the loop that closes
    the listeners; in [m.tcm.Stop()]; in [closeRabbitmqSendQueueSlices]. *)
Inductive spc := VRun | VClose | VTasks | VQueue.
#[global] Instance spc_eq_dec : EqDecision spc.
Proof. solve_decision. Defined.

(** What an accept loop accepts from: a listener of [m.tcpListener], or
    [m.shadowSocksListener]. *)
Inductive socket := STcp (n : nat) | SShadow.
Definition port_of (k : socket) : port := match k with STcp _ => PTcp | SShadow => PShadowSocks end.
(** The task whose function runs the accept loop. *)
Definition task_of (k : socket) : task := match k with STcp _ => TTcpAccept | SShadow => TShadowSocks end.

(** An accept loop runs in a worker of a loop of the task manager. *)
Record owner := mkOwner { o_task : nat; o_worker : nat; o_socket : socket }.

Section system.
Context {M1 M2 : Type}.
Context `{CMapOps string (option loc) M1} `{CMapOps string (option loc) M2}.
Context `{!CMap string (option loc) M1 None} `{!CMap string (option loc) M2 None}.
Context (ParseIP : string -> option bytes) (mode : string).
(** [proto.Marshal] of the two log messages, and the names of their queues. *)
Context (MarshalBlack : BlackListAccessLog -> bytes * option error).
Context (MarshalAccess : AccessRecordsToInfluxDB -> bytes * option error).
Context (AccesslogToInfluxDBQueue BlacklistAccesslogQueue : string).

Abbreviation front := (front (M1 := M1) (M2 := M2)).
Abbreviation front_inv := (front_inv (M1 := M1) (M2 := M2) ParseIP).

Record server := mkServer {
  tcm : Manager;
  (** the function of each loop of the task manager *)
  kinds : list task;
  fr : front;
  (** the owner of each accept loop *)
  owners : list owner;
  isRunning : bool;
  (** which listeners of [m.tcpListener] are open *)
  tcpOpen : list bool;
  queue : sendq;
  (** the connections whose handlers are in [pushRabbitmqSendQueue], in the
      order of the queue's own list of pending calls *)
  pushers : list (nat * nat);
  sp : spc
}.

(** The state after [Start] with [n] listeners: every loop of the task manager
    is there, none has started a worker. *)
Definition started_with (ts : list (nat * task)) (n : nat) (m0 : manager M1 M2) : server :=
  mkServer
    (TaskConsumer.mkManager false (length ts) ((fun t => mkLoop t.1 LSelect 0 false []) <$> ts) [] SNot)
    ts.*2 (mkFront [] m0 [] []) [] true (replicate n true) initRabbitmqSendQueueSlices [] VRun.

Definition set_tcm (m : Manager) (s : server) : server :=
  mkServer m (kinds s) (fr s) (owners s) (isRunning s) (tcpOpen s) (queue s) (pushers s) (sp s).
Definition set_fr (f : front) (s : server) : server :=
  mkServer (tcm s) (kinds s) f (owners s) (isRunning s) (tcpOpen s) (queue s) (pushers s) (sp s).
Definition set_queue (q : sendq) (s : server) : server :=
  mkServer (tcm s) (kinds s) (fr s) (owners s) (isRunning s) (tcpOpen s) q (pushers s) (sp s).

(** The accept loops a function starts, on listeners as they are now. *)
Definition sockets (k : task) (s : server) : list socket :=
  match k with
  | TTcpAccept => STcp <$> seq 0 (length (tcpOpen s))
  | TShadowSocks => [SShadow]
  | TNacos | TConsume => []
  end.
Definition socket_open (open : list bool) (k : socket) : bool :=
  match k with STcp n => default false (open !! n) | SShadow => true end.
Definition new_loop (s : server) (k : socket) : listener :=
  mkListener (isRunning s) (TaskConsumer.cancelled (tcm s)) (socket_open (tcpOpen s) k) AHead [].

(** The loop [i] of the task manager starts a worker. *)
Definition start_worker (i : nat) (k : task) (l : loop) (s : server) : server :=
  mkServer
    (TaskConsumer.set_loop i (mkLoop (count l) LSelect (tChan l) (tClosed l) (workers l ++ [WRun])) (tcm s))
    (kinds s) (spawn (new_loop s <$> sockets k s) (fr s))
    (owners s ++ (mkOwner i (length (workers l)) <$> sockets k s))
    (isRunning s) (tcpOpen s) (queue s) (pushers s) (sp s).

(** Whether the function of the worker [j] of the loop [i] may have returned:
    [tcpAccept] and [shadowSocksListenerAccept] wait for their accept loops
    ([tcpAccept] then for five seconds or the context, which always ends),
    [runNacosConfServer] for the context, and the consumer does not return as
    long as its model does not. *)
Definition may_return (s : server) (i j : nat) (k : task) : Prop :=
  match k with
  | TTcpAccept | TShadowSocks => forall a o l,
      owners s !! a = Some o -> loops (fr s) !! a = Some l -> o_task o = i -> o_worker o = j -> ap l = ARet
  | TNacos => TaskConsumer.cancelled (tcm s) = true
  | TConsume => exists fuel connected hs hs', rConsume fuel connected hs = Some hs'
  end.

(** The log calls of the handlers, up to the [Enqueue]: what
    [SendBlackListAccessLogMessageData] and [ReportAccessLogToInfluxDB] push.
    A message that cannot be encoded is an error of the first and pushed as it
    is by the second. *)
Definition log_call (o : op) : option (string -> sendq -> sendq) :=
  match o with
  | Call.PushBlackLog l =>
      match MarshalBlack l with
      | (sendByte, None) => Some (fun unique => SendBlackListAccessLogMessage BlacklistAccesslogQueue unique sendByte)
      | (_, Some _) => None
      end
  | Call.PushAccessLog l =>
      Some (fun unique => SendAccessLogMessageToInfluxDB AccesslogToInfluxDBQueue unique (MarshalAccess l).1)
  | _ => None
  end.
(** The error [SendBlackListAccessLogMessageData] returns. *)
Definition log_returns (o : op) : ans o -> Prop :=
  match o return ans o -> Prop with
  | Call.PushBlackLog l => fun x => is_Some x <-> is_Some (MarshalBlack l).2
  | _ => fun _ => True
  end.

(** The goroutines of the server. *)
Inductive own_step : server -> server -> Prop :=
(** the task manager, where no function starts or returns *)
| v_loop s i l l' :
    TaskConsumer.loops (tcm s) !! i = Some l -> loop_step (TaskConsumer.cancelled (tcm s)) l l' ->
    is_run <$> workers l' = is_run <$> workers l ->
    own_step s (set_tcm (TaskConsumer.set_loop i l' (tcm s)) s)
| v_start s i k l :
    TaskConsumer.loops (tcm s) !! i = Some l -> kinds s !! i = Some k -> lpc l = LStart ->
    own_step s (start_worker i k l s)
| v_return s i k l j :
    TaskConsumer.loops (tcm s) !! i = Some l -> kinds s !! i = Some k -> workers l !! j = Some WRun ->
    may_return s i j k -> own_step s (set_tcm (TaskConsumer.set_loop i (set_worker j WToken l) (tcm s)) s)
| v_done s i l m :
    TaskConsumer.loops (tcm s) !! i = Some l -> lpc l = LDone -> loop_done i l (tcm s) = Ret m ->
    own_step s (set_tcm m s)
| v_waited s :
    stopping (tcm s) = SWait -> wg (tcm s) = 0%nat -> own_step s (set_tcm (Stop_return (tcm s)) s)
(** the accept loops, and the calls of the handlers *)
| v_move s f : move_step (fr s) f -> own_step s (set_fr f s)
| v_call s h o x f :
    call_step ParseIP h o x (fr s) f -> log_call o = None -> log_returns o x -> own_step s (set_fr f s)
(** a log call takes its number, and later puts the message into its queue *)
| v_log s ij o push unique :
    at_call (fr s) ij o -> log_call o = Some push -> ij ∉ pushers s ->
    own_step s (mkServer (tcm s) (kinds s) (fr s) (owners s) (isRunning s) (tcpOpen s)
      (push unique (queue s)) (pushers s ++ [ij]) (sp s))
| v_logged s p ij h o x f pick q :
    pushers s !! p = Some ij -> who (fr s) !! h = Some ij -> call_step ParseIP h o x (fr s) f ->
    log_returns o x -> push_enqueue p pick (queue s) = Ret q ->
    own_step s (mkServer (tcm s) (kinds s) f (owners s) (isRunning s) (tcpOpen s) q (delete p (pushers s)) (sp s)).

(** The listener [n] is closed: the loops that accept from it see it. *)
Definition close_socket (n : nat) (o : owner) (l : listener) : listener :=
  match o_socket o with STcp n' => if bool_decide (n' = n) then no_listen l else l | SShadow => l end.

Inductive server_step : server -> server -> Prop :=
| v_own s s' : own_step s s' -> server_step s s'
| v_env s f : env_step ParseIP mode (port_of ∘ o_socket <$> owners s) (fr s) f -> server_step s (set_fr f s)
| v_send s q : drain_step (queue s) q -> server_step s (set_queue q s)
(** [Stop], step by step; the listeners are closed in any order *)
| v_stop s :
    sp s = VRun ->
    server_step s (mkServer (tcm s) (kinds s) (mkFront (no_run <$> loops (fr s)) (mgr (fr s)) (ps (fr s)) (who (fr s)))
      (owners s) false (tcpOpen s) (queue s) (pushers s) VClose)
| v_close s n :
    sp s = VClose -> tcpOpen s !! n = Some true ->
    server_step s (mkServer (tcm s) (kinds s)
      (mkFront (zip_with (close_socket n) (owners s) (loops (fr s))) (mgr (fr s)) (ps (fr s)) (who (fr s)))
      (owners s) (isRunning s) (<[n := false]> (tcpOpen s)) (queue s) (pushers s) VClose)
| v_cancel s :
    sp s = VClose -> Forall (fun b => b = false) (tcpOpen s) ->
    server_step s (mkServer (Stop_cancel (tcm s)) (kinds s)
      (mkFront (cancel <$> loops (fr s)) (mgr (fr s)) (ps (fr s)) (who (fr s)))
      (owners s) (isRunning s) (tcpOpen s) (queue s) (pushers s) VTasks)
| v_queue s :
    sp s = VTasks -> stopping (tcm s) = SRet ->
    server_step s (mkServer (tcm s) (kinds s) (fr s) (owners s) (isRunning s) (tcpOpen s)
      (set_closing (CLoop 0) (queue s)) (pushers s) VQueue).

(** ** The invariant *)

Record tasks_ok (s : server) : Prop := mkTasksOk {
  to_mgr : mgr_inv (tcm s);
  to_kinds : length (kinds s) = length (TaskConsumer.loops (tcm s));
  to_stop : (sp s = VRun \/ sp s = VClose) <-> stopping (tcm s) = SNot;
  to_run : isRunning s = bool_decide (sp s = VRun);
  to_closed : sp s = VTasks \/ sp s = VQueue -> Forall (fun b => b = false) (tcpOpen s);
  to_last : sp s = VQueue -> stopping (tcm s) = SRet
}.

(** The worker of an accept loop. *)
Definition owned (m : Manager) (ks : list task) (o : owner) (l : listener) : Prop :=
  exists lp w, TaskConsumer.loops m !! o_task o = Some lp /\ ks !! o_task o = Some (task_of (o_socket o)) /\
    workers lp !! o_worker o = Some w /\ (w <> WRun -> ap l = ARet).

Record owners_ok (s : server) : Prop := mkOwnersOk {
  oo_front : front_inv (fr s);
  oo_switch : Forall2 (fun o l => isRun l = isRunning s /\ cancelled l = TaskConsumer.cancelled (tcm s) /\
    listening l = socket_open (tcpOpen s) (o_socket o)) (owners s) (loops (fr s));
  oo_owned : Forall2 (owned (tcm s) (kinds s)) (owners s) (loops (fr s))
}.

Record queue_ok (n : nat) (s : server) : Prop := mkQueueOk {
  qo_inv : sendq_inv n (queue s);
  qo_closing : sp s <> VQueue -> closing (queue s) = CNot;
  qo_dropped : dropped (queue s) = [];
  qo_len : length (pushers s) = length (pushing (queue s));
  qo_nodup : NoDup (pushers s);
  qo_calls : forall ij, ij ∈ pushers s -> exists o, at_call (fr s) ij o /\ is_Some (log_call o)
}.

Record server_inv (n : nat) (s : server) : Prop := mkServerInv {
  sv_tasks : tasks_ok s;
  sv_owners : owners_ok s;
  sv_queue : queue_ok n s;
  sv_small : (length (ps (fr s)) <= n)%nat
}.

(** *** The start *)
Lemma started_inv ts n m0 : ip_repr m0 ∅ -> idle m0 -> server_inv 0 (started_with ts n m0).
Proof.
  intros Hip Hid. split; [| | |done].
  - split; simpl; try done; [..|tauto|].
    + split; simpl; try done.
      * apply Forall_fmap, Forall_true. intros t. split; simpl; try done; unfold count_if; simpl; lia.
      * induction ts as [|t ts IH]; [done|]. simpl. rewrite alive_cons. simpl. by f_equal.
    + by rewrite !length_fmap.
    + by intros [|].
  - split; simpl; [by apply (front_inv_start ParseIP mode)|constructor..].
  - split; simpl; try done; [apply sendq_inv_init|constructor|]. by intros ij ?%not_elem_of_nil.
Qed.

(** *** The task manager *)

(** A change of the task manager that starts no function. *)
Lemma tcm_tasks m s :
  run_step (tcm s) m -> length (TaskConsumer.loops m) = length (TaskConsumer.loops (tcm s)) ->
  tasks_ok s -> tasks_ok (set_tcm m s).
Proof.
  intros Hs Hlen [Hm Hk Hst Hr Hc Hl]. pose proof (run_step_inv _ _ Hs Hm).
  destruct (run_step_frame _ _ Hs) as [_ Hf]. split; simpl; try done.
  - by rewrite Hlen.
  - rewrite Hst. destruct Hf as [->|[E1 E2]]; [done|]. by rewrite E1, E2.
  - intros E. specialize (Hl E). destruct Hf as [->|[E1 E2]]; congruence.
Qed.

(** Workers that have left their function do not come back. *)
Definition workers_mono (s : server) (i : nat) (l l' : loop) : Prop :=
  forall j w, workers l !! j = Some w -> exists w', workers l' !! j = Some w' /\
    (w = WRun -> w' <> WRun -> forall k, kinds s !! i = Some k -> may_return s i j k) /\ (w <> WRun -> w' <> WRun).

Lemma tcm_owners i l l' m s :
  TaskConsumer.loops (tcm s) !! i = Some l -> TaskConsumer.loops m = <[i := l']> (TaskConsumer.loops (tcm s)) ->
  TaskConsumer.cancelled m = TaskConsumer.cancelled (tcm s) -> workers_mono s i l l' ->
  owners_ok s -> owners_ok (set_tcm m s).
Proof.
  intros Hi Hls Hca Hw [Hf Hsw Ho]. split; simpl; [done|by rewrite Hca|].
  apply Forall2_same_length_lookup. split; [by eapply Forall2_length|]. intros a o la Ha Hla.
  destruct (Forall2_lookup_lr _ _ _ _ _ _ Ho Ha Hla) as (lp & w & Hlp & Hk & Hj & Hr).
  unfold owned. rewrite Hls. destruct (decide (o_task o = i)) as [<-|Hne].
  - rewrite Hi in Hlp. injection Hlp as <-. destruct (Hw _ _ Hj) as (w' & Hj' & Hret & Hkeep).
    exists l', w'. split_and!; [apply list_lookup_insert_eq; by eapply lookup_lt_Some|done..|].
    intros Hw'. destruct w; [|by apply Hr..]. specialize (Hret eq_refl Hw' _ Hk).
    destruct (o_socket o) as [n|]; by apply (Hret a o la).
  - exists lp, w. by rewrite list_lookup_insert_ne.
Qed.

Lemma queue_same n m s :
  queue_ok n s -> queue_ok (S n) (set_tcm m s).
Proof. intros [Hi Hc Hd Hl Hn Ha]. split; simpl; [by apply sendq_inv_mono|done..]. Qed.

Lemma same_runs l l' j w w' :
  is_run <$> workers l' = is_run <$> workers l -> workers l !! j = Some w -> workers l' !! j = Some w' ->
  is_run w' = is_run w.
Proof.
  intros E Hj Hj'. apply (f_equal (.!! j)) in E. rewrite !list_lookup_fmap, Hj, Hj' in E. by injection E.
Qed.

Lemma same_runs_mono s i l l' :
  is_run <$> workers l' = is_run <$> workers l -> workers_mono s i l l'.
Proof.
  intros E j w Hj. destruct (lookup_lt_is_Some_2 (workers l') j) as [w' Hj'].
  { apply (f_equal length) in E. rewrite !length_fmap in E. rewrite E. by eapply lookup_lt_Some. }
  pose proof (same_runs _ _ _ _ _ E Hj Hj') as Ew. exists w'. split; [done|].
  split; [intros ->; by destruct w'|by destruct w, w'].
Qed.

Lemma return_mono s i k l j :
  kinds s !! i = Some k -> workers l !! j = Some WRun -> may_return s i j k ->
  workers_mono s i l (set_worker j WToken l).
Proof.
  intros Hk Hj Hr j' w Hj'. simpl. destruct (decide (j' = j)) as [->|Hne].
  - rewrite Hj in Hj'. injection Hj' as <-. exists WToken. split_and!; [|congruence|done].
    apply list_lookup_insert_eq. by eapply lookup_lt_Some.
  - exists w. rewrite list_lookup_insert_ne by done. by split_and!.
Qed.

Lemma start_tasks i k l s :
  TaskConsumer.loops (tcm s) !! i = Some l -> lpc l = LStart -> tasks_ok s -> tasks_ok (start_worker i k l s).
Proof.
  intros Hi Hp Hv.
  assert (run_step (tcm s) (tcm (start_worker i k l s))) as Hs by (eapply m_loop; [done|by apply l_start]).
  destruct (tcm_tasks _ s Hs (length_insert _ _ _) Hv). by split.
Qed.

Lemma start_owners i k l s :
  TaskConsumer.loops (tcm s) !! i = Some l -> kinds s !! i = Some k -> owners_ok s -> owners_ok (start_worker i k l s).
Proof.
  intros Hi Hk [Hf Hsw Ho]. split; simpl.
  - apply spawn_inv; [|done]. apply Forall_fmap, Forall_true. by intros k'.
  - apply Forall2_app; [done|]. apply Forall2_fmap, Forall_Forall2_diag, Forall_true. by intros k'.
  - apply Forall2_app.
    + eapply Forall2_impl; [exact Ho|]. intros o la (lp & w & Hlp & Hk' & Hj & Hr). unfold owned. simpl.
      destruct (decide (o_task o = i)) as [<-|Hne].
      * rewrite Hi in Hlp. injection Hlp as <-. eexists _, w. rewrite list_lookup_insert_eq by by eapply lookup_lt_Some.
        split_and!; [done..| |done]. by apply lookup_app_l_Some.
      * exists lp, w. by rewrite list_lookup_insert_ne.
    + apply Forall2_fmap, Forall_Forall2_diag, Forall_forall. intros k' Hin. unfold owned. simpl.
      eexists _, WRun. rewrite list_lookup_insert_eq by by eapply lookup_lt_Some.
      split_and!; [done| | |done]; [|simpl; by rewrite list_lookup_middle].
      rewrite Hk. f_equal. destruct k; simpl in Hin; [..|by apply not_elem_of_nil in Hin|by apply not_elem_of_nil in Hin].
      * by apply list_elem_of_fmap in Hin as (n & -> & _).
      * by apply list_elem_of_singleton in Hin as ->.
Qed.

(** *** The accept loops and the handlers *)
Lemma fr_tasks f s : tasks_ok s -> tasks_ok (set_fr f s).
Proof. intros []. by split. Qed.

Lemma fr_owners f s :
  front_inv f -> Forall2 keeps (loops (fr s)) (loops f) -> owners_ok s -> owners_ok (set_fr f s).
Proof.
  intros Hf Hk [_ Hsw Ho]. split; simpl; [done|..].
  - eapply Forall2_compose; [|exact Hsw|exact Hk]. intros o l l' (E1 & E2 & E3) (K1 & K2 & K3 & _).
    by rewrite K1, K2, K3.
  - eapply Forall2_compose; [|exact Ho|exact Hk]. intros o l l' (lp & w & ? & ? & ? & Hr) (_ & _ & _ & K).
    exists lp, w. split_and!; auto.
Qed.

Lemma fr_queue n f s :
  (forall ij o, at_call (fr s) ij o -> is_Some (log_call o) -> at_call f ij o) ->
  queue_ok n s -> queue_ok (S n) (set_fr f s).
Proof.
  intros Hf [Hi Hc Hd Hl Hn Ha]. split; simpl; [by apply sendq_inv_mono|done..|].
  intros ij Hin. destruct (Ha ij Hin) as (o & Hat & Hlog). eauto.
Qed.

(** Who is in a call is in one call only. *)
Lemma at_call_unique s ij h o k q o' :
  front_inv s -> who s !! h = Some ij -> ps s !! h = Some (Vis o k, q) -> at_call s ij o' -> o' = o.
Proof.
  intros Hv Hw Hp (h' & k' & q' & Hw' & Hp'). assert (h' = h) as -> by (eapply NoDup_lookup; [apply Hv|done..]).
  rewrite Hp in Hp'. congruence.
Qed.

(** The log calls of the other handlers stay. *)
Lemma call_step_logs h o x (s s' : front) ij o' :
  front_inv s -> call_step ParseIP h o x s s' -> who s !! h <> Some ij \/ o' <> o ->
  at_call s ij o' -> at_call s' ij o'.
Proof.
  intros Hv Hs Hne Hat. assert (exists k q, ps s !! h = Some (Vis o k, q)) as (k & q & Hp) by (destruct Hs; eauto).
  destruct (lookup_lt_is_Some_2 (who s) h) as [ij' Hw].
  { rewrite (fi_len _ _ Hv). by eapply lookup_lt_Some. }
  destruct (decide (ij' = ij)) as [->|]; [|by eapply at_call_other].
  destruct Hne as [Hne|Hne]; [congruence|]. destruct Hne. by eapply at_call_unique.
Qed.

(** *** The send queue *)
Lemma log_call_push o push :
  log_call o = Some push -> forall unique, exists m, forall q, push unique q = push_number m q.
Proof.
  intros Ho unique. destruct o; try done; simpl in Ho.
  - destruct (MarshalBlack l) as [b [e|]]; [done|]. injection Ho as <-. eexists. reflexivity.
  - injection Ho as <-. eexists. reflexivity.
Qed.

Lemma enqueue_frame p pick q q' :
  push_enqueue p pick q = Ret q' -> closing q' = closing q /\ pushing q' = delete p (pushing q).
Proof.
  unfold push_enqueue, mbind, outcome_bind. intros E.
  destruct (pushing q !! p) as [[idx m]|] eqn:Ep.
  - repeat case_match; by simplify_eq/=.
  - injection E as <-. split; [done|]. symmetry. by apply delete_none.
Qed.

Lemma drain_frame q q' :
  drain_step q q' -> pushing q' = pushing q /\ dropped q' = dropped q /\ (closing q = CNot -> closing q' = CNot).
Proof. intros Hs. destruct Hs; simpl; split_and!; try done; congruence. Qed.

Lemma log_queue n ij o push unique s :
  at_call (fr s) ij o -> log_call o = Some push -> ij ∉ pushers s -> queue_ok n s ->
  queue_ok (S n) (mkServer (tcm s) (kinds s) (fr s) (owners s) (isRunning s) (tcpOpen s)
    (push unique (queue s)) (pushers s ++ [ij]) (sp s)).
Proof.
  intros Hat Ho Hnin [Hi Hc Hd Hl Hn Ha]. destruct (log_call_push o push Ho unique) as [m E].
  split; simpl; rewrite ?E; [by apply push_number_inv|done|done|..].
  - simpl. rewrite !length_app. simpl. lia.
  - apply NoDup_app. split_and!; [done| |apply NoDup_singleton].
    intros ij' Hin ->%list_elem_of_singleton. done.
  - intros ij' [Hin| ->%list_elem_of_singleton]%elem_of_app; [auto|]. exists o. by rewrite Ho.
Qed.

Lemma logged_queue n p ij h o x f pick q s :
  Z.of_nat n < 2 ^ 63 -> pushers s !! p = Some ij -> who (fr s) !! h = Some ij -> call_step ParseIP h o x (fr s) f ->
  push_enqueue p pick (queue s) = Ret q -> closing (queue s) = CNot -> front_inv (fr s) -> queue_ok n s ->
  queue_ok (S n) (mkServer (tcm s) (kinds s) f (owners s) (isRunning s) (tcpOpen s) q (delete p (pushers s)) (sp s)).
Proof.
  intros Hlt Hp Hw Hs Hq Hcn Hf [Hi Hc Hd Hl Hn Ha].
  destruct (push_enqueue_inv n _ p pick Hlt Hi) as (q' & E & Hi'). rewrite E in Hq. injection Hq as <-.
  destruct (enqueue_frame _ _ _ _ E) as [Ec Ep]. pose proof (delete_Permutation _ _ _ Hp) as Hperm.
  assert (NoDup (ij :: delete p (pushers s))) as [Hnin Hnd]%NoDup_cons by by rewrite <- Hperm.
  split; simpl; [done|by rewrite Ec|apply Hi'; congruence| |done|].
  - rewrite Ep. apply Permutation_length in Hperm. simpl in Hperm.
    destruct (lookup_lt_is_Some_2 (pushing (queue s)) p) as [x' Hx].
    { rewrite <- Hl. by eapply lookup_lt_Some. }
    apply delete_Permutation, Permutation_length in Hx. simpl in Hx. lia.
  - intros ij' Hin. destruct (Ha ij') as (o' & Hat & Hlog); [rewrite Hperm; by right|].
    exists o'. split; [|done]. eapply call_step_logs; [done..| |done]. left. rewrite Hw. congruence.
Qed.

Lemma queue_tasks q pu s :
  tasks_ok s -> tasks_ok (mkServer (tcm s) (kinds s) (fr s) (owners s) (isRunning s) (tcpOpen s) q pu (sp s)).
Proof. intros []. by split. Qed.
Lemma queue_owners q pu s :
  owners_ok s -> owners_ok (mkServer (tcm s) (kinds s) (fr s) (owners s) (isRunning s) (tcpOpen s) q pu (sp s)).
Proof. intros []. by split. Qed.

(** *** The order of [Stop] *)

(** When the task manager has stopped, no accept loop runs. *)
Lemma stopped_loops s :
  tasks_ok s -> owners_ok s -> stopping (tcm s) = SRet -> Forall (fun l => ap l = ARet) (loops (fr s)).
Proof.
  intros Ht Ho Hst. apply Forall_lookup_2. intros a l Hl.
  destruct (Forall2_lookup_r _ _ _ _ _ (oo_owned _ Ho) Hl) as (o & _ & lp & w & Hlp & _ & Hj & Hr).
  apply Hr. intros ->. destruct (Forall_lookup_1 _ _ _ _ (mi_ret _ (to_mgr _ Ht) Hst) Hlp) as [Hz _].
  pose proof (count_pos is_run _ _ _ Hj eq_refl). unfold loop_wg in Hz. lia.
Qed.

Lemma stopped_no_call s ij o :
  tasks_ok s -> owners_ok s -> stopping (tcm s) = SRet -> ~ at_call (fr s) ij o.
Proof.
  intros Ht Ho Hst (h & k & q & Hw & Hp).
  destruct (returned_all _ _ (oo_front _ Ho) (stopped_loops s Ht Ho Hst)) as [_ He].
  destruct (Forall_lookup_1 _ _ _ _ He Hp) as [r E]. done.
Qed.

Lemma calls_before_closing n s ij :
  tasks_ok s -> owners_ok s -> queue_ok n s -> ij ∈ pushers s -> closing (queue s) = CNot.
Proof.
  intros Ht Ho Hq Hin. apply (qo_closing _ _ Hq). intros E. destruct (qo_calls _ _ Hq ij Hin) as (o & Hat & _).
  by apply (stopped_no_call s ij o Ht Ho (to_last _ Ht E)).
Qed.

(** *** [Stop] *)

(** [Stop] moves switches of the loops and nothing else. *)
Definition switched (l l' : listener) : Prop := conns l' = conns l /\ ap l' = ap l.
Definition with_loops (ls : list listener) (f : front) : front := mkFront ls (mgr f) (ps f) (who f).

Lemma switched_owned m ks os ls ls' :
  Forall2 switched ls ls' -> Forall2 (owned m ks) os ls -> Forall2 (owned m ks) os ls'.
Proof.
  intros Hs Ho. eapply Forall2_compose; [|exact Ho|exact Hs].
  intros o l l' (lp & w & ? & ? & ? & Hr) [_ E]. exists lp, w. by rewrite E.
Qed.

Lemma switched_fmap f ls : (forall l, switched l (f l)) -> Forall2 switched ls (f <$> ls).
Proof. intros Hf. apply Forall2_fmap_r, Forall_Forall2_diag, Forall_true. done. Qed.

Lemma stop_owners s :
  owners_ok s ->
  owners_ok (mkServer (tcm s) (kinds s) (with_loops (no_run <$> loops (fr s)) (fr s))
    (owners s) false (tcpOpen s) (queue s) (pushers s) VClose).
Proof.
  intros [Hf Hsw Ho]. assert (Forall2 switched (loops (fr s)) (no_run <$> loops (fr s))) as Hs by by apply switched_fmap.
  split; simpl; [by apply switch_inv| |by eapply switched_owned].
  apply Forall2_fmap_r. eapply Forall2_impl; [exact Hsw|]. by intros o l (_ & ? & ?).
Qed.

Lemma cancel_owners s :
  owners_ok s ->
  owners_ok (mkServer (Stop_cancel (tcm s)) (kinds s) (with_loops (cancel <$> loops (fr s)) (fr s))
    (owners s) (isRunning s) (tcpOpen s) (queue s) (pushers s) VTasks).
Proof.
  intros [Hf Hsw Ho]. assert (Forall2 switched (loops (fr s)) (cancel <$> loops (fr s))) as Hs by by apply switched_fmap.
  split; simpl; [by apply switch_inv| |by eapply (switched_owned (tcm s))].
  apply Forall2_fmap_r. eapply Forall2_impl; [exact Hsw|]. by intros o l (? & _ & ?).
Qed.

Lemma close_switched n os ls (P : owner -> listener -> Prop) :
  Forall2 P os ls -> Forall2 switched ls (zip_with (close_socket n) os ls).
Proof.
  induction 1 as [|o l os ls _ _ IH]; [constructor|]. constructor; [|done].
  unfold close_socket. destruct (o_socket o); [case_bool_decide|]; done.
Qed.

Lemma close_owners n s :
  tcpOpen s !! n = Some true -> owners_ok s ->
  owners_ok (mkServer (tcm s) (kinds s) (with_loops (zip_with (close_socket n) (owners s) (loops (fr s))) (fr s))
    (owners s) (isRunning s) (<[n := false]> (tcpOpen s)) (queue s) (pushers s) VClose).
Proof.
  intros Hn [Hf Hsw Ho]. pose proof (close_switched n _ _ _ Hsw) as Hs.
  split; simpl; [by apply switch_inv| |by eapply switched_owned].
  apply lookup_lt_Some in Hn. clear -Hsw Hn.
  induction Hsw as [|o l os ls (E1 & E2 & E3) _ IH]; [constructor|]. constructor; [|done].
  unfold close_socket, socket_open in *. destruct (o_socket o) as [n'|]; [|done].
  case_bool_decide as E; simpl; [subst n'; by rewrite list_lookup_insert_eq|].
  by rewrite list_lookup_insert_ne by done.
Qed.

Lemma stop_queue n m f ir op p s :
  ps f = ps (fr s) -> who f = who (fr s) -> (p <> VQueue -> sp s <> VQueue) ->
  queue_ok n s -> queue_ok (S n) (mkServer m (kinds s) f (owners s) ir op (queue s) (pushers s) p).
Proof.
  intros E1 E2 Hp [Hi Hc Hd Hl Hn Ha]. split; simpl; [by apply sendq_inv_mono|auto|done..|].
  unfold at_call. rewrite E1, E2. done.
Qed.

(** *** Every step keeps the invariant *)
Lemma own_step_len s s' : own_step s s' -> length (ps (fr s')) = length (ps (fr s)).
Proof.
  intros Hs. destruct Hs as [| | | | |s f Hm|s h o x f Hc _ _| |s p ij h o x f pick q _ _ Hc _ _]; simpl; try done.
  - by destruct (move_step_frame _ _ Hm) as [-> _].
  - by destruct (call_step_frame _ _ _ _ _ _ Hc) as (_ & _ & ?).
  - by destruct (call_step_frame _ _ _ _ _ _ Hc) as (_ & _ & ?).
Qed.

Lemma env_step_len ks s s' : env_step (M1 := M1) (M2 := M2) ParseIP mode ks s s' -> (length (ps s') <= S (length (ps s)))%nat.
Proof. intros Hs. destruct Hs; simpl; lia. Qed.
Lemma call_step_keeps h o x (s s' : front) : call_step ParseIP h o x s s' -> Forall2 keeps (loops s) (loops s').
Proof. intros (-> & _)%call_step_frame. apply Forall_Forall2_diag, Forall_true. by intros l. Qed.

Lemma own_server_inv n s s' : own_step s s' -> Z.of_nat n < 2 ^ 63 - 1 -> server_inv n s -> server_inv (S n) s'.
Proof.
  intros Hs Hn Hv. pose proof (own_step_len _ _ Hs) as Hlen.
  destruct Hv as [Ht Ho Hq Hsm]. split; [..|lia]; clear Hlen;
  destruct Hs as [s i l l' Hi Hs Hr|s i k l Hi Hk Hp|s i k l j Hi Hk Hj Hr|s i l m Hi Hp Hd|s Hst Hw|s f Hm|
      s h o x f Hc Hlog Hret|s ij o push unique Hat Hlog Hnin|s p ij h o x f pick q Hp Hw Hc Hret Hq'].
  (** tasks *)
  - apply tcm_tasks; [by eapply m_loop|apply length_insert|done].
  - by apply start_tasks.
  - apply tcm_tasks; [eapply m_loop; [done|by apply l_fc_returns]|apply length_insert|done].
  - apply tcm_tasks; [by eapply m_done| |done]. unfold loop_done in Hd. destruct (wg (tcm s)); [done|].
    injection Hd as <-. apply length_insert.
  - apply tcm_tasks; [by apply m_stopped|done..].
  - by apply fr_tasks.
  - by apply fr_tasks.
  - by apply queue_tasks.
  - by apply (queue_tasks q (delete p (pushers s)) (set_fr f s)), fr_tasks.
  (** owners *)
  - eapply tcm_owners; [done..|by apply same_runs_mono|done].
  - by apply start_owners.
  - eapply tcm_owners; [done..|by eapply return_mono|done].
  - unfold loop_done in Hd. destruct (wg (tcm s)); [done|]. injection Hd as <-.
    eapply tcm_owners; [done..|by apply same_runs_mono|done].
  - destruct Ho as [? ? Ho]. split; [done|done|]. exact Ho.
  - apply fr_owners; [eapply move_step_inv; [done|apply Ho]|by apply move_step_keeps|done].
  - apply fr_owners; [|by eapply call_step_keeps|done]. eapply call_step_inv; [apply mode|done|lia|apply Ho].
  - by apply queue_owners.
  - apply (queue_owners q (delete p (pushers s)) (set_fr f s)), fr_owners; [|by eapply call_step_keeps|done].
    eapply call_step_inv; [apply mode|done|lia|apply Ho].
  (** queue *)
  - by apply queue_same.
  - destruct Hq as [Hi' Hc Hd Hl Hnd Ha]. split; simpl; [by apply sendq_inv_mono|done..].
  - by apply queue_same.
  - by apply queue_same.
  - by apply queue_same.
  - apply fr_queue; [|done]. intros ij o Hat _. by eapply at_call_move.
  - apply fr_queue; [|done]. intros ij o' Hat Hlog'. eapply call_step_logs; [apply Ho|done| |done].
    right. intros ->. rewrite Hlog in Hlog'. by destruct Hlog'.
  - by eapply log_queue.
  - eapply logged_queue; [lia|done..| |apply Ho|done].
    eapply calls_before_closing; [done..|]. by eapply list_elem_of_lookup_2.
Qed.

Lemma server_step_inv n s s' : server_step s s' -> Z.of_nat n < 2 ^ 63 - 2 -> server_inv n s -> server_inv (S n) s'.
Proof.
  intros Hs Hn Hv. destruct Hs as [s s' Hs|s f Hs|s q Hs|s Hp|s j Hp Hj|s Hp Hall|s Hp Hst];
    [by eapply own_server_inv; [|lia|]|..]; destruct Hv as [Ht Ho Hq Hsm].
  - pose proof (env_step_len _ _ _ Hs) as Hlen. split; simpl; [by apply fr_tasks| | |lia].
    + apply fr_owners; [eapply env_step_inv; [done|lia|apply Ho]|by eapply env_step_keeps|done].
    + apply fr_queue; [|done]. intros ij o Hat _. by eapply at_call_env.
  - split; simpl; [by apply queue_tasks|by apply queue_owners| |lia].
    destruct (drain_frame _ _ Hs) as (E1 & E2 & E3). destruct Hq as [Hi Hc Hd Hl Hnd Ha].
    split; simpl; [eapply drain_step_inv; [lia|done..]|auto|congruence|congruence|done..].
  - split; simpl; [|by apply stop_owners|by apply stop_queue; [..|congruence|]|lia].
    destruct Ht as [Hm Hk Hst Hr Hc Hl]. split; simpl; try done; [|by intros [|]]. rewrite <- Hst, Hp. tauto.
  - split; simpl; [|by apply close_owners|by apply stop_queue; [..|congruence|]|lia].
    destruct Ht as [Hm Hk Hst Hr Hc Hl]. split; simpl; try done; [..|by intros [|]].
    + rewrite <- Hst, Hp. tauto.
    + by rewrite Hr, Hp.
  - split; simpl; [|by apply cancel_owners|by apply stop_queue; [..|congruence|]|lia].
    destruct Ht as [Hm Hk Hst Hr Hc Hl]. split; simpl; try done.
    + apply (manager_step_inv (tcm s)); [|done]. apply t_stop. apply Hst. by right.
    + split; [by intros [|]|done].
    + by rewrite Hr, Hp.
  - split; simpl; [|by destruct Ho| |lia].
    + destruct Ht as [Hm Hk Hs Hr Hc Hl]. split; simpl; try done; [|by rewrite Hr, Hp|by rewrite Hp in Hc; auto].
      rewrite <- Hs, Hp. split; intros [|]; done.
    + destruct Hq as [Hi Hc Hd Hl Hnd Ha]. split; simpl; try done.
      eapply sendq_step_inv; [lia| |done]. apply s_shutdown, Hc. congruence.
Qed.

Lemma server_run_inv k n s s' :
  nsteps server_step k s s' -> Z.of_nat (k + n) < 2 ^ 63 - 2 -> server_inv n s -> server_inv (k + n) s'.
Proof.
  intros Hr. revert n. induction Hr as [s|k s s1 s' Hs _ IH]; intros n Hn Hv; [done|].
  replace (S k + n)%nat with (k + S n)%nat by lia. apply IH; [lia|]. eapply server_step_inv; [done|lia|done].
Qed.

(** ** What is left at each stage of the shutdown *)

Lemma handler_worker n s h pq :
  server_inv n s -> ps (fr s) !! h = Some pq -> ~ ended pq -> exists a j o lp,
    who (fr s) !! h = Some (a, j) /\ owners s !! a = Some o /\
    TaskConsumer.loops (tcm s) !! o_task o = Some lp /\ workers lp !! o_worker o = Some WRun.
Proof.
  intros Hv Hp Hne. destruct (sv_owners _ _ Hv) as [Hf _ Ho].
  destruct (lookup_lt_is_Some_2 (who (fr s)) h) as [[a j] Hw].
  { rewrite (fi_len _ _ Hf). by eapply lookup_lt_Some. }
  destruct (live_handler _ _ _ _ _ _ Hf Hw Hp Hne) as (l & c & Hi & _ & _ & _ & Hret).
  destruct (Forall2_lookup_r _ _ _ _ _ Ho Hi) as (o & Ha & lp & w & Hlp & _ & Hj & Hr).
  exists a, j, o, lp. split_and!; [done..|]. destruct w; [done|by destruct Hret; apply Hr..].
Qed.

Lemma stopped_all n s :
  Z.of_nat n < 2 ^ 63 -> server_inv n s -> stopping (tcm s) = SRet ->
  Forall (fun l => Forall (fun c => handled c = true /\ opened c = false) (conns l)) (loops (fr s)) /\
  Forall ended (ps (fr s)) /\ pushers s = [] /\
  cm_view (ipConnCountMap (mgr (fr s))) = ∅ /\ cm_view (userCtxMap (mgr (fr s))) = ∅.
Proof.
  intros Hn [Ht Ho Hq Hsm] Hst. pose proof (oo_front _ Ho) as Hf.
  destruct (returned_all _ _ Hf (stopped_loops s Ht Ho Hst)) as [Hc He]. split_and!; [done..| |by eapply drained; [apply Hf|]|by eapply drained; [apply Hf|]].
  destruct (pushers s) as [|ij l] eqn:E; [done|].
  destruct (qo_calls _ _ Hq ij) as (o & Hat & _); [rewrite E; left|].
  by destruct (stopped_no_call s ij o Ht Ho Hst).
Qed.

(** C2. The server shuts down in order. However its goroutines, the clients,
    the consumer's events, new configurations and [Stop] interleave, for fewer
    than 2^63 - 2 steps: a worker of the task manager that has left an accept
    function leaves no open connection and no handler behind; a handler that is
    counted under an exit address or holds a user context runs in a worker
    that has not returned; when the task manager has stopped, every connection
    is closed, every handler has ended and both tables are empty; the send
    queue is closed only after that, so no log message of a handler is ever
    refused, and when the queue has shut down every message was handed to
    [Push] exactly once. *)
Theorem shutdown_in_order ts n m0 k s :
  ip_repr m0 ∅ -> idle m0 -> nsteps server_step k (started_with ts n m0) s -> Z.of_nat k < 2 ^ 63 - 2 ->
  (forall a o l lp w, owners s !! a = Some o -> loops (fr s) !! a = Some l ->
     TaskConsumer.loops (tcm s) !! o_task o = Some lp -> workers lp !! o_worker o = Some w -> w <> WRun ->
     ap l = ARet /\ Forall (fun c => handled c = true /\ opened c = false) (conns l) /\
     forall h j pq, who (fr s) !! h = Some (a, j) -> ps (fr s) !! h = Some pq -> ended pq) /\
  (forall h pq, ps (fr s) !! h = Some pq -> counted pq.2 <> None \/ ctx pq.2 <> None -> exists a j o lp,
     who (fr s) !! h = Some (a, j) /\ owners s !! a = Some o /\
     TaskConsumer.loops (tcm s) !! o_task o = Some lp /\ workers lp !! o_worker o = Some WRun) /\
  (stopping (tcm s) = SRet ->
     Forall (fun l => Forall (fun c => handled c = true /\ opened c = false) (conns l)) (loops (fr s)) /\
     Forall ended (ps (fr s)) /\
     cm_view (ipConnCountMap (mgr (fr s))) = ∅ /\ cm_view (userCtxMap (mgr (fr s))) = ∅) /\
  (closing (queue s) <> CNot -> stopping (tcm s) = SRet) /\ dropped (queue s) = [] /\
  (closing (queue s) = CDone -> pushed (queue s) ≡ₚ (sent (queue s)).*1).
Proof.
  intros Hip Hid Hr Hk. pose proof (server_run_inv k 0 _ _ Hr ltac:(lia) (started_inv ts n m0 Hip Hid)) as Hv.
  rewrite Nat.add_0_r in Hv. pose proof Hv as [Ht Ho Hq Hsm]. pose proof (oo_front _ Ho) as Hf.
  assert (closing (queue s) <> CNot -> stopping (tcm s) = SRet) as Hord.
  { intros Hc. apply (to_last _ Ht). destruct (decide (sp s = VQueue)) as [|Hne]; [done|].
    destruct Hc. by apply (qo_closing _ _ Hq). }
  split_and!; [| | |done|by apply (qo_dropped _ _ Hq)|].
  - intros a o l lp w Ha Hl Hlp Hw Hne.
    destruct (Forall2_lookup_lr _ _ _ _ _ _ (oo_owned _ Ho) Ha Hl) as (lp' & w' & Hlp' & _ & Hw' & Hret). simplify_eq.
    specialize (Hret Hne). destruct (returned_loop _ _ _ _ Hf Hl Hret). by split_and!.
  - intros h pq Hp Hheld. eapply handler_worker; [done..|]. intros He.
    destruct (ended_holds_nothing _ _ _ _ Hf Hp He). by destruct Hheld.
  - intros Hst. destruct (stopped_all k s ltac:(lia) Hv Hst) as (? & ? & _ & ? & ?). by split_and!.
  - intros Hc. destruct (stopped_all k s ltac:(lia) Hv) as (_ & _ & E & _); [apply Hord; congruence|].
    pose proof (qo_len _ _ Hq) as Hl. rewrite E in Hl. symmetry in Hl. apply nil_length_inv in Hl.
    destruct (sendq_places k _ ltac:(lia) (qo_inv _ _ Hq)) as [_ Hp]. rewrite (Hp Hc), Hl, (qo_dropped _ _ Hq). done.
Qed.

(** ** [Stop] gets as far as the functions let it *)

(** A worker of the consumer's loop is inside its function. *)
Definition consuming (s : server) : Prop :=
  exists i l j, kinds s !! i = Some TConsume /\ TaskConsumer.loops (tcm s) !! i = Some l /\ workers l !! j = Some WRun.

(** The Shadowsocks loop waits for a client on its listener, which nobody
    closes. *)
Definition shadow_waits (s : server) : Prop :=
  exists a o l, owners s !! a = Some o /\ loops (fr s) !! a = Some l /\ o_socket o = SShadow /\ ap l = AAccept.

Definition stop_called (s : server) : Prop :=
  TaskConsumer.cancelled (tcm s) = true /\ isRunning s = false /\ halting (fr s).

(** The handlers that are not in a log call. *)
Definition not_logging (s : server) : nat := length (filter (fun ij => ij ∉ pushers s) (who (fr s))).

Lemma filter_out {A : Type} `{EqDecision A} (l p : list A) x :
  x ∈ l -> x ∉ p -> (length (filter (fun y => y ∉ p ++ [x]) l) < length (filter (fun y => y ∉ p) l))%nat.
Proof.
  intros Hin Hp. assert (forall l', (length (filter (fun y => y ∉ p ++ [x]) l') <= length (filter (fun y => y ∉ p) l'))%nat) as Hle.
  { induction l' as [|z l' IH]; [done|]. rewrite !filter_cons. repeat case_decide; simpl; try lia. set_solver. }
  induction l as [|y l IH]; [by apply not_elem_of_nil in Hin|]. rewrite !filter_cons.
  destruct (decide (y = x)) as [->|Hne].
  - rewrite decide_False by set_solver. rewrite decide_True by done. simpl. specialize (Hle l). lia.
  - apply elem_of_cons in Hin as [->|Hin]; [done|]. specialize (IH Hin).
    repeat case_decide; simpl; try lia; set_solver.
Qed.

Lemma own_step_down s s' :
  stop_called s -> own_step s s' -> stop_called s' /\
  ((TaskConsumer.work (tcm s') < TaskConsumer.work (tcm s))%nat \/
   tcm s' = tcm s /\ (work_step ParseIP (fr s) (fr s') \/ fr s' = fr s /\ (not_logging s' < not_logging s)%nat)).
Proof.
  intros (Hca & Hr & Hh) Hs.
  assert (forall m, run_step (tcm s) m -> (TaskConsumer.work m < TaskConsumer.work (tcm s))%nat /\
    TaskConsumer.cancelled m = true) as Hdown.
  { intros m Hm. split; [by apply run_step_decreases|]. by destruct (run_step_frame _ _ Hm) as [-> _]. }
  assert (forall f, work_step ParseIP (fr s) f -> halting f) as Hfr.
  { intros f Hf. destruct Hf as [f0 f1 Hm|f0 h o x f1 Hc]; [by apply (move_step_down f0)|].
    unfold halting. by destruct (call_step_frame _ _ _ _ _ _ Hc) as [-> _]. }
  destruct Hs as [s i l l' Hi Hs _|s i k l Hi Hk Hp|s i k l j Hi Hk Hj _|s i l m Hi Hp Hd|s Hst Hw|s f Hm|
      s h o x f Hc _ _|s ij o push unique Hat _ Hnin|s p ij h o x f pick q Hp Hw Hc _ _].
  - destruct (Hdown _ (m_loop _ _ _ _ Hi Hs)). by split; [|left].
  - destruct (Hdown _ (m_loop _ _ _ _ Hi (l_start _ _ Hp))). split; [|by left]. split_and!; [done..|].
    apply Forall_app. split; [done|]. apply Forall_fmap, Forall_true. intros k'. by split.
  - destruct (Hdown _ (m_loop _ _ _ _ Hi (l_fc_returns _ _ _ Hj))). by split; [|left].
  - destruct (Hdown _ (m_done _ _ _ _ Hi Hp Hd)). by split; [|left].
  - destruct (Hdown _ (m_stopped _ Hst Hw)). by split; [|left].
  - apply w_move with (ParseIP := ParseIP) in Hm. split; [by split_and!; [..|apply Hfr]|]. eauto.
  - apply w_call in Hc. split; [by split_and!; [..|apply Hfr]|]. eauto.
  - split; [done|]. right. split; [done|]. right. split; [done|]. destruct Hat as (h & k & q & Hw & _).
    apply filter_out; [by eapply list_elem_of_lookup_2|done].
  - apply w_call in Hc. split; [by split_and!; [..|apply Hfr]|]. eauto.
Qed.

Lemma own_step_Acc s : stop_called s -> Acc (fun b a => own_step a b) s.
Proof.
  intros Hc. remember (TaskConsumer.work (tcm s)) as w eqn:Ew. revert s Ew Hc.
  induction (lt_wf w) as [w _ IHw]. intros s Ew Hc.
  pose proof (work_step_Acc ParseIP (fr s) ltac:(apply Hc)) as Hf. remember (fr s) as f eqn:Ef.
  revert s Ew Hc Ef. induction Hf as [f _ IHf]. intros s Ew Hc Ef.
  remember (not_logging s) as u eqn:Eu. revert s Ew Hc Ef Eu.
  induction (lt_wf u) as [u _ IHu]. intros s -> Hc -> ->. constructor. intros s' Hs.
  destruct (own_step_down s s' Hc Hs) as [Hc' [Hlt|[E [Hf|[Ef Hlt]]]]].
  - by eapply IHw.
  - eapply IHf; [exact Hf|by rewrite E|done|done].
  - eapply IHu; [exact Hlt|by rewrite E|done|done|done].
Qed.

(** Every call has an answer that fits. *)
Lemma log_answers (m : manager M1 M2) (o : op) : exists x m', answers m o x m' /\ log_returns o x.
Proof.
  destruct (answers_total m o) as (x & m' & Ha).
  assert ((forall l, o <> Call.PushBlackLog l) -> log_returns o x) as Hother by (destruct o; try done; intros H'; by destruct (H' l)).
  destruct o; try (by exists x, m'; split; [|apply Hother]).
  exists (MarshalBlack l).2, m. by split.
Qed.

Lemma call_progress n s ij o :
  Z.of_nat n < 2 ^ 63 -> server_inv n s -> at_call (fr s) ij o -> exists s', own_step s s'.
Proof.
  intros Hn [_ _ Hq _] Hat. destruct (log_call o) as [push|] eqn:Hlog.
  - destruct (decide (ij ∈ pushers s)) as [Hin|Hnin]; [|eexists; by eapply (v_log s ij o push EmptyString)].
    apply list_elem_of_lookup_1 in Hin as [p Hp]. destruct Hat as (h & k & q & Hw & Hh).
    destruct (log_answers (mgr (fr s)) o) as (x & m' & Ha & Hr).
    destruct (push_enqueue_inv n (queue s) p None Hn (qo_inv _ _ Hq)) as (q' & Hq' & _).
    eexists. eapply v_logged; [done|done|by apply c_call|done|done].
  - destruct Hat as (h & k & q & Hw & Hh). destruct (log_answers (mgr (fr s)) o) as (x & m' & Ha & Hr).
    eexists. by eapply v_call; [apply c_call|..].
Qed.

(** A worker that has not returned: its function can, or an accept loop of it
    goes on, or it cannot. *)
Lemma worker_progress n s i l j :
  Z.of_nat n < 2 ^ 63 -> server_inv n s -> stopping (tcm s) = SWait ->
  TaskConsumer.loops (tcm s) !! i = Some l -> workers l !! j = Some WRun ->
  (exists s', own_step s s') \/ consuming s \/ (exists q, (Running, q) ∈ ps (fr s)) \/ shadow_waits s.
Proof.
  intros Hn Hv Hst Hi Hj. pose proof Hv as [Ht Ho Hq Hsm].
  assert (TaskConsumer.cancelled (tcm s) = true) as Hca by (rewrite (mi_cancel _ (to_mgr _ Ht)), Hst; done).
  assert (sp s <> VRun /\ (sp s = VTasks \/ sp s = VQueue)) as [Hs1 Hs2].
  { destruct (to_stop _ Ht) as [Ha _]. destruct (sp s); [by rewrite Ha in Hst by auto|by rewrite Ha in Hst by auto|auto..]. }
  pose proof (to_run _ Ht) as Hrun. rewrite bool_decide_eq_false_2 in Hrun by done.
  destruct (lookup_lt_is_Some_2 (kinds s) i) as [k Hk].
  { rewrite (to_kinds _ Ht). by eapply lookup_lt_Some. }
  destruct (decide (Forall (fun l' => ap l' = ARet) (loops (fr s)))) as [Hall|Hne].
  - destruct k; [left; eexists; eapply v_return; [done..|]|left; eexists; eapply v_return; [done..|]|
      left; eexists; by eapply v_return|right; left; by exists i, l, j];
      simpl; intros a o l' _ Hl _ _; by apply (Forall_lookup_1 _ _ _ _ Hall Hl).
  - apply not_Forall_Exists, Exists_exists in Hne as (l' & Hin & Hp); [|apply _].
    apply list_elem_of_lookup_1 in Hin as [a Ha].
    destruct (Forall2_lookup_r _ _ _ _ _ (oo_switch _ Ho) Ha) as (o & Hoa & E1 & E2 & E3).
    destruct (decide (listening l' = true /\ ap l' = AAccept)) as [[Hlis Hacc]|Hno].
    + right. right. right. exists a, o, l'. split_and!; [done..| |done]. destruct (o_socket o) as [m|]; [|done].
      simpl in E3. rewrite Hlis in E3. destruct (tcpOpen s !! m) as [b|] eqn:Eb; [|done]. simpl in E3. subst b.
      pose proof (Forall_lookup_1 _ _ _ _ (to_closed _ Ht Hs2) Eb). done.
    + destruct (stopped_loop_progress _ _ _ _ (oo_front _ Ho) Ha) as [[f Hm]|[(ij & c & Hat)|Hrn]]; [|done|..].
      * split_and!; [congruence| |congruence]. destruct (listening l'); [right; intros E; by apply Hno|by left].
      * left. eexists. by apply v_move.
      * left. by eapply call_progress.
      * by right; right; left.
Qed.

Lemma server_stop_progress n s :
  Z.of_nat n < 2 ^ 63 -> server_inv n s -> stopping (tcm s) = SWait ->
  (exists s', own_step s s') \/ consuming s \/ (exists q, (Running, q) ∈ ps (fr s)) \/ shadow_waits s.
Proof.
  intros Hn Hv Hst. pose proof Hv as [Ht _ _ _]. pose proof (to_mgr _ Ht) as Hm.
  assert (TaskConsumer.cancelled (tcm s) = true) as Hca by (rewrite (mi_cancel _ Hm), Hst; done).
  destruct (decide (wg (tcm s) = 0)%nat) as [Hz|Hz]; [left; eexists; by apply v_waited|].
  pose proof Hz as Hal. rewrite (mi_wg _ Hm) in Hal. destruct (alive_found _ Hal) as (i & l & Hi & Hp).
  destruct (lpc l) eqn:E; try done.
  - left. eexists. eapply v_loop; [done|by apply l_cancelled|done].
  - left. eexists. eapply v_loop; [done|by apply l_check|done].
  - destruct (lookup_lt_is_Some_2 (kinds s) i) as [k Hk].
    { rewrite (to_kinds _ Ht). by eapply lookup_lt_Some. }
    left. eexists. by eapply v_start.
  - destruct (decide (loop_wg l = 0)%nat) as [Hw|Hw]; [left; eexists; eapply v_loop; [done|by apply l_wait|done]|].
    destruct (running_found l Hw) as [j Hj]. by eapply worker_progress.
  - left. eexists. eapply v_loop; [done|by apply l_close|done].
  - destruct (wg (tcm s)) as [|w] eqn:Ew; [done|]. left. eexists. eapply v_done; [done..|].
    unfold loop_done. by rewrite Ew.
Qed.

(** The steps of the goroutines keep [Stop] waiting, or it has returned. *)
Lemma own_step_stopping s s' :
  own_step s s' -> stopping (tcm s') = stopping (tcm s) \/ stopping (tcm s') = SRet.
Proof.
  intros Hs. destruct Hs as [| | |s i l m Hi Hp Hd| | | | |]; simpl; auto.
  left. unfold loop_done in Hd. destruct (wg (tcm s)); [done|]. by injection Hd as <-.
Qed.

Lemma own_run_inv k n s s' :
  nsteps own_step k s s' -> Z.of_nat (k + n) < 2 ^ 63 - 1 -> stopping (tcm s) = SWait \/ stopping (tcm s) = SRet ->
  server_inv n s -> server_inv (k + n) s' /\ (stopping (tcm s') = SWait \/ stopping (tcm s') = SRet).
Proof.
  intros Hr. revert n. induction Hr as [s|k s s1 s' Hs _ IH]; intros n Hn Hst Hv; [done|].
  replace (S k + n)%nat with (k + S n)%nat by lia. apply IH; [lia| |by eapply own_server_inv; [|lia|]].
  destruct (own_step_stopping _ _ Hs) as [->|]; auto.
Qed.

(** C27. [Stop] gets as far as the task functions let it: from the moment the
    context is cancelled the goroutines of the task manager, the accept loops,
    the handlers (whose calls are answered) and the log calls take only finitely
    many steps, in any order, and where they take no more, [Stop] of the task
    manager has returned, or the RabbitMQ consumer is in its function, or a
    handler is still relaying, or the Shadowsocks loop waits for a client on its
    listener, which [Stop] does not close. *)
Theorem stop_waits_for_these ts n m0 k s :
  ip_repr m0 ∅ -> idle m0 -> nsteps server_step k (started_with ts n m0) s -> stopping (tcm s) = SWait ->
  Z.of_nat k < 2 ^ 63 - 2 ->
  Acc (fun b a => own_step a b) s /\
  forall k' s', nsteps own_step k' s s' -> Z.of_nat (k' + k) < 2 ^ 63 - 1 -> (forall s'', ~ own_step s' s'') ->
    stopping (tcm s') = SRet \/ consuming s' \/ (exists q, (Running, q) ∈ ps (fr s')) \/ shadow_waits s'.
Proof.
  intros Hip Hid Hr Hst Hk. pose proof (server_run_inv k 0 _ _ Hr ltac:(lia) (started_inv ts n m0 Hip Hid)) as Hv.
  rewrite Nat.add_0_r in Hv. split.
  - apply own_step_Acc. destruct Hv as [Ht Ho _ _].
    assert (TaskConsumer.cancelled (tcm s) = true) as Hca by (rewrite (mi_cancel _ (to_mgr _ Ht)), Hst; done).
    assert (isRunning s = false) as Hrun.
    { rewrite (to_run _ Ht). apply bool_decide_eq_false_2. intros E. destruct (to_stop _ Ht) as [Ha _].
      by rewrite Ha in Hst by auto. }
    split_and!; [done..|]. apply Forall_lookup_2. intros a l Hl.
    destruct (Forall2_lookup_r _ _ _ _ _ (oo_switch _ Ho) Hl) as (o & _ & E1 & E2 & _). split; congruence.
  - intros k' s' Hr' Hk' Hstuck. destruct (own_run_inv k' k s s' Hr' Hk' (or_introl Hst) Hv) as [Hv' [Hw|]]; [|by left].
    destruct (server_stop_progress (k' + k) s') as [[s'' Hs]|?]; [lia|done..|by destruct (Hstuck s'')|by right].
Qed.

(** ** The shutdown that never ends *)

(** The consumer stays inside its function. *)
Lemma consuming_run_step s s' i l l' :
  TaskConsumer.loops (tcm s) !! i = Some l -> TaskConsumer.loops (tcm s') = <[i := l']> (TaskConsumer.loops (tcm s)) ->
  (kinds s !! i = Some TConsume -> forall j, workers l !! j = Some WRun -> workers l' !! j = Some WRun) ->
  kinds s' = kinds s -> consuming s -> consuming s'.
Proof.
  intros Hi Hls Hkeep Ek (i0 & l0 & j & Hk & Hl & Hj). unfold consuming. rewrite Ek, Hls.
  destruct (decide (i0 = i)) as [->|Hne].
  - simplify_eq. exists i, l', j. split_and!; [done|apply list_lookup_insert_eq; by eapply lookup_lt_Some|auto].
  - exists i0, l0, j. by rewrite list_lookup_insert_ne.
Qed.

Lemma consuming_own s s' : own_step s s' -> consuming s -> consuming s'.
Proof.
  intros Hs Hc. destruct Hs as [s i l l' Hi Hs Hr|s i k l Hi Hk Hp|s i k l j Hi Hk Hj Hr|s i l m Hi Hp Hd|s Hst Hw|s f Hm|
      s h o x f _ _ _|s ij o push unique _ _ _|s p ij h o x f pick q _ _ _ _ _]; try done.
  - eapply consuming_run_step; [done|done| |done|done]. intros _ j Hj.
    destruct (lookup_lt_is_Some_2 (workers l') j) as [w' Hj'].
    { apply (f_equal length) in Hr. rewrite !length_fmap in Hr. rewrite Hr. by eapply lookup_lt_Some. }
    pose proof (same_runs _ _ _ _ _ Hr Hj Hj'). by destruct w'.
  - eapply consuming_run_step; [done|done| |done|done]. intros _ j Hj. simpl. by apply lookup_app_l_Some.
  - eapply consuming_run_step; [done|done| |done|done]. intros Hk' j' Hj'. simplify_eq.
    destruct Hr as (fuel & b & hs & hs' & E). by rewrite rConsume_none in E.
  - unfold loop_done in Hd. destruct (wg (tcm s)); [done|]. injection Hd as <-.
    by eapply consuming_run_step.
Qed.

Lemma consuming_step s s' : server_step s s' -> consuming s -> consuming s'.
Proof. intros Hs Hc. destruct Hs; try done. by eapply consuming_own. Qed.

Lemma consuming_run k s s' : nsteps server_step k s s' -> consuming s -> consuming s'.
Proof. induction 1; eauto using consuming_step. Qed.

Lemma consuming_waits n s : server_inv n s -> consuming s -> stopping (tcm s) <> SRet /\ closing (queue s) = CNot.
Proof.
  intros Hv (i & l & j & _ & Hl & Hj). destruct Hv as [Ht _ Hq _].
  assert (stopping (tcm s) <> SRet) as Hn.
  { intros E. destruct (Forall_lookup_1 _ _ _ _ (mi_ret _ (to_mgr _ Ht) E) Hl) as [Hz _].
    pose proof (count_pos is_run _ _ _ Hj eq_refl). unfold loop_wg in Hz. lia. }
  split; [done|]. apply (qo_closing _ _ Hq). intros E. by apply Hn, (to_last _ Ht).
Qed.

(** ** The process ([main.go]) *)
Record process := mkProcess {
  srv : server;
  (** a signal was received: the timer of three seconds runs and [Stop] is called *)
  signalled : bool;
  (** the exit code *)
  exited : option Z
}.

Definition main_start (ts : list (nat * task)) (n : nat) (m0 : manager M1 M2) : process :=
  mkProcess (started_with ts n m0) false None.

Inductive process_step : process -> process -> Prop :=
| p_server p s' :
    exited p = None -> server_step (srv p) s' -> sp s' = VRun \/ signalled p = true ->
    process_step p (mkProcess s' (signalled p) None)
| p_signal p : exited p = None -> process_step p (mkProcess (srv p) true None)
(** [os.Exit(1)] of the timer *)
| p_timer p : exited p = None -> signalled p = true -> process_step p (mkProcess (srv p) true (Some 1))
(** [main] returns after the deferred [Stop] *)
| p_return p :
    exited p = None -> signalled p = true -> sp (srv p) = VQueue -> closing (queue (srv p)) = CDone ->
    process_step p (mkProcess (srv p) true (Some 0)).

Lemma process_run_server k p p' :
  nsteps process_step k p p' -> exists k', (k' <= k)%nat /\ nsteps server_step k' (srv p) (srv p').
Proof.
  induction 1 as [p|k p p1 p' Hs _ (k' & Hle & Hr)]; [by exists 0%nat; split; [|constructor]|].
  destruct Hs as [p s1 _ Hs _| | |]; [exists (S k'); split; [lia|by eapply nsteps_l]|by exists k'; split; [lia|]..].
Qed.

End system.

(** ** Concrete runs *)
#[local] Existing Instances smap_ops smap_cmap.

Definition demo_black (l : BlackListAccessLog) : bytes * option error := ([], None).
Definition demo_access (l : AccessRecordsToInfluxDB) : bytes * option error := ([], None).
Abbreviation demo_step := (server_step no_parse "ipv4" demo_black demo_access "accesslog" "blacklist").
Abbreviation demo_own := (own_step no_parse demo_black demo_access "accesslog" "blacklist").

(** A client of the first accept loop, whose handler waits for its first byte. *)
Definition demo_handler : prog () := handlerTcpConn no_parse "ipv4" 3 "10.0.0.1" "9.9.9.9".

Lemma demo_served :
  exists s pq, nsteps demo_step 9 (started_with StartIpv6 1 manager0) s /\
    ps (fr s) = [pq] /\ who (fr s) = [(0%nat, 0%nat)] /\ counted pq.2 = Some "10.0.0.1" /\
    owners s = [mkOwner 0 0 (STcp 0)].
Proof.
  destruct (AddIpConnCount_spec "10.0.0.1" manager0 ∅ manager0_ip) as (m1 & E & _ & _).
  { intros ip n. by rewrite lookup_empty. }
  eexists _, _. split_and!.
  - eapply nsteps_l; [apply v_own; eapply (v_loop _ _ _ _ _ _ 0); [reflexivity|apply l_token; [done|by apply Nat.ltb_lt]|reflexivity]|].
    eapply nsteps_l; [apply v_own; eapply (v_loop _ _ _ _ _ _ 0); [reflexivity|by apply l_check|reflexivity]|].
    eapply nsteps_l; [apply v_own; eapply (v_start _ _ _ _ _ _ 0 TTcpAccept); reflexivity|].
    eapply nsteps_l; [apply v_own, v_move; eapply (w_loop _ 0); [reflexivity|by apply o_test|reflexivity]|].
    eapply nsteps_l; [apply v_env; eapply (f_connect _ _ _ _ 0 PTcp _ demo_handler); [reflexivity..|by exists 3%nat, "10.0.0.1", "9.9.9.9"]|].
    eapply nsteps_l; [apply v_own; eapply (v_call _ _ _ _ _ _ 0 Call.ConnRead (Ok [Byte.x05])); [eapply c_call; reflexivity|done|done]|].
    eapply nsteps_l; [apply v_own; eapply (v_call _ _ _ _ _ _ 0 Call.SocksCredentials (Ok ("bob", "pw"))); [eapply c_call; reflexivity|done|done]|].
    eapply nsteps_l; [apply v_own; eapply (v_call _ _ _ _ _ _ 0 (Call.Valid "bob" "pw" "10.0.0.1" "9.9.9.9") (Ok "10.0.0.1")); [eapply c_call; reflexivity|done|done]|].
    eapply nsteps_l; [|apply nsteps_O].
    apply v_own. eapply (v_call _ _ _ _ _ _ 0 (Call.AddIpConnCount "10.0.0.1") (Ret (true, 1))); [|done|done].
    eapply (c_call _ _ _ _ _ _ _ m1); [reflexivity|]. unfold answers. simpl mgr. rewrite E. split; reflexivity.
  - reflexivity.
  - reflexivity.
  - reflexivity.
  - reflexivity.
Qed.

(** A server without accept loops whose task manager is being stopped. *)
Definition demo_at (w : nat) (ls : list loop) : server :=
  mkServer (TaskConsumer.mkManager true w ls [] SWait) StartIpv6.*2 (mkFront [] manager0 [] []) [] false [false]
    initRabbitmqSendQueueSlices [] VTasks.
Abbreviation waiting n := (mkLoop n LSelect 0 false []).
Abbreviation over n := (mkLoop n LEnd 0 true []).

Lemma demo_loop_ends s i c w :
  TaskConsumer.cancelled (tcm s) = true -> TaskConsumer.loops (tcm s) !! i = Some (waiting c) -> wg (tcm s) = S w ->
  nsteps demo_step 4 s (set_tcm (TaskConsumer.mkManager (TaskConsumer.cancelled (tcm s)) w
    (<[i := over c]> (TaskConsumer.loops (tcm s))) (adding (tcm s)) (stopping (tcm s))) s).
Proof.
  intros Hc Hi Hw. pose proof (lookup_lt_Some _ _ _ Hi) as Hlt.
  destruct s as [[b w' ls ad st] ks f os r op q pu p]. simpl in *. subst b w'. cbn.
  eapply nsteps_l; [apply v_own; by eapply (v_loop _ _ _ _ _ _ i); [|apply l_cancelled|]|].
  eapply nsteps_l; [apply v_own; eapply (v_loop _ _ _ _ _ _ i); [by apply list_lookup_insert_eq|by apply l_wait|done]|].
  eapply nsteps_l; [apply v_own; eapply (v_loop _ _ _ _ _ _ i);
    [simpl; apply list_lookup_insert_eq; by rewrite length_insert|by apply l_close|done]|].
  eapply nsteps_l; [|apply nsteps_O]. apply v_own.
  match goal with |- own_step _ _ _ _ _ ?a (set_tcm ?m _) =>
    apply (v_done _ _ _ _ _ a i (mkLoop c LDone 0 true []) m) end;
    simpl; [apply list_lookup_insert_eq; by rewrite !length_insert|done|].
  unfold loop_done. simpl. by rewrite !list_insert_insert_eq.
Qed.

(** [Stop] before any function was started. *)
Lemma demo_cancelled : nsteps demo_step 3 (started_with StartIpv6 1 manager0) (demo_at 3 [waiting 2; waiting 1; waiting 1]).
Proof.
  eapply nsteps_l; [by apply v_stop|]. eapply nsteps_l; [by apply (v_close _ _ _ _ _ _ _ 0)|].
  eapply nsteps_l; [apply v_cancel; [done|by repeat constructor]|]. apply nsteps_O.
Qed.

Lemma demo_drained :
  exists s, nsteps demo_step 14 (demo_at 3 [waiting 2; waiting 1; waiting 1]) s /\ closing (queue s) <> CNot.
Proof.
  eexists. split.
  - eapply (nsteps_trans 4 10 _ (demo_at 2 [over 2; waiting 1; waiting 1])); [exact (demo_loop_ends (demo_at 3 [waiting 2; waiting 1; waiting 1]) 0 2 2 eq_refl eq_refl eq_refl)|].
    eapply (nsteps_trans 4 6 _ (demo_at 1 [over 2; over 1; waiting 1])); [exact (demo_loop_ends (demo_at 2 [over 2; waiting 1; waiting 1]) 1 1 1 eq_refl eq_refl eq_refl)|].
    eapply (nsteps_trans 4 2 _ (demo_at 0 [over 2; over 1; over 1])); [exact (demo_loop_ends (demo_at 1 [over 2; over 1; waiting 1]) 2 1 0 eq_refl eq_refl eq_refl)|].
    eapply nsteps_l; [apply v_own; by apply v_waited|]. eapply nsteps_l; [by apply v_queue|]. apply nsteps_O.
  - discriminate.
Qed.

Lemma shutdown_in_order_witness :
  (exists s pq o lp, nsteps demo_step 9 (started_with StartIpv6 1 manager0) s /\
     ps (fr s) = [pq] /\ counted pq.2 = Some "10.0.0.1" /\ owners s = [o] /\
     TaskConsumer.loops (tcm s) !! o_task o = Some lp /\ workers lp !! o_worker o = Some WRun) /\
  exists s, nsteps demo_step 17 (started_with StartIpv6 1 manager0) s /\ closing (queue s) <> CNot /\
    Forall ended (ps (fr s)) /\ cm_view (ipConnCountMap (mgr (fr s))) = ∅.
Proof.
  split.
  - destruct demo_served as (s & pq & Hr & Hp & Hw & Hc & Ho).
    destruct (shutdown_in_order no_parse "ipv4" demo_black demo_access "accesslog" "blacklist"
      StartIpv6 1 manager0 9 s manager0_ip manager0_idle Hr) as (_ & Hh & _); [lia|].
    destruct (Hh 0%nat pq) as (a & j & o & lp & Ha & Hoa & Hlp & Hrun); [by rewrite Hp|left; by rewrite Hc|].
    rewrite Hw in Ha. injection Ha as <- <-. rewrite Ho in Hoa. injection Hoa as <-. by exists s, pq, (mkOwner 0 0 (STcp 0)), lp.
  - destruct demo_drained as (s & Hr & Hc). pose proof (nsteps_trans _ _ _ _ _ demo_cancelled Hr) as Hall.
    destruct (shutdown_in_order no_parse "ipv4" demo_black demo_access "accesslog" "blacklist"
      StartIpv6 1 manager0 17 s manager0_ip manager0_idle Hall) as (_ & _ & Hst & Hord & _); [lia|].
    destruct (Hst (Hord Hc)) as (_ & He & Hip & _). by exists s.
Defined.

Lemma stop_waits_for_these_witness :
  exists s, stopping (tcm s) = SWait /\ Acc (fun b a => demo_own a b) s /\ exists s', demo_own s s'.
Proof.
  exists (demo_at 3 [waiting 2; waiting 1; waiting 1]). split_and!; [reflexivity|..].
  - apply (stop_waits_for_these no_parse "ipv4" demo_black demo_access "accesslog" "blacklist"
      StartIpv6 1 manager0 3 _ manager0_ip manager0_idle demo_cancelled eq_refl). lia.
  - eexists. eapply (v_loop _ _ _ _ _ _ 0); [reflexivity|by apply l_cancelled|reflexivity].
Defined.

Abbreviation demo_process := (process_step no_parse "ipv4" demo_black demo_access "accesslog" "blacklist").

(** A signal, and then the RabbitMQ consumer is started. *)
Lemma demo_consuming :
  exists p, nsteps demo_process 4 (main_start StartIpv6 1 manager0) p /\ consuming (srv p) /\
    exited p = None /\ signalled p = true.
Proof.
  eexists. split_and!.
  - eapply nsteps_l; [by apply p_signal|].
    eapply nsteps_l; [eapply p_server; [done|apply v_own; eapply (v_loop _ _ _ _ _ _ 2); [reflexivity|apply l_token; [done|by apply Nat.ltb_lt]|reflexivity]|by right]|].
    eapply nsteps_l; [eapply p_server; [done|apply v_own; eapply (v_loop _ _ _ _ _ _ 2); [reflexivity|by apply l_check|reflexivity]|by right]|].
    eapply nsteps_l; [eapply p_server; [done|apply v_own; eapply (v_start _ _ _ _ _ _ 2 TConsume); reflexivity|by right]|].
    apply nsteps_O.
  - exists 2%nat. eexists _, 0%nat. repeat split.
  - reflexivity.
  - reflexivity.
Qed.

