(* ===== verification/Startup.v ===== *)
(** * Starting the server ([server/manager.go], [server/nacos_config.go],
      [server/ipv4_server.go], [server/ipv6_server.go], [main.go])

    From the configuration file to the running server: [newManager], [Start]
    with the remote configuration and the listeners, and the tasks. The result
    is a state from which the theorems of [Server] and [Lifecycle] hold. The file
    ends with [initNacosConfAsync], a variant of the initialisation that the
    program does not call. *)
From stdpp Require Import base gmap strings numbers fin_maps list relations.
From S2P Require Import Prelude GoIO Logging ConcurrentMap Config Socks5 Manager Text Program Proxy Server.
From S2P Require Import SendQueue TaskConsumer Accept Front Lifecycle.
#[local] Existing Instances smap_ops smap_cmap.

(** [&NacosConfig{}] *)
Definition zero_NacosConfig : NacosConfig := mkConf [] 0 0 0 0 [].
(** [newManager]; [Start] sets the configuration before anyone reads it. *)
Definition newManager : manager smap smap := Manager.mkManager (ConcurrentMap.New _) ∅ (ConcurrentMap.New _) ∅ zero_NacosConfig None.

Section start.
Context {L : Type} (Listen : string -> result error L).

(** A started server: the manager, its listeners, whether an alarm was sent
    for the remote configuration, and the tasks. *)
Record running := mkRunning {
  mode : string;
  group : string;
  alarmed : bool;
  manager_of : manager smap smap;
  tcpListener : gmap string L;
  shadowSocksListener : option L;
  tasks : list (nat * task)
}.

(** [StartIpv4] and [StartIpv6]: [v] is the exchange with the remote store. *)
Definition start_ipv4 (p : option confData) (v : remote) : outcome running :=
  n ← nacos_section p;
  let '(alarm, m) := initNacosConf v (setNacosConf zero_NacosConfig newManager) in
  c ← deref_conf (GetConf p);
  ls ← initTcpListener Listen (Ipv4TcpListenerAddress c);
  sh ← (if OpenShadowSocks c
        then l ← initShadowSocksListener Listen (ShadowSocksAddress c); Ret (Some l)
        else Ret None);
  Ret (mkRunning "ipv4" (nIpv4GroupName n) alarm m ls sh (StartIpv4 (OpenShadowSocks c))).
Definition start_ipv6 (p : option confData) (v : remote) : outcome running :=
  n ← nacos_section p;
  let '(alarm, m) := initNacosConf v (setNacosConf zero_NacosConfig newManager) in
  c ← deref_conf (GetConf p);
  ls ← initTcpListener Listen (Ipv6TcpListenerAddress c);
  Ret (mkRunning "ipv6" (nIpv6GroupName n) alarm m ls None StartIpv6).

(** The build chooses the version of [Start]. *)
Inductive build := ipv4 | ipv6.
Definition Start (b : build) : option confData -> remote -> outcome running :=
  match b with ipv4 => start_ipv4 | ipv6 => start_ipv6 end.
Definition addresses (b : build) (c : confData) : list string :=
  match b with ipv4 => Ipv4TcpListenerAddress c | ipv6 => Ipv6TcpListenerAddress c end.

Lemma open_all_total addrs (m : gmap string L) :
  (forall v, v ∈ addrs -> exists l, Listen v = Ok l) -> exists m', open_all Listen addrs m = Ret m'.
Proof.
  revert m. induction addrs as [|v addrs IH]; intros m Hall; simpl; [eauto|].
  destruct (Hall v) as [l ->]; [left|]. apply IH. intros v' Hv. apply Hall. by right.
Qed.

Lemma open_all_refused addrs (m : gmap string L) v e :
  v ∈ addrs -> Listen v = Err e -> open_all Listen addrs m = Panic.
Proof.
  revert m. induction addrs as [|u addrs IH]; intros m Hin Hv; [by apply not_elem_of_nil in Hin|].
  apply elem_of_cons in Hin as [->|Hin]; simpl; [by rewrite Hv|].
  destruct (Listen u); [|done]. by apply IH.
Qed.

(** What [initNacosConf] leaves of a new manager. *)
Lemma init_clean v alarm (m : manager smap smap) :
  (forall conf, Unmarshal v = Ret (Ok conf) -> conf_ok conf) ->
  initNacosConf v (setNacosConf zero_NacosConfig newManager) = (alarm, m) ->
  ip_repr m ∅ /\ idle m.
Proof.
  intros Hok. unfold initNacosConf, tryInitNacosConf.
  assert (forall conf, conf_ok conf -> ip_repr (setNacosConf conf newManager) ∅ /\
    idle (setNacosConf conf newManager)) as Hnew.
  { intros conf Hc. destruct manager0_ip as [? ?]. destruct manager0_idle as (? & ? & ? & _). by split; split_and!. }
  assert (conf_ok default_conf) as Hd by (split; unfold in_signed; simpl; lia).
  destruct (AddRemoteProvider v) as [[|]|], (ReadRemoteConfig v) as [[|]|],
    (WatchRemoteConfigOnChannel v) as [[|]|], (WatchRemoteConfig v) as [[|]|],
    (Unmarshal v) as [[conf|]|]; intros [= <- <-]; by apply Hnew; auto.
Qed.
(** The parts of a successful start. *)
Lemma Start_parts b c v r :
  Start b (Some c) v = Ret r ->
  initTcpListener Listen (addresses b c) = Ret (tcpListener r) /\
  initNacosConf v (setNacosConf zero_NacosConfig newManager) = (alarmed r, manager_of r) /\
  (is_Some (shadowSocksListener r) <-> b = ipv4 /\ OpenShadowSocks c = true).
Proof.
  destruct b; simpl; unfold start_ipv4, start_ipv6, nacos_section; simpl;
    (destruct (cNacos c) as [n|]; [|done]); simpl;
    destruct (initNacosConf v _) as [alarm m]; simpl.
  - destruct (initTcpListener Listen (Ipv4TcpListenerAddress c)) as [ls|]; [|done]. simpl.
    destruct (OpenShadowSocks c); simpl.
    + destruct (initShadowSocksListener Listen _) as [l|]; [|done]. simpl. intros [= <-]. simpl.
      split_and!; [done..|]. split; [done|eauto].
    + intros [= <-]. simpl. split_and!; [done..|]. split; [by intros []|by intros []].
  - destruct (initTcpListener Listen (Ipv6TcpListenerAddress c)) as [ls|]; [|done]. simpl. intros [= <-]. simpl.
    split_and!; [done..|]. split; [by intros []|by intros []].
Qed.

End start.

(** ** The start of the process ([main.go]) *)

(** [filepath.Join] of one element. *)
Definition Join1 (dir : string) : string :=
  if bool_decide (dir = EmptyString) then EmptyString else clean_path (is_rooted dir) (Split dir (Ascii.ascii_of_nat 47)).

Section process.
Context {V L : Type} (Decode : V -> confData * option error) `{Zap}.
Context (rotatelogs : string -> string -> rotation -> result error ()) (Listen : string -> result error L).

(** [init] of [main]: the file, then the logger; then [server.Start]. *)
Definition process_init (read : result error V) : outcome (option confData * log_state) :=
  p ← Load Decode read None;
  c ← deref_conf (GetConf p);
  s ← Init rotatelogs (Join1 (LogDir c)) log_state0;
  Ret (p, s).
Definition process_start (b : build) (read : result error V) (v : remote) : outcome (running * log_state) :=
  '(p, s) ← process_init read;
  r ← Start Listen b p v;
  Ret (r, s).

(** The logger is there before the server starts, so [log.Panic] of a listener
    that cannot be opened does panic. *)
Lemma logger_before_start read p s msg fields :
  process_init read = Ret (p, s) -> is_Some (GetConf p) /\ (Log.Panic msg fields s).1 = Panics.
Proof.
  unfold process_init. destruct (Load Decode read None) as [p'|] eqn:El; [|done]. simpl.
  destruct (GetConf p') as [c|] eqn:Ec; [|done]. simpl.
  destruct (Init rotatelogs (Join1 (LogDir c)) log_state0) as [s'|] eqn:Ei; [|done]. simpl. intros [= <- <-].
  split; [eauto|]. destruct (cores_of_level rotatelogs _ _ _ PanicLevel msg fields Ei) as (cores & E & _).
  unfold Log.Panic, Log.log_at. rewrite E. simpl. by rewrite then_spec.
Qed.

(** A file without the section of the remote store stops the start. *)
Lemma start_needs_nacos b v0 rv :
  cNacos (Decode v0).1 = None -> process_start b (Ok v0) rv = Panic.
Proof.
  intros E. unfold process_start, process_init. simpl. destruct (Init _ _ _) as [s|]; [|done]. simpl.
  destruct b; simpl; unfold start_ipv4, start_ipv6, nacos_section; simpl; by rewrite E.
Qed.
End process.

(** ** [initNacosConfAsync]: retries with growing pauses *)
Inductive async_act := AAlarm | ASleep (delay : Z).
Definition baseDelay : Z := 1 * second.
Definition maxDelay : Z := 30 * second.
(** The pause after a failed attempt. *)
Definition retry_delay (attempt : nat) : Z :=
  let delay := i64 ((Z.of_nat attempt + 1) * baseDelay) in
  if delay >? maxDelay then maxDelay else delay.

(** [vs i] is the exchange of the [i]-th attempt; [None] when the loop still
    runs after [fuel] attempts. *)
Fixpoint initNacosConfAsync (fuel attempt : nat) (beAlarmed : bool) (vs : nat -> remote) (m : manager smap smap)
  : option (list async_act * manager smap smap) :=
  match fuel with
  | O => None
  | S fuel' =>
      let '(ok, m) := tryInitNacosConf (vs attempt) m in
      if (ok : bool) then Some ([], m)
      else
        '(acts, m) ← initNacosConfAsync fuel' (S attempt) true vs m;
        Some ((if beAlarmed then [] else [AAlarm]) ++ ASleep (retry_delay attempt) :: acts, m)
  end.

Lemma retry_delay_linear attempt :
  Z.of_nat attempt < 2 ^ 32 -> retry_delay attempt = Z.min (Z.of_nat attempt + 1) 30 * second.
Proof.
  intros Ha. unfold retry_delay, baseDelay, maxDelay, second. rewrite i64_small by (unfold in_signed; lia).
  destruct (Z.gtb_spec ((Z.of_nat attempt + 1) * (1 * 1000000000)) (30 * 1000000000)); lia.
Qed.

Lemma try_fails v (m m' : manager smap smap) : tryInitNacosConf v m = (false, m') -> m' = m.
Proof.
  unfold tryInitNacosConf.
  destruct (AddRemoteProvider v) as [[|]|], (ReadRemoteConfig v) as [[|]|],
    (WatchRemoteConfigOnChannel v) as [[|]|], (WatchRemoteConfig v) as [[|]|], (Unmarshal v) as [[conf|]|];
    by intros [= <-].
Qed.

Lemma async_S fuel attempt beAlarmed vs m :
  initNacosConfAsync (S fuel) attempt beAlarmed vs m =
    (let '(ok, m) := tryInitNacosConf (vs attempt) m in
     if (ok : bool) then Some ([], m)
     else
       '(acts, m) ← initNacosConfAsync fuel (S attempt) true vs m;
       Some ((if beAlarmed then [] else [AAlarm]) ++ ASleep (retry_delay attempt) :: acts, m)).
Proof. done. Qed.

(** The retries: with [k] failures before the first success the loop ends, has
    sent one alarm if there was a failure, and has paused after the failures
    for one, two, three ... seconds, thirty at most; the configuration changes
    only at the end. *)
Theorem nacos_retries k attempt beAlarmed vs (m m' : manager smap smap) :
  (forall i, (i < k)%nat -> (tryInitNacosConf (vs (attempt + i)%nat) m).1 = false) ->
  tryInitNacosConf (vs (attempt + k)%nat) m = (true, m') -> Z.of_nat (attempt + k) < 2 ^ 32 ->
  initNacosConfAsync (S k) attempt beAlarmed vs m =
    Some ((if beAlarmed || bool_decide (k = 0)%nat then [] else [AAlarm]) ++
      ((fun i => ASleep (Z.min (Z.of_nat i + 1) 30 * second)) <$> seq attempt k), m').
Proof.
  revert attempt beAlarmed. induction k as [|k IH]; intros attempt beAlarmed Hf Ht Hlt.
  - rewrite Nat.add_0_r in Ht. rewrite async_S, Ht. by rewrite orb_true_r.
  - rewrite bool_decide_eq_false_2, orb_false_r, async_S by done.
    pose proof (Hf 0%nat ltac:(lia)) as H0. rewrite Nat.add_0_r in H0.
    destruct (tryInitNacosConf (vs attempt) m) as [ok m1] eqn:E. simpl in H0. subst ok.
    apply try_fails in E as ->.
    rewrite (IH (S attempt) true); [|intros i Hi; rewrite <- (Hf (S i)) by lia; do 3 f_equal; lia| |lia].
    + csimpl. rewrite retry_delay_linear by lia. by destruct beAlarmed.
    + by rewrite Nat.add_succ_comm.
Qed.

(** ** Witnesses *)
Definition demo_remote : remote :=
  mkRemote (Ret None) (Ret (Some (Errorf "nacos: no route"))) (Ret None) (Ret None) (Ret (Err EOF)).
Definition working_remote : remote :=
  mkRemote (Ret None) (Ret None) (Ret None) (Ret None) (Ret (Ok default_conf)).
Definition demo_Listen (a : string) : result error string := Ok a.


Lemma nacos_retries_witness :
  initNacosConfAsync 3 0 false (fun i => if bool_decide (i = 2)%nat then working_remote else demo_remote) newManager =
    Some ([AAlarm; ASleep second; ASleep (2 * second)], setNacosConf default_conf newManager).
Proof.
  apply (nacos_retries 2 0 false (fun i => if bool_decide (i = 2)%nat then working_remote else demo_remote) newManager);
    [|reflexivity|simpl; lia]. intros [|[|i]] Hi; [reflexivity..|lia].
Defined.
