(* ===== verification/Relay.v ===== *)
(** * The goroutines of a relay ([server/http_proxy_handler.go],
    [server/socks_proxy_handler.go], [server/shadowsocks_handler.go])

    A handler that relays runs two copying goroutines and, when the domain is
    not known yet, a sniffing one; they talk over the channels [done],
    [byteChan] and [errCh], and a wait group lets the handler wait for them.
    The three handlers have the same code for this. [sniff] is what the
    sniffing goroutine makes of the first bytes of the client; the rest is a
    transition system over all interleavings. *)
From Stdlib Require Import Strings.Byte.
From stdpp Require Import base strings list numbers relations.
From S2P Require Import Prelude GoIO ClientHello Text.

(** ** Finding out the domain *)
Section sniff.
Context `{CryptoByte}.
(** [http.ReadRequest] and then [hr.Header.Get("Host")]. *)
Context (HostHeader : bytes -> result error string).

(** [regexpDomain(string(buf))]; nothing is stored when it is empty. *)
Definition sniff_text (buf : bytes) : option string :=
  let ServerName := regexpDomain (str_of_bytes buf) in
  if negb (bool_decide (ServerName = EmptyString)) then Some ServerName else None.
Definition sniff_http (buf : bytes) : option string :=
  match HostHeader buf with
  | Ok ServerName => if negb (bool_decide (ServerName = EmptyString)) then Some ServerName else sniff_text buf
  | Err _ => sniff_text buf
  end.
(** What is stored for the buffer received from [byteChan]. *)
Definition sniff (buf : bytes) (ok : bool) : outcome (option string) :=
  match buf with
  | b0 :: _ =>
      if negb ok then Ret None
      else if bool_decide (b0 = x16) then
        '(_, clientHelloMsg) ← UnmarshalByByte buf zero_msg;
        if negb (bool_decide (ServerName clientHelloMsg = EmptyString))
        then Ret (Some (ServerName clientHelloMsg)) else Ret (sniff_http buf)
      else Ret (sniff_http buf)
  | [] => Ret None
  end.

Lemma UnmarshalByByte_short b tl :
  UnmarshalByByte (b :: tl) zero_msg = Panic <-> b = x16 /\ (length tl < 4)%nat.
Proof.
  unfold UnmarshalByByte. case_bool_decide as Hb; simpl; [|split; [done|by intros [? _]]].
  case_bool_decide as Hl; simpl in Hl; split; try done; [intros [_ ?]; lia|]. intros _. split; [done|lia].
Qed.

(** A client can bring the process down: the sniffing goroutine, which has
    no [recover], panics exactly on one to four bytes that start with 22. *)
Theorem sniff_panics buf ok :
  sniff buf ok = Panic <-> ok = true /\ exists tl, buf = x16 :: tl /\ (length tl < 4)%nat.
Proof.
  unfold sniff. destruct buf as [|b tl]; [split; [done|by intros (_ & ? & ? & _)]|].
  destruct ok; cbn [negb]; [|split; [done|by intros [? _]]].
  pose proof (UnmarshalByByte_short b tl) as Hs. case_bool_decide as Hb.
  - subst b. destruct (UnmarshalByByte (x16 :: tl) zero_msg) as [[r m]|] eqn:E; cbn [mbind outcome_bind].
    + split; [by repeat case_match|]. intros (_ & tl' & [= <-] & Hl). by specialize (proj2 Hs (conj eq_refl Hl)).
    + split; [|done]. intros _. split; [done|]. exists tl. split; [done|]. by apply Hs.
  - split; [done|]. intros (_ & tl' & E & _). congruence.
Qed.

(** [net/http] moves the [Host] header of a request out of the header map. *)
Context (host_is_moved : forall buf h, HostHeader buf = Ok h -> h = EmptyString).

(** The HTTP request is read in vain: since [net/http] takes the [Host]
    header out of the map, the name is the server name of a TLS hello or else
    the first text in the bytes that looks like a domain, and a request never
    contributes its [Host]. *)
Theorem sniffing_ignores_host_header buf r :
  sniff buf true = Ret r -> buf <> [] ->
  r = sniff_text buf \/
  exists e m, UnmarshalByByte buf zero_msg = Ret (e, m) /\ ServerName m <> EmptyString /\ r = Some (ServerName m).
Proof.
  assert (sniff_http buf = sniff_text buf) as Hh.
  { unfold sniff_http. destruct (HostHeader buf) as [h|] eqn:E; [|done].
    rewrite (host_is_moved buf h E). done. }
  unfold sniff. destruct buf as [|b tl]; [done|]. cbn [negb]. rewrite Hh.
  case_bool_decide; [|intros [= <-]; by left]. destruct (UnmarshalByByte _ _) as [[e m]|]; [|done]. simpl.
  case_bool_decide; intros [= <-] _; [by left|]. right. eauto 10.
Qed.
End sniff.

(** ** The goroutines *)

(** The handler: before the goroutines, with the sniffer started, in its
    [select] loop, then the statements of its deferred calls. *)
Inductive main_pc :=
| MStart | MSniffing | MSelect | MCloseDone | MCloseConns | MWait | MCloseErr | MCloseByte | MEnd.
Inductive sniff_pc := SOff | SSelect | SParse (buf : bytes) (ok : bool) | SWgDone | SEnd.
(** [CNotify]: inside the tap's callback, sending on [byteChan]. *)
Inductive copy_pc := COff | CCopy | CNotify (buf : bytes) | CSend | CWgDone | CEnd.

(** Why the process would die. *)
Inductive crash := SendOnClosed | ParserPanic.

Record relay_state := mkRelay {
  main : main_pc; sniffer : sniff_pc; up : copy_pc; down : copy_pc;
  done_closed : bool; errCh : nat; err_closed : bool; byteChan : list bytes; byte_closed : bool;
  tapped : bool; notified : bool; domain : string; wg : Z; crashed : option crash
}.

Definition relay_start (d : string) : relay_state :=
  mkRelay MStart SOff COff COff false 0 false [] false false false d 0 None.

Definition is_live_copy (c : copy_pc) : Z := match c with COff | CEnd => 0 | _ => 1 end.
Definition is_live_sniff (s : sniff_pc) : Z := match s with SOff | SEnd => 0 | _ => 1 end.
Definition has_sent (c : copy_pc) : nat := match c with CWgDone | CEnd => 1 | _ => 0 end.

Section goroutines.
Context `{CryptoByte} (HostHeader : bytes -> result error string).

(** The steps of the handler's goroutine. *)
Inductive main_step : relay_state -> relay_state -> Prop :=
| m_sniff u d dc e ec b bc nt dom w cr :
    main_step (mkRelay MStart SOff u d dc e ec b bc false nt dom w cr)
              (mkRelay MSniffing SSelect u d dc e ec b bc true nt dom (w + 1) cr)
| m_sniff_fails s u d dc e ec b bc tp nt dom w cr :
    main_step (mkRelay MStart s u d dc e ec b bc tp nt dom w cr)
              (mkRelay MCloseDone s u d dc e ec b bc tp nt dom w cr)
| m_copy p s u d dc e ec b bc tp nt dom w cr :
    p = MStart \/ p = MSniffing ->
    main_step (mkRelay p s u d dc e ec b bc tp nt dom w cr)
              (mkRelay MSelect s CCopy CCopy dc e ec b bc tp nt dom (w + 2) cr)
| m_receive s u d dc e ec b bc tp nt dom w cr :   (* a copy ended *)
    main_step (mkRelay MSelect s u d dc (S e) ec b bc tp nt dom w cr)
              (mkRelay MCloseDone s u d dc e ec b bc tp nt dom w cr)
| m_leave s u d dc e ec b bc tp nt dom w cr :     (* cancelled or blacklisted *)
    main_step (mkRelay MSelect s u d dc e ec b bc tp nt dom w cr)
              (mkRelay MCloseDone s u d dc e ec b bc tp nt dom w cr)
| m_close_done s u d dc e ec b bc tp nt dom w cr :
    main_step (mkRelay MCloseDone s u d dc e ec b bc tp nt dom w cr)
              (mkRelay MCloseConns s u d true e ec b bc tp nt dom w cr)
| m_close_conns s u d dc e ec b bc tp nt dom w cr :
    main_step (mkRelay MCloseConns s u d dc e ec b bc tp nt dom w cr)
              (mkRelay MWait s u d dc e ec b bc tp nt dom w cr)
| m_wait s u d dc e ec b bc tp nt dom cr :
    main_step (mkRelay MWait s u d dc e ec b bc tp nt dom 0 cr)
              (mkRelay MCloseErr s u d dc e ec b bc tp nt dom 0 cr)
| m_close_err s u d dc e ec b bc tp nt dom w cr :
    main_step (mkRelay MCloseErr s u d dc e ec b bc tp nt dom w cr)
              (mkRelay MCloseByte s u d dc e true b bc tp nt dom w cr)
| m_close_byte s u d dc e ec b bc tp nt dom w cr :
    main_step (mkRelay MCloseByte s u d dc e ec b bc tp nt dom w cr)
              (mkRelay MEnd s u d dc e ec b true tp nt dom w cr).

(** The sniffing goroutine; a receive from a closed channel gives [ok = false]. *)
Inductive sniff_step : relay_state -> relay_state -> Prop :=
| s_done p u d e ec b bc tp nt dom w cr :
    sniff_step (mkRelay p SSelect u d true e ec b bc tp nt dom w cr)
               (mkRelay p SWgDone u d true e ec b bc tp nt dom w cr)
| s_receive p u d dc e ec x b bc tp nt dom w cr :
    sniff_step (mkRelay p SSelect u d dc e ec (x :: b) bc tp nt dom w cr)
               (mkRelay p (SParse x true) u d dc e ec b bc tp nt dom w cr)
| s_receive_closed p u d dc e ec tp nt dom w cr :
    sniff_step (mkRelay p SSelect u d dc e ec [] true tp nt dom w cr)
               (mkRelay p (SParse [] false) u d dc e ec [] true tp nt dom w cr)
| s_store p x ok u d dc e ec b bc tp nt dom w cr r :
    sniff HostHeader x ok = Ret r ->
    sniff_step (mkRelay p (SParse x ok) u d dc e ec b bc tp nt dom w cr)
               (mkRelay p SWgDone u d dc e ec b bc tp nt (default dom r) w cr)
| s_panic p x ok u d dc e ec b bc tp nt dom w cr :
    sniff HostHeader x ok = Panic ->
    sniff_step (mkRelay p (SParse x ok) u d dc e ec b bc tp nt dom w cr)
               (mkRelay p (SParse x ok) u d dc e ec b bc tp nt dom w (Some ParserPanic))
| s_wg p u d dc e ec b bc tp nt dom w cr :
    sniff_step (mkRelay p SWgDone u d dc e ec b bc tp nt dom w cr)
               (mkRelay p SEnd u d dc e ec b bc tp nt dom (w - 1) cr).

(** A copying goroutine, seen from its own counter: from [c] to [c'], with the
    effect on [errCh] and the wait group. *)
Inductive copy_step (ec : bool) : copy_pc -> nat -> Z -> option crash ->
    copy_pc -> nat -> Z -> option crash -> Prop :=
| c_ends e w cr : copy_step ec CCopy e w cr CSend e w cr
| c_send e w cr : ec = false -> (e < 2)%nat -> copy_step ec CSend e w cr CWgDone (S e) w cr
| c_send_closed e w cr : ec = true -> copy_step ec CSend e w cr CSend e w (Some SendOnClosed)
| c_wg e w cr : copy_step ec CWgDone e w cr CEnd e (w - 1) cr.

Inductive relay_step : relay_state -> relay_state -> Prop :=
| r_main s s' : crashed s = None -> main_step s s' -> relay_step s s'
| r_sniff s s' : crashed s = None -> sniff_step s s' -> relay_step s s'
| r_up p s u d dc e ec b bc tp nt dom w u' e' w' cr' :
    copy_step ec u e w None u' e' w' cr' ->
    relay_step (mkRelay p s u d dc e ec b bc tp nt dom w None)
               (mkRelay p s u' d dc e' ec b bc tp nt dom w' cr')
| r_down p s u d dc e ec b bc tp nt dom w d' e' w' cr' :
    copy_step ec d e w None d' e' w' cr' ->
    relay_step (mkRelay p s u d dc e ec b bc tp nt dom w None)
               (mkRelay p s u d' dc e' ec b bc tp nt dom w' cr')
(** The first write to the client goes through the tap and calls back, once. *)
| r_tap p s u dc e ec b bc dom w x :
    relay_step (mkRelay p s u CCopy dc e ec b bc true false dom w None)
               (mkRelay p s u (CNotify x) dc e ec b bc true true dom w None)
| r_notify p s u dc e ec b bc tp nt dom w x :
    bc = false -> (length b < 1)%nat ->
    relay_step (mkRelay p s u (CNotify x) dc e ec b bc tp nt dom w None)
               (mkRelay p s u CCopy dc e ec (b ++ [x]) bc tp nt dom w None)
| r_notify_closed p s u dc e ec b tp nt dom w x :
    relay_step (mkRelay p s u (CNotify x) dc e ec b true tp nt dom w None)
               (mkRelay p s u (CNotify x) dc e ec b true tp nt dom w (Some SendOnClosed)).

(** Has the handler passed the wait? *)
Definition waited (p : main_pc) : bool :=
  match p with MCloseErr | MCloseByte | MEnd => true | _ => false end.
Definition off (c : copy_pc) : bool := match c with COff => true | _ => false end.
Definition in_callback (c : copy_pc) : nat := match c with CNotify _ => 1 | _ => 0 end.

Record relay_inv (s : relay_state) : Prop := mkRI {
  ri_wg : wg s = is_live_sniff (sniffer s) + is_live_copy (up s) + is_live_copy (down s);
  ri_err : (errCh s <= has_sent (up s) + has_sent (down s))%nat;
  ri_byte : (length (byteChan s) + in_callback (down s) <= (if notified s then 1 else 0))%nat;
  ri_up : in_callback (up s) = 0%nat;
  ri_start : main s = MStart -> sniffer s = SOff;
  ri_off : main s = MStart \/ main s = MSniffing -> up s = COff /\ down s = COff;
  ri_waited : waited (main s) = true -> wg s = 0;
  ri_err_closed : err_closed s = true -> waited (main s) = true;
  ri_byte_closed : byte_closed s = true -> waited (main s) = true;
  ri_done : done_closed s = true <->
    match main s with MStart | MSniffing | MSelect | MCloseDone => False | _ => True end;
  ri_crash : crashed s <> Some SendOnClosed
}.

Lemma relay_start_inv d : relay_inv (relay_start d).
Proof. split; simpl; try done; lia. Qed.

Ltac relay_solve := split; simpl in *; try done; try tauto; try lia; try (by intros [?|?]).

Lemma main_step_inv s s' : main_step s s' -> relay_inv s -> relay_inv s'.
Proof.
  intros Hs [Hw He Hb Hu Hst Hoff Hwa Hec Hbc Hd Hcr].
  destruct Hs as [| |p ? ? ? ? e ? ? ? ? ? ? ? ? Hp| | | | | | |]; simpl in *; try (relay_solve; fail).
  destruct (Hoff Hp) as [-> ->]. assert (e = 0%nat) as -> by (simpl in *; lia).
  destruct Hp as [-> | ->]; relay_solve.
Qed.

(** While a goroutine lives the handler has not passed the wait. *)
Lemma live_not_waited s :
  relay_inv s -> 0 < is_live_sniff (sniffer s) \/ 0 < is_live_copy (up s) \/ 0 < is_live_copy (down s) ->
  waited (main s) = false /\ err_closed s = false /\ byte_closed s = false.
Proof.
  intros [Hw _ _ _ _ _ Hwa Hec Hbc _ _] Hlive.
  assert (forall c, 0 <= is_live_copy c) as Hc by (by intros []).
  assert (0 <= is_live_sniff (sniffer s)) by by destruct (sniffer s).
  assert (waited (main s) = false) as E.
  { destruct (waited (main s)); [|done]. specialize (Hwa eq_refl). pose proof (Hc (up s)). pose proof (Hc (down s)). lia. }
  rewrite E in *. split; [done|]. destruct (err_closed s), (byte_closed s); naive_solver.
Qed.

Lemma sniff_step_inv s s' : sniff_step s s' -> relay_inv s -> relay_inv s'.
Proof.
  intros Hs Hi. assert (0 < is_live_sniff (sniffer s)) as Hl by by destruct Hs.
  destruct (live_not_waited s Hi (or_introl Hl)) as (Hwt & Hec' & Hbc').
  destruct Hi as [Hw He Hb Hu Hst Hoff Hwa Hec Hbc Hd Hcr].
  destruct Hs; simpl in *; subst; relay_solve; try congruence; intros E; by specialize (Hst E).
Qed.

Lemma copy_step_shape ec c e w cr c' e' w' cr' :
  copy_step ec c e w cr c' e' w' cr' -> ec = false ->
  cr' = cr /\ in_callback c' = 0%nat /\ in_callback c = 0%nat /\ w' - is_live_copy c' = w - is_live_copy c /\
  (e' + has_sent c = e + has_sent c')%nat /\ 0 < is_live_copy c /\ c' <> COff.
Proof. intros Hs Hec. destruct Hs; simpl; try congruence; split_and!; try done; lia. Qed.

Lemma relay_step_inv s s' : relay_step s s' -> relay_inv s -> relay_inv s'.
Proof.
  intros Hs Hi. destruct Hs as [s s' _ Hs|s s' _ Hs|? ? ? ? ? ? ? ? ? ? ? ? ? ? ? ? ? Hs|? ? ? ? ? ? ? ? ? ? ? ? ? ? ? ? ? Hs| | |].
  - by eapply main_step_inv.
  - by eapply sniff_step_inv.
  - simpl in *. assert (0 < is_live_copy u) as Hl by by destruct Hs.
    destruct (live_not_waited _ Hi (or_intror (or_introl Hl))) as (Hwt & Hec' & Hbc').
    destruct Hi as [Hw He Hb Hu Hst Hoff Hwa Hec Hbc Hd Hcr]. simpl in *.
    destruct (copy_step_shape _ _ _ _ _ _ _ _ _ Hs Hec') as (-> & ? & ? & ? & ? & ? & ?).
    relay_solve; try congruence. intros E. destruct (Hoff E) as [-> _]. done.
  - simpl in *. assert (0 < is_live_copy d) as Hl by by destruct Hs.
    destruct (live_not_waited _ Hi (or_intror (or_intror Hl))) as (Hwt & Hec' & Hbc').
    destruct Hi as [Hw He Hb Hu Hst Hoff Hwa Hec Hbc Hd Hcr]. simpl in *.
    destruct (copy_step_shape _ _ _ _ _ _ _ _ _ Hs Hec') as (-> & ? & ? & ? & ? & ? & ?).
    relay_solve; try congruence. intros E. destruct (Hoff E) as [_ ->]. done.
  - destruct Hi as [Hw He Hb Hu Hst Hoff Hwa Hec Hbc Hd Hcr]. relay_solve. intros E. by destruct (Hoff E).
  - destruct Hi as [Hw He Hb Hu Hst Hoff Hwa Hec Hbc Hd Hcr]. relay_solve.
    + rewrite length_app. simpl. lia.
    + intros E. by destruct (Hoff E).
  - destruct (live_not_waited _ Hi) as (_ & _ & ?); [right; right; simpl; lia|]. done.
Qed.

(** The number of steps a relay can still make. *)
Definition main_left (p : main_pc) : nat :=
  match p with
  | MStart => 30 | MSniffing => 24 | MSelect => 12 | MCloseDone => 5 | MCloseConns => 4 | MWait => 3
  | MCloseErr => 2 | MCloseByte => 1 | MEnd => 0
  end.
Definition sniff_left (s : sniff_pc) : nat :=
  match s with SOff | SEnd => 0 | SSelect => 3 | SParse _ _ => 2 | SWgDone => 1 end.
Definition copy_left (c : copy_pc) : nat :=
  match c with COff | CEnd => 0 | CCopy => 3 | CNotify _ => 4 | CSend => 2 | CWgDone => 1 end.
Definition steps_left (s : relay_state) : nat :=
  match crashed s with
  | Some _ => 0
  | None => S (main_left (main s) + sniff_left (sniffer s) + copy_left (up s) + copy_left (down s) +
               (if notified s then 0 else 2))
  end.

Lemma relay_step_decreases s s' : relay_inv s -> relay_step s s' -> (steps_left s' < steps_left s)%nat.
Proof.
  intros Hi Hs. unfold steps_left.
  destruct Hs as [s s' Hc Hs|s s' Hc Hs|? ? ? ? ? ? ? ? ? ? ? ? ? ? ? ? ? Hs|? ? ? ? ? ? ? ? ? ? ? ? ? ? ? ? ? Hs| | |];
    simpl; try lia.
  - destruct Hs as [| |p ? ? ? ? e ? ? ? ? ? ? ? ? Hp| | | | | | |]; simpl in *; rewrite Hc; simpl; try lia.
    destruct (ri_off _ Hi Hp) as [Hu Hd]. simpl in Hu, Hd. subst. destruct Hp as [-> | ->]; simpl; lia.
  - destruct Hs; simpl in *; rewrite ?Hc; simpl; lia.
  - inversion Hs; subst; simpl; lia.
  - inversion Hs; subst; simpl; lia.
Qed.

Lemma relay_reach_inv d s : rtc relay_step (relay_start d) s -> relay_inv s.
Proof.
  intros Hr. assert (forall s0, relay_inv s0 -> rtc relay_step s0 s -> relay_inv s) as Hp.
  { intros s0 Hi Hr0. induction Hr0; eauto using relay_step_inv. }
  exact (Hp _ (relay_start_inv d) Hr).
Qed.

(** A send finds its channel open and with room. *)
Lemma sends_have_room s :
  relay_inv s ->
  (forall x, down s = CNotify x -> byteChan s = [] /\ byte_closed s = false) /\
  (up s = CSend \/ down s = CSend -> (errCh s < 2)%nat /\ err_closed s = false).
Proof.
  intros Hi. split.
  - intros x Hx. destruct (live_not_waited s Hi) as (_ & _ & ->); [right; right; by rewrite Hx|].
    pose proof (ri_byte s Hi) as Hb. rewrite Hx in Hb. simpl in Hb.
    destruct (byteChan s); [done|]. simpl in Hb. destruct (notified s); lia.
  - intros Hx. destruct (live_not_waited s Hi) as (_ & -> & _); [right; destruct Hx as [-> | ->]; simpl; lia|].
    pose proof (ri_err s Hi) as He. split; [|done].
    assert (forall c, has_sent c <= 1)%nat as Hle by (intros []; simpl; lia).
    pose proof (Hle (up s)). pose proof (Hle (down s)). destruct Hx as [E|E]; rewrite E in *; simpl in *; lia.
Qed.

(** A live goroutine can make a step once [done] is closed. *)
Lemma live_progress s :
  relay_inv s -> crashed s = None -> done_closed s = true ->
  0 < is_live_sniff (sniffer s) \/ 0 < is_live_copy (up s) \/ 0 < is_live_copy (down s) ->
  exists s', relay_step s s'.
Proof.
  intros Hi Hc Hd Hl. destruct (sends_have_room s Hi) as [Hn Hs]. pose proof (ri_up s Hi) as Hu.
  destruct s as [p sn u d dc e ec b bc tp nt dom w cr]. simpl in *. subst. destruct Hl as [Hl|[Hl|Hl]].
  - destruct sn as [| |x ok| |]; try (simpl in Hl; lia).
    + eexists. apply r_sniff; [done|]. apply s_done.
    + destruct (sniff HostHeader x ok) as [r|] eqn:E; eexists; (apply r_sniff; [done|]);
        [by eapply s_store|by apply s_panic].
    + eexists. apply r_sniff; [done|]. apply s_wg.
  - destruct u; try (simpl in Hl; lia); try (simpl in Hu; lia); eexists; apply r_up;
      [apply c_ends|apply c_send; by apply Hs; left|apply c_wg].
  - destruct d as [| |x| | |]; try (simpl in Hl; lia).
    + eexists. apply r_down, c_ends.
    + destruct (Hn x eq_refl) as [-> ->]. eexists. apply r_notify; [done|simpl; lia].
    + eexists. apply r_down, c_send; by apply Hs; right.
    + eexists. apply r_down, c_wg.
Qed.

Lemma relay_progress s :
  relay_inv s -> crashed s = None -> main s <> MEnd -> exists s', relay_step s s'.
Proof.
  intros Hi Hc Hm. pose proof (ri_done s Hi) as Hd. pose proof (ri_wg s Hi) as Hw.
  pose proof (live_progress s Hi Hc) as Hlive.
  destruct s as [p sn u d dc e ec b bc tp nt dom w cr]. simpl in *. subst cr.
  destruct p; try done; try (eexists; apply r_main; [done|]; constructor; tauto).
  destruct (decide (w = 0)) as [->|Hne]; [eexists; apply r_main; [done|]; apply m_wait|].
  apply Hlive; [by apply Hd|].
  destruct sn, u, d; simpl in *; lia.
Qed.

End goroutines.

(** ** Witnesses *)
Definition no_host (buf : bytes) : result error string := Ok EmptyString.
Definition plain_request : bytes := bytes_of_str "GET / HTTP/1.1 Host: a.org".

Lemma sniffing_ignores_host_header_witness :
  sniff no_host plain_request true = Ret (Some "a.org") /\
  (Some "a.org" = sniff_text plain_request \/
   exists e m, UnmarshalByByte plain_request zero_msg = Ret (e, m) /\ ServerName m <> EmptyString /\
     Some "a.org" = Some (ServerName m)).
Proof.
  split; [vm_compute; reflexivity|].
  apply (sniffing_ignores_host_header no_host); [by intros buf h [= <-]|vm_compute; reflexivity|discriminate].
Defined.

