(* ===== verification/RelayHandler.v ===== *)
(** * The relay of a handler on its goroutines
      ([server/http_proxy_handler.go], [server/socks_proxy_handler.go],
      [server/shadowsocks_handler.go])

    [Proxy] has the handler as a program whose calls get arbitrary answers,
    [Relay] the goroutines of a relay with the handler as an automaton. Here
    the program runs against the goroutines: what it gets from [select] and
    what it reads of the domain comes from their state, and its deferred calls
    stop them. The program is shown to be the automaton, so the theorems of
    [Relay] hold of the handlers. *)
From Stdlib Require Import Strings.Byte Ascii.
From stdpp Require Import base strings list numbers relations.
From S2P Require Import Prelude GoIO Socks5 Manager ClientHello Text Program Proxy Relay.

Section relay_handler.
Context `{CryptoByte} (HostHeader : bytes -> result error string).
Abbreviation relay_step := (relay_step HostHeader).

(** ** The two together *)

(** Calls that have nothing to do with the goroutines. *)
Definition elsewhere (o : op) : bool :=
  match o with
  | Call.StartSniffing | Call.StartCopying _ | Call.Select | Call.LoadDomain | Call.IsInBlacklist _
  | Call.StopRelay | Call.CloseErrCh | Call.CloseByteChan => false
  | _ => true
  end.

(** The handler makes the step of the automaton that ends at [m]. *)
Definition moves (r : relay_state) (m : main_pc) (r' : relay_state) : Prop := main_step r r' /\ main r' = m.

Inductive handler_step : prog () * relay_state -> prog () * relay_state -> Prop :=
(** the other goroutines *)
| h_goroutine p r r' : relay_step r r' -> main r' = main r -> handler_step (p, r) (p, r')
(** the tap is installed and the sniffer started, or the tap is refused *)
| h_sniff k r r' :
    crashed r = None -> moves r MSniffing r' -> handler_step (Vis Call.StartSniffing k, r) (k None, r')
| h_no_sniff k r r' e :
    crashed r = None -> moves r MCloseDone r' -> handler_step (Vis Call.StartSniffing k, r) (k (Some e), r')
| h_copy l k r r' :
    crashed r = None -> moves r MSelect r' -> handler_step (Vis (Call.StartCopying l) k, r) (k (), r')
(** [select]: the ticker, the end of a copy, the contexts *)
| h_tick k r : crashed r = None -> handler_step (Vis Call.Select k, r) (k Tick, r)
| h_copy_ended k r r' e :
    crashed r = None -> errCh r = S (errCh r') -> moves r MCloseDone r' ->
    handler_step (Vis Call.Select k, r) (k (CopyEnded e), r')
| h_cancelled k r r' ev :
    crashed r = None -> ev = ServerDone \/ ev = UserDone -> errCh r' = errCh r -> moves r MCloseDone r' ->
    handler_step (Vis Call.Select k, r) (k ev, r')
(** the domain the sniffer has found, and what the blacklist says of it *)
| h_domain k r : crashed r = None -> handler_step (Vis Call.LoadDomain k, r) (k (domain r), r)
| h_white dm k r black : crashed r = None -> handler_step (Vis (Call.IsInBlacklist dm) k, r) (k (black, false), r)
| h_black dm k r r' black :
    crashed r = None -> errCh r' = errCh r -> moves r MCloseDone r' ->
    handler_step (Vis (Call.IsInBlacklist dm) k, r) (k (black, true), r')
(** [close(done)] and both [Close]s, then [wg.Wait()] *)
| h_stop k r r' :
    crashed r = None -> main r = MCloseDone \/ main r = MCloseConns -> main_step r r' ->
    handler_step (Vis Call.StopRelay k, r) (Vis Call.StopRelay k, r')
| h_stopped k r r' :
    crashed r = None -> main r = MWait -> main_step r r' -> handler_step (Vis Call.StopRelay k, r) (k (), r')
| h_close_err k r r' :
    crashed r = None -> moves r MCloseByte r' -> handler_step (Vis Call.CloseErrCh k, r) (k (), r')
| h_close_byte k r r' :
    crashed r = None -> moves r MEnd r' -> handler_step (Vis Call.CloseByteChan k, r) (k (), r')
| h_elsewhere o k x r : crashed r = None -> elsewhere o = true -> handler_step (Vis o k, r) (k x, r).

(** ** The program follows the automaton *)
Definition automaton (m : main_pc) (o : op) : ans o -> option main_pc :=
  match o return ans o -> option main_pc with
  | Call.AddUserConnection _ => fun _ => match m with MStart => Some MStart | _ => None end
  | Call.StartSniffing => fun x =>
      match m with MStart => Some (match x with None => MSniffing | Some _ => MCloseDone end) | _ => None end
  | Call.StartCopying _ => fun _ => match m with MStart | MSniffing => Some MSelect | _ => None end
  | Call.Select => fun x =>
      match m with MSelect => Some (match x with Tick => MSelect | _ => MCloseDone end) | _ => None end
  | Call.LoadDomain => fun _ => match m with MSelect | MCloseErr => Some m | _ => None end
  | Call.IsInBlacklist _ => fun x =>
      match m with MSelect => Some (if x.2 then MCloseDone else MSelect) | _ => None end
  | Call.PushBlackLog _ => fun _ => match m with MCloseDone => Some m | _ => None end
  | Call.StopRelay => fun _ => match m with MCloseDone => Some MCloseErr | _ => None end
  | Call.PushAccessLog _ => fun _ => match m with MCloseErr => Some m | _ => None end
  | Call.CloseErrCh => fun _ => match m with MCloseErr => Some MCloseByte | _ => None end
  | Call.CloseByteChan => fun _ => match m with MCloseByte => Some MEnd | _ => None end
  | Call.DeleteUserConnection _ _ => fun _ => match m with MEnd => Some m | _ => None end
  | _ => fun _ => None
  end.

(** Out of fuel it is in its loop; it ends after the relay, or before it when
    no context could be had. *)
Abbreviation runs := (wp automaton (fun m => m = MSelect)).
Definition ends_at (r : outcome ()) (m : main_pc) : Prop := m = MEnd \/ m = MStart.

Section program.
Context (mode : string) (fuel : nat) (key user target exitIpStr : string) (sniff : bool).
Context (u ip acc ex : string).
Definition on_black (black : string) : prog (option error) := SendBlackListAccessLogMessageData u ip black 1 acc ex.

Lemma loop_runs n : runs (relay_loop n on_black) (fun _ m => m = MCloseDone) MSelect.
Proof.
  induction n as [|n IH]; [done|]. simpl. intros ev. destruct ev; try done. intros d.
  case_bool_decide; simpl; [apply IH|]. intros [black [|]]; simpl; [done|apply IH].
Qed.

Lemma relay_runs : runs (relay mode fuel key user target exitIpStr sniff on_black) ends_at MStart.
Proof.
  simpl. intros [l|]; simpl; [|by right]. apply prog_wp_defer, prog_wp_defer, prog_wp_defer, prog_wp_defer.
  eapply prog_wp_mono with (Q := fun _ m => m = MCloseDone).
  - assert (forall m, m = MStart \/ m = MSniffing ->
      runs (_ ← call (Call.StartCopying l); relay_loop fuel on_black) (fun _ m => m = MCloseDone) m) as Hcopy.
    { intros m Hm. apply prog_wp_bind. simpl. intros _. destruct Hm as [-> | ->]; apply loop_runs. }
    destruct sniff; [|apply Hcopy; by left]. simpl. intros [e|]; [done|]. apply (Hcopy MSniffing). by right.
  - intros r m ->. simpl. intros _ d. case_bool_decide; simpl; [destruct (Split target ":"%char)|]; simpl; intros _ _ _ x; destruct x as [[]|]; by left.
Qed.
End program.

(** ** The simulation *)

(** The program stands where the automaton does, or in [StopRelay] while the
    automaton takes its three steps. *)
Definition in_step (p : prog ()) (m : main_pc) : Prop :=
  exists q, runs p ends_at q /\
    (m = q \/ q = MCloseDone /\ (m = MCloseConns \/ m = MWait) /\ exists k, p = Vis Call.StopRelay k).

Lemma moves_step r m r' : crashed r = None -> moves r m r' -> relay_step r r'.
Proof. intros Hc [Hm _]. by apply r_main. Qed.

Lemma stop_step r r' :
  main_step r r' -> (main r = MCloseDone -> main r' = MCloseConns) /\ (main r = MCloseConns -> main r' = MWait) /\
  (main r = MWait -> main r' = MCloseErr).
Proof. intros Hs. destruct Hs as [| |p ? ? ? ? ? ? ? ? ? ? ? ? ? Hp| | | | | | |]; simpl; split_and!; try done; by destruct Hp as [-> | ->]. Qed.

(** A step of the program is a step of the automaton or none. *)
Lemma handler_step_simulates p r p' r' :
  handler_step (p, r) (p', r') -> in_step p (main r) ->
  rtc relay_step r r' /\ in_step p' (main r').
Proof.
  intros Hs (q & Hp & Hq).
  inversion Hs as [? ? ? Hr Em|? ? ? Hc Hm|? ? ? ? Hc Hm|? ? ? ? Hc Hm|? ? Hc|? ? ? ? Hc He Hm|? ? ? ? Hc Hev He Hm|
    ? ? Hc|? ? ? ? Hc|? ? ? ? ? Hc He Hm|? ? ? Hc Hpc Hm|? ? ? Hc Hpc Hm|? ? ? Hc Hm|? ? ? Hc Hm|? ? ? ? Hc Ho]; subst.
  - split; [by apply rtc_once|]. rewrite Em. by exists q.
  - split; [by eapply rtc_once, moves_step|]. destruct Hm as [_ ->]. specialize (Hp None). simpl in Hp.
    destruct q; try done. eexists. split; [exact Hp|by left].
  - split; [by eapply rtc_once, moves_step|]. destruct Hm as [_ ->]. specialize (Hp (Some e)). simpl in Hp.
    destruct q; try done. eexists. split; [exact Hp|by left].
  - split; [by eapply rtc_once, moves_step|]. destruct Hm as [_ ->]. specialize (Hp ()). simpl in Hp.
    destruct q; try done; (eexists; split; [exact Hp|by left]).
  - split; [apply rtc_refl|]. specialize (Hp Tick). simpl in Hp. destruct q; try done.
    destruct Hq as [Hq|[? _]]; [|done]. eexists. split; [exact Hp|by left].
  - split; [by eapply rtc_once, moves_step|]. destruct Hm as [_ ->]. specialize (Hp (CopyEnded e)). simpl in Hp.
    destruct q; try done. eexists. split; [exact Hp|by left].
  - split; [by eapply rtc_once, moves_step|]. destruct Hm as [_ ->]. specialize (Hp ev). simpl in Hp.
    destruct q; try done. eexists. split; [exact Hp|]. left. by destruct Hev as [-> | ->].
  - split; [apply rtc_refl|]. specialize (Hp (domain r')). simpl in Hp.
    destruct Hq as [Hq|(-> & _)]; [|done]. destruct q; try done; (eexists; split; [exact Hp|by left]).
  - split; [apply rtc_refl|]. specialize (Hp (black, false)). simpl in Hp.
    destruct Hq as [Hq|(-> & _)]; [|done]. destruct q; try done; (eexists; split; [exact Hp|by left]).
  - split; [by eapply rtc_once, moves_step|]. destruct Hm as [_ ->]. specialize (Hp (black, true)). simpl in Hp.
    destruct q; try done. eexists. split; [exact Hp|by left].
  - split; [by apply rtc_once, r_main|]. exists q. split; [done|]. destruct (stop_step _ _ Hm) as (H1 & H2 & _).
    assert (q = MCloseDone) as -> by (specialize (Hp ()); simpl in Hp; by destruct q).
    right. split; [done|]. split; [|eauto]. destruct Hpc as [E|E]; auto.
  - split; [by apply rtc_once, r_main|]. destruct (stop_step _ _ Hm) as (_ & _ & H3). rewrite (H3 Hpc).
    specialize (Hp ()). simpl in Hp. destruct q; try done. eexists. split; [exact Hp|by left].
  - split; [by eapply rtc_once, moves_step|]. destruct Hm as [_ ->]. specialize (Hp ()). simpl in Hp.
    destruct q; try done. eexists. split; [exact Hp|by left].
  - split; [by eapply rtc_once, moves_step|]. destruct Hm as [_ ->]. specialize (Hp ()). simpl in Hp.
    destruct q; try done. eexists. split; [exact Hp|by left].
  - split; [apply rtc_refl|]. specialize (Hp x). simpl in Hp.
    destruct Hq as [->|(_ & _ & k' & E)]; [|by injection E as ->].
    destruct o; try done; destruct q; try done; (eexists; split; [exact Hp|by left]).
Qed.

Lemma handler_run_simulates s s' :
  rtc handler_step s s' -> in_step s.1 (main s.2) -> rtc relay_step s.2 s'.2 /\ in_step s'.1 (main s'.2).
Proof.
  induction 1 as [s|[p r] [p1 r1] s' Hs _ IH]; intros Hi; [split; [apply rtc_refl|done]|].
  destruct (handler_step_simulates _ _ _ _ Hs Hi) as [Hr Hi1]. destruct (IH Hi1). split; [by etrans|done].
Qed.

(** ** It ends, and it can always go on *)

Definition no_goroutine (r : relay_state) : Prop :=
  is_live_sniff (sniffer r) = 0 /\ is_live_copy (up r) = 0 /\ is_live_copy (down r) = 0.

Lemma ended_alone r m : relay_inv r -> ends_at (Ret ()) m -> main r = m -> no_goroutine r.
Proof.
  intros Hi He Hm. unfold no_goroutine. destruct He as [-> | ->].
  - pose proof (ri_waited r Hi) as Hw. rewrite Hm in Hw. specialize (Hw eq_refl).
    rewrite (ri_wg r Hi) in Hw. destruct (sniffer r), (up r), (down r); simpl in *; lia.
  - destruct (ri_off r Hi (or_introl Hm)) as [-> ->]. by rewrite (ri_start r Hi Hm).
Qed.

(** While the handler waits for a goroutine, only the goroutines move. *)
Lemma waiting_main r r' : relay_step r r' -> main r = MWait -> wg r <> 0 -> main r' = MWait.
Proof.
  intros Hs Hm Hw. destruct Hs as [r r' _ Hs|r r' _ Hs| | | | |]; simpl in *; try done.
  - destruct Hs as [| |p ? ? ? ? ? ? ? ? ? ? ? ? ? Hp| | | | | | |]; simpl in *; try done. by destruct Hp as [-> | ->].
  - by destruct Hs.
Qed.

Lemma stop_progress_relay k r :
  relay_inv r -> crashed r = None -> main r = MCloseDone \/ main r = MCloseConns \/ main r = MWait ->
  exists s', handler_step (Vis Call.StopRelay k, r) s'.
Proof.
  intros Hi Hc Hm. pose proof (ri_done r Hi) as Hd. pose proof (ri_wg r Hi) as Hw.
  pose proof (live_progress HostHeader r Hi Hc) as Hlive. pose proof (waiting_main r) as Hwait.
  destruct r as [p sn u d dc e ec b bc tp nt dom w cr]. simpl in *.
  destruct Hm as [->|[->| ->]].
  - eexists. eapply h_stop; [done|by left|apply m_close_done].
  - eexists. eapply h_stop; [done|by right|apply m_close_conns].
  - destruct (decide (w = 0)) as [->|Hne]; [eexists; eapply h_stopped; [done|done|apply m_wait]|].
    destruct Hlive as [r' Hr]; [by apply Hd|destruct sn, u, d; simpl in *; lia|].
    eexists. apply h_goroutine; [exact Hr|]. by apply Hwait.
Qed.

Lemma handler_progress p r :
  relay_inv r -> crashed r = None -> in_step p (main r) -> (forall x, p <> Done x) -> p <> Running ->
  exists s', handler_step (p, r) s'.
Proof.
  intros Hi Hc (q & Hp & Hq) Hd Hrun. destruct p as [x| |o k]; [by destruct (Hd x)|done|].
  destruct (elsewhere o) eqn:Eo; [eexists; by eapply (h_elsewhere o k (some_ans o))|].
  destruct o; try done; simpl in Hp.
  - eexists. by apply (h_white _ _ _ EmptyString).
  - specialize (Hp None). destruct q; try done. destruct Hq as [Hq|[? _]]; [|done].
    destruct r as [m sn u d dc e ec b bc tp nt dom w cr]. simpl in *. subst.
    eexists. eapply (h_no_sniff _ _ _ EOF); [done|]. split; [apply m_sniff_fails|done].
  - specialize (Hp ()). destruct Hq as [Hq|(-> & _)]; [|done].
    destruct r as [m sn u d dc e ec b bc tp nt dom w cr]. simpl in *. subst.
    eexists. eapply h_copy; [done|]. split; [apply m_copy; destruct q; try done; auto|done].
  - eexists. by apply h_tick.
  - eexists. by apply h_domain.
  - apply stop_progress_relay; [done..|]. specialize (Hp ()). destruct q; try done. destruct Hq as [->|(_ & Hq & _)]; auto.
  - specialize (Hp ()). destruct Hq as [Hq|(-> & _)]; [|done].
    destruct r as [m sn u d dc e ec b bc tp nt dom w cr]. simpl in *. subst. destruct q; try done.
    eexists. eapply h_close_err; [done|]. split; [apply m_close_err|done].
  - specialize (Hp ()). destruct Hq as [Hq|(-> & _)]; [|done].
    destruct r as [m sn u d dc e ec b bc tp nt dom w cr]. simpl in *. subst. destruct q; try done.
    eexists. eapply h_close_byte; [done|]. split; [apply m_close_byte|done].
Qed.

(** The program has got an answer. *)
Definition goes_on (p p' : prog ()) : Prop := match p with Vis o k => exists x, p' = k x | _ => False end.

(** Every step takes the program on or uses up a step of the goroutines. *)
Lemma handler_step_down p r p' r' :
  handler_step (p, r) (p', r') -> relay_inv r -> relay_inv r' /\
  (goes_on p p' \/ p' = p /\ (steps_left r' < steps_left r)%nat).
Proof.
  intros Hs Hi.
  assert (forall r', relay_step r r' -> relay_inv r' /\ (steps_left r' < steps_left r)%nat) as Hr.
  { intros r1 Hr. split; [by eapply relay_step_inv|by eapply relay_step_decreases]. }
  assert (forall m r', crashed r = None -> moves r m r' -> relay_inv r') as Hm.
  { intros m r1 Hc Hm. by apply Hr, (moves_step r m). }
  inversion Hs; subst; try (split; [by eauto|left; by eexists]).
  - destruct (Hr _ ltac:(eassumption)). auto.
  - destruct (Hr r') as [? ?]; [by apply r_main|]. auto.
  - destruct (Hr r') as [? ?]; [by apply r_main|]. split; [done|]. left. by exists ().
Qed.

Lemma handler_Acc p r : relay_inv r -> Acc (fun b a => handler_step a b) (p, r).
Proof.
  revert r. induction p as [x| |o k IH]; intros r Hi; remember (steps_left r) as n eqn:En; revert r Hi En;
    induction (lt_wf n) as [n _ IHn]; intros r Hi ->; constructor; intros [p' r'] Hs;
    (destruct (handler_step_down _ _ _ _ Hs Hi) as [Hi' [Hn|[-> Hlt]]]; [|by eapply IHn]).
  - by destruct Hn.
  - by destruct Hn.
  - destruct Hn as [x ->]. by apply IH.
Qed.

End relay_handler.

(** ** Witness: a client is relayed, and the server stops *)
Definition demo_relay : prog () :=
  relay "ipv4" 1 "bob" "bob" "a.org:443" "10.0.0.1" false (on_black "bob" "pw" "bob" "10.0.0.1").

(** The handler is in its loop with both copies running. *)
Lemma demo_relaying :
  exists k r, rtc (handler_step no_host) (demo_relay, relay_start "a.org") (Vis Call.Select k, r) /\
    up r = CCopy /\ down r = CCopy /\ crashed r = None.
Proof.
  eexists _, _. split_and!.
  - eapply rtc_l; [apply (h_elsewhere no_host (Call.AddUserConnection "bob") _ (Ret xH)); reflexivity|].
    simpl. eapply rtc_l; [apply (h_copy no_host xH); [reflexivity|split; [apply m_copy; by left|reflexivity]]|].
    simpl. apply rtc_refl.
  - reflexivity.
  - reflexivity.
  - reflexivity.
Qed.

